(* ===== verification/_CoqProject ===== *)
-Q . S2P
Prelude.v
CStd.v
Request.v
Parsing.v
ParseTests.v
FsTypes.v
FsMonad.v
FileSystem.v
FsTree.v
FsSpec.v
FsLogic.v
FsTraverse.v
FsStored.v
FsCorrect.v
FsExample.v
FsCreate.v
FsDelete.v
FsServer.v
FsInit.v
FsFace.v
FsTable.v
FsShared.v
FsLocks.v
FsLink.v
FsAtomic.v
FsCrab.v
FsAtomicFile.v
FsAtomicCreate.v
FsAtomicDelete.v
FsPool.v
FsConcurrent.v
Networking.v
Listen.v
Server.v
ThreadTypes.v
ThreadMonad.v
ThreadLib.v
ThreadMachine.v
ThreadInv.v
ThreadLogic.v
ThreadSound.v
ThreadMoves.v
ThreadSteps.v
ThreadReady.v
ThreadOps.v
ThreadCalls.v
ThreadWait.v
ThreadCreate.v
ThreadEntry.v
ThreadBoot.v
ThreadCorrect.v
PagerTypes.v
Pager.v
PagerInv.v
PagerPtes.v
PagerFrame.v
PagerEvict.v
PagerPlace.v
PagerCheck.v
PagerView.v
PagerWork.v
PagerReturn.v
PagerFault.v
PagerCow.v
PagerVmFault.v
PagerName.v
PagerAttach.v
PagerMap.v
PagerCreate.v
PagerDestroy.v
PagerSpec.v
PagerRefine.v
PagerMmu.v
PagerRun.v
PagerExample.v
PagerCorrect.v
