(* ===== verification/Prelude.v ===== *)
(** * A verification development for os-from-scratch

    The repository holds three programs: a network file server (the root of
    [src/]), a thread library ([src/thread_library]) and a pager
    ([src/pager_library]).  They are independent of each other, and so are their
    models: the files from CStd to Server, the Thread files and the Pager files;
    all build on this file.

    ** The file server

    A client connects, sends one request as text, and gets an answer.  The
    connection's thread reads the header ([handle_connection], networking.cpp),
    parses it ([parse_request], parsing.cpp) and runs the handler of the request
    ([execute_request], filesystem.cpp), which walks a path on the disk with
    hand-over-hand reader/writer locks ([traverse_fs]), and reads or changes
    inodes, directory blocks and data blocks.  The threads share the disk, the
    list of free blocks and a table of weak pointers to the locks of the blocks.

    Files, in order:

    - Prelude (this file): characters and bytes, hint databases, tactics, lemmas
      on strings and lists;
    - CStd: what the sources use of the C++ standard library: strings, [getline],
      [stoul], [to_string], [strcpy], [strcmp], exceptions;
    - Request: request.h and fs_param.h: the requests, their text, what a
      well-formed request is;
    - Parsing: parsing.cpp: [split] and [parse_request], with the exceptions;
      ParseTests: the cases of parse_tests.cpp;
    - FsTypes: fs_server.h: inodes and direntries with their byte layout
      ([OnDisk], [OnDiskLaws]), the disk as an interface ([Disk], [DiskLaws]: the
      code of the disk is a library);
    - FsMonad: the handlers' effects on the shared state ([fsE]), programs of
      effects ([prog]), their execution ([exec], [run]), the reader/writer lock as
      an interface ([SharedMutex], [SharedMutexLaws]: boost), the table of locks
      with the reference counts of the [shared_ptr]s;
    - FileSystem: filesystem.cpp, statement by statement: [traverse_fs], the four
      handlers, [execute_request], [fs_init], [check_disk_blocks_synced].  Moves
      and destructors of locks and pointers are explicit, in the order C++ runs
      them;
    - FsTree: the abstract state, a tree of files and directories labelled with
      their blocks; [stored d t], a disk stores a tree; [resolve t path], what a
      client sees at a path; [walk], who may reach what; updates at a path;
    - FsSpec: the four requests on trees ([spec_request]), their effect path by
      path, when they succeed, and that they keep every block used exactly once or
      free ([fsys_ok]);
    - FsLogic: a program logic for handlers that run alone ([triple]), which hides
      the table of locks behind the set of live locks and their holders;
    - FsTraverse: [find_entry] and [traverse_fs] compute [walk], change nothing and
      end holding the lock of the node found and no other;
    - FsStored, FsCorrect, FsCreate, FsDelete: each handler implements its
      specification; [fs_inv], the invariant of the server between requests;
    - FsExample: a formatted disk and some requests, for the witnesses;
    - FsServer: the theorems on requests handled alone: refinement, sequences of
      requests, the effect of each handler path by path, access control, creation
      undone by deletion, uniqueness of the abstraction;
    - FsInit: [fs_init] ends on every disk and computes the free blocks; the
      self-check of the sources duplicates the free list;
    - FsFace: what the holder of a node's lock knows of the tree ([face_of]);
      FsTable: the table of locks with many owners ([table_ok]); FsShared: what each
      thread owns, as tokens, and the invariant of the shared state ([shared]);
      FsLocks, FsLink: how the operations on locks, free blocks and the tree change
      the tokens;
    - FsAtomic: a program logic for handlers that run among others ([cwp]); FsCrab:
      [traverse_fs] in it; FsAtomicFile, FsAtomicCreate, FsAtomicDelete: each handler
      is right in it ([handled]);
    - FsPool: the machine of all requests being handled ([step]), the machine in
      which each takes effect at once ([atomic]), and the simulation between them
      ([sim]); FsConcurrent: the theorems on every interleaving;
    - Networking: networking.cpp: one connection, for every behaviour of the
      client, with [recv] as an interface ([Socket], [SocketLaws]);
    - Listen: [server_connect] and [get_port_number], with the calls of the
      operating system as an interface ([Sockets], [SocketsLaws]);
    - Server: [main] of fs_server.cpp and [server_listen]: the server from its start
      on, a thread for each connection ([server_step]).

    ** What the theorems on the file server say

    A state of the server satisfies [fs_inv t s] when its disk stores the tree
    [t], every block of the disk is used once by [t] or is once in the free list,
    and no lock is live.  [fs_init] establishes it on a formatted disk; every
    handler, run from such a state on a request the parser can return, ends
    without a fault, without waiting and with no lock left, in such a state, with
    the result and the tree of [spec_request]; the specification is then read as a
    statement on paths.  A fault is an assertion of the sources or of the disk, an
    index out of range, a [strcpy] that does not fit, a null pointer, an unlock of
    a lock that is not held, the destruction of a held lock, or an uncaught
    exception: that none happens is part of each theorem.

    The handlers are programs of effects, so the same definitions also run among
    other threads.  Every run of any number of requests, each of whose threads
    makes its next effect whenever it is scheduled, has the calls and answers of a
    run of [atomic], where a request takes effect at once between its call and its
    return, by [spec_request] (FsConcurrent.requests_atomic); no thread has a fault;
    two threads are never about to access a block that one of them writes; some
    thread can always make a step; and the requests end under every schedule.  The
    specification of a request gets the blocks that are neither in the tree nor in
    the hands of other requests, which have [held_max] each at most, so that a
    creation or a write beside other requests may fail for lack of space where
    alone it would not.  The proof gives each thread tokens for the pointers to
    locks, the locks and the blocks it has; a node that is locked keeps its face,
    and a request takes effect at the one write that links or unlinks blocks, or
    where its answer becomes certain.  Server.server_correct adds the connections
    and the start of the server.

    ** The thread library

    Threads run on several CPUs with interrupts.  All CPUs share one ready queue,
    the list of CPUs and the queues of mutexes, condition variables and threads,
    under one guard, a spin lock taken with the interrupts disabled.  A thread that
    must wait swaps its context into a queue and the next ready one onto its CPU
    ([swap_self_to_queue]); a CPU with nothing to run sleeps until another sends
    it an interrupt ([watch_suspend], [check_ready_and_wake]).

    - ThreadTypes: managed_uc.h, cpu.h, mutex.h, cv.h, thread.h: the shared objects
      as one record [lib] and the accesses to them ([libop]);
    - ThreadMonad, ThreadLib: cpu.cpp, mutex.cpp, cv.cpp and thread.cpp statement by
      statement, as programs of actions ([Cpu], [Mutex], [Cv], [Thread], [Boot]);
    - ThreadMachine: the documented behaviour of cpu.h and the [ucontext] functions
      as a step function [step] on machines with any number of CPUs; a label is the
      action of a CPU, an interrupt, a failing allocation or a call of the most
      general client, so that a list of labels is a schedule;
    - ThreadInv: the invariant of the shared objects when the guard is free
      ([lib_ok]); ThreadMoves, ThreadSteps, ThreadReady: how it is kept;
    - ThreadLogic, ThreadSound: a step-indexed logic for the programs ([ok]) and its
      soundness over all schedules; ThreadOps, ThreadCalls, ThreadWait, ThreadCreate,
      ThreadEntry, ThreadBoot: every function is right in the logic, and so every
      reachable state ([reachable_ok]);
    - ThreadCorrect: mutual exclusion; that no run fails an assertion, uses a
      dangling pointer or a stack twice; the owner of each context; what [join]
      waits for; the guard is held for a bounded number of steps and released; no
      wake-up is lost once all CPUs have booted, and one that is lost before.

    ** The pager

    Each process has an arena of virtual pages, private ones backed by the swap
    file or blocks of files.  The pager keeps a table of entries per process, which
    the MMU reads, and moves pages between memory and files: a load or store that
    its entry does not allow calls [vm_fault].  A new process shares the pages of
    its parent until one of them writes; unwritten pages share page 0; the clock
    algorithm picks the page that leaves memory.

    - PagerTypes: vm_arena.h, Page.h, the global variables of vm_pager.cpp, the heap
      of pages and tables as one record [pager]; the files as an interface
      ([Files], [FilesLaws]), the order in which an [unordered_map] is traversed
      as another ([Traversal], [TraversalLaws]);
    - Pager: Page.cpp and vm_pager.cpp, function by function, the self-check
      included;
    - PagerInv: the invariant between calls ([consistent]), in parts; PagerPtes,
      PagerFrame: what keeps which part; PagerEvict, PagerPlace: the clock, eviction
      and [give_new_ppn]; PagerCheck: the self-check passes;
    - PagerView: what a process sees ([view], [same]); PagerWork, PagerReturn,
      PagerFault, PagerCow, PagerVmFault: [vm_fault] keeps it and enables the access;
      PagerName: the file names [vm_map] reads in the arena; PagerAttach, PagerMap,
      PagerCreate, PagerDestroy: the other functions;
    - PagerSpec: the abstract machine: arenas of private pages and file blocks, no
      memory and no sharing of private pages ([spec_step]), the loads and stores of
      the MMU, the requests ([exec]);
    - PagerRefine, PagerMmu, PagerRun: [represents], and that each request, and each
      run from [vm_init], follows the specification;
    - PagerExample: a concrete run for the witnesses;
    - PagerCorrect: refinement, whole runs, the self-check, isolation of processes,
      copies of arenas, loads after stores, the second chance of the clock, file
      names; how a file block that cannot be read leaves its page in no map, and a run
      in which the pager aborts when it becomes readable.

    The theorems ask of the caller what vm_pager.h implies ([allowed]): new
    processes have new identifiers, calls of the current process come while one
    runs, addresses of loads and stores lie in the arena; and two pages of memory
    at least and 2^20 at most.  They take the files to be those of [FilesLaws], which
    asks more than vm_pager.h in two points.  Only writing changes what is read, so
    that the set of blocks that can be read is constant; PagerCorrect.orphan_page and
    orphan_abort show how the pager fails when a block becomes readable after a fault
    on it has failed, which vm_pager.h allows.  And different names are different
    files, so that a file is not mapped under two names.

    ** Bounds and fuel

    [split] takes the length of the text as fuel, [stoul] and [to_string] the
    number of characters and digits (proved enough in CStd and Parsing);
    [read_header] takes 159 iterations, one more than the longest header
    (Networking.read_header_spec); [initial_traverse_helper] takes 4097 nested
    calls, since each nested call has put one more of the 4095 blocks other than
    the root into the set of used blocks, and a call on a block out of range fails
    at once (FsInit.helper_ends).  [held_max] is the number of data blocks
    a file can have and two more: a deletion has the data, the inode and one emptied
    block of direntries in its hands (FsAtomicDelete.leaf_blocks_few).  Sizes, block numbers and indices are [Z];
    the conversions to [uint32_t] are written with [to_uint32].

    Programs of the thread library are infinite: the logic is indexed by steps, and
    [cs_bound] bounds the steps a CPU makes with the guard, linearly in the numbers
    of CPUs and contexts.  Identifiers of contexts wrap at 2^32; theorems that need
    them distinct say so ([no_wrap]).

    [find_victim] takes the length of the clock and one more (PagerEvict: each turn
    clears the bit of another page); [filename_fuel] is the size of the arena and
    one more (PagerName: the arena ends); [vm_fault] calls itself once at most.
    The numbers of physical pages are kept in 20 bits ([mod 2 ^ 20]); the memory is
    taken to have no more pages.  The count in the self-check wraps at 2^64.

    ** Not modelled

    Of the file server: [printf], [perror] and the other output to the console; an
    [accept] that fails, which changes nothing; failures to allocate memory or to
    create a thread.  Each effect of
    [exec] is one step of a thread: an access to the free list or to the table of
    locks, which the code makes under a mutex of its own, an operation of a
    reader/writer lock, or an access to one block of the disk.  The reader/writer
    locks promise no fairness: some thread can always make a step, and no
    request waits forever once no new ones arrive, but nothing is said of a writer
    that a stream of new readers keeps waiting.  The indeterminate contents of the new inode of [FS_CREATE]
    are a parameter ([junk]).  [strcmp] and [std::string] from a character array
    without a NUL read past its end in C++; here they see the whole array.

    Of the thread library: cpu.h stands for an infrastructure that is not in the
    repository, and is modelled by its documentation; the move operations are
    declared and not defined in the sources.

    Of the pager: the failure of [new]; assertions the sources have commented out.

    The test programs and the client header: clients of libraries that are not in
    the repository. *)

From stdpp Require Export base tactics numbers list gmap strings.
From stdpp Require Export ssreflect.
From Stdlib Require Export ZArith Lia.
From Stdlib Require Ascii String.

(** Keep the stdpp conventions, but never the [Program]-style obligations. *)
#[export] Set Warnings "-rewrite-rw,-clear-no-such-hyp".
#[export] Set Default Goal Selector "!".
#[global] Open Scope Z_scope.

(** ** Scope, byte and character notations *)

Declare Scope os_scope.
Delimit Scope os_scope with os.
#[global] Open Scope os_scope.

(** A byte of the C++ program ([char], [unsigned char]). *)
Abbreviation byte := Ascii.ascii.
(** The content of a fixed-size buffer or of a disk block. *)
Abbreviation bytes := (list Ascii.ascii).

(** The character codes the sources use as delimiters. *)
Definition NUL : byte := Ascii.zero.
Definition SPACE : byte := Ascii.ascii_of_nat 32.
Definition SLASH : byte := Ascii.ascii_of_nat 47.
Definition MINUS : byte := Ascii.ascii_of_nat 45.
Definition PLUS : byte := Ascii.ascii_of_nat 43.

Abbreviation to_bytes := String.list_ascii_of_string.
Abbreviation of_bytes := String.string_of_list_ascii.

#[export] Instance ascii_inhabited : Inhabited Ascii.ascii := populate NUL.

(** ** Hint databases

    [os] holds the component lemmas that close side conditions by resolution;
    [osrw] the rewriting rules of the encodings and of the updates. *)
Create HintDb os discriminated.
Create Rewrite HintDb osrw.

(** ** Tactics *)

(** Let [lia] reason about division and modulo by constants. *)
Ltac Zify.zify_post_hook ::= Z.to_euclidean_division_equations.

(** Split boolean tests of the code into propositions. *)
Ltac reflect_bools :=
  repeat match goal with
  | H : (_ && _)%bool = true |- _ => apply andb_true_iff in H; destruct H
  | H : (_ || _)%bool = false |- _ => apply orb_false_iff in H; destruct H
  | H : negb _ = true |- _ => apply negb_true_iff in H
  | H : negb _ = false |- _ => apply negb_false_iff in H
  | H : bool_decide _ = true |- _ => apply bool_decide_eq_true in H
  | H : bool_decide _ = false |- _ => apply bool_decide_eq_false in H
  | H : Z.ltb _ _ = true |- _ => apply Z.ltb_lt in H
  | H : Z.ltb _ _ = false |- _ => apply Z.ltb_ge in H
  | H : Z.leb _ _ = true |- _ => apply Z.leb_le in H
  | H : Z.leb _ _ = false |- _ => apply Z.leb_gt in H
  | H : Z.eqb _ _ = true |- _ => apply Z.eqb_eq in H
  | H : Z.eqb _ _ = false |- _ => apply Z.eqb_neq in H
  | H : String.eqb _ _ = true |- _ => apply String.eqb_eq in H
  | H : String.eqb _ _ = false |- _ => apply String.eqb_neq in H
  | H : Ascii.eqb _ _ = true |- _ => apply Ascii.eqb_eq in H
  | H : Ascii.eqb _ _ = false |- _ => apply Ascii.eqb_neq in H
  end.

(** Destruct the scrutinee of the innermost [match]/[if] of the goal, naming the
    equation, and clean up. *)
Ltac case_goal :=
  match goal with
  | |- context [if ?b then _ else _] => destruct b eqn:?
  | |- context [match ?x with _ => _ end] => destruct x eqn:?
  end; simplify_eq/=.

Ltac case_hyp H :=
  match type of H with
  | context [if ?b then _ else _] => destruct b eqn:?
  | context [match ?x with _ => _ end] => destruct x eqn:?
  end; simplify_eq/=.

(** Prove a decidable closed fact by evaluating its decision procedure. *)
Ltac by_decide := refine (bool_decide_unpack _ _); vm_compute; exact I.

(** ** Strings as lists of characters *)

#[export] Instance to_bytes_inj : Inj (=) (=) to_bytes.
Proof.
  intros s t H.
  by rewrite -(String.string_of_list_ascii_of_string s) H
    String.string_of_list_ascii_of_string.
Qed.

Lemma to_bytes_cons c s : to_bytes (String c s) = c :: to_bytes s.
Proof. done. Qed.

Lemma string_cons_app c s t : String c s +:+ t = String c (s +:+ t).
Proof. done. Qed.

Lemma to_bytes_app s t : to_bytes (s +:+ t) = to_bytes s ++ to_bytes t.
Proof.
  induction s as [|c s IH]; [done|].
  by rewrite string_cons_app !to_bytes_cons IH.
Qed.

Lemma string_nil_app t : "" +:+ t = t.
Proof. done. Qed.

Lemma string_app_assoc s t u : (s +:+ t) +:+ u = s +:+ (t +:+ u).
Proof. apply (inj to_bytes). rewrite !to_bytes_app. by rewrite assoc. Qed.

Lemma string_app_nil_r s : s +:+ "" = s.
Proof. apply (inj to_bytes). rewrite to_bytes_app. apply app_nil_r. Qed.

Lemma length_to_bytes s : length (to_bytes s) = String.length s.
Proof. induction s as [|c s IH]; [done|]. cbn. by f_equal. Qed.

Lemma string_length_app s t :
  String.length (s +:+ t) = (String.length s + String.length t)%nat.
Proof. by rewrite -!length_to_bytes to_bytes_app length_app. Qed.

#[export] Hint Rewrite to_bytes_app to_bytes_cons length_to_bytes
  string_length_app : osrw.

(** ** Lists *)

(** An element with the greatest measure. *)
Lemma greatest_elem {A} (f : A → nat) (l : list A) x :
  x ∈ l → ∃ y, y ∈ l ∧ ∀ z, z ∈ l → (f z ≤ f y)%nat.
Proof.
  revert x. induction l as [|a l IH]; intros x; [by intros ?%not_elem_of_nil|]. intros _.
  destruct l as [|b l].
  { exists a. split; [apply elem_of_cons; by left|]. by intros z ->%list_elem_of_singleton. }
  destruct (IH b) as (y & Hy & Hmax); [apply elem_of_cons; by left|].
  destruct (Nat.le_gt_cases (f a) (f y)) as [Ha|Ha].
  - exists y. split; [apply elem_of_cons; by right|]. intros z [->|Hz]%elem_of_cons; [done|by apply Hmax].
  - exists a. split; [apply elem_of_cons; by left|]. intros z [->|Hz]%elem_of_cons; [done|].
    specialize (Hmax z Hz). lia.
Qed.

Lemma elem_of_concat {A} (x : A) (ls : list (list A)) :
  x ∈ concat ls ↔ ∃ l, x ∈ l ∧ l ∈ ls.
Proof.
  rewrite list_elem_of_In in_concat. split; intros (l & H1 & H2); exists l;
    by rewrite ?list_elem_of_In in H1 H2 |- *.
Qed.
