(* ===== verification/CStd.v ===== *)
(** * The part of the C++ standard library the sources use

    [std::string] is [string]; a [char] array is a list of bytes.  Lengths and
    indices of the program are [Z].  The library functions modelled here are
    the ones the sources call: [std::string::at], [std::getline] on an
    [std::istringstream], [std::stoul], [atoi], [std::to_string], [strcmp]
    and [strcpy].  Exceptions are values of [except]. *)

From S2P Require Import Prelude.
From Stdlib Require Ascii String.

(** ** Exceptions *)

Inductive exn := out_of_range | invalid_argument.

#[export] Instance exn_eq_dec : EqDecision exn.
Proof. solve_decision. Defined.

(** A computation that returns or throws. *)
Inductive except (A : Type) : Type :=
  | Returns (a : A)
  | Throws (e : exn).
Arguments Returns {A} a.
Arguments Throws {A} e.

#[export] Instance except_ret : MRet except := @Returns.
#[export] Instance except_bind : MBind except := fun A B k m =>
  match m with
  | Returns a => k a
  | Throws e => Throws e
  end.

(** [try { m } catch (std::invalid_argument&) { return h; }] *)
Definition catch_invalid_argument {A} (m : except A) (h : A) : except A :=
  match m with
  | Throws invalid_argument => Returns h
  | _ => m
  end.

(** ** [std::string] *)

Definition size (s : string) : Z := Z.of_nat (String.length s).

(** [s.at(i)] throws [std::out_of_range] for an index past the end. *)
Definition at_ (s : string) (i : nat) : except byte :=
  match String.get i s with
  | Some c => Returns c
  | None => Throws out_of_range
  end.

(** [s.back()] and [s.front()]; the sources call them on non-empty strings. *)
Fixpoint back (s : string) : option byte :=
  match s with
  | EmptyString => None
  | String c EmptyString => Some c
  | String _ s' => back s'
  end.

Definition front (s : string) : option byte := String.get 0 s.

(** Membership of a character. *)
Definition has_char (c : byte) (s : string) : Prop := c ∈ to_bytes s.

#[export] Instance has_char_dec c s : Decision (has_char c s).
Proof. unfold has_char. apply _. Defined.

(** ** C strings *)

(** What a [char const*] into the list of bytes [a] denotes: the bytes before
    the first NUL.  (An array that holds no NUL denotes all of it here; the
    invariants of the components that own arrays exclude that case.) *)
Fixpoint c_str (a : bytes) : string :=
  match a with
  | [] => EmptyString
  | c :: a' => if Ascii.eqb c NUL then EmptyString else String c (c_str a')
  end.

(** Conversion of a C string literal or of [s.c_str()] back to a
    [std::string]: it stops at the first NUL of [s]. *)
Definition cut_nul (s : string) : string := c_str (to_bytes s).

(** [strcmp(a, b) == 0] *)
Definition strcmp_eq (a b : string) : bool := String.eqb a b.

(** [strcpy(dst, src)]: the characters of [src] and a NUL overwrite the front
    of [dst].  [None] is the out-of-bounds write when they do not fit. *)
Definition strcpy (dst : bytes) (src : string) : option bytes :=
  let s := to_bytes src ++ [NUL] in
  if decide (length s ≤ length dst)%nat
  then Some (s ++ drop (length s) dst)
  else None.

(** ** [std::getline] on an [std::istringstream] *)

(** The stream: [Some rest] is good with [rest] unread, [None] has [eofbit] set. *)
Abbreviation stream := (option string).

(** The characters before the first [delim], and the stream after it: the
    delimiter is consumed; reaching the end of the text sets [eofbit]. *)
Fixpoint extract (delim : byte) (s : string) : string * stream :=
  match s with
  | EmptyString => (EmptyString, None)
  | String c s' =>
      if Ascii.eqb c delim then (EmptyString, Some s')
      else let '(tok, st) := extract delim s' in (String c tok, st)
  end.

(** [getline(stream, s, delim)]: [None] is a failed extraction ([failbit]):
    either the stream had [eofbit] set, or it ended before any character. *)
Definition getline (delim : byte) (st : stream) : option (string * stream) :=
  match st with
  | None => None
  | Some EmptyString => None
  | Some s => Some (extract delim s)
  end.

(** ** [std::stoul] and [atoi] *)

Definition ULONG_MAX : Z := 2 ^ 64 - 1.

(** [isspace] in the C locale. *)
Definition isspace (c : byte) : bool :=
  let n := Ascii.nat_of_ascii c in
  (n =? 32)%nat || ((9 <=? n)%nat && (n <=? 13)%nat).

Definition digit_value (c : byte) : option Z :=
  let n := Z.of_nat (Ascii.nat_of_ascii c) in
  if (48 <=? n) && (n <=? 57) then Some (n - 48) else None.

Fixpoint skip_spaces (s : string) : string :=
  match s with
  | String c s' => if isspace c then skip_spaces s' else s
  | EmptyString => s
  end.

(** The value of the longest prefix of decimal digits, after [acc]. *)
Fixpoint read_digits (s : string) (acc : Z) : Z :=
  match s with
  | String c s' =>
      match digit_value c with
      | Some d => read_digits s' (10 * acc + d)
      | None => acc
      end
  | EmptyString => acc
  end.

Definition read_sign (s : string) : bool * string :=
  match s with
  | String c s' =>
      if Ascii.eqb c MINUS then (true, s')
      else if Ascii.eqb c PLUS then (false, s') else (false, s)
  | EmptyString => (false, s)
  end.

Definition starts_with_digit (s : string) : bool :=
  match s with
  | String c _ => match digit_value c with Some _ => true | None => false end
  | EmptyString => false
  end.

(** [std::stoul(s)] in base 10: leading white space and a sign are accepted,
    whatever follows the digits is ignored, a negative number is reduced modulo
    [ULONG_MAX + 1]. *)
Definition stoul (s : string) : except Z :=
  let '(neg, ds) := read_sign (skip_spaces s) in
  if negb (starts_with_digit ds) then Throws invalid_argument
  else
    let v := read_digits ds 0 in
    if ULONG_MAX <? v then Throws out_of_range
    else Returns (if neg then (- v) mod 2 ^ 64 else v).

(** [atoi(s)]: 0 without digits; undefined for a value that is not an [int]. *)
Definition atoi (s : string) : option Z :=
  let '(neg, ds) := read_sign (skip_spaces s) in
  let v := if neg then - read_digits ds 0 else read_digits ds 0 in
  if (- 2 ^ 31 <=? v) && (v <? 2 ^ 31) then Some v else None.

(** Conversion of an [unsigned long] to [uint32_t]. *)
Definition to_uint32 (v : Z) : Z := v mod 2 ^ 32.

(** ** [std::to_string] on a [uint32_t] *)

Definition digit_char (d : Z) : byte := Ascii.ascii_of_nat (Z.to_nat (48 + d)).

Fixpoint digits_go (fuel : nat) (n : Z) (acc : string) : string :=
  match fuel with
  | O => acc
  | S fuel' =>
      let acc' := String (digit_char (n mod 10)) acc in
      if n <? 10 then acc' else digits_go fuel' (n / 10) acc'
  end.

(** A [uint32_t] has at most 10 decimal digits. *)
Definition to_string (n : Z) : string := digits_go 10 n EmptyString.
#[global] Arguments to_string : simpl never.
#[global] Arguments size : simpl never.

(** ** Facts about the library functions *)

Lemma has_char_nil c : ¬ has_char c "".
Proof. apply not_elem_of_nil. Qed.

Lemma has_char_cons c d s : has_char c (String d s) ↔ c = d ∨ has_char c s.
Proof. unfold has_char. rewrite to_bytes_cons. apply elem_of_cons. Qed.

Lemma has_char_app c s t : has_char c (s +:+ t) ↔ has_char c s ∨ has_char c t.
Proof. unfold has_char. rewrite to_bytes_app. apply elem_of_app. Qed.

Lemma size_app s t : size (s +:+ t) = size s + size t.
Proof. unfold size. rewrite string_length_app. lia. Qed.

Lemma size_cons c s : size (String c s) = 1 + size s.
Proof. unfold size. cbn [String.length]. lia. Qed.

Lemma size_nil : size "" = 0.
Proof. done. Qed.

Lemma size_nonneg s : 0 ≤ size s.
Proof. unfold size. lia. Qed.

Lemma c_str_no_nul a : ¬ has_char NUL (c_str a).
Proof.
  induction a as [|c a IH]; cbn; [apply has_char_nil|].
  destruct (Ascii.eqb_spec c NUL) as [->|Hc]; [apply has_char_nil|].
  rewrite has_char_cons. intros [?|?]; [by subst|by apply IH].
Qed.

Lemma c_str_app s a : ¬ has_char NUL s → c_str (to_bytes s ++ NUL :: a) = s.
Proof.
  induction s as [|c s IH]; cbn; [done|].
  rewrite has_char_cons. intros Hs.
  destruct (Ascii.eqb_spec c NUL) as [->|Hc]; [naive_solver|].
  f_equal. apply IH. naive_solver.
Qed.

Lemma cut_nul_id s : ¬ has_char NUL s → cut_nul s = s.
Proof.
  unfold cut_nul. induction s as [|c s IH]; cbn; [done|].
  rewrite has_char_cons. intros Hs.
  destruct (Ascii.eqb_spec c NUL) as [->|Hc]; [naive_solver|].
  f_equal. apply IH. naive_solver.
Qed.

Lemma cut_nul_no_nul s : ¬ has_char NUL (cut_nul s).
Proof. apply c_str_no_nul. Qed.

(** [strcpy] of a string that fits writes it and keeps the array's length. *)
Lemma strcpy_fits dst src :
  size src < Z.of_nat (length dst) → is_Some (strcpy dst src).
Proof.
  unfold strcpy, size. intros H. case_decide as Hd; [by eexists|].
  destruct Hd. rewrite length_app length_to_bytes. cbn. lia.
Qed.

Lemma strcpy_c_str dst src a :
  strcpy dst src = Some a → ¬ has_char NUL src → c_str a = src.
Proof.
  unfold strcpy. case_decide; [|done]. intros [= <-] Hn.
  rewrite -app_assoc. by apply c_str_app.
Qed.

Lemma strcpy_length dst src a : strcpy dst src = Some a → length a = length dst.
Proof.
  unfold strcpy. case_decide as H; [|done]. intros [= <-].
  rewrite length_app length_drop. lia.
Qed.

(** [extract] returns the text up to the delimiter. *)
Lemma extract_spec d s tok st :
  extract d s = (tok, st) →
  ¬ has_char d tok ∧
  s = match st with Some r => tok +:+ String d r | None => tok end.
Proof.
  revert tok st. induction s as [|c s IH]; cbn; intros tok st.
  - intros [= <- <-]. split; [apply has_char_nil|done].
  - destruct (Ascii.eqb_spec c d) as [->|Hc].
    { intros [= <- <-]. split; [apply has_char_nil|done]. }
    destruct (extract d s) as [tok' st'] eqn:He. intros [= <- <-].
    destruct (IH tok' st' eq_refl) as [Hd ->].
    rewrite has_char_cons. split; [by intros [?|?]; subst|]. by destruct st'.
Qed.

Lemma extract_delim d tok r :
  ¬ has_char d tok → extract d (tok +:+ String d r) = (tok, Some r).
Proof.
  induction tok as [|c tok IH]; intros Hd.
  - rewrite string_nil_app. cbn. by rewrite Ascii.eqb_refl.
  - rewrite has_char_cons in Hd. rewrite string_cons_app. cbn.
    destruct (Ascii.eqb_spec c d) as [->|]; [tauto|].
    rewrite IH; [done|tauto].
Qed.

Lemma extract_eof d tok : ¬ has_char d tok → extract d tok = (tok, None).
Proof.
  induction tok as [|c tok IH]; intros Hd; [done|].
  rewrite has_char_cons in Hd. cbn.
  destruct (Ascii.eqb_spec c d) as [->|]; [tauto|].
  rewrite IH; [done|tauto].
Qed.

(** ** Decimal numbers: [std::stoul] inverts [std::to_string] *)

Definition is_digit (c : byte) : Prop := is_Some (digit_value c).

Lemma digit_value_char d : 0 ≤ d < 10 → digit_value (digit_char d) = Some d.
Proof.
  intros Hd.
  assert (d ∈ seqZ 0 10) as Hin by (apply elem_of_seqZ; lia).
  clear Hd. revert d Hin. apply Forall_forall. repeat constructor.
Qed.

Lemma digit_char_inj d d' : 0 ≤ d < 10 → 0 ≤ d' < 10 → digit_char d = digit_char d' → d = d'.
Proof.
  intros Hd Hd' He. apply (f_equal digit_value) in He.
  rewrite !digit_value_char // in He. by injection He.
Qed.

Lemma is_digit_char n : is_digit (digit_char (n mod 10)).
Proof. eexists. apply digit_value_char, Z.mod_pos_bound. lia. Qed.

Lemma is_digit_no_space c : is_digit c → isspace c = false.
Proof.
  unfold is_digit, digit_value, isspace. intros [v Hv].
  destruct (_ && _)%bool eqn:Hc; [|done]. reflect_bools.
  destruct (Nat.eqb_spec (Ascii.nat_of_ascii c) 32); [lia|].
  destruct (Nat.leb_spec (Ascii.nat_of_ascii c) 13); [lia|].
  by rewrite andb_false_r.
Qed.

Lemma is_digit_neq c b : digit_value b = None → is_digit c → c ≠ b.
Proof. intros Hb [v Hv] ->. congruence. Qed.

(** The digits written in front of [acc]: [k] of them, with value [n]. *)
Lemma read_digits_go fuel n acc a :
  0 ≤ n < 10 ^ Z.of_nat fuel →
  ∃ k, 0 ≤ k ∧ read_digits (digits_go fuel n acc) a = read_digits acc (a * 10 ^ k + n).
Proof.
  revert n acc a. induction fuel as [|fuel IH]; intros n acc a Hn; cbn [digits_go].
  { cbn in Hn. exists 0. replace n with 0 by lia. split; [lia|]. f_equal. lia. }
  rewrite Nat2Z.inj_succ Z.pow_succ_r in Hn; [|lia].
  pose proof (digit_value_char (n mod 10)) as Hdig.
  destruct (Z.ltb_spec n 10) as [Hlt|Hge].
  - exists 1. split; [lia|]. cbn. rewrite Hdig; [|lia]. f_equal.
    rewrite Z.mod_small; lia.
  - destruct (IH (n / 10) (String (digit_char (n mod 10)) acc) a) as (k & Hk & ->).
    { split; [apply Z.div_pos; lia|]. apply Z.div_lt_upper_bound; lia. }
    exists (Z.succ k). split; [lia|]. cbn. rewrite Hdig; [|lia]. f_equal.
    rewrite Z.pow_succ_r; [|lia]. pose proof (Z.div_mod n 10). lia.
Qed.

Lemma to_string_digits n c : has_char c (to_string n) → is_digit c.
Proof.
  unfold to_string. generalize 10%nat as fuel. intros fuel.
  enough (∀ acc, (∀ c, has_char c acc → is_digit c) →
                 has_char c (digits_go fuel n acc) → is_digit c) as H.
  { apply H. intros d Hd. by apply has_char_nil in Hd. }
  revert n. induction fuel as [|fuel IH]; intros n acc Hacc; cbn [digits_go]; [by auto|].
  assert (∀ d, has_char d (String (digit_char (n mod 10)) acc) → is_digit d) as Hacc'.
  { intros d. rewrite has_char_cons. intros [->|?]; [apply is_digit_char|by auto]. }
  destruct (n <? 10); [by auto|]. by apply IH.
Qed.

(** The first digit is not zero unless the number is. *)
Lemma digits_go_head fuel n acc :
  0 < n < 10 ^ Z.of_nat fuel →
  ∃ d s, digits_go fuel n acc = String (digit_char d) s ∧ 0 < d < 10.
Proof.
  revert n acc. induction fuel as [|fuel IH]; intros n acc Hn; cbn [digits_go].
  { cbn in Hn. lia. }
  rewrite Nat2Z.inj_succ Z.pow_succ_r in Hn; [|lia].
  destruct (Z.ltb_spec n 10) as [Hlt|Hge].
  - exists n, acc. rewrite Z.mod_small; [|lia]. split; [done|lia].
  - apply IH. split; [apply Z.div_str_pos; lia|]. apply Z.div_lt_upper_bound; lia.
Qed.

Lemma digits_go_size fuel n acc (k : nat) :
  0 ≤ n < 10 ^ Z.of_nat k → (0 < k)%nat →
  size (digits_go fuel n acc) ≤ size acc + Z.of_nat k.
Proof.
  revert n acc k. induction fuel as [|fuel IH]; intros n acc k Hn Hk; cbn [digits_go]; [lia|].
  destruct (Z.ltb_spec n 10) as [Hlt|Hge].
  - rewrite size_cons. lia.
  - destruct k as [|k]; [lia|]. rewrite Nat2Z.inj_succ Z.pow_succ_r in Hn; [|lia].
    destruct k as [|k]; [cbn in Hn; lia|].
    etrans; [apply (IH _ _ (S k)); [|lia]|rewrite size_cons; lia].
    split; [apply Z.div_pos; lia|]. apply Z.div_lt_upper_bound; lia.
Qed.

(** [to_string] of a [uint32_t] starts with a digit, '0' only for zero. *)
Lemma to_string_head n :
  0 ≤ n < 2 ^ 32 →
  ∃ d s, to_string n = String (digit_char d) s ∧ 0 ≤ d < 10 ∧ (d = 0 → s = "" ∧ n = 0).
Proof.
  intros Hn. destruct (decide (n = 0)) as [->|Hn0].
  { by exists 0, "". }
  destruct (digits_go_head 10 n "") as (d & s & He & Hd).
  { change (10 ^ Z.of_nat 10) with 10000000000. lia. }
  exists d, s. split; [done|]. split; lia.
Qed.

Lemma stoul_to_string n : 0 ≤ n < 2 ^ 32 → stoul (to_string n) = Returns n.
Proof.
  intros Hn. destruct (to_string_head n Hn) as (d & s & He & Hd & _).
  assert (read_digits (to_string n) 0 = n) as Hread.
  { destruct (read_digits_go 10 n "" 0) as (k & _ & Hk).
    { change (10 ^ Z.of_nat 10) with 10000000000. lia. }
    unfold to_string. rewrite Hk. cbn. lia. }
  pose proof (digit_value_char d Hd) as Hdig.
  assert (is_digit (digit_char d)) as Hisd by by eexists.
  unfold stoul. rewrite He. cbn [skip_spaces]. rewrite is_digit_no_space; [|done].
  cbn [read_sign].
  rewrite !(proj2 (Ascii.eqb_neq _ _)); [|by apply is_digit_neq..].
  cbn [starts_with_digit]. rewrite Hdig. cbn [negb]. rewrite -He Hread.
  destruct (Z.ltb_spec ULONG_MAX n) as [H|_]; [unfold ULONG_MAX in H; lia|done].
Qed.
