(* ===== verification/Request.v ===== *)
(** * The requests of the file server ([src/request.h], [src/fs_param.h])

    The four request structs, the variant over them, their textual form
    [request_string], and the well-formedness every parsed request has. *)

From S2P Require Import Prelude CStd.

(** ** [src/fs_param.h] *)

Definition FS_BLOCKSIZE : Z := 512.
Definition FS_MAXFILEBLOCKS : Z := 124.
Definition FS_MAXFILENAME : Z := 59.
Definition FS_MAXPATHNAME : Z := 128.
Definition FS_MAXUSERNAME : Z := 10.

(** ** [src/request.h] *)

(** [using Path = vector<string>]: the list of directories. *)
Abbreviation Path := (list string).

Record FS_READBLOCK := mk_READBLOCK {
  rd_username : string;
  rd_path : Path;
  rd_block : Z }.

(** [wr_data] is the [shared_ptr] to the payload; [None] is the null pointer. *)
Record FS_WRITEBLOCK := mk_WRITEBLOCK {
  wr_username : string;
  wr_path : Path;
  wr_block : Z;
  wr_data : option bytes }.

Record FS_CREATE := mk_CREATE {
  cr_username : string;
  cr_path : Path;
  cr_type : byte }.

Record FS_DELETE := mk_DELETE {
  de_username : string;
  de_path : Path }.

(** [std::variant<FS_READBLOCK, FS_WRITEBLOCK, FS_CREATE, FS_DELETE>] *)
Inductive Request :=
  | Req_READBLOCK (r : FS_READBLOCK)
  | Req_WRITEBLOCK (r : FS_WRITEBLOCK)
  | Req_CREATE (r : FS_CREATE)
  | Req_DELETE (r : FS_DELETE).

#[export] Instance FS_READBLOCK_eq_dec : EqDecision FS_READBLOCK.
Proof. solve_decision. Defined.
#[export] Instance FS_WRITEBLOCK_eq_dec : EqDecision FS_WRITEBLOCK.
Proof. solve_decision. Defined.
#[export] Instance FS_CREATE_eq_dec : EqDecision FS_CREATE.
Proof. solve_decision. Defined.
#[export] Instance FS_DELETE_eq_dec : EqDecision FS_DELETE.
Proof. solve_decision. Defined.
#[export] Instance Request_eq_dec : EqDecision Request.
Proof. solve_decision. Defined.

Fixpoint path_to_string (path : Path) : string :=
  match path with
  | [] => ""
  | node :: path' => ("/" +:+ node) +:+ path_to_string path'
  end.

Definition request_string_READBLOCK (r : FS_READBLOCK) : string :=
  "FS_READBLOCK " +:+ rd_username r +:+ " " +:+ path_to_string (rd_path r)
  +:+ " " +:+ to_string (rd_block r).

Definition request_string_WRITEBLOCK (r : FS_WRITEBLOCK) : string :=
  "FS_WRITEBLOCK " +:+ wr_username r +:+ " " +:+ path_to_string (wr_path r)
  +:+ " " +:+ to_string (wr_block r).

Definition request_string_CREATE (r : FS_CREATE) : string :=
  "FS_CREATE " +:+ cr_username r +:+ " " +:+ path_to_string (cr_path r)
  +:+ " " +:+ String (cr_type r) "".

Definition request_string_DELETE (r : FS_DELETE) : string :=
  "FS_DELETE " +:+ de_username r +:+ " " +:+ path_to_string (de_path r).

(** [std::visit] over the variant. *)
Definition request_string (r : Request) : string :=
  match r with
  | Req_READBLOCK r => request_string_READBLOCK r
  | Req_WRITEBLOCK r => request_string_WRITEBLOCK r
  | Req_CREATE r => request_string_CREATE r
  | Req_DELETE r => request_string_DELETE r
  end.

Definition req_username (r : Request) : string :=
  match r with
  | Req_READBLOCK r => rd_username r
  | Req_WRITEBLOCK r => wr_username r
  | Req_CREATE r => cr_username r
  | Req_DELETE r => de_username r
  end.

Definition req_path (r : Request) : Path :=
  match r with
  | Req_READBLOCK r => rd_path r
  | Req_WRITEBLOCK r => wr_path r
  | Req_CREATE r => cr_path r
  | Req_DELETE r => de_path r
  end.

(** ** Well-formed requests

    What the parser guarantees of a request, and what the handlers rely on. *)

Definition type_file : byte := Ascii.ascii_of_nat 102. (* 'f' *)
Definition type_dir : byte := Ascii.ascii_of_nat 100.  (* 'd' *)

(** A word of the message: no delimiter and no NUL in it. *)
Definition word_ok (s : string) : Prop := ¬ has_char NUL s ∧ ¬ has_char SPACE s.

Definition username_ok (u : string) : Prop :=
  word_ok u ∧ size u ≤ FS_MAXUSERNAME.

Definition filename_ok (n : string) : Prop :=
  word_ok n ∧ ¬ has_char SLASH n ∧ size n ≤ FS_MAXFILENAME.

(** The name after the last slash is never empty. *)
Definition last_nonempty (p : Path) : Prop := last p ≠ Some "".

Definition path_ok (p : Path) : Prop :=
  Forall filename_ok p ∧ last_nonempty p ∧ size (path_to_string p) ≤ FS_MAXPATHNAME.

Definition request_args_ok (r : Request) : Prop :=
  match r with
  | Req_READBLOCK r => 0 ≤ rd_block r ≤ FS_MAXFILEBLOCKS
  | Req_WRITEBLOCK r => 0 ≤ wr_block r ≤ FS_MAXFILEBLOCKS
  | Req_CREATE r => cr_type r = type_file ∨ cr_type r = type_dir
  | Req_DELETE _ => True
  end.

Definition request_ok (r : Request) : Prop :=
  username_ok (req_username r) ∧ path_ok (req_path r) ∧ request_args_ok r.

#[export] Instance request_args_ok_dec r : Decision (request_args_ok r).
Proof. destruct r; apply _. Defined.

#[export] Instance filename_ok_dec n : Decision (filename_ok n).
Proof. apply _. Defined.

#[export] Instance request_ok_dec r : Decision (request_ok r).
Proof.
  unfold request_ok, username_ok, path_ok, last_nonempty, word_ok. apply _.
Defined.

(** The longest header: the command, the separators, the fields at their
    limits, three digits and the NUL ([src/networking.h], [MAX_HEADER_SIZE]). *)
Definition MAX_HEADER_SIZE : Z :=
  13 + 1 + FS_MAXUSERNAME + 1 + FS_MAXPATHNAME + 1 + 3 + 1.

Lemma to_string_size n : 0 ≤ n ≤ FS_MAXFILEBLOCKS → size (to_string n) ≤ 3.
Proof.
  unfold FS_MAXFILEBLOCKS. intros Hn.
  etrans; [apply (digits_go_size 10 n "" 3); [change (10 ^ Z.of_nat 3) with 1000|]; lia|done].
Qed.

Lemma request_string_size r :
  request_ok r → size (request_string r) + 1 ≤ MAX_HEADER_SIZE.
Proof.
  intros ([_ Hu] & (_ & _ & Hp) & Hargs). unfold MAX_HEADER_SIZE.
  destruct r as [[u p b]|[u p b d]|[u p t]|[u p]]; cbn in *;
    unfold request_string_READBLOCK, request_string_WRITEBLOCK, request_string_CREATE,
      request_string_DELETE; cbn; rewrite !size_app;
    try (pose proof (to_string_size b Hargs));
    repeat match goal with |- context [size ?s] =>
      lazymatch s with String _ _ => rewrite size_cons end end;
    rewrite ?size_nil.
  all: lia.
Qed.

(** C20: a header fits the buffer: the text of every well-formed request and
    its terminating NUL take at most MAX_HEADER_SIZE bytes. *)
Theorem request_string_fits r :
  request_ok r → size (request_string r) + 1 ≤ MAX_HEADER_SIZE.
Proof. apply request_string_size. Qed.

Lemma request_string_fits_witness :
  request_ok (Req_DELETE (mk_DELETE "rwchua" ["caen"; "tetris"])) ∧
  size (request_string (Req_DELETE (mk_DELETE "rwchua" ["caen"; "tetris"]))) + 1
    ≤ MAX_HEADER_SIZE.
Proof.
  assert (request_ok (Req_DELETE (mk_DELETE "rwchua" ["caen"; "tetris"]))) as H.
  { by_decide. }
  split; [exact H|]. exact (request_string_fits _ H).
Defined.
