(* ===== verification/Parsing.v ===== *)
(** * Parsing of request headers ([src/parsing.cpp])

    [split] over [getline], [parse_request] with its exceptions, and the proofs
    of the component: [split] inverts joining, every accepted request is well
    formed, printing a well-formed request and parsing it gives it back, and
    exactly which messages make the parser throw. *)

From S2P Require Import Prelude CStd Request.

(** ** [split] *)

(** [while (getline(stream, s, delimeter)) out.push_back(s);] with the vector
    returned instead of pushed to; [fuel] bounds the iterations. *)
Fixpoint split_loop (fuel : nat) (delimeter : byte) (st : stream) : list string :=
  match fuel with
  | O => []
  | S fuel' =>
      match getline delimeter st with
      | None => []
      | Some (s, st') => s :: split_loop fuel' delimeter st'
      end
  end.

(** Each successful [getline] consumes a character, so the length of the text
    is enough fuel ([split_fuel_enough] below). *)
Definition split (msg : string) (delimeter : byte) : list string :=
  let text := cut_nul msg in
  split_loop (S (String.length text)) delimeter (Some text).

(** ** [parse_request] *)

(** The block number of a READBLOCK or WRITEBLOCK: the body of the [try] block
    up to the construction of the request; [None] is [return {}]. *)
Definition parse_block (tok : string) : except (option Z) :=
  c ← at_ tok 0;
  if Ascii.eqb c (Ascii.ascii_of_nat 48) && negb (size tok =? 1) then Returns None
  else
    v ← stoul tok;
    let block := to_uint32 v in
    if FS_MAXFILEBLOCKS <? block then Returns None
    else Returns (Some block).

(** The checks on [tokens[2]]: [true] when it is accepted as a path. *)
Definition path_token_ok (tok : string) : except bool :=
  c ← at_ tok 0;
  if negb (Ascii.eqb c SLASH)
     || (bool_decide (back tok = Some SLASH) && negb (size tok =? 1))
  then Returns false
  else Returns (negb (FS_MAXPATHNAME <? size tok)).

(** [tokens[2].c_str() + 1] *)
Definition c_str_plus_1 (s : string) : string :=
  match s with
  | EmptyString => EmptyString
  | String _ s' => s'
  end.

(** The dispatch on the command and on the number of tokens; [args] are the
    tokens after the path. *)
Definition parse_command (cmd username : string) (path : Path) (args : list string)
    : except (option Request) :=
  match args with
  | [tok3] =>
      if String.eqb cmd "FS_READBLOCK" then
        catch_invalid_argument
          (b ← parse_block tok3;
           Returns (block ← b;
                    Some (Req_READBLOCK (mk_READBLOCK username path block))))
          None
      else if String.eqb cmd "FS_WRITEBLOCK" then
        catch_invalid_argument
          (b ← parse_block tok3;
           Returns (block ← b;
                    Some (Req_WRITEBLOCK (mk_WRITEBLOCK username path block None))))
          None
      else if String.eqb cmd "FS_CREATE" then
        if negb (String.eqb tok3 "f") && negb (String.eqb tok3 "d") then Returns None
        else Returns (t ← front tok3; Some (Req_CREATE (mk_CREATE username path t)))
      else Returns None
  | [] =>
      if String.eqb cmd "FS_DELETE"
      then Returns (Some (Req_DELETE (mk_DELETE username path)))
      else Returns None
  | _ => Returns None
  end.

Definition parse_request (msg : string) : except (option Request) :=
  match split msg SPACE with
  | cmd :: username :: tok2 :: args =>
      if FS_MAXUSERNAME <? size username then Returns None
      else
        path_ok ← path_token_ok tok2;
        if negb path_ok then Returns None
        else
          let path := split (c_str_plus_1 tok2) SLASH in
          if existsb (fun n => FS_MAXFILENAME <? size n) path then Returns None
          else parse_command cmd username path args
  | _ => Returns None
  end.

(** ** [split] is the inverse of joining with the delimiter *)

(** The reference: words separated by the delimiter. *)
Fixpoint join (d : byte) (toks : list string) : string :=
  match toks with
  | [] => ""
  | [tok] => tok
  | tok :: toks' => tok +:+ String d (join d toks')
  end.

Lemma split_loop_fuel fuel fuel' d text :
  (String.length text < fuel)%nat → (String.length text < fuel')%nat →
  split_loop fuel d (Some text) = split_loop fuel' d (Some text).
Proof.
  revert fuel' text. induction fuel as [|fuel IH]; intros [|fuel'] text H H'; try lia.
  destruct text as [|c text]; [done|]. cbn [split_loop getline].
  destruct (extract d (String c text)) as [tok st] eqn:He.
  destruct (extract_spec _ _ _ _ He) as [_ Hs].
  f_equal. destruct st as [r|]; [|by destruct fuel, fuel'].
  apply (f_equal String.length) in Hs. rewrite string_length_app in Hs.
  cbn in Hs, H, H'. apply IH; lia.
Qed.

Definition split_text (d : byte) (text : string) : list string :=
  split_loop (S (String.length text)) d (Some text).

Lemma split_eq msg d : split msg d = split_text d (cut_nul msg).
Proof. done. Qed.

Lemma split_text_delim d tok r :
  ¬ has_char d tok → split_text d (tok +:+ String d r) = tok :: split_text d r.
Proof.
  intros Hd. rewrite {1}/split_text. cbn [split_loop].
  assert (getline d (Some (tok +:+ String d r)) = Some (tok, Some r)) as ->.
  { rewrite -(extract_delim d tok r Hd). destruct tok; done. }
  f_equal. apply split_loop_fuel; [|lia]. rewrite string_length_app. cbn. lia.
Qed.

Lemma split_text_last d tok :
  ¬ has_char d tok → tok ≠ "" → split_text d tok = [tok].
Proof.
  intros Hd Hne. unfold split_text. cbn [split_loop].
  assert (getline d (Some tok) = Some (tok, None)) as ->.
  { rewrite -(extract_eof d tok Hd). by destruct tok. }
  by destruct tok.
Qed.

(** Induction on a text, one word at a time. *)
Lemma delim_ind d (P : string → Prop) :
  P "" →
  (∀ tok r, ¬ has_char d tok → P r → P (tok +:+ String d r)) →
  (∀ tok, ¬ has_char d tok → tok ≠ "" → P tok) →
  ∀ s, P s.
Proof.
  intros Hnil Hdelim Hlast s. remember (String.length s) as n eqn:Hn.
  revert s Hn. induction (lt_wf n) as [n _ IH]. intros s ->.
  destruct (extract d s) as [tok st] eqn:He.
  destruct (extract_spec _ _ _ _ He) as [Hd Hs]. destruct st as [r|]; subst s.
  - apply Hdelim; [done|]. eapply IH; [|done].
    rewrite string_length_app. cbn. lia.
  - destruct (decide (tok = "")) as [->|Hne]; [done|]. by apply Hlast.
Qed.

Lemma split_text_tokens d s tok : tok ∈ split_text d s → ¬ has_char d tok.
Proof.
  revert tok. pattern s. apply (delim_ind d); clear s.
  - by intros tok ?%not_elem_of_nil.
  - intros t r Ht IH tok. rewrite split_text_delim; [|done].
    intros [->|?]%elem_of_cons; [done|by apply IH].
  - intros t Ht Hne tok. rewrite split_text_last; [|done..].
    by intros ->%list_elem_of_singleton.
Qed.

Lemma split_text_chars d c s tok :
  tok ∈ split_text d s → has_char c tok → has_char c s.
Proof.
  revert tok. pattern s. apply (delim_ind d); clear s.
  - by intros tok ?%not_elem_of_nil.
  - intros t r Ht IH tok. rewrite split_text_delim; [|done].
    rewrite has_char_app has_char_cons.
    intros [->|?]%elem_of_cons ?; [by left|right; right; by eapply IH].
  - intros t Ht Hne tok. rewrite split_text_last; [|done..].
    by intros ->%list_elem_of_singleton.
Qed.

Lemma join_cons d tok toks :
  toks ≠ [] → join d (tok :: toks) = tok +:+ String d (join d toks).
Proof. by destruct toks. Qed.

Lemma split_text_join d toks :
  Forall (λ tok, ¬ has_char d tok) toks → last toks ≠ Some "" →
  split_text d (join d toks) = toks.
Proof.
  induction toks as [|tok toks IH]; intros Hd Hlast; [done|].
  apply Forall_cons in Hd as [Hd Hds].
  destruct toks as [|tok' toks].
  { apply split_text_last; [done|]. intros ->. by apply Hlast. }
  rewrite join_cons; [|done]. rewrite split_text_delim; [|done].
  f_equal. apply IH; [done|]. by rewrite last_cons_cons in Hlast.
Qed.

(** The words of a text, joined, are the text up to one final delimiter. *)
Lemma join_split_text d s :
  s = join d (split_text d s) ∨ s = join d (split_text d s) +:+ String d "".
Proof.
  pattern s. apply (delim_ind d); clear s.
  - by left.
  - intros tok r Hd IH. rewrite split_text_delim; [|done].
    destruct (decide (split_text d r = [])) as [Hnil|Hne].
    + rewrite Hnil in IH |- *. cbn in IH |- *. right.
      destruct IH as [->| ->]; [done|].
      (* a lone delimiter is a word of its own *)
      exfalso. clear -Hnil. revert Hnil.
      rewrite (split_text_delim d "" ""); [done|apply has_char_nil].
    + rewrite join_cons; [|done]. rewrite string_app_assoc string_cons_app.
      destruct IH as [IH|IH]; [left|right]; by rewrite {1}IH.
  - intros tok Hd Hne. left. by rewrite split_text_last.
Qed.

(** ** The path token *)

Lemma back_app s c t : back (s +:+ String c t) = back (String c t).
Proof.
  induction s as [|c' s IH]; [done|]. rewrite string_cons_app -IH.
  destruct s; done.
Qed.

Lemma back_app_ne s t : t ≠ "" → back (s +:+ t) = back t.
Proof. destruct t; [done|]. intros _. apply back_app. Qed.

Lemma split_text_nil_inv d s : split_text d s = [] → s = "".
Proof.
  pattern s. apply (delim_ind d); clear s; [done|..].
  - intros tok r Hd _. by rewrite split_text_delim.
  - intros tok Hd Hne. by rewrite split_text_last.
Qed.

(** A text that does not end with the delimiter has no empty last word. *)
Lemma split_text_last_nonempty d s :
  back s ≠ Some d → last (split_text d s) ≠ Some "".
Proof.
  pattern s. apply (delim_ind d); clear s; [done|..].
  - intros tok r Hd IH Hback. rewrite split_text_delim; [|done].
    destruct (split_text d r) as [|x l] eqn:Hr.
    + apply split_text_nil_inv in Hr as ->. by rewrite back_app in Hback.
    + rewrite last_cons_cons. apply IH. destruct r as [|c r]; [done|].
      by rewrite back_app in Hback.
  - intros tok Hd Hne _. rewrite split_text_last; [|done..]. cbn. congruence.
Qed.

Lemma join_split_exact d s : back s ≠ Some d → join d (split_text d s) = s.
Proof.
  intros Hb. destruct (join_split_text d s) as [H|H]; [done|].
  exfalso. apply Hb. rewrite H. by rewrite back_app.
Qed.

Lemma path_to_string_join p :
  p ≠ [] → path_to_string p = String SLASH (join SLASH p).
Proof.
  induction p as [|n p IH]; [done|]. intros _. cbn [path_to_string].
  destruct p as [|n' p]; [cbn; by rewrite string_app_nil_r|].
  rewrite IH; [|done]. rewrite (join_cons _ n); [|done]. by rewrite string_app_assoc.
Qed.

(** What the check on [tokens[2]] accepts: a slash, and then a text that does
    not end with a slash. *)
Lemma path_token_ok_true tok :
  path_token_ok tok = Returns true ↔
  ∃ rest, tok = String SLASH rest ∧ back rest ≠ Some SLASH ∧ size tok ≤ FS_MAXPATHNAME.
Proof.
  unfold path_token_ok. destruct tok as [|c rest].
  { split; [done|]. by intros (rest & ? & _). }
  cbn [at_ String.get mbind except_bind]. rewrite size_cons.
  destruct (Ascii.eqb_spec c SLASH) as [->|Hc]; cbn [negb orb].
  2: { split; [done|]. intros (rest' & ? & _). congruence. }
  destruct (_ && _)%bool eqn:Hb.
  - reflect_bools. split; [done|]. intros (rest' & [= <-] & Hb & _). destruct Hb.
    destruct rest as [|c' rest]; [by rewrite size_nil in H0|done].
  - split.
    + intros [= Ht]. reflect_bools. exists rest. split_and!; [done| |lia].
      intros Hs. apply andb_false_iff in Hb as [Hb|Hb]; reflect_bools.
      * destruct Hb. by destruct rest.
      * destruct rest as [|c' rest]; [done|]. rewrite size_cons in Hb.
        pose proof (size_nonneg rest). lia.
    + intros (rest' & [= <-] & _ & Hsz). f_equal. apply negb_true_iff, Z.ltb_ge. lia.
Qed.

Lemma path_token_ok_throws tok e :
  path_token_ok tok = Throws e ↔ tok = "" ∧ e = out_of_range.
Proof.
  unfold path_token_ok. destruct tok as [|c rest]; cbn.
  - split; [by intros [= <-]|by intros [_ ->]].
  - split; [by case_match|by intros [? _]].
Qed.

(** The path parsed from an accepted token prints as that token. *)
Lemma path_of_token rest :
  back rest ≠ Some SLASH → ¬ has_char NUL rest →
  split rest SLASH = split_text SLASH rest ∧
  last_nonempty (split_text SLASH rest) ∧
  (split_text SLASH rest ≠ [] →
   path_to_string (split_text SLASH rest) = String SLASH rest).
Proof.
  intros Hb Hn. rewrite split_eq cut_nul_id; [|done]. split_and!; [done|..].
  - by apply split_text_last_nonempty.
  - intros Hne. rewrite path_to_string_join; [|done]. by rewrite join_split_exact.
Qed.

(** ** Accepted requests are well formed *)

Lemma token_word_ok msg tok : tok ∈ split msg SPACE → word_ok tok.
Proof.
  rewrite split_eq. intros Hin. split; [|by eapply split_text_tokens].
  intros Hc. eapply split_text_chars in Hc; [|done]. by apply cut_nul_no_nul in Hc.
Qed.

Lemma path_components_ok rest :
  word_ok rest →
  existsb (λ n, FS_MAXFILENAME <? size n) (split_text SLASH rest) = false →
  Forall filename_ok (split_text SLASH rest).
Proof.
  intros [Hn Hs] Hex. apply Forall_forall. intros n Hin.
  assert ((FS_MAXFILENAME <? size n) = false) as Hsz.
  { destruct (FS_MAXFILENAME <? size n) eqn:Hlt; [|done].
    rewrite -Hex. symmetry. apply existsb_exists. exists n.
    split; [by apply list_elem_of_In|done]. }
  reflect_bools. split_and!.
  - split; intros Hc; eapply split_text_chars in Hc; eauto.
  - by eapply split_text_tokens.
  - lia.
Qed.

Lemma word_ok_tail c s : word_ok (String c s) → word_ok s.
Proof. unfold word_ok. rewrite !has_char_cons. tauto. Qed.

Lemma parse_block_range tok b :
  parse_block tok = Returns (Some b) → 0 ≤ b ≤ FS_MAXFILEBLOCKS.
Proof.
  unfold parse_block. destruct (at_ tok 0) as [c|]; [|done]. cbn.
  case_match; [done|]. destruct (stoul tok) as [v|]; [|done]. cbn.
  case_match eqn:Hlt; [done|]. intros [= <-]. reflect_bools. unfold to_uint32 in *.
  pose proof (Z.mod_pos_bound v (2 ^ 32)). lia.
Qed.

(** [parse_command] builds a request of the user and path it is given, with
    arguments in range. *)
Lemma parse_command_ok cmd u p args r :
  parse_command cmd u p args = Returns (Some r) →
  req_username r = u ∧ req_path r = p ∧ request_args_ok r.
Proof.
  assert (∀ tok mk,
    catch_invalid_argument
      (b ← parse_block tok; Returns (block ← b; Some (mk block))) None
      = Returns (Some r) →
    ∃ b : Z, r = mk b ∧ 0 ≤ b ≤ FS_MAXFILEBLOCKS) as Hblock.
  { intros tok mk. destruct (parse_block tok) as [[b|]|[]] eqn:Hb; [|done..].
    cbn. intros [= <-]. exists b. eauto using parse_block_range. }
  unfold parse_command. destruct args as [|tok3 [|]]; [..|done].
  { case_match; [|done]. by intros [= <-]. }
  case_match; [|case_match]; [intros (b & -> & ?)%Hblock; done..|].
  case_match; [|done]. case_match eqn:Ht; [done|]. intros Hr.
  apply andb_false_iff in Ht as [Ht|Ht]; reflect_bools; subst tok3;
    cbn in Hr; injection Hr as <-; (split_and!; [done..|]); [by left|by right].
Qed.

Lemma parse_request_inv msg r :
  parse_request msg = Returns (Some r) →
  ∃ cmd u rest args,
    split msg SPACE = cmd :: u :: String SLASH rest :: args ∧
    size u ≤ FS_MAXUSERNAME ∧ back rest ≠ Some SLASH ∧
    size (String SLASH rest) ≤ FS_MAXPATHNAME ∧
    Forall filename_ok (split_text SLASH rest) ∧
    split rest SLASH = split_text SLASH rest ∧
    parse_command cmd u (split_text SLASH rest) args = Returns (Some r).
Proof.
  unfold parse_request. destruct (split msg SPACE) as [|cmd [|u [|tok2 args]]] eqn:Hs;
    [done..|].
  assert (word_ok tok2) as Hw by (apply (token_word_ok msg); rewrite Hs; set_solver).
  case_match eqn:Hu; [done|]. reflect_bools.
  destruct (path_token_ok tok2) as [[]|] eqn:Hp; [|done..].
  cbn [mbind except_bind negb].
  apply path_token_ok_true in Hp as (rest & -> & Hb & Hsz).
  cbn [c_str_plus_1]. apply word_ok_tail in Hw.
  destruct (path_of_token rest Hb (proj1 Hw)) as (Hsplit & _). rewrite Hsplit.
  case_match eqn:Hex; [done|]. intros Hc. exists cmd, u, rest, args.
  split_and!; [done|lia|done|done| |done|done]. by apply path_components_ok.
Qed.

Lemma parse_request_sound msg r :
  parse_request msg = Returns (Some r) → request_ok r.
Proof.
  intros (cmd & u & rest & args & Hs & Hu & Hb & Hsz & Hnames & Hsplit & Hc)%parse_request_inv.
  apply parse_command_ok in Hc as (Hru & Hrp & Hargs).
  unfold request_ok. rewrite Hru Hrp.
  assert (word_ok (String SLASH rest)) as Hw.
  { apply (token_word_ok msg). rewrite Hs. set_solver. }
  destruct (path_of_token rest Hb) as (_ & Hlast & Hprint).
  { by apply word_ok_tail in Hw as [? _]. }
  split; [split; [|done]|split; [split; [done|split; [done|]]|done]].
  - apply (token_word_ok msg). rewrite Hs. set_solver.
  - destruct (decide (split_text SLASH rest = [])) as [->|Hne]; [done|].
    by rewrite Hprint.
Qed.

(** C17: every request the parser accepts is well formed: user name, path and
    file names have no delimiter or NUL and respect the limits of fs_param.h (so
    they fit the on-disk arrays), the last file name is not empty, a block
    number is at most FS_MAXFILEBLOCKS, and a created node is a file or a
    directory. *)
Theorem parse_request_well_formed msg r :
  parse_request msg = Returns (Some r) → request_ok r.
Proof. apply parse_request_sound. Qed.

Lemma parse_request_well_formed_witness :
  parse_request "FS_READBLOCK user /path/next 10"
    = Returns (Some (Req_READBLOCK (mk_READBLOCK "user" ["path"; "next"] 10))) ∧
  request_ok (Req_READBLOCK (mk_READBLOCK "user" ["path"; "next"] 10)).
Proof.
  split; [reflexivity|].
  apply (parse_request_well_formed "FS_READBLOCK user /path/next 10"). reflexivity.
Defined.

(** ** Printing a request and parsing it gives it back *)

Definition request_tokens (r : Request) : list string :=
  match r with
  | Req_READBLOCK r =>
      ["FS_READBLOCK"; rd_username r; path_to_string (rd_path r); to_string (rd_block r)]
  | Req_WRITEBLOCK r =>
      ["FS_WRITEBLOCK"; wr_username r; path_to_string (wr_path r); to_string (wr_block r)]
  | Req_CREATE r =>
      ["FS_CREATE"; cr_username r; path_to_string (cr_path r); String (cr_type r) ""]
  | Req_DELETE r =>
      ["FS_DELETE"; de_username r; path_to_string (de_path r)]
  end.

Lemma request_string_join r : request_string r = join SPACE (request_tokens r).
Proof.
  destruct r as [[u p b]|[u p b d]|[u p t]|[u p]];
    apply (inj to_bytes); cbn [request_string request_tokens join
      request_string_READBLOCK request_string_WRITEBLOCK request_string_CREATE
      request_string_DELETE rd_username rd_path rd_block wr_username wr_path
      wr_block cr_username cr_path cr_type de_username de_path];
    by rewrite !to_bytes_app ?to_bytes_cons ?to_bytes_app ?to_bytes_cons
         ?to_bytes_app ?to_bytes_cons.
Qed.

Lemma path_string_has_char c p :
  c ≠ SLASH → has_char c (path_to_string p) → ∃ n, n ∈ p ∧ has_char c n.
Proof.
  intros Hc. induction p as [|n p IH]; cbn [path_to_string].
  { by intros ?%has_char_nil. }
  rewrite !has_char_app has_char_cons.
  intros [[[?|?%has_char_nil]|?]|(n' & ? & ?)%IH]; [done|done|set_solver..].
Qed.

Lemma path_string_word_ok p : Forall filename_ok p → word_ok (path_to_string p).
Proof.
  intros Hp. rewrite Forall_forall in Hp.
  split; intros (n & Hin & Hc)%path_string_has_char; try done;
    by apply Hp in Hin as [[] _].
Qed.

Lemma to_string_word_ok n : word_ok (to_string n).
Proof.
  split; intros [v Hv]%to_string_digits; by vm_compute in Hv.
Qed.

Lemma literal_word_ok s :
  forallb (λ c, negb (Ascii.eqb c NUL || Ascii.eqb c SPACE)) (to_bytes s) = true →
  word_ok s.
Proof.
  rewrite forallb_forall. intros Hs.
  split; intros Hc%list_elem_of_In%Hs; vm_compute in Hc; done.
Qed.

Lemma request_tokens_ok r :
  request_ok r → Forall word_ok (request_tokens r).
Proof.
  intros ([Hu _] & (Hp & _ & _) & Hargs).
  destruct r as [[u p b]|[u p b d]|[u p t]|[u p]]; cbn in *;
    repeat apply Forall_cons_2; try apply Forall_nil_2;
    first [ exact Hu | by apply path_string_word_ok | apply to_string_word_ok
          | by apply literal_word_ok
          | destruct Hargs as [->| ->]; by apply literal_word_ok ].
Qed.

Definition is_delete (r : Request) : bool :=
  match r with Req_DELETE _ => true | _ => false end.

(** Only the text of a deletion of the root ends with a delimiter. *)
Lemma request_tokens_last r :
  request_ok r → req_path r ≠ [] ∨ is_delete r = false → last (request_tokens r) ≠ Some "".
Proof.
  intros (_ & _ & Hargs) Hp.
  assert (∀ b, 0 ≤ b ≤ FS_MAXFILEBLOCKS → Some (to_string b) ≠ Some "") as Hb.
  { intros b Hb. destruct (to_string_head b) as (? & ? & -> & _); [|done].
    unfold FS_MAXFILEBLOCKS in *; lia. }
  destruct r as [[u p b]|[u p b d]|[u p t]|[u p]]; cbn in *; [by auto|by auto|done|].
  destruct Hp as [Hp|]; [|done]. by rewrite path_to_string_join.
Qed.

Lemma split_text_cut_nul d s : ¬ has_char NUL s → split s d = split_text d s.
Proof. intros. by rewrite split_eq cut_nul_id. Qed.

Lemma join_no_nul d toks :
  d ≠ NUL → Forall (λ t, ¬ has_char NUL t) toks → ¬ has_char NUL (join d toks).
Proof.
  intros Hd. induction toks as [|t toks IH]; intros Ht; [apply has_char_nil|].
  apply Forall_cons in Ht as [Ht Hts]. destruct toks as [|t' toks]; [done|].
  rewrite join_cons; [|done]. rewrite has_char_app has_char_cons.
  intros [?|[?|?]]; [done|congruence|by apply IH].
Qed.

Lemma split_request_string r :
  request_ok r → req_path r ≠ [] ∨ is_delete r = false →
  split (request_string r) SPACE = request_tokens r.
Proof.
  intros Hr Hp. pose proof (request_tokens_ok r Hr) as Hw.
  rewrite request_string_join split_text_cut_nul.
  - apply split_text_join; [|by apply request_tokens_last].
    eapply Forall_impl; [exact Hw|]. by intros ? [_ ?].
  - apply join_no_nul; [done|]. eapply Forall_impl; [exact Hw|]. by intros ? [? _].
Qed.

Lemma parse_block_to_string n :
  0 ≤ n ≤ FS_MAXFILEBLOCKS → parse_block (to_string n) = Returns (Some n).
Proof.
  unfold FS_MAXFILEBLOCKS. intros Hn.
  destruct (to_string_head n) as (d & s & He & Hd & Hz); [lia|].
  unfold parse_block. rewrite stoul_to_string; [|lia]. rewrite He.
  cbn [at_ String.get mbind except_bind].
  assert (Ascii.eqb (digit_char d) (Ascii.ascii_of_nat 48) &&
          negb (size (String (digit_char d) s) =? 1) = false)%bool as ->.
  { change (Ascii.ascii_of_nat 48) with (digit_char 0).
    destruct (Ascii.eqb_spec (digit_char d) (digit_char 0)) as [Heq|]; [|done].
    apply digit_char_inj in Heq; [|lia..]. by destruct (Hz Heq) as [-> _]. }
  unfold to_uint32, FS_MAXFILEBLOCKS. rewrite Z.mod_small; [|lia].
  destruct (Z.ltb_spec 124 n); [lia|done].
Qed.

(** The payload is not part of the header. *)
Definition header_of (r : Request) : Request :=
  match r with
  | Req_WRITEBLOCK r => Req_WRITEBLOCK (mk_WRITEBLOCK (wr_username r) (wr_path r) (wr_block r) None)
  | _ => r
  end.

Lemma parse_command_request_tokens r :
  request_ok r →
  ∃ cmd args,
    request_tokens r = cmd :: req_username r :: path_to_string (req_path r) :: args ∧
    parse_command cmd (req_username r) (req_path r) args = Returns (Some (header_of r)).
Proof.
  intros (_ & _ & Hargs).
  destruct r as [[u p b]|[u p b d]|[u p t]|[u p]]; cbn in Hargs; do 2 eexists;
    (split; [done|]); unfold parse_command; cbn.
  - by rewrite parse_block_to_string.
  - by rewrite parse_block_to_string.
  - by destruct Hargs as [->| ->].
  - done.
Qed.

Lemma path_to_string_last p :
  p ≠ [] → Forall filename_ok p → last_nonempty p → back (join SLASH p) ≠ Some SLASH.
Proof.
  intros Hne Hp Hlast. induction p as [|n p IH]; [done|].
  apply Forall_cons in Hp as [(_ & Hn & _) Hp]. destruct p as [|n' p].
  - cbn. clear -Hn. induction n as [|c n IH]; [done|].
    rewrite has_char_cons in Hn. cbn [back]. destruct n as [|c' n]; [|apply IH; tauto].
    intros [= ->]. tauto.
  - rewrite join_cons; [|done]. rewrite back_app.
    assert (back (join SLASH (n' :: p)) ≠ Some SLASH) as H.
    { apply IH; [done|done|]. unfold last_nonempty in *. by rewrite last_cons_cons in Hlast. }
    destruct (join SLASH (n' :: p)) as [|c j] eqn:Hj; [|done].
    exfalso. apply Hlast. rewrite last_cons_cons.
    destruct p as [|n'' p]; [cbn in *; by subst|].
    rewrite join_cons // in Hj. destruct n'; done.
Qed.

Lemma parse_printed r :
  request_ok r → req_path r ≠ [] →
  parse_request (request_string r) = Returns (Some (header_of r)).
Proof.
  intros Hr Hp. pose proof Hr as ([_ Hu] & (Hnames & Hlast & Hsz) & _).
  destruct (parse_command_request_tokens r Hr) as (cmd & args & Htoks & Hcmd).
  unfold parse_request. rewrite split_request_string; [|by auto..]. rewrite Htoks.
  rewrite (proj2 (Z.ltb_ge _ _)); [|done].
  rewrite path_to_string_join // in Hsz |- *.
  assert (path_token_ok (String SLASH (join SLASH (req_path r))) = Returns true) as ->.
  { apply path_token_ok_true. eexists. split_and!; [done| |done].
    by apply path_to_string_last. }
  cbn [mbind except_bind negb c_str_plus_1].
  assert (split (join SLASH (req_path r)) SLASH = req_path r) as ->.
  { rewrite split_text_cut_nul.
    - apply split_text_join; [|done]. eapply Forall_impl; [exact Hnames|]. by intros ? (_ & ? & _).
    - apply join_no_nul; [done|]. eapply Forall_impl; [exact Hnames|]. by intros ? ([] & _). }
  assert (existsb (λ n, FS_MAXFILENAME <? size n) (req_path r) = false) as ->; [|done].
  apply not_true_iff_false. rewrite existsb_exists. intros (n & Hin & Hn).
  rewrite Forall_forall in Hnames. apply list_elem_of_In, Hnames in Hin as (_ & _ & ?).
  reflect_bools. lia.
Qed.

(** The root prints as the empty path: [at(0)] throws on its token, which
    [getline] does not see at the end of a text. *)
Lemma parse_printed_root r :
  request_ok r → req_path r = [] →
  parse_request (request_string r) = if is_delete r then Returns None else Throws out_of_range.
Proof.
  intros Hr Hp. destruct (is_delete r) eqn:Hdel.
  - destruct r as [| | |[u p]]; try done. cbn in Hp. subst p.
    pose proof (request_tokens_ok _ Hr) as Hw. cbn in Hw.
    assert (¬ has_char NUL (request_string (Req_DELETE (mk_DELETE u [])))) as Hn.
    { rewrite request_string_join. apply join_no_nul; [done|].
      eapply Forall_impl; [exact Hw|]. by intros ? [? _]. }
    apply Forall_cons in Hw as [[_ Hc] [[_ Hu] _]%Forall_cons].
    unfold parse_request. rewrite split_text_cut_nul // request_string_join. cbn [request_tokens].
    rewrite join_cons // split_text_delim // join_cons // split_text_delim //.
  - destruct (parse_command_request_tokens r Hr) as (cmd & args & Htoks & _).
    unfold parse_request. rewrite split_request_string; [|by auto..]. rewrite Htoks Hp.
    destruct Hr as ([_ Hu] & _ & _). by rewrite (proj2 (Z.ltb_ge _ _) Hu).
Qed.

(** C18: parsing is the inverse of printing, but for the root: the header
    [request_string] makes of a well-formed request whose path is not the root is
    parsed back to that request, without its payload, which travels separately.  The
    root prints as the empty path: a deletion of it is rejected, and on the other
    requests the parser throws. *)
Theorem parse_request_string r :
  request_ok r →
  (req_path r ≠ [] → parse_request (request_string r) = Returns (Some (header_of r))) ∧
  (req_path r = [] →
   parse_request (request_string r) = if is_delete r then Returns None else Throws out_of_range).
Proof. intros Hr. split; [by apply parse_printed|by apply parse_printed_root]. Qed.

Lemma parse_request_string_witness :
  parse_request (request_string (Req_CREATE (mk_CREATE "user" ["a"; "b"] type_dir)))
  = Returns (Some (Req_CREATE (mk_CREATE "user" ["a"; "b"] type_dir))) ∧
  parse_request (request_string (Req_READBLOCK (mk_READBLOCK "user" [] 3))) = Throws out_of_range.
Proof.
  split.
  - apply (parse_request_string (Req_CREATE (mk_CREATE "user" ["a"; "b"] type_dir))); [|done].
    by_decide.
  - apply (parse_request_string (Req_READBLOCK (mk_READBLOCK "user" [] 3))); [|done]. by_decide.
Defined.

(** ** Messages that make the parser throw

    Only [std::invalid_argument] is caught in [parse_request]; [at(0)] on an
    empty token and [stoul] on a number past [ULONG_MAX] throw
    [std::out_of_range], which leaves the function (and, in the server, the
    connection's thread function). *)

Definition block_token_throws (tok : string) : Prop :=
  tok = "" ∨
  (¬ (String.get 0 tok = Some (Ascii.ascii_of_nat 48) ∧ size tok ≠ 1) ∧
   stoul tok = Throws out_of_range).

Definition tokens_throw (tokens : list string) : Prop :=
  ∃ cmd u tok2 args,
    tokens = cmd :: u :: tok2 :: args ∧ size u ≤ FS_MAXUSERNAME ∧
    (tok2 = "" ∨
     ∃ tok3,
       args = [tok3] ∧ (cmd = "FS_READBLOCK" ∨ cmd = "FS_WRITEBLOCK") ∧
       path_token_ok tok2 = Returns true ∧
       Forall (λ n, size n ≤ FS_MAXFILENAME) (split (c_str_plus_1 tok2) SLASH) ∧
       block_token_throws tok3).

Lemma parse_block_throws tok :
  catch_invalid_argument (parse_block tok) None = Throws out_of_range ↔
  block_token_throws tok.
Proof.
  unfold parse_block, block_token_throws. destruct tok as [|c tok].
  { cbn. split; [by left|done]. }
  cbn [at_ String.get mbind except_bind].
  assert (String c tok ≠ "") as Hne by done.
  destruct (Ascii.eqb c (Ascii.ascii_of_nat 48) && negb (size (String c tok) =? 1)) eqn:Hz.
  - reflect_bools. subst. split; [done|]. intros [?|[Hn _]]; [done|]. by destruct Hn.
  - split.
    + intros H. right. split.
      { intros [[= ->] Hs]. rewrite Ascii.eqb_refl in Hz. cbn in Hz. reflect_bools. lia. }
      destruct (stoul (String c tok)) as [v|[]]; cbn in H |- *; [by case_match|done..].
    + intros [?|[_ ->]]; done.
Qed.

Lemma parse_command_throws cmd u p args e :
  parse_command cmd u p args = Throws e ↔
  e = out_of_range ∧
  ∃ tok3, args = [tok3] ∧ (cmd = "FS_READBLOCK" ∨ cmd = "FS_WRITEBLOCK") ∧
          block_token_throws tok3.
Proof.
  assert (∀ tok mk,
    catch_invalid_argument
      (b ← parse_block tok; Returns (block ← b; Some (mk block : Request))) None = Throws e
    ↔ e = out_of_range ∧ block_token_throws tok) as Hblock.
  { intros tok mk. rewrite -parse_block_throws.
    destruct (parse_block tok) as [b|[]]; cbn; naive_solver. }
  unfold parse_command. destruct args as [|tok3 [|? ?]].
  - split; [by case_match|naive_solver].
  - case_match eqn:H1; [|case_match eqn:H2]; reflect_bools; subst.
    + rewrite Hblock. naive_solver.
    + rewrite Hblock. naive_solver.
    + split; [by repeat case_match|naive_solver].
  - naive_solver.
Qed.

Lemma parse_throws_iff msg e :
  parse_request msg = Throws e ↔ e = out_of_range ∧ tokens_throw (split msg SPACE).
Proof.
  unfold parse_request, tokens_throw.
  destruct (split msg SPACE) as [|cmd [|u [|tok2 args]]]; [naive_solver..|].
  destruct (Z.ltb_spec FS_MAXUSERNAME (size u)) as [Hu|Hu].
  { split; [done|]. intros (_ & ? & ? & ? & ? & [= <- <- <- <-] & ? & _). lia. }
  destruct (path_token_ok tok2) as [[]|e'] eqn:Hp; cbn [mbind except_bind negb].
  - assert (tok2 ≠ "") as Hne by (intros ->; done).
    destruct (existsb _ _) eqn:Hex.
    + split; [done|].
      intros (_ & ? & ? & ? & ? & [= <- <- <- <-] & _ & [?|(? & _ & _ & _ & Hall & _)]); [done|].
      apply existsb_exists in Hex as (n & Hin%list_elem_of_In & Hn).
      rewrite Forall_forall in Hall. apply Hall in Hin. reflect_bools. lia.
    + rewrite parse_command_throws. split.
      * intros (-> & tok3 & -> & Hcmd & Ht). split; [done|].
        exists cmd, u, tok2, [tok3]. split_and!; [done|done|]. right. exists tok3.
        split_and!; [done..| |done]. apply Forall_forall. intros n Hin.
        apply Z.ltb_ge. rewrite -not_true_iff_false. intros Hn.
        rewrite -not_true_iff_false existsb_exists in Hex. apply Hex.
        exists n. split; [by apply list_elem_of_In|done].
      * intros (-> & ? & ? & ? & ? & [= <- <- <- <-] & _ & [?|(tok3 & ? & ? & _ & _ & ?)]);
          naive_solver.
  - split; [done|].
    intros (_ & ? & ? & ? & ? & [= <- <- <- <-] & _ & [->|(? & _ & _ & ? & _)]); [done|congruence].
  - apply path_token_ok_throws in Hp as [-> ->]. split.
    + intros [= <-]. split; [done|]. exists cmd, u, "", args. naive_solver.
    + by intros [-> _].
Qed.

(** C19: the parser throws exactly [std::out_of_range], and exactly on the
    messages of [tokens_throw]: an empty path token (two spaces after the user
    name), an empty block number, or a block number larger than an unsigned
    long.  Every other message is accepted or rejected by a return value. *)
Theorem parse_request_throws msg e :
  parse_request msg = Throws e ↔ e = out_of_range ∧ tokens_throw (split msg SPACE).
Proof. apply parse_throws_iff. Qed.

(** One message for each way to throw. *)
Example throws_empty_path : parse_request "FS_READBLOCK user  0" = Throws out_of_range.
Proof. reflexivity. Qed.
Example throws_empty_block : parse_request "FS_READBLOCK user /a  " = Throws out_of_range.
Proof. reflexivity. Qed.
Example throws_big_block :
  parse_request "FS_READBLOCK user /a 99999999999999999999" = Throws out_of_range.
Proof. reflexivity. Qed.

(** The comment asks for a canonical base-10 block, but only a leading
    zero is rejected: a sign, trailing characters and values past 2^32 (reduced
    modulo 2^32) are accepted as the same block. *)
Theorem parse_block_not_canonical :
  Forall (λ tok, parse_block tok = Returns (Some 5))
    ["5"; "+5"; "5.7"; "5x"; "4294967301"; "-4294967291"].
Proof. repeat constructor. Qed.
