(* ===== verification/ParseTests.v ===== *)
(** * The tests of the parser ([src/parse_tests.cpp])

    The cases of the test program, which compares the results of [split] and
    [parse_request] with what they should be, and which of them hold. *)

From S2P Require Import Prelude CStd Request Parsing.

(** [assert_eq] prints its arguments when they differ; an exception would end
    the program. *)
Definition assert_eq {A} `{EqDecision A} (lhs : except A) (rhs : A) : bool :=
  match lhs with
  | Returns a => bool_decide (rhs = a)
  | Throws _ => false
  end.

Definition split_tests : list (string * byte * list string) := [
  ("a b c d", SPACE, ["a"; "b"; "c"; "d"]);
  ("user/bin/hope", SLASH, ["user"; "bin"; "hope"]);
  ("/user/bin/hope", SLASH, [""; "user"; "bin"; "hope"]);
  ("/user/bin/hope/", SLASH, [""; "user"; "bin"; "hope"]);
  ("/", SLASH, [""]);
  ("", SLASH, [])].

Definition request_tests : list (string * option Request) := [
  ("FS_READBLOCK user /path/next 10",
   Some (Req_READBLOCK (mk_READBLOCK "user" ["path"; "next"] 10)));
  ("FS_WRITEBLOCK user /path/other 0",
   Some (Req_WRITEBLOCK (mk_WRITEBLOCK "user" ["path"; "other"] 0 None)));
  ("FS_CREATE user /path/next f",
   Some (Req_CREATE (mk_CREATE "user" ["path"; "next"] type_file)));
  ("FS_DELETE rwchua /caen/tetris",
   Some (Req_DELETE (mk_DELETE "rwchua" ["caen"; "tetris"])));
  ("FS_DELETE user /", Some (Req_DELETE (mk_DELETE "user" [])))].

(** The messages for which the tests expect [{}]. *)
Definition error_tests : list string := [
  "";
  "abc";
  "I chose hope and ended up";
  "FS_READBLOCK user // 0";
  "FS_READBLOCK 12345678910 /bingCh/Ling 0";
  "FS_READBLOCK user2 /does_not_exist/ 0";
  "FS_DELETE user /path/next 10";
  "FS_WRITEBLOCK user path/next 10";
  "FS_WRITEBLOCK user /path/next/ 10";
  "FS_WRITEBLOCK user /path/next cappa";
  "FS_CREATE user /path/next k";
  "FS_CREATE user /path/next/ACDEFGHJMOPSUVWXYZabcdfhklmnouhduohesuhdouhiuwfhfiuwhdddeuuui/hi f";
  "FS_READBLOCK user / 0";
  "FS_READBLOCK";
  "FS_WRITEBLOCK";
  "FS_CREATE";
  "FS_DELETE";
  "FS_READBLOCK user /this/that -1.2";
  "FS_READBLOCK user /this/that 002";
  "FS_CREATE user_too_too_long /path/next f";
  "FS_CREATE user /filename_far_far_far_too_long_way_way_way_way_way_way_way_way_way_way f";
  "FS_CREATE user /path/pathname_too_long_far_far_far_too_long_way_way_way_way_way_way_way_way_way_way_far_far_far_too_long_way_way_way_way_way_way_way_way_way_way f";
  "FS_WRITEBLOCK user /path/pathname_too_long_far_far_far_too_long_way_way_way_way_way_way_way_way_way_way_far_far_far_too_long_way_way_way_way_way_way_way_way_way_way  1"].

(** The messages of the tests that print. *)
Definition failing_tests : list string :=
  (filter (λ '(msg, delimeter, out), assert_eq (Returns (split msg delimeter)) out = false)
    split_tests).*1.*1 ++
  (filter (λ '(msg, req), assert_eq (parse_request msg) req = false)
    (request_tests ++ ((., None) <$> error_tests))).*1.

(** One test fails: the parser takes the root for the path of a file; it is the
    handlers that refuse it. *)
Theorem parse_tests_pass : failing_tests = ["FS_READBLOCK user / 0"].
Proof. vm_compute. reflexivity. Qed.
