(* ===== verification/FsTypes.v ===== *)
(** * On-disk structures and the disk ([src/fs_server.h])

    [fs_inode] and [fs_direntry] with their byte layout (little-endian
    [uint32_t], no padding: the inode and the array of direntries of a block are
    exactly one block), and the interface of the disk, which the server links
    against and whose code is not in the repository. *)

From S2P Require Import Prelude CStd Request.

(** ** [src/fs_server.h] *)

Definition FS_DISKSIZE : Z := 4096.

(** [char type; char owner[11]; uint32_t size; uint32_t blocks[124];] *)
Record fs_inode := mk_inode {
  i_type : byte;
  i_owner : bytes;
  i_size : Z;
  i_blocks : list Z }.

(** [char name[60]; uint32_t inode_block;] *)
Record fs_direntry := mk_direntry {
  d_name : bytes;
  d_inode_block : Z }.

Definition sizeof_direntry : Z := FS_MAXFILENAME + 1 + 4.
Definition FS_DIRENTRIES : Z := FS_BLOCKSIZE / sizeof_direntry.

#[export] Instance fs_inode_eq_dec : EqDecision fs_inode.
Proof. solve_decision. Defined.
#[export] Instance fs_direntry_eq_dec : EqDecision fs_direntry.
Proof. solve_decision. Defined.

(** The lengths as [nat], for lists. *)
Abbreviation n_block := 512%nat.
Abbreviation n_owner := 11%nat.
Abbreviation n_blocks := 124%nat.
Abbreviation n_name := 60%nat.
Abbreviation n_direntries := 8%nat.

(** ** Little-endian [uint32_t] *)

Definition byte_of_Z (z : Z) : byte := Ascii.ascii_of_N (Z.to_N (z mod 256)).
Definition Z_of_byte (b : byte) : Z := Z.of_N (Ascii.N_of_ascii b).

Definition encode_u32 (v : Z) : bytes :=
  [byte_of_Z v; byte_of_Z (Z.shiftr v 8); byte_of_Z (Z.shiftr v 16);
   byte_of_Z (Z.shiftr v 24)].

Definition decode_u32 (bs : bytes) : Z :=
  match bs with
  | b0 :: b1 :: b2 :: b3 :: _ =>
      Z_of_byte b0 + 256 * (Z_of_byte b1 + 256 * (Z_of_byte b2 + 256 * Z_of_byte b3))
  | _ => 0
  end.

Definition u32 (v : Z) : Prop := 0 ≤ v < 2 ^ 32.

(** ** Layout of the structures *)

(** [n] consecutive fields of [k] bytes. *)
Fixpoint fields (n k : nat) (bs : bytes) : list bytes :=
  match n with
  | O => []
  | S n' => take k bs :: fields n' k (drop k bs)
  end.

Definition encode_inode (i : fs_inode) : bytes :=
  i_type i :: i_owner i ++ encode_u32 (i_size i) ++ concat (encode_u32 <$> i_blocks i).

Definition decode_inode (bs : bytes) : fs_inode :=
  {| i_type := default NUL (bs !! 0%nat);
     i_owner := take n_owner (drop 1 bs);
     i_size := decode_u32 (drop 12 bs);
     i_blocks := decode_u32 <$> fields n_blocks 4 (drop 16 bs) |}.

Definition encode_direntry (e : fs_direntry) : bytes :=
  d_name e ++ encode_u32 (d_inode_block e).

Definition decode_direntry (bs : bytes) : fs_direntry :=
  {| d_name := take n_name bs; d_inode_block := decode_u32 (drop n_name bs) |}.

(** [std::array<fs_direntry, FS_DIRENTRIES>] *)
Definition encode_direntries (es : list fs_direntry) : bytes :=
  concat (encode_direntry <$> es).

Definition decode_direntries (bs : bytes) : list fs_direntry :=
  decode_direntry <$> fields n_direntries 64 bs.

(** Values the C types can hold. *)
Definition inode_typed (i : fs_inode) : Prop :=
  length (i_owner i) = n_owner ∧ u32 (i_size i) ∧
  length (i_blocks i) = n_blocks ∧ Forall u32 (i_blocks i).

Definition direntry_typed (e : fs_direntry) : Prop :=
  length (d_name e) = n_name ∧ u32 (d_inode_block e).

Definition direntries_typed (es : list fs_direntry) : Prop :=
  length es = n_direntries ∧ Forall direntry_typed es.

(** ** Encoding and decoding are inverse *)

Lemma length_encode_u32 v : length (encode_u32 v) = 4%nat.
Proof. done. Qed.

Lemma Z_of_byte_of_Z z : Z_of_byte (byte_of_Z z) = z mod 256.
Proof.
  unfold Z_of_byte, byte_of_Z. pose proof (Z.mod_pos_bound z 256).
  rewrite Ascii.N_ascii_embedding; [|lia]. rewrite Z2N.id; lia.
Qed.

Lemma Z_of_byte_range b : 0 ≤ Z_of_byte b < 256.
Proof. unfold Z_of_byte. pose proof (Ascii.N_ascii_bounded b). lia. Qed.

Lemma byte_of_Z_of_byte b k : byte_of_Z (Z_of_byte b + 256 * k) = b.
Proof.
  unfold byte_of_Z. pose proof (Z_of_byte_range b).
  replace ((Z_of_byte b + 256 * k) mod 256) with (Z_of_byte b) by lia.
  unfold Z_of_byte. by rewrite N2Z.id Ascii.ascii_N_embedding.
Qed.

Lemma decode_encode_u32 v bs : u32 v → decode_u32 (encode_u32 v ++ bs) = v.
Proof.
  unfold u32. intros Hv. cbn. rewrite !Z_of_byte_of_Z !Z.shiftr_div_pow2; lia.
Qed.

Lemma decode_u32_range bs : u32 (decode_u32 bs).
Proof.
  unfold u32, decode_u32. destruct bs as [|b0 [|b1 [|b2 [|b3 bs]]]]; [lia..|].
  pose proof (Z_of_byte_range b0). pose proof (Z_of_byte_range b1).
  pose proof (Z_of_byte_range b2). pose proof (Z_of_byte_range b3). lia.
Qed.

Lemma encode_decode_u32 bs : length bs = 4%nat → encode_u32 (decode_u32 bs) = bs.
Proof.
  destruct bs as [|b0 [|b1 [|b2 [|b3 [|]]]]]; [done..| |done]. intros _.
  pose proof (Z_of_byte_range b0). pose proof (Z_of_byte_range b1).
  pose proof (Z_of_byte_range b2). pose proof (Z_of_byte_range b3).
  cbn. unfold encode_u32. rewrite !Z.shiftr_div_pow2; [|done..].
  f_equal; [apply byte_of_Z_of_byte|f_equal; [|f_equal; [|f_equal]]].
  - rewrite -{2}(byte_of_Z_of_byte b1 (Z_of_byte b2 + 256 * Z_of_byte b3)). f_equal. lia.
  - rewrite -{2}(byte_of_Z_of_byte b2 (Z_of_byte b3)). f_equal. lia.
  - rewrite -{2}(byte_of_Z_of_byte b3 0). f_equal. lia.
Qed.

Lemma length_concat_const {A} (f : A → bytes) k l :
  Forall (λ x, length (f x) = k) l → length (concat (f <$> l)) = (length l * k)%nat.
Proof. induction 1; cbn; [done|]. rewrite length_app. lia. Qed.

Lemma fields_concat k (l : list bytes) :
  Forall (λ x, length x = k) l → ∀ n, n = length l → fields n k (concat l) = l.
Proof.
  induction 1 as [|x l Hx Hl IH]; intros n ->; cbn; [done|].
  rewrite take_app_length' //. rewrite drop_app_length' //. by rewrite IH.
Qed.

Lemma concat_fields n k bs : length bs = (n * k)%nat → concat (fields n k bs) = bs.
Proof.
  revert bs. induction n as [|n IH]; intros bs Hl; cbn.
  { by apply nil_length_inv in Hl. }
  rewrite IH; [by rewrite take_drop|]. rewrite length_drop. lia.
Qed.

Lemma fields_length n k bs : length (fields n k bs) = n.
Proof. revert bs. induction n as [|n IH]; intros bs; cbn; [done|]. by rewrite IH. Qed.

Lemma fields_each n k bs :
  (n * k ≤ length bs)%nat → Forall (λ x, length x = k) (fields n k bs).
Proof.
  revert bs. induction n as [|n IH]; intros bs Hl; cbn; constructor.
  - rewrite length_take. lia.
  - apply IH. rewrite length_drop. lia.
Qed.

(** A structure that fills one disk block exactly. *)
Class OnDisk (T : Type) := {
  encode : T → bytes;
  decode : bytes → T;
  typed : T → Prop }.

Class OnDiskLaws (T : Type) `{OnDisk T} := {
  decode_encode x : typed x → decode (encode x) = x;
  encode_decode bs : length bs = n_block → encode (decode bs) = bs;
  typed_decode bs : length bs = n_block → typed (decode bs);
  length_encode x : typed x → length (encode x) = n_block }.

#[export] Instance inode_on_disk : OnDisk fs_inode :=
  {| encode := encode_inode; decode := decode_inode; typed := inode_typed |}.
#[export] Instance direntries_on_disk : OnDisk (list fs_direntry) :=
  {| encode := encode_direntries; decode := decode_direntries; typed := direntries_typed |}.

Lemma fmap_encode_u32_each (l : list Z) :
  Forall (λ x : bytes, length x = 4%nat) (encode_u32 <$> l).
Proof. apply Forall_fmap, Forall_true. done. Qed.

Lemma length_encode_inode i : inode_typed i → length (encode_inode i) = n_block.
Proof.
  intros (Ho & _ & Hb & _). unfold encode_inode. rewrite length_cons !length_app Ho.
  rewrite (length_concat_const _ 4) ?length_encode_u32; [by rewrite Hb|].
  by apply Forall_true.
Qed.

Lemma decode_encode_inode i : inode_typed i → decode_inode (encode_inode i) = i.
Proof.
  destruct i as [t o s bl]. intros (Ho & Hs & Hb & Hbl). cbn in *.
  unfold decode_inode, encode_inode. cbn [i_type i_owner i_size i_blocks].
  f_equal.
  - cbn. by rewrite drop_0 take_app_length'.
  - change 12%nat with (1 + 11)%nat. rewrite -drop_drop. cbn. rewrite drop_0.
    rewrite drop_app_length' //. by apply decode_encode_u32.
  - change 16%nat with (1 + (11 + 4))%nat. rewrite -drop_drop -drop_drop.
    cbn [drop]. rewrite drop_0 drop_app_length' // drop_app_length' //.
    rewrite fields_concat; [|apply fmap_encode_u32_each|by rewrite length_fmap].
    rewrite -list_fmap_compose -{2}(list_fmap_id bl).
    apply list_fmap_ext. intros j x Hj. rewrite Forall_lookup in Hbl.
    apply (decode_encode_u32 x []). by eapply Hbl.
Qed.

Lemma encode_decode_inode bs :
  length bs = n_block → encode_inode (decode_inode bs) = bs.
Proof.
  intros Hl. unfold encode_inode, decode_inode. cbn [i_type i_owner i_size i_blocks].
  destruct bs as [|t bs]; [done|]. cbn [lookup list_lookup default drop].
  rewrite drop_0. cbn in Hl. f_equal.
  rewrite -{4}(take_drop n_owner bs). f_equal.
  assert (length (drop n_owner bs) = 500%nat) as Hl2 by (rewrite length_drop; lia).
  change 15%nat with (11 + 4)%nat. rewrite -drop_drop.
  generalize dependent (drop n_owner bs). intros r Hr.
  rewrite -list_fmap_compose.
  destruct r as [|a [|b [|c [|d r]]]]; [done..|]. cbn in Hr.
  cbn [drop]. rewrite drop_0.
  change (decode_u32 (a :: b :: c :: d :: r)) with (decode_u32 [a; b; c; d]).
  rewrite encode_decode_u32 //. cbn [app]. do 4 f_equal.
  rewrite -{2}(concat_fields n_blocks 4 r); [f_equal|lia].
  rewrite -{2}(list_fmap_id (fields n_blocks 4 r)).
  apply list_fmap_ext. intros j x Hj. cbn. apply encode_decode_u32.
  assert (n_blocks * 4 ≤ length r)%nat as Hle by lia.
  pose proof (fields_each n_blocks 4 r Hle) as Hf. rewrite Forall_lookup in Hf. eauto.
Qed.

Lemma inode_typed_decode bs : length bs = n_block → inode_typed (decode_inode bs).
Proof.
  intros Hl. split_and!; cbn [i_owner i_size i_blocks decode_inode].
  - rewrite length_take length_drop. lia.
  - apply decode_u32_range.
  - by rewrite length_fmap fields_length.
  - apply Forall_fmap, Forall_true. intros. apply decode_u32_range.
Qed.

Lemma decode_encode_direntry e : direntry_typed e → decode_direntry (encode_direntry e) = e.
Proof.
  destruct e as [nm b]. intros [Hn Hb]. cbn in *.
  unfold decode_direntry, encode_direntry. cbn [d_name d_inode_block]. f_equal.
  - by rewrite take_app_length'.
  - rewrite drop_app_length' //. by apply (decode_encode_u32 b []).
Qed.

Lemma encode_decode_direntry bs :
  length bs = 64%nat → encode_direntry (decode_direntry bs) = bs.
Proof.
  intros Hl. unfold encode_direntry, decode_direntry. cbn [d_name d_inode_block].
  rewrite encode_decode_u32; [by rewrite take_drop|]. rewrite length_drop. lia.
Qed.

Lemma length_encode_direntry e : direntry_typed e → length (encode_direntry e) = 64%nat.
Proof. intros [Hn _]. unfold encode_direntry. by rewrite length_app Hn. Qed.

Lemma direntry_typed_decode bs : length bs = 64%nat → direntry_typed (decode_direntry bs).
Proof.
  intros Hl. split; cbn.
  - rewrite length_take. lia.
  - apply decode_u32_range.
Qed.

Lemma encode_direntries_each es :
  Forall direntry_typed es → Forall (λ x : bytes, length x = 64%nat) (encode_direntry <$> es).
Proof. intros H. apply Forall_fmap. eapply Forall_impl; [exact H|]. apply length_encode_direntry. Qed.

#[export] Instance inode_on_disk_laws : OnDiskLaws fs_inode.
Proof.
  split; [exact decode_encode_inode|exact encode_decode_inode|
          exact inode_typed_decode|exact length_encode_inode].
Qed.

#[export] Instance direntries_on_disk_laws : OnDiskLaws (list fs_direntry).
Proof.
  split; cbn [encode decode typed direntries_on_disk]; unfold encode_direntries, decode_direntries.
  - intros es [Hlen Hes]. rewrite fields_concat.
    + rewrite -list_fmap_compose -{2}(list_fmap_id es). apply list_fmap_ext. intros j x Hj.
      rewrite Forall_lookup in Hes. by eapply decode_encode_direntry, Hes.
    + by apply encode_direntries_each.
    + by rewrite length_fmap.
  - intros bs Hl. rewrite -list_fmap_compose -{2}(concat_fields n_direntries 64 bs) //.
    f_equal. rewrite -{2}(list_fmap_id (fields n_direntries 64 bs)).
    apply list_fmap_ext. intros j x Hj. apply encode_decode_direntry.
    assert (n_direntries * 64 ≤ length bs)%nat as Hle by lia.
    pose proof (fields_each n_direntries 64 bs Hle) as Hf. rewrite Forall_lookup in Hf. eauto.
  - intros bs Hl. split; [by rewrite length_fmap fields_length|].
    apply Forall_fmap. eapply Forall_impl; [apply (fields_each n_direntries 64); lia|].
    apply direntry_typed_decode.
  - intros es [Hlen Hes]. rewrite (length_concat_const _ 64); [by rewrite Hlen|].
    eapply Forall_impl; [exact Hes|]. apply length_encode_direntry.
Qed.

(** [optional<out_block>] of filesystem.h, the result of a handler: [None] is
    [{}] (an error), [Some None] is [nullptr] (success), [Some (Some b)] a block of
    data. *)
Definition out_block : Type := option (option bytes).

(** ** The disk

    [disk_readblock] and [disk_writeblock] are documented in fs_server.h to copy
    a block out of and into the disk, and to assert on failure; their code is in
    a library.  The laws are the ones of a store of [FS_DISKSIZE] blocks. *)

Class Disk (D : Type) := {
  disk_read : D → Z → bytes;
  disk_write : D → Z → bytes → D }.

Definition valid_block (b : Z) : Prop := 0 ≤ b < FS_DISKSIZE.

#[export] Instance valid_block_dec b : Decision (valid_block b).
Proof. unfold valid_block. apply _. Defined.

Class DiskLaws (D : Type) `{Disk D} := {
  disk_read_length d b : valid_block b → length (disk_read d b) = n_block;
  disk_read_write_eq d b bs :
    valid_block b → length bs = n_block → disk_read (disk_write d b bs) b = bs;
  disk_read_write_ne d b b' bs :
    valid_block b → valid_block b' → b ≠ b' →
    disk_read (disk_write d b bs) b' = disk_read d b' }.

(** A disk in memory: the blocks written so far, the others all zero. *)
Definition mem_disk : Type := gmap Z bytes.

#[export] Instance mem_disk_disk : Disk mem_disk :=
  {| disk_read d b := resize n_block NUL (default [] (d !! b));
     disk_write d b bs := <[b := bs]> d |}.

#[export] Instance mem_disk_laws : DiskLaws mem_disk.
Proof.
  split; cbn; intros.
  - apply length_resize.
  - unfold mem_disk. rewrite lookup_insert_eq. by apply resize_all_alt.
  - unfold mem_disk. by rewrite lookup_insert_ne.
Qed.

Section disk.
Context `{DiskLaws D}.

(** What a block holds, read as a structure. *)
Definition read_as (T : Type) `{OnDisk T} (d : D) (b : Z) : T := decode (disk_read d b).

Lemma read_as_write_eq T `{OnDiskLaws T} d b (x : T) :
  valid_block b → typed x → read_as T (disk_write d b (encode x)) b = x.
Proof.
  intros Hb Hx. unfold read_as. rewrite disk_read_write_eq //.
  - by apply decode_encode.
  - by apply length_encode.
Qed.

Lemma read_as_typed T `{OnDiskLaws T} d b : valid_block b → typed (read_as T d b).
Proof. intros Hb. by apply typed_decode, disk_read_length. Qed.
End disk.
#[global] Arguments read_as : simpl never.
