(* ===== verification/FsMonad.v ===== *)
(** * Programs over the state of the file server

    The handlers of filesystem.cpp are written once, as programs over the
    effects they have on state shared by the server's threads: the disk, the free
    list (under [internal_lock_free_list]), the map of locks (under
    [internal_lock_map]) and the reader/writer locks.  A program is a finite tree
    of effects; [exec] gives each effect its meaning on the shared state, and
    [run] executes one handler to its end with no other thread running. *)

From S2P Require Import Prelude CStd Request FsTypes.

(** ** Reader/writer locks

    [boost::shared_mutex] is a library.  [Upgradable] is the mode of an
    [upgrade_lock]: compatible with shared owners, not with another upgradable or
    an exclusive one; moving it into a [unique_lock] waits for the shared owners
    to leave. *)

Inductive lock_mode := Shared | Upgradable | Exclusive.

#[export] Instance lock_mode_eq_dec : EqDecision lock_mode.
Proof. solve_decision. Defined.

(** Who holds a lock. *)
Record holders := mk_holders { n_shared : nat; upgradable : bool; exclusive : bool }.

#[export] Instance holders_eq_dec : EqDecision holders.
Proof. solve_decision. Defined.

Definition nobody : holders := mk_holders 0 false false.

Definition holders_add (m : lock_mode) (h : holders) : holders :=
  match m with
  | Shared => mk_holders (S (n_shared h)) (upgradable h) (exclusive h)
  | Upgradable => mk_holders (n_shared h) true (exclusive h)
  | Exclusive => mk_holders (n_shared h) (upgradable h) true
  end.

Definition holders_remove (m : lock_mode) (h : holders) : holders :=
  match m with
  | Shared => mk_holders (pred (n_shared h)) (upgradable h) (exclusive h)
  | Upgradable => mk_holders (n_shared h) false (exclusive h)
  | Exclusive => mk_holders (n_shared h) (upgradable h) false
  end.

Definition holds (m : lock_mode) (h : holders) : bool :=
  match m with
  | Shared => (0 <? n_shared h)%nat
  | Upgradable => upgradable h
  | Exclusive => exclusive h
  end.

(** The operations; [None] is that the caller has to wait. *)
Class SharedMutex (M : Type) := {
  sm_init : M;
  sm_lock : lock_mode → M → option M;
  sm_upgrade : M → option M;
  sm_unlock : lock_mode → M → M;
  sm_holders : M → holders }.

(** Its documented behaviour: who may hold it together, and that a lock nobody
    holds can be taken and an upgradable lock without readers upgraded. *)
Class SharedMutexLaws (M : Type) `{SharedMutex M} := {
  sm_holders_init : sm_holders sm_init = nobody;
  sm_lock_grants m s s' :
    sm_lock m s = Some s' →
    sm_holders s' = holders_add m (sm_holders s) ∧
    exclusive (sm_holders s) = false ∧
    (m = Upgradable → upgradable (sm_holders s) = false) ∧
    (m = Exclusive → sm_holders s = nobody);
  sm_upgrade_grants s s' :
    sm_upgrade s = Some s' →
    sm_holders s' = mk_holders 0 false true ∧ sm_holders s = mk_holders 0 true false;
  sm_unlock_holders m s : sm_holders (sm_unlock m s) = holders_remove m (sm_holders s);
  sm_lock_free m s : sm_holders s = nobody → is_Some (sm_lock m s);
  sm_upgrade_free s : sm_holders s = mk_holders 0 true false → is_Some (sm_upgrade s) }.

(** A lock that never makes a compatible caller wait. *)
#[export] Instance holders_mutex : SharedMutex holders := {|
  sm_init := nobody;
  sm_lock m h :=
    if exclusive h then None
    else match m with
         | Shared => Some (holders_add Shared h)
         | Upgradable => if upgradable h then None else Some (holders_add Upgradable h)
         | Exclusive => if decide (h = nobody) then Some (holders_add Exclusive h) else None
         end;
  sm_upgrade h := if decide (h = mk_holders 0 true false)
                  then Some (mk_holders 0 false true) else None;
  sm_unlock := holders_remove;
  sm_holders h := h |}.

#[export] Instance holders_mutex_laws : SharedMutexLaws holders.
Proof.
  split; cbn; [done|..].
  - intros m [n u []] h'; [done|]. cbn.
    destruct m; [|destruct u|case_decide]; intros [= <-]; naive_solver.
  - intros h h'. case_decide; naive_solver.
  - done.
  - intros m h ->. destruct m; by eexists.
  - intros h ->. by eexists.
Qed.

(** ** The shared state *)

(** A [std::shared_mutex] object on the heap. *)
Abbreviation lockref := nat.

(** [data_locks] maps a block to a [weak_ptr]; [mutexes] holds the live objects
    with the number of [shared_ptr]s to each: a [weak_ptr] whose object is not in
    it has expired.  [next_lock] is the next fresh object. *)
Record lock_table (M : Type) := mk_locks {
  data_locks : gmap Z lockref;
  mutexes : gmap lockref (nat * M);
  next_lock : lockref }.
Arguments mk_locks {M}.
Arguments data_locks {M}.
Arguments mutexes {M}.
Arguments next_lock {M}.

Record fs_state (D M : Type) := mk_fs {
  disk : D;
  free_disk_blocks : list Z;
  locks : lock_table M }.
Arguments mk_fs {D M}.
Arguments disk {D M}.
Arguments free_disk_blocks {D M}.
Arguments locks {D M}.

(** What ends a program with no result. *)
Inductive fault :=
  | DiskAssert        (* a disk access out of range: the disk asserts *)
  | AssertFailed      (* an [assert] of the source *)
  | OutOfBounds       (* an array index past its end *)
  | BufferOverflow    (* a [strcpy] that does not fit *)
  | NullPointer       (* a null [shared_ptr] dereferenced *)
  | Uncaught (e : exn) (* an exception leaves the thread's function *)
  | LockMisuse        (* unlocking a mutex not held, destroying one that is *)
  | UndefinedArgument (* [atoi] of a number that is not an [int] *)
  | OutOfFuel.        (* the bound on a recursion reached (never: see FsInit) *)

#[export] Instance fault_eq_dec : EqDecision fault.
Proof. solve_decision. Defined.

Inductive outcome (A : Type) :=
  | Done (a : A)
  | Wait
  | Crash (f : fault).
Arguments Done {A} a.
Arguments Wait {A}.
Arguments Crash {A} f.

(** ** Effects and programs *)

Inductive fsE : Type → Type :=
  | DiskRead (b : Z) : fsE bytes
  | DiskWrite (b : Z) (bs : bytes) : fsE unit
  | WithFreeList (X : Type) (f : list Z → X * list Z) : fsE X
  | GetLockPtr (block : Z) : fsE lockref
  | EraseLock (block : Z) : fsE unit
  | Lock (m : lock_mode) (l : lockref) : fsE unit
  | Upgrade (l : lockref) : fsE unit
  | Unlock (m : lock_mode) (l : lockref) : fsE unit
  | DropPtr (l : lockref) : fsE unit
  | Fault (X : Type) (f : fault) : fsE X.

Inductive prog (A : Type) : Type :=
  | Ret (a : A)
  | Do (X : Type) (e : fsE X) (k : X → prog A).
Arguments Ret {A} a.
Arguments Do {A X} e k.

Fixpoint prog_bind {A B} (p : prog A) (k : A → prog B) : prog B :=
  match p with
  | Ret a => k a
  | Do e k' => Do e (λ x, prog_bind (k' x) k)
  end.

#[export] Instance prog_ret : MRet prog := @Ret.
#[export] Instance prog_mbind : MBind prog := λ A B k p, prog_bind p k.

Definition perform {X} (e : fsE X) : prog X := Do e Ret.

Definition disk_readblock (b : Z) : prog bytes := perform (DiskRead b).
Definition disk_writeblock (b : Z) (bs : bytes) : prog unit := perform (DiskWrite b bs).
Definition with_free_list {X} (f : list Z → X * list Z) : prog X :=
  perform (WithFreeList X f).
Definition get_lock_ptr (block : Z) : prog lockref := perform (GetLockPtr block).
Definition erase_lock (block : Z) : prog unit := perform (EraseLock block).
Definition lock (m : lock_mode) (l : lockref) : prog unit := perform (Lock m l).
Definition upgrade (l : lockref) : prog unit := perform (Upgrade l).
Definition unlock (m : lock_mode) (l : lockref) : prog unit := perform (Unlock m l).
Definition drop_ptr (l : lockref) : prog unit := perform (DropPtr l).
Definition crash {A} (f : fault) : prog A := perform (Fault A f).

Definition get_some {A} (f : fault) (o : option A) : prog A :=
  match o with Some a => mret a | None => crash f end.

(** A [for] loop whose body goes on with a new state or leaves the loop. *)
Inductive ctl (S R : Type) := Next (s : S) | Break (r : R).
Arguments Next {S R} s.
Arguments Break {S R} r.

(** The state after a loop that is never left early. *)
Definition loop_end {S} (c : ctl S Empty_set) : S :=
  match c with
  | Next s => s
  | Break r => match r with end
  end.

Fixpoint for_each {I S R} (l : list I) (s : S) (body : I → S → prog (ctl S R))
    : prog (ctl S R) :=
  match l with
  | [] => mret (Next s)
  | i :: l' =>
      c ← body i s;
      match c with
      | Next s' => for_each l' s' body
      | Break r => mret (Break r)
      end
  end.

(** ** Execution *)

Section exec.
Context {D M : Type} `{Disk D} `{SharedMutex M}.
Abbreviation state := (fs_state D M).

Definition set_disk (d : D) (s : state) : state :=
  mk_fs d (free_disk_blocks s) (locks s).
Definition set_free (l : list Z) (s : state) : state :=
  mk_fs (disk s) l (locks s).
Definition set_locks (t : lock_table M) (s : state) : state :=
  mk_fs (disk s) (free_disk_blocks s) t.

Definition set_mutexes (ms : gmap lockref (nat * M)) (t : lock_table M) : lock_table M :=
  mk_locks (data_locks t) ms (next_lock t).

(** [get_lock_ptr]: the lock of [block] if its [weak_ptr] has not expired, a
    new one otherwise (the body under the guard of [internal_lock_map]). *)
Definition get_lock_ptr_step (block : Z) (t : lock_table M) : lockref * lock_table M :=
  let alloc :=
    (next_lock t,
     mk_locks (<[block := next_lock t]> (data_locks t))
              (<[next_lock t := (1%nat, sm_init)]> (mutexes t))
              (S (next_lock t))) in
  match data_locks t !! block with
  | Some l =>
      match mutexes t !! l with
      | Some (n, m) => (l, set_mutexes (<[l := (S n, m)]> (mutexes t)) t)
      | None => alloc
      end
  | None => alloc
  end.

Definition erase_lock_step (block : Z) (t : lock_table M) : lock_table M :=
  mk_locks (delete block (data_locks t)) (mutexes t) (next_lock t).

(** A [shared_ptr] goes away; the last one deletes the object, which nobody
    may hold. *)
Definition drop_ptr_step (l : lockref) (t : lock_table M) : outcome (lock_table M) :=
  match mutexes t !! l with
  | Some (S (S n), m) => Done (set_mutexes (<[l := (S n, m)]> (mutexes t)) t)
  | Some (_, m) =>
      if decide (sm_holders m = nobody)
      then Done (set_mutexes (delete l (mutexes t)) t) else Crash LockMisuse
  | None => Crash NullPointer
  end.

(** An operation on a live lock. *)
Definition on_mutex (l : lockref) (f : M → outcome M) (t : lock_table M)
    : outcome (lock_table M) :=
  match mutexes t !! l with
  | Some (n, m) =>
      match f m with
      | Done m' => Done (set_mutexes (<[l := (n, m')]> (mutexes t)) t)
      | Wait => Wait
      | Crash f => Crash f
      end
  | None => Crash NullPointer
  end.

Definition or_wait (o : option M) : outcome M :=
  match o with Some m => Done m | None => Wait end.

Definition lock_step (m : lock_mode) (x : M) : outcome M := or_wait (sm_lock m x).
Definition upgrade_step (x : M) : outcome M :=
  if upgradable (sm_holders x) then or_wait (sm_upgrade x) else Crash LockMisuse.
Definition unlock_step (m : lock_mode) (x : M) : outcome M :=
  if holds m (sm_holders x) then Done (sm_unlock m x) else Crash LockMisuse.

Definition with_locks (o : outcome (lock_table M)) (s : state) : outcome (unit * state) :=
  match o with
  | Done t => Done (tt, set_locks t s)
  | Wait => Wait
  | Crash f => Crash f
  end.

Definition exec {X} (e : fsE X) (s : state) : outcome (X * state) :=
  match e in fsE X return outcome (X * state) with
  | DiskRead b =>
      if decide (valid_block b) then Done (disk_read (disk s) b, s) else Crash DiskAssert
  | DiskWrite b bs =>
      if decide (valid_block b)
      then Done (tt, set_disk (disk_write (disk s) b bs) s) else Crash DiskAssert
  | WithFreeList X f =>
      let '(x, l) := f (free_disk_blocks s) in Done (x, set_free l s)
  | GetLockPtr b =>
      let '(l, t) := get_lock_ptr_step b (locks s) in Done (l, set_locks t s)
  | EraseLock b => Done (tt, set_locks (erase_lock_step b (locks s)) s)
  | Lock m l => with_locks (on_mutex l (lock_step m) (locks s)) s
  | Upgrade l => with_locks (on_mutex l upgrade_step (locks s)) s
  | Unlock m l => with_locks (on_mutex l (unlock_step m) (locks s)) s
  | DropPtr l => with_locks (drop_ptr_step l (locks s)) s
  | Fault X f => Crash f
  end.

(** One handler, alone, from beginning to end. *)
Fixpoint run {A} (p : prog A) (s : state) : outcome (A * state) :=
  match p with
  | Ret a => Done (a, s)
  | Do e k =>
      match exec e s with
      | Done (x, s') => run (k x) s'
      | Wait => Wait
      | Crash f => Crash f
      end
  end.

(** [p], run from [s], ends without a fault and without waiting, in a result
    and a state of [Q]. *)
Definition wp {A} (p : prog A) (s : state) (Q : A → state → Prop) : Prop :=
  match run p s with
  | Done (a, s') => Q a s'
  | _ => False
  end.

Lemma wp_done {A} (p : prog A) s Q :
  wp p s Q ↔ ∃ a s', run p s = Done (a, s') ∧ Q a s'.
Proof.
  unfold wp. split.
  - destruct (run p s) as [[a s']| |]; [|done..]. eauto.
  - by intros (a & s' & -> & ?).
Qed.

Lemma wp_ret {A} (a : A) s (Q : A → state → Prop) : Q a s → wp (Ret a) s Q.
Proof. done. Qed.

Lemma run_bind {A B} (p : prog A) (k : A → prog B) s :
  run (prog_bind p k) s =
  match run p s with
  | Done (a, s') => run (k a) s'
  | Wait => Wait
  | Crash f => Crash f
  end.
Proof.
  revert s. induction p as [a|X e k' IH]; intros s; cbn; [done|].
  destruct (exec e s) as [[x s']| |]; [apply IH|done..].
Qed.

Lemma wp_bind {A B} (p : prog A) (k : A → prog B) s Q :
  wp p s (λ a s', wp (k a) s' Q) → wp (prog_bind p k) s Q.
Proof. unfold wp. rewrite run_bind. by destruct (run p s) as [[a s']| |]. Qed.

Lemma wp_mono {A} (p : prog A) s (Q Q' : A → state → Prop) :
  wp p s Q → (∀ a s', Q a s' → Q' a s') → wp p s Q'.
Proof. unfold wp. destruct (run p s) as [[a s']| |]; eauto. Qed.

Lemma wp_exec {X} (e : fsE X) s s' x (Q : X → state → Prop) :
  exec e s = Done (x, s') → Q x s' → wp (perform e) s Q.
Proof. unfold wp. cbn. by intros ->. Qed.
End exec.
