(* ===== verification/FileSystem.v ===== *)
(** * The request handlers ([src/filesystem.cpp])

    [traverse_fs], the four [execute_request] handlers and their dispatch, and
    [fs_init] with its recursive traversal, statement by statement, as programs
    of FsMonad.  The moves and destructors of the C++ locks and pointers are
    explicit: each return releases what its scope holds, in the order of
    destruction.  [printf] is not modelled. *)

From S2P Require Import Prelude CStd Request FsTypes FsMonad.

(** ** Helpers the C++ expressions stand for *)

Definition read_inode (b : Z) : prog fs_inode :=
  bs ← disk_readblock b; mret (decode_inode bs).
Definition read_direntries (b : Z) : prog (list fs_direntry) :=
  bs ← disk_readblock b; mret (decode_direntries bs).
Definition write_inode (b : Z) (i : fs_inode) : prog unit :=
  disk_writeblock b (encode_inode i).
Definition write_direntries (b : Z) (es : list fs_direntry) : prog unit :=
  disk_writeblock b (encode_direntries es).

(** [blocks[i]] and [blocks[i] = v] on the array of [FS_MAXFILEBLOCKS] entries. *)
Definition block_at (blocks : list Z) (i : Z) : prog Z :=
  get_some OutOfBounds (blocks !! Z.to_nat i).
Definition set_block (blocks : list Z) (i v : Z) : prog (list Z) :=
  match blocks !! Z.to_nat i with
  | Some _ => mret (<[Z.to_nat i := v]> blocks)
  | None => crash OutOfBounds
  end.

(** [entry.inode_block != 0 && strcmp(entry.name, name.c_str()) == 0] *)
Definition entry_matches (name : string) (e : fs_direntry) : bool :=
  negb (d_inode_block e =? 0) && strcmp_eq (c_str (d_name e)) (cut_nul name).

(** The first element that satisfies a test, with its index. *)
Fixpoint find_index {A} (f : A → bool) (l : list A) (j : nat) : option (nat * A) :=
  match l with
  | [] => None
  | x :: l' => if f x then Some (j, x) else find_index f l' (S j)
  end.

Definition pop_front (l : list Z) : option Z * list Z :=
  match l with
  | [] => (None, [])
  | b :: l' => (Some b, l')
  end.

Definition is_owner (user : string) (i : fs_inode) : bool :=
  strcmp_eq (cut_nul user) (c_str (i_owner i)).

(** ** [traverse_fs] *)

(** [inode_lock_info<T>]: the node, its lock (held in the mode [T] of the call)
    and its block. *)
Record inode_lock_info := mk_info {
  inode : fs_inode;
  lock_ptr : lockref;
  info_block : Z }.

(** The search of [path[i]] in a directory: both loops over the direntries, up
    to the entry that matches. *)
Definition find_entry (dir : fs_inode) (name : string) : prog (option Z) :=
  r ← for_each (seqZ 0 (i_size dir)) tt (λ block_idx _,
        block ← block_at (i_blocks dir) block_idx;
        direntries ← read_direntries block;
        match find_index (entry_matches name) direntries 0 with
        | Some (_, entry) => mret (Break (d_inode_block entry))
        | None => mret (Next tt)
        end);
  match r with
  | Break b => mret (Some b)
  | Next _ => mret None
  end.

Definition drop_opt (l : option lockref) : prog unit :=
  match l with
  | Some l => drop_ptr l
  | None => mret tt
  end.

(** The loop over the path.  [current_lock] is held in shared mode on
    [current_lock_ptr]; [next_lock_ptr] holds the previous lock's pointer after
    the swap; [first] is [i == 0]. *)
Fixpoint traverse_loop (T : lock_mode) (owner : string) (path : Path) (first : bool)
    (current_inode : fs_inode) (current_lock_ptr : lockref)
    (next_lock_ptr : option lockref) : prog (option inode_lock_info) :=
  let fail : prog (option inode_lock_info) :=
    unlock Shared current_lock_ptr;;
    drop_opt next_lock_ptr;;
    drop_ptr current_lock_ptr;;
    mret None in
  match path with
  | [] => fail
  | name :: path' =>
      if Ascii.eqb (i_type current_inode) type_file then fail
      else if negb (is_owner owner current_inode) && negb first then fail
      else
        found ← find_entry current_inode name;
        match found with
        | None => fail
        | Some b =>
            l ← get_lock_ptr b;
            drop_opt next_lock_ptr;;
            match path' with
            | [] =>
                lock T l;;
                unlock Shared current_lock_ptr;;
                inode ← read_inode b;
                if negb (is_owner owner inode) then
                  unlock T l;;
                  drop_ptr current_lock_ptr;;
                  drop_ptr l;;
                  mret None
                else
                  drop_ptr current_lock_ptr;;
                  mret (Some (mk_info inode l b))
            | _ =>
                lock Shared l;;
                unlock Shared current_lock_ptr;;
                inode ← read_inode b;
                traverse_loop T owner path' false inode l (Some current_lock_ptr)
            end
        end
  end.

Definition traverse_fs (T : lock_mode) (path : Path) (owner : string)
    : prog (option inode_lock_info) :=
  current_lock_ptr ← get_lock_ptr 0;
  match path with
  | [] =>
      lock T current_lock_ptr;;
      inode ← read_inode 0;
      mret (Some (mk_info inode current_lock_ptr 0))
  | _ =>
      lock Shared current_lock_ptr;;
      inode ← read_inode 0;
      traverse_loop T owner path true inode current_lock_ptr None
  end.

(** The destruction of an [inode_lock_info] whose lock is still held in mode
    [m], and the return of [r]. *)
Definition release {A} (m : lock_mode) (info : inode_lock_info) (r : A) : prog A :=
  unlock m (lock_ptr info);;
  drop_ptr (lock_ptr info);;
  mret r.

(** ** [execute_request(FS_READBLOCK)] *)

Definition execute_READBLOCK (req : FS_READBLOCK) : prog out_block :=
  if decide (rd_path req = []) then mret None
  else if FS_MAXFILEBLOCKS <=? rd_block req then mret None
  else
    dir_inode_lock ← traverse_fs Shared (rd_path req) (rd_username req);
    match dir_inode_lock with
    | None => mret None
    | Some info =>
        if Ascii.eqb (i_type (inode info)) type_dir then release Shared info None
        else if i_size (inode info) <=? rd_block req then release Shared info None
        else
          b ← block_at (i_blocks (inode info)) (rd_block req);
          out ← disk_readblock b;
          release Shared info (Some (Some out))
    end.

(** ** [execute_request(FS_WRITEBLOCK)] *)

Definition with_blocks (i : fs_inode) (size : Z) (blocks : list Z) : fs_inode :=
  mk_inode (i_type i) (i_owner i) size blocks.

Definition execute_WRITEBLOCK (req : FS_WRITEBLOCK) : prog out_block :=
  if decide (wr_path req = []) then mret None
  else if FS_MAXFILEBLOCKS <=? wr_block req then mret None
  else
    file_inode_info ← traverse_fs Upgradable (wr_path req) (wr_username req);
    match file_inode_info with
    | None => mret None
    | Some info =>
        let file_inode := inode info in
        if Ascii.eqb (i_type file_inode) type_dir then release Upgradable info None
        else if wr_block req <? i_size file_inode then
          upgrade (lock_ptr info);;
          b ← block_at (i_blocks file_inode) (wr_block req);
          data ← get_some NullPointer (wr_data req);
          disk_writeblock b data;;
          release Exclusive info (Some None)
        else if wr_block req =? i_size file_inode then
          front ← with_free_list pop_front;
          match front with
          | None => release Upgradable info None
          | Some new_block =>
              blocks ← set_block (i_blocks file_inode) (i_size file_inode) new_block;
              let file_inode := with_blocks file_inode (to_uint32 (i_size file_inode + 1)) blocks in
              b ← block_at (i_blocks file_inode) (wr_block req);
              data ← get_some NullPointer (wr_data req);
              disk_writeblock b data;;
              upgrade (lock_ptr info);;
              write_inode (info_block info) file_inode;;
              release Exclusive info (Some None)
          end
        else release Upgradable info None
    end.

(** ** [execute_request(FS_CREATE)] *)

(** [next_free_spot_block], [next_free_spot_arr_index] and
    [next_free_spot_direntries]; -1 while no free spot was seen. *)
Record free_spot := mk_spot {
  next_free_spot_block : Z;
  next_free_spot_arr_index : Z;
  next_free_spot_direntries : list fs_direntry }.

(** The inner loop over the entries of the block [dir_array_block]; [j] counts
    them.  [None] is the return because the file already exists. *)
Fixpoint scan_entries (filename : string) (dir_array_block : Z)
    (direntries : list fs_direntry) (l : list fs_direntry) (j : Z) (spot : free_spot)
    : option free_spot :=
  match l with
  | [] => Some spot
  | entry :: l' =>
      if entry_matches filename entry then None
      else
        let spot' :=
          if (d_inode_block entry =? 0) && (next_free_spot_block spot =? -1)
          then mk_spot dir_array_block j direntries
          else spot in
        scan_entries filename dir_array_block direntries l' (j + 1) spot'
  end.

Definition zero_direntry : fs_direntry := mk_direntry (replicate n_name NUL) 0.

Definition get_strcpy (dst : bytes) (src : string) : prog bytes :=
  get_some BufferOverflow (strcpy dst (cut_nul src)).

(** [junk] is the indeterminate initial value of [fs_inode new_inode;]. *)
Definition execute_CREATE (junk : fs_inode) (req : FS_CREATE) : prog out_block :=
  if decide (cr_path req = []) then mret None
  else
    no_space ← with_free_list (λ l, (bool_decide (l = []), l));
    if (no_space : bool) then mret None
    else
      let target_path := removelast (cr_path req) in
      dir_inode_lock ← traverse_fs Upgradable target_path (cr_username req);
      match dir_inode_lock with
      | None => mret None
      | Some info =>
          let dir_inode := inode info in
          if Ascii.eqb (i_type dir_inode) type_file then release Upgradable info None
          else
            let filename := default "" (last (cr_path req)) in
            scan ← for_each (seqZ 0 (i_size dir_inode)) (mk_spot (-1) (-1) [])
              (λ i spot,
                 dir_array_block ← block_at (i_blocks dir_inode) i;
                 direntries ← read_direntries dir_array_block;
                 match scan_entries filename dir_array_block direntries direntries 0 spot with
                 | None => mret (Break tt)
                 | Some spot' => mret (Next spot')
                 end);
            match scan with
            | Break _ => release Upgradable info None
            | Next spot =>
                front ← with_free_list pop_front;
                match front with
                | None => release Upgradable info None
                | Some new_inode_block =>
                    owner ← get_strcpy (i_owner junk) (cr_username req);
                    let new_inode := mk_inode (cr_type req) owner 0 (i_blocks junk) in
                    if next_free_spot_block spot =? -1 then
                      if i_size dir_inode =? FS_MAXFILEBLOCKS then
                        with_free_list (λ l, (tt, new_inode_block :: l));;
                        release Upgradable info None
                      else
                        front2 ← with_free_list (λ l,
                          match l with
                          | [] => (None, new_inode_block :: l)
                          | b :: l' => (Some b, l')
                          end);
                        match front2 with
                        | None => release Upgradable info None
                        | Some new_direntries_block =>
                            name ← get_strcpy (d_name zero_direntry) filename;
                            let new_direntries :=
                              mk_direntry name new_inode_block
                              :: replicate (n_direntries - 1) zero_direntry in
                            write_direntries new_direntries_block new_direntries;;
                            write_inode new_inode_block new_inode;;
                            blocks ← set_block (i_blocks dir_inode) (i_size dir_inode)
                                       new_direntries_block;
                            let dir_inode :=
                              with_blocks dir_inode (to_uint32 (i_size dir_inode + 1)) blocks in
                            upgrade (lock_ptr info);;
                            write_inode (info_block info) dir_inode;;
                            release Exclusive info (Some None)
                        end
                    else
                      let j := Z.to_nat (next_free_spot_arr_index spot) in
                      entry ← get_some OutOfBounds (next_free_spot_direntries spot !! j);
                      name ← get_strcpy (d_name entry) filename;
                      let direntries :=
                        <[j := mk_direntry name new_inode_block]>
                          (next_free_spot_direntries spot) in
                      write_inode new_inode_block new_inode;;
                      upgrade (lock_ptr info);;
                      write_direntries (next_free_spot_block spot) direntries;;
                      release Exclusive info (Some None)
                end
            end
      end.

(** ** [execute_request(FS_DELETE)] *)

(** What the search leaves in the locals of the handler when it finds the
    target. *)
Record found_spot := mk_found {
  direntries_index_in_parent : Z;
  found_spot_direntries_block : Z;
  found_spot_direntries_index : nat;
  found_spot_direntries : list fs_direntry;
  target_block : Z;
  target_inode : fs_inode;
  target_lock_ptr : lockref }.

(** The return while the parent is write-locked and the target upgrade-locked:
    [target_lock] is unlocked by hand, the rest by the destructors. *)
Definition abandon_delete (info : inode_lock_info) (f : found_spot) : prog out_block :=
  unlock Upgradable (target_lock_ptr f);;
  unlock Exclusive (lock_ptr info);;
  drop_ptr (target_lock_ptr f);;
  drop_ptr (lock_ptr info);;
  mret None.

(** Both loops of the search, with the locks taken at the match. *)
Definition find_target (info : inode_lock_info) (name : string) : prog (ctl unit found_spot) :=
  for_each (seqZ 0 (i_size (inode info))) tt (λ i _,
    b ← block_at (i_blocks (inode info)) i;
    direntries ← read_direntries b;
    match find_index (entry_matches name) direntries 0 with
    | None => mret (Next tt)
    | Some (j, entry) =>
        l ← get_lock_ptr (d_inode_block entry);
        upgrade (lock_ptr info);;
        lock Upgradable l;;
        target ← read_inode (d_inode_block entry);
        mret (Break (mk_found i b j direntries (d_inode_block entry) target l))
    end).

(** [for (i = index; i < size - 1; ++i) blocks[i] = blocks[i + 1];] *)
Definition shift_blocks (blocks : list Z) (index size : Z) : prog (list Z) :=
  r ← for_each (R := Empty_set) (seqZ index (to_uint32 (size - 1) - index)) blocks
    (λ i blocks,
        next ← block_at blocks (i + 1);
        blocks' ← set_block blocks i next;
        mret (Next blocks'));
  mret (loop_end r).

(** The data blocks of the target, for the free list. *)
Fixpoint blocks_upto (blocks : list Z) (l : list Z) : prog (list Z) :=
  match l with
  | [] => mret []
  | i :: l' =>
      b ← block_at blocks i;
      bs ← blocks_upto blocks l';
      mret (b :: bs)
  end.

Definition execute_DELETE (req : FS_DELETE) : prog out_block :=
  if decide (de_path req = []) then mret None
  else
    empty_fs ← with_free_list (λ l, (Z.of_nat (length l) =? 4095, l));
    if (empty_fs : bool) then mret None
    else
      let parent_path := removelast (de_path req) in
      parent_inode_info ← traverse_fs Upgradable parent_path (de_username req);
      match parent_inode_info with
      | None => mret None
      | Some info =>
          let parent_inode := inode info in
          if i_size parent_inode =? 0 then release Upgradable info None
          else if Ascii.eqb (i_type parent_inode) type_file then release Upgradable info None
          else
            found ← find_target info (default "" (last (de_path req)));
            match found with
            | Next _ => release Upgradable info None
            | Break f =>
                if negb (is_owner (de_username req) (target_inode f)) then
                  abandon_delete info f
                else if Ascii.eqb (i_type (target_inode f)) type_dir
                        && (0 <? i_size (target_inode f)) then
                  abandon_delete info f
                else
                  let can_delete_direntries :=
                    forallb (λ entry, (d_inode_block entry =? 0)
                                      || (d_inode_block entry =? target_block f))
                      (found_spot_direntries f) in
                  (if can_delete_direntries then
                     blocks ← shift_blocks (i_blocks parent_inode)
                                (direntries_index_in_parent f) (i_size parent_inode);
                     write_inode (info_block info)
                       (with_blocks parent_inode (to_uint32 (i_size parent_inode - 1)) blocks);;
                     with_free_list (λ l, (tt, l ++ [found_spot_direntries_block f]))
                   else
                     write_direntries (found_spot_direntries_block f)
                       (alter (λ e, mk_direntry (d_name e) 0)
                          (found_spot_direntries_index f) (found_spot_direntries f)));;
                  unlock Exclusive (lock_ptr info);;
                  upgrade (target_lock_ptr f);;
                  erase_lock (target_block f);;
                  data ← (if Ascii.eqb (i_type (target_inode f)) type_file
                          then blocks_upto (i_blocks (target_inode f))
                                 (seqZ 0 (i_size (target_inode f)))
                          else mret []);
                  with_free_list (λ l, (tt, l ++ data ++ [target_block f]));;
                  unlock Exclusive (target_lock_ptr f);;
                  drop_ptr (target_lock_ptr f);;
                  drop_ptr (lock_ptr info);;
                  mret (Some None)
            end
      end.

(** ** [execute_request(Request)]: [std::visit] *)

Definition execute_request (junk : fs_inode) (req : Request) : prog out_block :=
  match req with
  | Req_READBLOCK r => execute_READBLOCK r
  | Req_WRITEBLOCK r => execute_WRITEBLOCK r
  | Req_CREATE r => execute_CREATE junk r
  | Req_DELETE r => execute_DELETE r
  end.

(** ** [initial_traverse_helper] and [fs_init] *)

(** [assert(!blocks_used.contains(block)); blocks_used.insert(block);] *)
Definition use_block (used : gset Z) (b : Z) : prog (gset Z) :=
  if decide (b ∈ used) then crash AssertFailed else mret ({[b]} ∪ used).

(** [for (i = 0; i < size; ++i)] over the blocks of an inode. *)
Fixpoint fold_blocks {S} (blocks : list Z) (l : list Z) (st : S) (body : Z → S → prog S)
    : prog S :=
  match l with
  | [] => mret st
  | i :: l' =>
      b ← block_at blocks i;
      st' ← body b st;
      fold_blocks blocks l' st' body
  end.

Fixpoint fold_entries {S} (es : list fs_direntry) (st : S) (body : fs_direntry → S → prog S)
    : prog S :=
  match es with
  | [] => mret st
  | e :: es' => st' ← body e st; fold_entries es' st' body
  end.

(** The recursion is on the tree of the disk; [fuel] bounds its depth. *)
Fixpoint initial_traverse_helper (fuel : nat) (blocks_used : gset Z)
    (current_inode_block : Z) : prog (gset Z) :=
  match fuel with
  | O => crash OutOfFuel
  | S fuel' =>
      current_inode ← read_inode current_inode_block;
      let indices := seqZ 0 (i_size current_inode) in
      used ← fold_blocks (i_blocks current_inode) indices blocks_used
               (λ block used, use_block used block);
      if Ascii.eqb (i_type current_inode) type_file then mret used
      else if Ascii.eqb (i_type current_inode) type_dir then
        fold_blocks (i_blocks current_inode) indices used (λ block used,
          direntries ← read_direntries block;
          fold_entries direntries used (λ entry used,
            if d_inode_block entry =? 0 then mret used
            else
              used' ← use_block used (d_inode_block entry);
              initial_traverse_helper fuel' used' (d_inode_block entry)))
      else crash AssertFailed
  end.

(** Each nested call has put one more block, which the disk then reads, into the
    set, so [FS_DISKSIZE] + 1 calls deep is enough ([fs_init_fuel] in FsInit). *)
Definition traverse_fuel : nat := 4097.

Definition fs_init : prog unit :=
  blocks_used ← initial_traverse_helper traverse_fuel ∅ 0;
  with_free_list (λ l,
    (tt, l ++ filter (λ i, i ∉ blocks_used) (seqZ 1 (FS_DISKSIZE - 1)))).

(** [check_disk_blocks_synced], which the handlers call when the constant
    [strong_asserts] is set: the comparison is of [std::set]s. *)
Definition check_disk_blocks_synced : prog unit :=
  old_free_list ← with_free_list (λ l, (l, l));
  fs_init;;
  new_free_list ← with_free_list (λ l, (l, l));
  if decide (list_to_set (C := gset Z) old_free_list = list_to_set new_free_list)
  then mret tt else crash AssertFailed.
