(* ===== verification/FsTree.v ===== *)
(** * The file system as a tree

    The abstract state of the file server: a tree of files and directories
    labelled with the blocks that store them, what it means for a disk to store
    a tree, and the operations on trees the handlers implement.  [resolve] forgets
    the blocks and gives what a client sees at each path. *)

From S2P Require Import Prelude CStd Request FsTypes.

(** ** Trees *)

#[local] Set Warnings "-register-all".

(** A file has its data blocks with their contents; a directory its blocks of
    direntries with their slots, [None] for an unused one. *)
Inductive tree :=
  | File (blk : Z) (owner : string) (data : list (Z * bytes))
  | Dir (blk : Z) (owner : string) (chunks : list (Z * list (option (string * tree)))).

Abbreviation slot := (option (string * tree)).
Abbreviation chunk := (Z * list slot)%type.

Definition root_block (t : tree) : Z :=
  match t with File b _ _ | Dir b _ _ => b end.
Definition tree_owner (t : tree) : string :=
  match t with File _ o _ | Dir _ o _ => o end.
Definition is_dir (t : tree) : bool :=
  match t with File _ _ _ => false | Dir _ _ _ => true end.

(** The used slots of the blocks of a directory, in order. *)
Definition chunk_entries (chunks : list chunk) : list (string * tree) :=
  omap id (concat chunks.*2).

Definition children (t : tree) : list (string * tree) :=
  match t with
  | File _ _ _ => []
  | Dir _ _ chunks => chunk_entries chunks
  end.

(** The blocks of a node itself, and of everything below it. *)
Definition node_blocks (t : tree) : list Z :=
  match t with
  | File b _ data => b :: data.*1
  | Dir b _ chunks => b :: chunks.*1
  end.

Fixpoint used (t : tree) : list Z :=
  match t with
  | File b _ data => b :: data.*1
  | Dir b _ chunks =>
      b :: chunks.*1 ++
      concat (map (λ c : chunk,
        concat (map (λ s : slot, match s with Some (_, t') => used t' | None => [] end) c.2))
        chunks)
  end.

(** Every node of the tree. *)
Inductive all_nodes (P : tree → Prop) : tree → Prop :=
  all_nodes_intro t :
    P t → (∀ n c, (n, c) ∈ children t → all_nodes P c) → all_nodes P t.

(** The child of a given name. *)
Definition find_child (name : string) (l : list (string * tree)) : option tree :=
  snd <$> find (λ p, String.eqb p.1 name) l.

Definition child (t : tree) (name : string) : option tree :=
  find_child name (children t).

Fixpoint subtree (t : tree) (path : Path) {struct path} : option tree :=
  match path with
  | [] => Some t
  | name :: path' => c ← child t name; subtree c path'
  end.

(** What a client can observe of a node. *)
Inductive view :=
  | VFile (owner : string) (data : list bytes)
  | VDir (owner : string).

Definition node_view (t : tree) : view :=
  match t with
  | File _ o data => VFile o data.*2
  | Dir _ o _ => VDir o
  end.

(** The abstract file system: a map from paths to nodes. *)
Definition resolve (t : tree) (path : Path) : option view :=
  node_view <$> subtree t path.

(** ** Changing the node at a path *)

Definition update_slot (name : string) (f : tree → tree) (s : slot) : slot :=
  match s with
  | Some (n, c) => if String.eqb n name then Some (n, f c) else s
  | None => None
  end.

Definition update_chunks (name : string) (f : tree → tree) (chunks : list chunk)
    : list chunk :=
  map (λ c : chunk, (c.1, map (update_slot name f) c.2)) chunks.

Fixpoint update (t : tree) (path : Path) (f : tree → tree) {struct path} : tree :=
  match path with
  | [] => f t
  | name :: path' =>
      match t with
      | File _ _ _ => t
      | Dir b o chunks => Dir b o (update_chunks name (λ c, update c path' f) chunks)
      end
  end.

(** ** Which disk stores which tree *)

Section stored.
Context {D : Type} `{Disk D}.

(** The inode at [b] has this type, owner and list of blocks. *)
Definition inode_is (i : fs_inode) (type : byte) (o : string) (blocks : list Z) : Prop :=
  i_type i = type ∧ c_str (i_owner i) = o ∧
  i_size i = Z.of_nat (length blocks) ∧ take (length blocks) (i_blocks i) = blocks.

(** A direntry and the slot it stores. *)
Definition entry_is (e : fs_direntry) (s : slot) : Prop :=
  match s with
  | None => d_inode_block e = 0
  | Some (n, c) => d_inode_block e = root_block c ∧ root_block c ≠ 0 ∧ c_str (d_name e) = n
  end.

Definition chunk_is (d : D) (c : chunk) : Prop :=
  Forall2 entry_is (read_as (list fs_direntry) d c.1) c.2.

Definition node_stored (d : D) (t : tree) : Prop :=
  match t with
  | File b o data =>
      inode_is (read_as fs_inode d b) type_file o data.*1 ∧
      Forall (λ p, disk_read d p.1 = p.2) data
  | Dir b o chunks =>
      inode_is (read_as fs_inode d b) type_dir o chunks.*1 ∧
      Forall (chunk_is d) chunks
  end.

Definition stored (d : D) (t : tree) : Prop := all_nodes (node_stored d) t.
End stored.

(** No two entries of a directory have the same name, and no block of
    direntries is empty (the handlers free it when its last entry goes). *)
Definition node_shape (t : tree) : Prop :=
  match t with
  | File _ _ _ => True
  | Dir _ _ chunks =>
      NoDup (chunk_entries chunks).*1 ∧ Forall (λ c, omap id c.2 ≠ []) chunks
  end.

Definition shape (t : tree) : Prop := all_nodes node_shape t.

(** ** Structure *)

Lemma elem_of_chunk_entries n c chunks :
  (n, c) ∈ chunk_entries chunks ↔ ∃ b slots, (b, slots) ∈ chunks ∧ Some (n, c) ∈ slots.
Proof.
  unfold chunk_entries. rewrite list_elem_of_omap. split.
  - intros (s & Hs & Heq). cbn in Heq. subst s.
    apply elem_of_concat in Hs as (slots & Hs & (ch & -> & Hch)%list_elem_of_fmap).
    destruct ch as [b slots]. eauto.
  - intros (b & slots & Hch & Hs). exists (Some (n, c)). split; [|done].
    apply elem_of_concat. exists slots. split; [done|].
    apply list_elem_of_fmap. by exists (b, slots).
Qed.

(** Induction on trees through the children. *)
Lemma tree_children_ind (P : tree → Prop) :
  (∀ b o data, P (File b o data)) →
  (∀ b o chunks, (∀ n c, (n, c) ∈ chunk_entries chunks → P c) → P (Dir b o chunks)) →
  ∀ t, P t.
Proof.
  intros Hfile Hdir. fix IH 1. intros [b o data|b o chunks]; [apply Hfile|].
  assert (Forall (λ ch : chunk,
            Forall (λ s : slot, match s with Some (_, c) => P c | None => True end) ch.2)
          chunks) as Hall.
  { induction chunks as [|[b' slots] chunks IHc]; constructor; [clear IHc|exact IHc].
    cbn. induction slots as [|[[n' c']|] slots IHs]; constructor;
      [exact (IH c')|exact IHs|exact I|exact IHs]. }
  apply Hdir. intros n c (b' & slots & Hch & Hs)%elem_of_chunk_entries.
  rewrite Forall_forall in Hall. apply Hall in Hch. rewrite Forall_forall in Hch.
  exact (Hch _ Hs).
Qed.

Lemma all_nodes_here P t : all_nodes P t → P t.
Proof. by destruct 1. Qed.

Lemma all_nodes_child P t n c : all_nodes P t → (n, c) ∈ children t → all_nodes P c.
Proof. destruct 1; eauto. Qed.

Lemma all_nodes_mono (P Q : tree → Prop) t :
  (∀ t, P t → Q t) → all_nodes P t → all_nodes Q t.
Proof. intros HPQ. induction 1. constructor; eauto. Qed.

Lemma used_children t :
  used t = node_blocks t ++ concat (used <$> (children t).*2).
Proof.
  destruct t as [b o data|b o chunks]; cbn; [by rewrite app_nil_r|].
  do 2 f_equal. unfold chunk_entries. generalize chunks. clear chunks.
  induction chunks as [|[b' slots] chunks IH]; cbn; [done|].
  rewrite omap_app fmap_app fmap_app concat_app. f_equal; [|exact IH]. clear.
  induction slots as [|[[n c]|] slots IH]; cbn; [done|by f_equal|done].
Qed.

Lemma root_block_used t : root_block t ∈ used t.
Proof. destruct t; cbn; apply elem_of_cons; by left. Qed.

Lemma used_child t n c b : (n, c) ∈ children t → b ∈ used c → b ∈ used t.
Proof.
  intros Hc Hb. rewrite used_children. apply elem_of_app. right.
  apply elem_of_concat. exists (used c). split; [done|].
  apply list_elem_of_fmap. exists c. split; [done|].
  apply list_elem_of_fmap. by exists (n, c).
Qed.

Lemma find_child_Some name l c :
  find_child name l = Some c → (name, c) ∈ l.
Proof.
  unfold find_child. intros H. apply fmap_Some in H as ([n c'] & Hf & ->).
  apply find_some in Hf as [Hin%list_elem_of_In Heq]. cbn in *. by reflect_bools; subst.
Qed.

Lemma find_child_elem name l c :
  NoDup l.*1 → (name, c) ∈ l → find_child name l = Some c.
Proof.
  induction l as [|[n c'] l IH]; cbn; [by intros _ ?%not_elem_of_nil|].
  intros [Hn Hnd]%NoDup_cons [Heq|Hin]%elem_of_cons.
  - injection Heq as -> ->. unfold find_child. cbn. by rewrite String.eqb_refl.
  - unfold find_child. cbn. destruct (String.eqb_spec n name) as [->|_].
    + destruct Hn. apply list_elem_of_fmap. by exists (name, c).
    + by apply IH.
Qed.

Lemma find_child_None name l : find_child name l = None ↔ name ∉ l.*1.
Proof.
  unfold find_child. rewrite fmap_None. split.
  - intros Hf Hin. apply list_elem_of_fmap in Hin as ([n c] & -> & Hin).
    eapply find_none in Hf; [|by apply list_elem_of_In]. by rewrite String.eqb_refl in Hf.
  - intros Hn. destruct (find _ l) as [[n c]|] eqn:Hf; [|done].
    apply find_some in Hf as [Hin%list_elem_of_In Heq]. cbn in *. reflect_bools. subst.
    destruct Hn. apply list_elem_of_fmap. by exists (name, c).
Qed.

Lemma child_elem t name c : child t name = Some c → (name, c) ∈ children t.
Proof. apply find_child_Some. Qed.

(** ** Frame: a disk that agrees on the blocks of a tree stores it too *)

Section frame.
Context {D : Type} `{Disk D}.

Lemma read_as_agree (T : Type) `{OnDisk T} (d d' : D) b :
  disk_read d' b = disk_read d b → read_as T d' b = read_as T d b.
Proof. unfold read_as. by intros ->. Qed.

Lemma node_stored_frame (d d' : D) t :
  node_stored d t → (∀ b, b ∈ node_blocks t → disk_read d' b = disk_read d b) →
  node_stored d' t.
Proof.
  intros Ht Hagree. destruct t as [b o data|b o chunks];
    cbn [node_stored node_blocks] in *; destruct Ht as [Hi Hd].
  - split.
    + rewrite (read_as_agree _ d); [done|]. apply Hagree, elem_of_cons. by left.
    + rewrite Forall_forall in Hd. apply Forall_forall. intros p Hp.
      rewrite Hagree; [by apply Hd|]. apply elem_of_cons. right. by apply list_elem_of_fmap_2.
  - split.
    + rewrite (read_as_agree _ d); [done|]. apply Hagree, elem_of_cons. by left.
    + rewrite Forall_forall in Hd. apply Forall_forall. intros c Hc. unfold chunk_is.
      rewrite (read_as_agree _ d); [by apply Hd|]. apply Hagree, elem_of_cons.
      right. by apply list_elem_of_fmap_2.
Qed.

Lemma stored_frame (d d' : D) t :
  stored d t → (∀ b, b ∈ used t → disk_read d' b = disk_read d b) → stored d' t.
Proof.
  induction 1 as [t Ht Hc IH]. intros Hagree. constructor.
  - apply (node_stored_frame d); [done|]. intros b Hb. apply Hagree.
    rewrite used_children. apply elem_of_app. by left.
  - intros n c Hin. eapply IH; [done|]. intros b Hb. apply Hagree. by eapply used_child.
Qed.
End frame.

(** ** Disjointness of the blocks of different nodes *)

Lemma NoDup_concat_disjoint {A} (ls : list (list A)) i j l1 l2 x :
  NoDup (concat ls) → ls !! i = Some l1 → ls !! j = Some l2 → i ≠ j →
  x ∈ l1 → x ∉ l2.
Proof.
  revert i j. induction ls as [|l ls IH]; intros i j Hnd Hi Hj Hij Hx1 Hx2; [done|].
  cbn in Hnd. apply NoDup_app in Hnd as (_ & Hdisj & Hnd).
  destruct i as [|i], j as [|j]; [done|..]; cbn in Hi, Hj; simplify_eq.
  - apply (Hdisj x Hx1), elem_of_concat. exists l2. split; [done|]. by eapply list_elem_of_lookup_2.
  - apply (Hdisj x Hx2), elem_of_concat. exists l1. split; [done|]. by eapply list_elem_of_lookup_2.
  - eapply (IH i j); eauto.
Qed.

Lemma NoDup_concat_elem {A} (ls : list (list A)) l :
  NoDup (concat ls) → l ∈ ls → NoDup l.
Proof.
  induction ls as [|l' ls IH]; [by intros _ ?%not_elem_of_nil|].
  cbn. intros (H1 & _ & H2)%NoDup_app [->|?]%elem_of_cons; eauto.
Qed.

Lemma used_child_NoDup t n c : NoDup (used t) → (n, c) ∈ children t → NoDup (used c).
Proof.
  rewrite used_children. intros (_ & _ & Hnd)%NoDup_app Hc.
  eapply NoDup_concat_elem; [exact Hnd|]. apply list_elem_of_fmap_2.
  by apply (list_elem_of_fmap_2 snd _ (n, c)).
Qed.

(** The children of a node own different blocks, and none of the node's own. *)
Lemma used_children_disjoint t n c n' c' b :
  NoDup (used t) → (n, c) ∈ children t → (n', c') ∈ children t → n ≠ n' →
  b ∈ used c → b ∉ used c'.
Proof.
  rewrite used_children. intros (_ & _ & Hnd)%NoDup_app Hc Hc' Hn.
  apply list_elem_of_lookup in Hc as [i Hi]. apply list_elem_of_lookup in Hc' as [j Hj].
  eapply (NoDup_concat_disjoint _ i j); [exact Hnd| | |].
  - by rewrite !list_lookup_fmap Hi.
  - by rewrite !list_lookup_fmap Hj.
  - intros ->. congruence.
Qed.

Lemma node_blocks_child_disjoint t n c b :
  NoDup (used t) → (n, c) ∈ children t → b ∈ node_blocks t → b ∉ used c.
Proof.
  rewrite used_children. intros (_ & Hdisj & _)%NoDup_app Hc Hb Hbc.
  apply (Hdisj b Hb), elem_of_concat. exists (used c). split; [done|].
  apply list_elem_of_fmap_2. by apply (list_elem_of_fmap_2 snd _ (n, c)).
Qed.

(** ** Updates *)

Lemma subtree_used t path c b : subtree t path = Some c → b ∈ used c → b ∈ used t.
Proof.
  revert t. induction path as [|nm path IH]; intros t; cbn.
  - by intros [= ->].
  - intros Hs Hb. apply bind_Some in Hs as (c' & Hc' & Hs).
    eapply used_child; [by apply child_elem|]. by eapply IH.
Qed.

Lemma subtree_all_nodes P t path c : all_nodes P t → subtree t path = Some c → all_nodes P c.
Proof.
  revert t. induction path as [|nm path IH]; intros t Ht; cbn.
  - by intros [= <-].
  - intros (c' & Hc' & Hs)%bind_Some. eapply IH; [|exact Hs].
    eapply all_nodes_child; [exact Ht|by apply child_elem].
Qed.

Definition update_entry (name : string) (f : tree → tree) (p : string * tree)
    : string * tree :=
  if String.eqb p.1 name then (p.1, f p.2) else p.

Lemma chunk_entries_app c1 c2 :
  chunk_entries (c1 ++ c2) = chunk_entries c1 ++ chunk_entries c2.
Proof. unfold chunk_entries. by rewrite fmap_app concat_app omap_app. Qed.

Lemma chunk_entries_cons b slots chunks :
  chunk_entries ((b, slots) :: chunks) = omap id slots ++ chunk_entries chunks.
Proof. unfold chunk_entries. cbn. by rewrite omap_app. Qed.

Lemma slot_entries_update name f (slots : list slot) :
  omap id (map (update_slot name f) slots) = update_entry name f <$> omap id slots.
Proof.
  induction slots as [|[[n c]|] slots IH]; cbn; [done| |done].
  unfold update_entry at 1. cbn. destruct (String.eqb n name); cbn; by rewrite IH.
Qed.

Lemma chunk_entries_update name f chunks :
  chunk_entries (update_chunks name f chunks) = update_entry name f <$> chunk_entries chunks.
Proof.
  induction chunks as [|[b slots] chunks IH]; [done|].
  cbn [update_chunks map fst snd]. rewrite !chunk_entries_cons fmap_app.
  by rewrite slot_entries_update -IH.
Qed.

Lemma update_entry_fst name f l : (update_entry name f <$> l).*1 = l.*1.
Proof.
  rewrite -list_fmap_compose. apply list_fmap_ext. intros i [n c] _. cbn.
  unfold update_entry. cbn. by destruct (String.eqb n name).
Qed.

Lemma find_child_update_eq name f l :
  find_child name (update_entry name f <$> l) = f <$> find_child name l.
Proof.
  induction l as [|[n c] l IH]; [done|]. unfold find_child in *. cbn.
  unfold update_entry at 1 2. cbn.
  destruct (String.eqb n name) eqn:E; cbn; rewrite E; [done|exact IH].
Qed.

Lemma find_child_update_ne name name' f l :
  name ≠ name' → find_child name' (update_entry name f <$> l) = find_child name' l.
Proof.
  intros Hne. induction l as [|[n c] l IH]; [done|]. unfold find_child in *. cbn.
  unfold update_entry at 1 2. cbn.
  destruct (String.eqb_spec n name) as [->|Hn]; cbn.
  - destruct (String.eqb_spec name name') as [|_]; [done|]. exact IH.
  - destruct (String.eqb n name'); [done|]. exact IH.
Qed.

Lemma child_Dir b o chunks name : child (Dir b o chunks) name = find_child name (chunk_entries chunks).
Proof. done. Qed.

Lemma child_update_chunks_eq b o name f chunks :
  child (Dir b o (update_chunks name f chunks)) name = f <$> child (Dir b o chunks) name.
Proof. by rewrite !child_Dir chunk_entries_update find_child_update_eq. Qed.

Lemma child_update_chunks_ne b o name name' f chunks :
  name ≠ name' →
  child (Dir b o (update_chunks name f chunks)) name' = child (Dir b o chunks) name'.
Proof. intros. by rewrite !child_Dir chunk_entries_update find_child_update_ne. Qed.

Lemma child_is_Dir t name c : child t name = Some c → ∃ b o chunks, t = Dir b o chunks.
Proof. destruct t; [done|eauto]. Qed.

Lemma root_block_update t path f c :
  subtree t path = Some c → root_block (f c) = root_block c →
  root_block (update t path f) = root_block t.
Proof.
  destruct path as [|nm path]; cbn [subtree]; [intros [= ->] Hf; exact Hf|].
  intros (c' & Hc' & _)%bind_Some _. apply child_is_Dir in Hc' as (b & o & chunks & ->). done.
Qed.

(** An entry of the updated directory is the updated child, or an old one. *)
Lemma elem_of_update_entries name f (l : list (string * tree)) n c :
  (n, c) ∈ (update_entry name f <$> l) →
  ∃ c0, (n, c0) ∈ l ∧ c = if String.eqb n name then f c0 else c0.
Proof.
  intros ([n' c'] & Heq & Hin)%list_elem_of_fmap. unfold update_entry in Heq. cbn in Heq.
  destruct (String.eqb n' name) eqn:E; injection Heq as -> ->; rewrite ?E; eauto.
Qed.

Lemma shape_update t path f c :
  shape t → subtree t path = Some c → shape (f c) → shape (update t path f).
Proof.
  revert t. induction path as [|nm path IH]; intros t Ht; cbn; [by intros [= ->]|].
  intros (c' & Hc' & Hs)%bind_Some Hf.
  pose proof (child_is_Dir _ _ _ Hc') as (b & o & chunks & ->).
  pose proof (all_nodes_here _ _ Ht) as [Hnd Hne]. constructor.
  - cbn. rewrite chunk_entries_update update_entry_fst. split; [done|].
    apply Forall_map. eapply Forall_impl; [exact Hne|]. intros [b' slots]. cbn.
    rewrite slot_entries_update. intros Hn Hnil. by apply fmap_nil_inv in Hnil.
  - cbn [children]. rewrite chunk_entries_update.
    intros n cc (c0 & Hin & ->)%elem_of_update_entries.
    destruct (String.eqb_spec n nm) as [->|_].
    + rewrite child_Dir in Hc'. rewrite (find_child_elem nm _ c0) in Hc'; [|done..].
      injection Hc' as ->. apply IH; [|done..].
      by eapply all_nodes_child; [exact Ht|].
    + by eapply all_nodes_child; [exact Ht|].
Qed.

Lemma concat_used_update name f (l : list (string * tree)) c :
  NoDup l.*1 → (name, c) ∈ l →
  concat (used <$> (update_entry name f <$> l).*2) ++ used c
  ≡ₚ concat (used <$> l.*2) ++ used (f c).
Proof.
  induction l as [|[n c'] l IH]; cbn; [by intros _ ?%not_elem_of_nil|].
  intros [Hn Hnd]%NoDup_cons [Heq|Hin]%elem_of_cons.
  - injection Heq as <- <-. rewrite {1}/update_entry /= String.eqb_refl /=.
    assert (update_entry name f <$> l = l) as ->; [|solve_Permutation].
    rewrite -{2}(list_fmap_id l). apply list_fmap_ext. intros i [n' c''] Hi.
    unfold update_entry. cbn. destruct (String.eqb_spec n' name) as [->|]; [|done].
    destruct Hn. apply list_elem_of_lookup_2 in Hi. by apply (list_elem_of_fmap_2 fst _ (name, c'')).
  - rewrite {1}/update_entry /=. destruct (String.eqb_spec n name) as [->|_]; cbn.
    { destruct Hn. by apply (list_elem_of_fmap_2 fst _ (name, c)). }
    rewrite -!app_assoc. apply Permutation_app_head. by apply IH.
Qed.

Lemma used_update t path f c :
  shape t → subtree t path = Some c →
  used (update t path f) ++ used c ≡ₚ used t ++ used (f c).
Proof.
  revert t. induction path as [|nm path IH]; intros t Ht; cbn.
  { intros [= ->]. apply Permutation_app_comm. }
  intros (c' & Hc' & Hs)%bind_Some.
  pose proof (child_is_Dir _ _ _ Hc') as (b & o & chunks & ->).
  pose proof (all_nodes_here _ _ Ht) as [Hnd _]. apply child_elem in Hc' as Hin.
  specialize (IH c' (all_nodes_child _ _ _ _ Ht Hin) Hs). cbn [children] in Hin.
  rewrite (used_children (Dir b o chunks)) (used_children (Dir b o (update_chunks _ _ _))).
  cbn [node_blocks children]. rewrite chunk_entries_update.
  assert ((update_chunks nm (λ c, update c path f) chunks).*1 = chunks.*1) as ->.
  { unfold update_chunks. rewrite -list_fmap_compose. done. }
  pose proof (concat_used_update nm (λ c, update c path f) _ c' Hnd Hin) as Hperm.
  cbv beta in Hperm. set (l1 := concat _) in Hperm |- *. set (l2 := concat _) in Hperm |- *.
  apply (Permutation_app_inv_r (used c')).
  generalize dependent (b :: chunks.*1). intros nb.
  trans (nb ++ (l1 ++ used c') ++ used c); [solve_Permutation|].
  rewrite Hperm. trans (nb ++ l2 ++ (used (update c' path f) ++ used c)); [solve_Permutation|].
  rewrite IH. solve_Permutation.
Qed.

(** Writing only blocks of a node (or free ones) so that the new node is stored
    stores the updated tree. *)
Section stored_update.
Context {D : Type} `{Disk D}.

Lemma chunk_is_update (d d' : D) name f (ch : chunk) :
  chunk_is d ch → disk_read d' ch.1 = disk_read d ch.1 →
  (∀ c, Some (name, c) ∈ ch.2 → root_block (f c) = root_block c) →
  chunk_is d' (ch.1, map (update_slot name f) ch.2).
Proof.
  unfold chunk_is. cbn [fst snd]. intros Hch Hagree Hf.
  rewrite (read_as_agree _ d) //. revert Hch Hf. generalize (ch.2) as slots. clear.
  intros slots. induction 1 as [|e s es slots Hes _ IH]; intros Hf; [constructor|].
  cbn [map]. constructor; [|apply IH; intros; apply Hf, elem_of_cons; by right].
  destruct s as [[n c]|]; [|done]. cbn in Hes |- *.
  destruct (String.eqb_spec n name) as [->|_]; [|done].
  cbn. rewrite Hf; [done|]. apply elem_of_cons. by left.
Qed.

Lemma stored_update (d d' : D) t path f c :
  stored d t → shape t → NoDup (used t) → subtree t path = Some c →
  (∀ b, b ∈ used t → b ∉ used c → disk_read d' b = disk_read d b) →
  stored d' (f c) → root_block (f c) = root_block c →
  stored d' (update t path f).
Proof.
  intros Hst. revert t Hst. induction path as [|nm path IH]; intros t Hst Hsh Hnd;
    cbn [subtree update].
  { by intros [= ->]. }
  intros (c' & Hc' & Hs)%bind_Some Hagree Hfc Hroot.
  pose proof (child_is_Dir _ _ _ Hc') as (b & o & chunks & ->).
  pose proof (all_nodes_here _ _ Hsh) as [Hnames _].
  apply child_elem in Hc' as Hin.
  assert (∀ x, (nm, x) ∈ chunk_entries chunks → x = c') as Huniq.
  { intros x Hx. rewrite child_Dir in Hc'.
    rewrite (find_child_elem nm _ x) // in Hc'. by injection Hc'. }
  assert (∀ x, x ∈ node_blocks (Dir b o chunks) → disk_read d' x = disk_read d x) as Hnode.
  { intros x Hx. apply Hagree.
    - rewrite used_children. apply elem_of_app. by left.
    - intros Hxc. eapply (node_blocks_child_disjoint _ nm c'); [exact Hnd|exact Hin|exact Hx|].
      by eapply subtree_used. }
  constructor.
  - destruct (all_nodes_here _ _ Hst) as [Hi Hch]. split.
    + rewrite (read_as_agree _ d); [|apply Hnode, elem_of_cons; by left].
      by replace ((update_chunks _ _ chunks).*1) with (chunks.*1)
        by (unfold update_chunks; by rewrite -list_fmap_compose).
    + apply Forall_map. rewrite Forall_forall in Hch. apply Forall_forall.
      intros [b' slots] Hbs. apply (chunk_is_update d); [by apply Hch| |].
      * apply Hnode. cbn. apply elem_of_cons. right. by apply (list_elem_of_fmap_2 fst _ (b', slots)).
      * intros x Hx. rewrite (Huniq x); [|].
        { by eapply root_block_update. }
        apply elem_of_chunk_entries. eauto.
  - cbn [children]. rewrite chunk_entries_update.
    intros n cc (c0 & Hin0 & ->)%elem_of_update_entries.
    assert (stored d c0) as Hst0 by (by eapply all_nodes_child; [exact Hst|]).
    destruct (String.eqb_spec n nm) as [->|Hne].
    + rewrite (Huniq _ Hin0) in Hst0 |- *. apply IH; [done| | |done| |done|done].
      * by eapply all_nodes_child; [exact Hsh|].
      * by eapply used_child_NoDup.
      * intros x Hx. apply Hagree. by apply (used_child _ nm c').
    + apply (stored_frame d); [done|]. intros x Hx. apply Hagree; [by apply (used_child _ n c0)|].
      intros Hxc. eapply (used_children_disjoint _ n c0 nm c'); [exact Hnd|done|done|done|done|].
      by eapply subtree_used.
Qed.
End stored_update.

(** ** What an update changes for a client *)

Lemma subtree_update_below t path f c q :
  subtree t path = Some c → subtree (update t path f) (path ++ q) = subtree (f c) q.
Proof.
  revert t. induction path as [|nm path IH]; intros t; cbn [subtree update app].
  { by intros [= ->]. }
  intros (c' & Hc' & Hs)%bind_Some. pose proof (child_is_Dir _ _ _ Hc') as (b & o & chunks & ->).
  rewrite child_update_chunks_eq Hc'. cbn. by apply IH.
Qed.

Lemma resolve_update_other t path f c q :
  subtree t path = Some c → ¬ path `prefix_of` q →
  resolve (update t path f) q = resolve t q.
Proof.
  unfold resolve. revert t q. induction path as [|nm path IH]; intros t q Hs Hq.
  { destruct Hq. apply prefix_nil. }
  cbn [subtree update] in *. apply bind_Some in Hs as (c' & Hc' & Hs).
  pose proof (child_is_Dir _ _ _ Hc') as (b & o & chunks & ->).
  destruct q as [|nm' q]; [done|]. cbn [subtree].
  destruct (decide (nm = nm')) as [<-|Hne].
  - rewrite child_update_chunks_eq Hc'. cbn. apply IH; [done|].
    intros Hp. apply Hq. by apply prefix_cons.
  - by rewrite child_update_chunks_ne.
Qed.

(** ** The walk of a user along a path *)

(** [traverse_fs] on trees: everyone may search the root; below it every
    directory crossed and the final node must belong to the user. *)
Fixpoint walk (user : string) (t : tree) (path : Path) (first : bool) : option tree :=
  match path with
  | [] => if first || String.eqb user (tree_owner t) then Some t else None
  | name :: path' =>
      match t with
      | File _ _ _ => None
      | Dir _ o _ =>
          if negb first && negb (String.eqb user o) then None
          else c ← child t name; walk user c path' false
      end
  end.

Lemma walk_subtree user t path first c :
  walk user t path first = Some c → subtree t path = Some c.
Proof.
  revert t first. induction path as [|nm path IH]; intros t first; cbn [walk subtree].
  { by case_match. }
  destruct t as [b o data|b o chunks]; [done|]. case_match; [done|].
  intros (c' & Hc' & Hw)%bind_Some. rewrite Hc'. cbn. by eapply IH.
Qed.

(** The nodes strictly below the root that the path crosses, with its end. *)
Definition owned_along (user : string) (t : tree) (path : Path) : Prop :=
  ∀ p, p `prefix_of` path → p ≠ [] → ∃ c, subtree t p = Some c ∧ tree_owner c = user.

Lemma walk_iff user t path c :
  walk user t path true = Some c ↔ subtree t path = Some c ∧ owned_along user t path.
Proof.
  enough (∀ t first, walk user t path first = Some c ↔
    subtree t path = Some c ∧ owned_along user t path ∧
    (first = false → tree_owner t = user)) as H.
  { rewrite H. naive_solver. }
  clear t. induction path as [|nm path IH]; intros t first; cbn [walk subtree].
  - destruct first; cbn [orb].
    + split; [|naive_solver]. intros ->. split; [done|]. split; [|done].
      intros p ->%prefix_nil_inv. done.
    + destruct (String.eqb_spec user (tree_owner t)) as [->|Hne].
      * split; [|naive_solver]. intros ->. split; [done|]. split; [|done].
        intros p ->%prefix_nil_inv. done.
      * split; [done|]. intros (_ & _ & Ho). by rewrite Ho in Hne.
  - destruct t as [b o data|b o chunks]; [split; [done|by intros [? _]]|].
    assert (owned_along user (Dir b o chunks) (nm :: path) ↔
      ∃ c', child (Dir b o chunks) nm = Some c' ∧ tree_owner c' = user ∧ owned_along user c' path)
      as Halong.
    { split.
      - intros Ho. destruct (Ho [nm]) as (c' & Hc' & Hu);
          [apply prefix_cons, prefix_nil|done|].
        cbn in Hc'. apply bind_Some in Hc' as (c'' & Hc' & [= ->]). exists c'.
        split_and!; [done|done|]. intros p Hp _.
        destruct (Ho (nm :: p)) as (c2 & Hc2 & Hu2); [by apply prefix_cons|done|].
        cbn in Hc2. rewrite Hc' in Hc2. eauto.
      - intros (c' & Hc' & Hu & Ho) p Hp Hne. destruct p as [|nm' p]; [done|].
        apply prefix_cons_inv_1 in Hp as Heq. apply prefix_cons_inv_2 in Hp. subst nm'.
        cbn [subtree]. rewrite Hc'. cbn. destruct p as [|nm'' p]; [by exists c'|]. by apply Ho. }
    rewrite Halong. cbn [tree_owner].
    destruct (negb first && negb (String.eqb user o)) eqn:Hperm.
    + reflect_bools. subst. split; [done|]. intros (_ & _ & Ho).
      specialize (Ho eq_refl). by subst.
    + rewrite !bind_Some. split.
      * intros (c' & Hc' & (Hs & Ho & Hu)%IH). split; [by exists c'|].
        split; [exists c'; split_and!; [done|by apply Hu|done]|].
        intros ->. cbn in Hperm. by reflect_bools.
      * intros ((c'' & Hc'' & Hs) & (c' & Hc' & Hu & Ho) & _). simplify_eq.
        exists c''. split; [done|]. by apply IH.
Qed.
