(* ===== verification/FsSpec.v ===== *)
(** * What the file server promises

    The four requests as functions on a tree and the list of free blocks, and
    what they mean to a client, path by path.  FsCorrect proves that the handlers
    implement them. *)

From S2P Require Import Prelude CStd Request FsTypes FsTree.

(** ** The requests on trees *)

Record fsys := mk_fsys { contents : tree; free : list Z }.

Definition spec_read (user : string) (path : Path) (block : Z) (t : tree) : out_block :=
  match walk user t path true with
  | Some (File _ _ data) => p ← data !! Z.to_nat block; Some (Some p.2)
  | _ => None
  end.

Definition set_data (i : nat) (bs : bytes) (c : tree) : tree :=
  match c with
  | File b o data => File b o (alter (λ p, (p.1, bs)) i data)
  | Dir _ _ _ => c
  end.

Definition append_data (new_block : Z) (bs : bytes) (c : tree) : tree :=
  match c with
  | File b o data => File b o (data ++ [(new_block, bs)])
  | Dir _ _ _ => c
  end.

Definition spec_write (user : string) (path : Path) (block : Z) (bs : bytes) (s : fsys)
    : out_block * fsys :=
  let '(mk_fsys t fr) := s in
  match walk user t path true with
  | Some (File _ _ data) =>
      if block <? Z.of_nat (length data) then
        (Some None, mk_fsys (update t path (set_data (Z.to_nat block) bs)) fr)
      else if (block =? Z.of_nat (length data)) && (block <? FS_MAXFILEBLOCKS) then
        match fr with
        | [] => (None, s)
        | nb :: fr' => (Some None, mk_fsys (update t path (append_data nb bs)) fr')
        end
      else (None, s)
  | _ => (None, s)
  end.

(** The first unused slot gets the entry. *)
Fixpoint fill_slots (e : string * tree) (slots : list slot) : option (list slot) :=
  match slots with
  | [] => None
  | None :: l => Some (Some e :: l)
  | Some e' :: l => cons (Some e') <$> fill_slots e l
  end.

Fixpoint fill_chunks (e : string * tree) (chunks : list chunk) : option (list chunk) :=
  match chunks with
  | [] => None
  | (b, slots) :: l =>
      match fill_slots e slots with
      | Some slots' => Some ((b, slots') :: l)
      | None => cons (b, slots) <$> fill_chunks e l
      end
  end.

Definition set_chunks (chunks : list chunk) (c : tree) : tree :=
  match c with
  | File _ _ _ => c
  | Dir b o _ => Dir b o chunks
  end.

Definition new_node (type : byte) (b : Z) (user : string) : tree :=
  if Ascii.eqb type type_file then File b user [] else Dir b user [].

(** A new block of direntries with its first entry. *)
Definition new_chunk (b : Z) (e : string * tree) : chunk :=
  (b, Some e :: replicate (n_direntries - 1) None).

Definition spec_create (user : string) (path : Path) (type : byte) (s : fsys)
    : out_block * fsys :=
  let '(mk_fsys t fr) := s in
  let parent := removelast path in
  match last path, walk user t parent true with
  | Some name, Some (Dir b o chunks) =>
      match child (Dir b o chunks) name, fr with
      | None, nb :: fr1 =>
          let e := (name, new_node type nb user) in
          match fill_chunks e chunks with
          | Some chunks' => (Some None, mk_fsys (update t parent (set_chunks chunks')) fr1)
          | None =>
              match fr1 with
              | db :: fr2 =>
                  if Z.of_nat (length chunks) =? FS_MAXFILEBLOCKS then (None, s)
                  else (Some None,
                        mk_fsys (update t parent (set_chunks (chunks ++ [new_chunk db e]))) fr2)
              | [] => (None, s)
              end
          end
      | _, _ => (None, s)
      end
  | _, _ => (None, s)
  end.

Definition slot_named (name : string) (s : slot) : bool :=
  match s with
  | Some (n, _) => String.eqb n name
  | None => false
  end.

Definition clear_slot (name : string) (s : slot) : slot :=
  if slot_named name s then None else s.

Definition slot_unused (s : slot) : bool :=
  match s with Some _ => false | None => true end.

(** The directory without the entry, and the block of direntries it frees. *)
Fixpoint remove_entry (name : string) (chunks : list chunk) : list chunk * list Z :=
  match chunks with
  | [] => ([], [])
  | (b, slots) :: l =>
      if existsb (slot_named name) slots then
        let slots' := map (clear_slot name) slots in
        if forallb slot_unused slots' then (l, [b]) else ((b, slots') :: l, [])
      else
        let '(l', freed) := remove_entry name l in ((b, slots) :: l', freed)
  end.

(** What may be deleted: one's own file or empty directory. *)
Definition removable (user : string) (c : tree) : bool :=
  String.eqb (tree_owner c) user &&
  match c with
  | File _ _ _ => true
  | Dir _ _ chunks => match chunks with [] => true | _ => false end
  end.

Definition data_blocks (c : tree) : list Z :=
  match c with
  | File _ _ data => data.*1
  | Dir _ _ _ => []
  end.

Definition spec_delete (user : string) (path : Path) (s : fsys) : out_block * fsys :=
  let '(mk_fsys t fr) := s in
  let parent := removelast path in
  match last path, walk user t parent true with
  | Some name, Some (Dir b o chunks) =>
      match child (Dir b o chunks) name with
      | Some c =>
          if removable user c then
            let '(chunks', freed) := remove_entry name chunks in
            (Some None, mk_fsys (update t parent (set_chunks chunks'))
                                (fr ++ freed ++ data_blocks c ++ [root_block c]))
          else (None, s)
      | None => (None, s)
      end
  | _, _ => (None, s)
  end.

Definition spec_request (req : Request) (s : fsys) : out_block * fsys :=
  match req with
  | Req_READBLOCK r => (spec_read (rd_username r) (rd_path r) (rd_block r) (contents s), s)
  | Req_WRITEBLOCK r =>
      spec_write (wr_username r) (wr_path r) (wr_block r) (default [] (wr_data r)) s
  | Req_CREATE r => spec_create (cr_username r) (cr_path r) (cr_type r) s
  | Req_DELETE r => spec_delete (de_username r) (de_path r) s
  end.

(** ** Well-formed systems *)

(** Every block of the disk is used once or free, never both. *)
Definition fsys_ok (s : fsys) : Prop :=
  shape (contents s) ∧ is_dir (contents s) = true ∧ root_block (contents s) = 0 ∧
  used (contents s) ++ free s ≡ₚ seqZ 0 FS_DISKSIZE.

(** The empty file system. *)
Definition empty_fsys (owner : string) : fsys :=
  mk_fsys (Dir 0 owner []) (seqZ 1 (FS_DISKSIZE - 1)).

(** ** Directories: entries, names and blocks *)

#[global] Arguments chunk_entries : simpl never.

Lemma find_child_perm name l l' :
  NoDup l.*1 → l ≡ₚ l' → find_child name l' = find_child name l.
Proof.
  intros Hnd Hp. assert (NoDup l'.*1) as Hnd' by (by rewrite -Hp).
  destruct (find_child name l) as [c|] eqn:Hc.
  - apply find_child_elem; [done|]. rewrite -Hp. by apply find_child_Some.
  - rewrite find_child_None in Hc. rewrite find_child_None. by rewrite -Hp.
Qed.

Lemma find_child_cons name n c l :
  find_child name ((n, c) :: l) = if decide (n = name) then Some c else find_child name l.
Proof.
  unfold find_child. cbn. case_decide as Hn; destruct (String.eqb_spec n name); naive_solver.
Qed.

Lemma fill_slots_spec e slots slots' :
  fill_slots e slots = Some slots' → omap id slots' ≡ₚ e :: omap id slots.
Proof.
  revert slots'. induction slots as [|[e'|] slots IH]; intros slots'; cbn; [done| |].
  - intros (l & Hl & ->)%fmap_Some. cbn. rewrite (IH _ Hl). solve_Permutation.
  - by intros [= <-].
Qed.

Lemma fill_chunks_spec e chunks chunks' :
  fill_chunks e chunks = Some chunks' →
  chunk_entries chunks' ≡ₚ e :: chunk_entries chunks ∧ chunks'.*1 = chunks.*1 ∧
  (Forall (λ c, omap id c.2 ≠ []) chunks → Forall (λ c, omap id c.2 ≠ []) chunks').
Proof.
  revert chunks'. induction chunks as [|[b slots] chunks IH]; intros chunks'; cbn; [done|].
  destruct (fill_slots e slots) as [slots'|] eqn:Hs.
  - intros [= <-]. apply fill_slots_spec in Hs. rewrite !chunk_entries_cons Hs.
    split_and!; [done..|]. rewrite !Forall_cons. intros [_ Hc]. split; [|done].
    cbn. intros Hnil. rewrite Hnil in Hs. by apply Permutation_nil_cons in Hs.
  - intros (l & Hl & ->)%fmap_Some. destruct (IH _ Hl) as (Hp & Hb & Hf).
    rewrite !chunk_entries_cons Hp. split_and!; [solve_Permutation|cbn; by rewrite Hb|].
    rewrite !Forall_cons. naive_solver.
Qed.

Lemma new_chunk_entries chunks b e :
  chunk_entries (chunks ++ [new_chunk b e]) = chunk_entries chunks ++ [e].
Proof. by rewrite chunk_entries_app. Qed.

Lemma clear_slots_other name slots :
  existsb (slot_named name) slots = false → map (clear_slot name) slots = slots.
Proof.
  induction slots as [|s slots IH]; cbn; [done|]. intros [Hs Hl]%orb_false_iff.
  unfold clear_slot at 1. by rewrite Hs IH.
Qed.

Lemma slot_named_elem name slots :
  existsb (slot_named name) slots = true ↔ name ∈ (omap id slots).*1.
Proof.
  induction slots as [|[[n c]|] slots IH]; cbn.
  - split; [done|by intros ?%not_elem_of_nil].
  - rewrite orb_true_iff IH elem_of_cons. by rewrite String.eqb_eq (eq_comm n).
  - exact IH.
Qed.

Lemma clear_slots_spec name c slots :
  NoDup (omap id slots).*1 → (name, c) ∈ omap id slots →
  omap id slots ≡ₚ (name, c) :: omap id (map (clear_slot name) slots).
Proof.
  induction slots as [|[[n c']|] slots IH]; cbn; [by intros _ ?%not_elem_of_nil| |exact IH].
  intros [Hn Hnd]%NoDup_cons [Heq|Hin]%elem_of_cons.
  - injection Heq as <- <-. unfold clear_slot at 1. cbn. rewrite String.eqb_refl. cbn.
    rewrite clear_slots_other; [done|]. apply not_true_is_false. by rewrite slot_named_elem.
  - unfold clear_slot at 1. cbn. destruct (String.eqb_spec n name) as [->|_]; cbn.
    + destruct Hn. by apply (list_elem_of_fmap_2 fst _ (name, c)).
    + rewrite {1}(IH Hnd Hin). solve_Permutation.
Qed.

Lemma slots_unused slots : forallb slot_unused slots = true ↔ omap id slots = [].
Proof. induction slots as [|[e|] slots IH]; cbn; [done|done|exact IH]. Qed.

Lemma remove_entry_spec name c chunks chunks' freed :
  NoDup (chunk_entries chunks).*1 → Forall (λ c, omap id c.2 ≠ []) chunks →
  (name, c) ∈ chunk_entries chunks → remove_entry name chunks = (chunks', freed) →
  chunk_entries chunks ≡ₚ (name, c) :: chunk_entries chunks' ∧
  chunks.*1 ≡ₚ chunks'.*1 ++ freed ∧ Forall (λ c, omap id c.2 ≠ []) chunks'.
Proof.
  revert chunks' freed. induction chunks as [|[b slots] chunks IH]; intros chunks' freed.
  { by intros _ _ ?%not_elem_of_nil. }
  rewrite chunk_entries_cons fmap_app. intros (Hnd1 & Hdisj & Hnd2)%NoDup_app.
  rewrite Forall_cons elem_of_app. intros [Hne Hnes] Hin. cbn [remove_entry].
  destruct (existsb (slot_named name) slots) eqn:Hex.
  - apply slot_named_elem in Hex as Hn.
    assert ((name, c) ∈ omap id slots) as Hc.
    { destruct Hin as [|Hin]; [done|]. destruct (Hdisj _ Hn).
      by apply (list_elem_of_fmap_2 fst _ (name, c)). }
    apply clear_slots_spec in Hc as Hp; [|done].
    case_match eqn:Hun; intros [= <- <-].
    + apply slots_unused in Hun. rewrite Hun in Hp. rewrite {1}Hp. cbn.
      split_and!; [done|solve_Permutation|done].
    + rewrite chunk_entries_cons {1}Hp. cbn. split_and!; [done|by rewrite app_nil_r|].
      constructor; [|done]. cbn. intros Hnil%slots_unused. congruence.
  - assert ((name, c) ∈ chunk_entries chunks) as Hc.
    { destruct Hin as [Hin|]; [|done]. exfalso. apply not_true_iff_false in Hex. apply Hex.
      apply slot_named_elem. by apply (list_elem_of_fmap_2 fst _ (name, c)). }
    destruct (remove_entry name chunks) as [l' fr'] eqn:Hrem. intros [= <- <-].
    destruct (IH l' fr' Hnd2 Hnes Hc eq_refl) as (Hp & Hb & Hf).
    rewrite chunk_entries_cons {1}Hp. cbn. split_and!; [solve_Permutation| |by constructor].
    by rewrite Hb.
Qed.

(** The blocks below the entries of a directory. *)
Definition entries_used (l : list (string * tree)) : list Z := concat (used <$> l.*2).
#[global] Arguments entries_used : simpl never.

#[export] Instance entries_used_perm : Proper ((≡ₚ) ==> (≡ₚ)) entries_used.
Proof.
  induction 1 as [|[n c] l1 l2 _ IH|[n c] [n' c'] l|l1 l2 l3 _ IH1 _ IH2];
    unfold entries_used in *; cbn; [done|by rewrite IH| |by trans (concat (used <$> l2.*2))].
  generalize (used c) (used c'). intros. solve_Permutation.
Qed.

Lemma used_Dir b o chunks :
  used (Dir b o chunks) = b :: chunks.*1 ++ entries_used (chunk_entries chunks).
Proof. apply used_children. Qed.

Lemma entries_used_cons n c l : entries_used ((n, c) :: l) = used c ++ entries_used l.
Proof. done. Qed.

Lemma shape_Dir b o chunks :
  shape (Dir b o chunks) ↔
  NoDup (chunk_entries chunks).*1 ∧ Forall (λ c, omap id c.2 ≠ []) chunks ∧
  ∀ n c, (n, c) ∈ chunk_entries chunks → shape c.
Proof.
  split.
  - intros Hs. destruct (all_nodes_here _ _ Hs) as [H1 H2]. split_and!; [done..|].
    intros n c. by apply (all_nodes_child _ _ _ _ Hs).
  - intros (H1 & H2 & H3). constructor; [by split|]. exact H3.
Qed.

Lemma shape_new_node ty nb user : shape (new_node ty nb user).
Proof.
  unfold new_node. case_match; constructor; cbn; [done|by intros n c ?%not_elem_of_nil| |].
  - split; constructor.
  - by intros n c ?%not_elem_of_nil.
Qed.

Lemma used_new_node ty nb user : used (new_node ty nb user) = [nb].
Proof. unfold new_node. by case_match. Qed.

Lemma root_block_new_node ty nb user : root_block (new_node ty nb user) = nb.
Proof. unfold new_node. by case_match. Qed.

(** ** The well-formedness invariant *)

(** Changing one node and the free list together. *)
Lemma fsys_ok_update t fr path f c fr' :
  fsys_ok (mk_fsys t fr) → subtree t path = Some c →
  shape (f c) → root_block (f c) = root_block c → is_dir (f c) = is_dir c →
  used (f c) ++ fr' ≡ₚ used c ++ fr →
  fsys_ok (mk_fsys (update t path f) fr').
Proof.
  intros (Hsh & Hdir & Hroot & Hused) Hs Hfsh Hfroot Hfdir Hp. unfold fsys_ok in *. cbn in *.
  split_and!.
  - by eapply shape_update.
  - destruct path as [|n path]; cbn [subtree update] in *; [by simplify_eq; rewrite Hfdir|].
    by destruct t.
  - by rewrite (root_block_update _ _ _ c).
  - rewrite -Hused. apply (Permutation_app_inv_r (used c)).
    pose proof (used_update t path f c Hsh Hs) as Hu.
    trans ((used (update t path f) ++ used c) ++ fr'); [solve_Permutation|].
    rewrite Hu. trans (used t ++ used (f c) ++ fr'); [by rewrite app_assoc|].
    rewrite Hp. solve_Permutation.
Qed.

Lemma shape_subtree t path c : shape t → subtree t path = Some c → shape c.
Proof. apply subtree_all_nodes. Qed.

Lemma set_data_blocks i bs (data : list (Z * bytes)) :
  (alter (λ p, (p.1, bs)) i data).*1 = data.*1.
Proof.
  revert i. induction data as [|p data IH]; intros [|i]; cbn; [done..|]. by rewrite IH.
Qed.

Lemma set_data_contents i bs (data : list (Z * bytes)) :
  (alter (λ p, (p.1, bs)) i data).*2 = <[i := bs]> data.*2.
Proof.
  revert i. induction data as [|p data IH]; intros [|i]; cbn; [done..|]. by rewrite IH.
Qed.

Lemma fsys_ok_write s user path block bs :
  fsys_ok s → fsys_ok (spec_write user path block bs s).2.
Proof.
  destruct s as [t fr]. intros Hok. unfold spec_write.
  destruct (walk user t path true) as [[b o data|]|] eqn:Hw; [|done..].
  apply walk_subtree in Hw as Hs. case_match; cbn.
  - eapply fsys_ok_update; [done..| | | |]; cbn; [|done..|].
    + constructor; [done|by intros n c ?%not_elem_of_nil].
    + by rewrite set_data_blocks.
  - case_match; [|done]. destruct fr as [|nb fr']; [done|]. cbn.
    eapply fsys_ok_update; [done..| | | |]; cbn; [|done..|].
    + constructor; [done|by intros n c ?%not_elem_of_nil].
    + rewrite fmap_app. cbn. solve_Permutation.
Qed.

(** A directory with one more entry, and maybe one more block. *)
Lemma shape_add b o chunks chunks' e :
  shape (Dir b o chunks) → child (Dir b o chunks) e.1 = None → shape e.2 →
  chunk_entries chunks' ≡ₚ e :: chunk_entries chunks →
  Forall (λ c, omap id c.2 ≠ []) chunks' → shape (Dir b o chunks').
Proof.
  intros (Hnd & Hne & Hsub)%shape_Dir Hc He Hp Hf. destruct e as [n c].
  cbn in *. apply shape_Dir. split_and!; [rewrite Hp|done|].
  - apply NoDup_cons. split; [|done]. by apply find_child_None.
  - intros n' c'. rewrite Hp elem_of_cons. intros [[= -> ->]|Hin]; eauto.
Qed.

Lemma fsys_ok_create s user path ty :
  fsys_ok s → fsys_ok (spec_create user path ty s).2.
Proof.
  destruct s as [t fr]. intros Hok. unfold spec_create.
  destruct (last path) as [name|]; [|done].
  destruct (walk user t (removelast path) true) as [[|b o chunks]|] eqn:Hw; [done| |done].
  apply walk_subtree in Hw as Hs.
  destruct (child (Dir b o chunks) name) eqn:Hc; [done|].
  destruct fr as [|nb fr]; [done|].
  assert (shape (Dir b o chunks)) as Hsh by (eapply shape_subtree; [apply Hok|done]).
  apply shape_Dir in Hsh as (_ & Hne & _).
  destruct (fill_chunks _ chunks) as [chunks'|] eqn:Hfill.
  - apply fill_chunks_spec in Hfill as (Hp & Hb & Hf). cbn.
    eapply fsys_ok_update; [done..| | | |]; cbn [set_chunks]; [|done..|].
    + eapply (shape_add _ _ chunks _ (name, _)); eauto using shape_new_node, shape_subtree.
      eapply shape_subtree; [apply Hok|done].
    + rewrite !used_Dir Hp entries_used_cons used_new_node Hb.
      generalize (b :: chunks.*1) (entries_used (chunk_entries chunks)).
      intros. solve_Permutation.
  - destruct fr as [|db fr]; [done|]. case_match; [done|]. cbn.
    eapply fsys_ok_update; [done..| | | |]; cbn [set_chunks]; [|done..|].
    + eapply (shape_add _ _ chunks _ (name, _)); [|exact Hc|apply shape_new_node| |].
      * eapply shape_subtree; [apply Hok|done].
      * rewrite new_chunk_entries. solve_Permutation.
      * apply Forall_app. split; [done|]. by repeat constructor.
    + rewrite !used_Dir new_chunk_entries fmap_app Permutation_app_comm.
      assert (entries_used (chunk_entries chunks ++ [(name, new_node ty nb user)])
        ≡ₚ nb :: entries_used (chunk_entries chunks)) as ->.
      { rewrite Permutation_app_comm. cbn. by rewrite entries_used_cons used_new_node. }
      cbn. solve_Permutation.
Qed.

Lemma removable_used user c :
  removable user c = true → used c ≡ₚ data_blocks c ++ [root_block c].
Proof.
  unfold removable. intros [_ Hc]%andb_true_iff. destruct c as [b o data|b o [|]]; cbn; [|done..].
  solve_Permutation.
Qed.

(** A directory with one entry less, and maybe one block less. *)
Lemma shape_remove b o chunks chunks' e :
  shape (Dir b o chunks) → chunk_entries chunks ≡ₚ e :: chunk_entries chunks' →
  Forall (λ c, omap id c.2 ≠ []) chunks' → shape (Dir b o chunks').
Proof.
  intros (Hnd & _ & Hsub)%shape_Dir Hp Hf. apply shape_Dir. split_and!; [|done|].
  - rewrite Hp in Hnd. by apply NoDup_cons in Hnd as [_ ?].
  - intros n c Hin. apply (Hsub n). rewrite Hp. apply elem_of_cons. by right.
Qed.

Lemma fsys_ok_delete s user path :
  fsys_ok s → fsys_ok (spec_delete user path s).2.
Proof.
  destruct s as [t fr]. intros Hok. unfold spec_delete.
  destruct (last path) as [name|]; [|done].
  destruct (walk user t (removelast path) true) as [[|b o chunks]|] eqn:Hw; [done| |done].
  apply walk_subtree in Hw as Hs.
  destruct (child (Dir b o chunks) name) as [c|] eqn:Hc; [|done].
  destruct (removable user c) eqn:Hrem; [|done].
  destruct (remove_entry name chunks) as [chunks' freed] eqn:Hr. cbn.
  assert (shape (Dir b o chunks)) as Hsh by (eapply shape_subtree; [apply Hok|done]).
  pose proof Hsh as (Hnd & Hne & _)%shape_Dir. apply child_elem in Hc.
  destruct (remove_entry_spec _ _ _ _ _ Hnd Hne Hc Hr) as (Hp & Hb & Hf).
  eapply fsys_ok_update; [done..| | | |]; cbn [set_chunks]; [|done..|].
  - by eapply shape_remove.
  - rewrite !used_Dir Hp entries_used_cons Hb (removable_used _ _ Hrem).
    generalize (data_blocks c ++ [root_block c]) (entries_used (chunk_entries chunks')).
    intros. solve_Permutation.
Qed.

Lemma spec_request_ok req s : fsys_ok s → fsys_ok (spec_request req s).2.
Proof.
  destruct req; cbn; [done|apply fsys_ok_write|apply fsys_ok_create|apply fsys_ok_delete].
Qed.

Lemma empty_fsys_ok owner : fsys_ok (empty_fsys owner).
Proof.
  unfold fsys_ok, empty_fsys. cbn [contents free is_dir root_block used]. split_and!.
  - constructor; [by split; constructor|by intros n c ?%not_elem_of_nil].
  - reflexivity.
  - reflexivity.
  - rewrite (seqZ_cons 0); [|done]. reflexivity.
Qed.

(** ** What a client sees *)

Lemma path_snoc {A} (p : list A) x : last p = Some x → p = removelast p ++ [x].
Proof.
  induction p as [|y p IH]; [done|]. destruct p as [|z p]; [by intros [= ->]|].
  intros Hl. cbn [removelast app]. f_equal. by apply IH.
Qed.

(** The view below a directory whose entries changed. *)
Lemma resolve_set_chunks t parent b o chunks chunks' n q :
  subtree t parent = Some (Dir b o chunks) →
  resolve (update t parent (set_chunks chunks')) (parent ++ n :: q) =
  c ← child (Dir b o chunks') n; resolve c q.
Proof.
  intros Hs. unfold resolve. rewrite (subtree_update_below _ _ _ _ _ Hs). cbn [set_chunks subtree].
  by destruct (child (Dir b o chunks') n).
Qed.

Lemma resolve_set_chunks_at t parent b o chunks chunks' :
  subtree t parent = Some (Dir b o chunks) →
  resolve (update t parent (set_chunks chunks')) parent = resolve t parent.
Proof.
  intros Hs. unfold resolve. rewrite -{2}(app_nil_r parent).
  by rewrite (subtree_update_below _ _ _ _ _ Hs) Hs.
Qed.

Lemma resolve_below t parent b o chunks n q :
  subtree t parent = Some (Dir b o chunks) →
  resolve t (parent ++ n :: q) = c ← child (Dir b o chunks) n; resolve c q.
Proof.
  intros Hs. unfold resolve. enough (subtree t (parent ++ n :: q) =
    subtree (Dir b o chunks) (n :: q)) as ->.
  { cbn [subtree]. by destruct (child _ n). }
  revert t Hs. induction parent as [|m parent IH]; intros t; cbn [subtree app].
  { by intros [= ->]. }
  intros (c & Hc & Hs)%bind_Some. rewrite Hc. cbn. by apply IH.
Qed.

(** Where a path lies with respect to a directory and the entry [name] of it. *)
Lemma path_cases (parent q : Path) name :
  (∃ q', q = (parent ++ [name]) ++ q') ∨
  (¬ (parent ++ [name]) `prefix_of` q ∧
   (q = parent ∨ ¬ parent `prefix_of` q ∨ ∃ n q', n ≠ name ∧ q = parent ++ n :: q')).
Proof.
  destruct (decide ((parent ++ [name]) `prefix_of` q)) as [[q' ->]|Hn]; [left; eauto|].
  right. split; [done|]. destruct (decide (parent `prefix_of` q)) as [[[|n q'] ->]|]; [| |eauto].
  - left. by rewrite app_nil_r.
  - right. right. exists n, q'. split; [|done]. intros ->. apply Hn. exists q'.
    by rewrite -app_assoc.
Qed.

(** Replacing the entries of [parent] so that only [name] differs. *)
Lemma resolve_only t parent b o chunks chunks' name q :
  subtree t parent = Some (Dir b o chunks) →
  (∀ n, n ≠ name → child (Dir b o chunks') n = child (Dir b o chunks) n) →
  resolve (update t parent (set_chunks chunks')) q =
  if decide ((parent ++ [name]) `prefix_of` q)
  then c ← child (Dir b o chunks') name; resolve c (drop (length (parent ++ [name])) q)
  else resolve t q.
Proof.
  intros Hs Hother. destruct (path_cases parent q name) as [[q' ->]|[Hn Hq]].
  - rewrite decide_True; [|by apply prefix_app_r]. rewrite drop_app_length.
    rewrite -app_assoc. by rewrite (resolve_set_chunks _ _ _ _ _ _ _ _ Hs).
  - rewrite decide_False //. destruct Hq as [->|[Hp|(n & q' & Hne & ->)]].
    + by eapply resolve_set_chunks_at.
    + by eapply resolve_update_other.
    + rewrite (resolve_set_chunks _ _ _ _ _ _ _ _ Hs) (resolve_below _ _ _ _ _ _ _ Hs).
      by rewrite Hother.
Qed.

(** ** The effect of each request, path by path *)

Definition new_view (type : byte) (user : string) : view :=
  if Ascii.eqb type type_file then VFile user [] else VDir user.

Lemma resolve_new_node ty nb user q :
  resolve (new_node ty nb user) q = if decide (q = []) then Some (new_view ty user) else None.
Proof.
  unfold new_node, new_view. destruct q as [|n q]; case_decide; try done; by case_match.
Qed.

Lemma resolve_child t parent b o chunks name :
  subtree t parent = Some (Dir b o chunks) →
  resolve t (parent ++ [name]) = node_view <$> child (Dir b o chunks) name.
Proof.
  intros Hs. rewrite (resolve_below _ _ _ _ _ _ _ Hs). by destruct (child _ name).
Qed.

(** Below something that is not there, there is nothing. *)
Lemma resolve_None_prefix t p q : p `prefix_of` q → resolve t p = None → resolve t q = None.
Proof.
  intros [q' ->]. unfold resolve. revert t. induction p as [|n p IH]; intros t; cbn; [done|].
  destruct (child t n) as [c|]; [|done]. cbn. apply IH.
Qed.

Lemma resolve_add t parent b o chunks chunks' name ty nb user q :
  shape (Dir b o chunks) → child (Dir b o chunks) name = None →
  subtree t parent = Some (Dir b o chunks) →
  chunk_entries chunks' ≡ₚ (name, new_node ty nb user) :: chunk_entries chunks →
  resolve (update t parent (set_chunks chunks')) q =
  if decide (q = parent ++ [name]) then Some (new_view ty user) else resolve t q.
Proof.
  intros (Hnd & _ & _)%shape_Dir Hc Hs Hp.
  assert (NoDup ((name, new_node ty nb user) :: chunk_entries chunks).*1) as Hnd'.
  { cbn. apply NoDup_cons. split; [by apply find_child_None|done]. }
  assert (∀ n, child (Dir b o chunks') n =
    if decide (name = n) then Some (new_node ty nb user) else child (Dir b o chunks) n) as Hch.
  { intros n. rewrite !child_Dir. symmetry in Hp.
    by rewrite (find_child_perm _ _ _ Hnd' Hp) find_child_cons. }
  rewrite (resolve_only _ _ _ _ _ _ name _ Hs); [|intros; by rewrite Hch decide_False].
  rewrite Hch (decide_True (P := name = name)) //. cbn. rewrite resolve_new_node.
  case_decide as Hpre.
  - destruct Hpre as [q' ->]. rewrite drop_app_length. destruct q' as [|n q'].
    + by rewrite app_nil_r !decide_True.
    + rewrite !decide_False //.
      * symmetry. eapply resolve_None_prefix; [by apply prefix_app_r|].
        by rewrite (resolve_child _ _ _ _ _ _ Hs) Hc.
      * intros Heq. rewrite -{2}(app_nil_r (parent ++ [name])) in Heq.
        by apply app_inv_head in Heq.
  - rewrite decide_False //. by intros ->.
Qed.

Lemma create_effect s user path ty s' q :
  fsys_ok s → spec_create user path ty s = (Some None, s') →
  resolve (contents s) path = None ∧
  resolve (contents s') q =
  if decide (q = path) then Some (new_view ty user) else resolve (contents s) q.
Proof.
  destruct s as [t fr]. intros Hok. unfold spec_create.
  destruct (last path) as [name|] eqn:Hl; [|done].
  destruct (walk user t (removelast path) true) as [[|b o chunks]|] eqn:Hw; [done| |done].
  apply walk_subtree in Hw as Hs.
  destruct (child (Dir b o chunks) name) eqn:Hc; [done|].
  destruct fr as [|nb fr]; [done|]. apply path_snoc in Hl.
  set (parent := removelast path) in *. clearbody parent. subst path.
  assert (shape (Dir b o chunks)) as Hsh by (eapply shape_subtree; [apply Hok|done]).
  rewrite (resolve_child _ _ _ _ _ _ Hs) Hc.
  destruct (fill_chunks _ chunks) as [chunks'|] eqn:Hfill.
  - apply fill_chunks_spec in Hfill as (Hp & _ & _). intros [= <-]. split; [done|].
    cbn [contents]. by eapply resolve_add.
  - destruct fr as [|db fr]; [done|]. case_match; [done|]. intros [= <-]. split; [done|].
    cbn [contents]. eapply resolve_add; [done..|]. rewrite new_chunk_entries. solve_Permutation.
Qed.

Lemma delete_effect s user path s' q :
  fsys_ok s → spec_delete user path s = (Some None, s') →
  ((∃ data, resolve (contents s) path = Some (VFile user data)) ∨
   (resolve (contents s) path = Some (VDir user) ∧
    ∀ n, resolve (contents s) (path ++ [n]) = None)) ∧
  resolve (contents s') q =
  if decide (path `prefix_of` q) then None else resolve (contents s) q.
Proof.
  destruct s as [t fr]. intros Hok. unfold spec_delete.
  destruct (last path) as [name|] eqn:Hl; [|done].
  destruct (walk user t (removelast path) true) as [[|b o chunks]|] eqn:Hw; [done| |done].
  apply walk_subtree in Hw as Hs.
  destruct (child (Dir b o chunks) name) as [c|] eqn:Hc; [|done].
  destruct (removable user c) eqn:Hrem; [|done].
  destruct (remove_entry name chunks) as [chunks' freed] eqn:Hr. intros [= <-].
  cbn [contents]. apply path_snoc in Hl. set (parent := removelast path) in *. clearbody parent.
  subst path.
  assert (shape (Dir b o chunks)) as (Hnd & Hne & _)%shape_Dir
    by (eapply shape_subtree; [apply Hok|done]).
  apply child_elem in Hc as Hin.
  destruct (remove_entry_spec _ _ _ _ _ Hnd Hne Hin Hr) as (Hp & _ & _). split.
  - rewrite (resolve_child _ _ _ _ _ _ Hs) Hc. unfold removable in Hrem.
    destruct c as [b' o' data|b' o' [|]]; cbn in Hrem; reflect_bools; subst;
      [by left; eauto|right|done].
    split; [done|]. intros n. rewrite -app_assoc (resolve_below _ _ _ _ _ _ _ Hs) Hc. done.
  - assert (∀ n, child (Dir b o chunks) n = if decide (name = n) then Some c
      else child (Dir b o chunks') n) as Hch.
    { intros n. rewrite !child_Dir -find_child_cons. symmetry in Hp. apply find_child_perm; [|done].
      by rewrite Hp. }
    rewrite (resolve_only _ _ _ _ _ _ name _ Hs); [|intros; by rewrite Hch decide_False].
    case_decide; [|done]. assert (child (Dir b o chunks') name = None) as ->; [|done].
    rewrite Hp in Hnd. apply find_child_None. by apply NoDup_cons in Hnd as [? _].
Qed.

(** The contents of a file after a write: a block changed, or one more. *)
Definition written (block : Z) (bs : bytes) (data : list bytes) : list bytes :=
  if block <? Z.of_nat (length data) then <[Z.to_nat block := bs]> data else data ++ [bs].

Lemma resolve_update_file t path f b o data b' o' data' q :
  subtree t path = Some (File b o data) → f (File b o data) = File b' o' data' →
  resolve (update t path f) q =
  if decide (q = path) then Some (VFile o' data'.*2) else resolve t q.
Proof.
  intros Hs Hf. destruct (decide (path `prefix_of` q)) as [[q' ->]|Hp].
  - unfold resolve. rewrite (subtree_update_below _ _ _ _ _ Hs) Hf.
    destruct q' as [|n q'].
    + by rewrite app_nil_r decide_True.
    + rewrite decide_False; [|intros Heq; rewrite -{2}(app_nil_r path) in Heq;
        by apply app_inv_head in Heq].
      cbn. symmetry. apply (resolve_None_prefix _ (path ++ [n])).
      { by apply prefix_app, prefix_cons, prefix_nil. }
      unfold resolve. clear -Hs. revert t Hs. induction path as [|m path IH]; intros t; cbn.
      { by intros [= ->]. }
      intros (c & -> & Hs)%bind_Some. cbn. by apply IH.
  - rewrite decide_False; [|by intros ->]. by eapply resolve_update_other.
Qed.

Lemma walk_owner user t path c :
  walk user t path true = Some c → path ≠ [] → tree_owner c = user.
Proof.
  intros [Hs Ho]%walk_iff Hne. destruct (Ho path) as (c' & Hc' & Hu); [done..|].
  by simplify_eq.
Qed.

Lemma file_path_nonempty s path b o data :
  fsys_ok s → subtree (contents s) path = Some (File b o data) → path ≠ [].
Proof.
  intros (_ & Hdir & _) Hs ->. cbn in Hs. injection Hs as Hs. by rewrite Hs in Hdir.
Qed.

Lemma write_effect s user path block bs s' q :
  fsys_ok s → spec_write user path block bs s = (Some None, s') →
  ∃ data, resolve (contents s) path = Some (VFile user data) ∧ block ≤ Z.of_nat (length data) ∧
  resolve (contents s') q =
  if decide (q = path) then Some (VFile user (written block bs data))
  else resolve (contents s) q.
Proof.
  destruct s as [t fr]. intros Hok. unfold spec_write.
  destruct (walk user t path true) as [[b o data|]|] eqn:Hw; [|done..].
  apply walk_subtree in Hw as Hs.
  assert (path ≠ []) as Hne by (by eapply (file_path_nonempty (mk_fsys t fr))).
  apply walk_owner in Hw as Ho; [|done]. cbn in Ho. subst o.
  intros Hspec. exists data.*2. cbn [contents]. unfold resolve at 1. rewrite Hs length_fmap.
  unfold written. rewrite length_fmap.
  destruct (Z.ltb_spec block (Z.of_nat (length data))).
  - injection Hspec as <-. split_and!; [done|lia|]. cbn [contents].
    rewrite (resolve_update_file _ _ _ _ _ _ _ _ _ _ Hs eq_refl).
    case_decide; [|done]. by rewrite set_data_contents.
  - destruct (Z.eqb_spec block (Z.of_nat (length data))); [|done].
    destruct (block <? FS_MAXFILEBLOCKS); [|done]. destruct fr as [|nb fr]; [done|].
    injection Hspec as <-. split_and!; [done|lia|]. cbn [contents].
    rewrite (resolve_update_file _ _ _ _ _ _ _ _ _ _ Hs eq_refl) fmap_app. done.
Qed.

Lemma resolve_VFile t path o data :
  resolve t path = Some (VFile o data) ↔
  ∃ b data', subtree t path = Some (File b o data') ∧ data = data'.*2.
Proof.
  unfold resolve. rewrite fmap_Some. split.
  - intros ([b o' data'|] & Hs & [= -> ->]). eauto.
  - intros (b & data' & Hs & ->). by eexists.
Qed.

(** A read succeeds exactly on the blocks of files the user owns, the path to
    them included, and gives their contents. *)
Lemma read_iff s user path block bs :
  fsys_ok s →
  spec_read user path block (contents s) = Some (Some bs) ↔
  ∃ data, resolve (contents s) path = Some (VFile user data) ∧
    owned_along user (contents s) path ∧ data !! Z.to_nat block = Some bs.
Proof.
  intros Hok. unfold spec_read. split.
  - destruct (walk user _ path true) as [[b o data|]|] eqn:Hw; [|done..].
    intros ([b' bs'] & Hb & [= ->])%bind_Some. apply walk_iff in Hw as Hw'.
    destruct Hw' as [Hs Ho]. apply walk_owner in Hw; [|by eapply file_path_nonempty].
    cbn in Hw. subst o. exists data.*2. split_and!; [|done|by rewrite list_lookup_fmap Hb].
    apply resolve_VFile. eauto.
  - intros (data & (b & data' & Hs & ->)%resolve_VFile & Ho & Hb).
    assert (walk user (contents s) path true = Some (File b user data')) as -> by by apply walk_iff.
    rewrite list_lookup_fmap in Hb. apply fmap_Some in Hb as ([b' bs'] & Hb & ->).
    by rewrite Hb.
Qed.

Lemma read_not_empty user path block t : spec_read user path block t ≠ Some None.
Proof.
  unfold spec_read. destruct (walk user t path true) as [[b o data|]|]; [|done..].
  by destruct (data !! Z.to_nat block).
Qed.

(** ** When each request succeeds *)

Lemma owned_along_snoc user t parent name :
  owned_along user t (parent ++ [name]) ↔
  owned_along user t parent ∧
  ∃ c, subtree t (parent ++ [name]) = Some c ∧ tree_owner c = user.
Proof.
  unfold owned_along. split.
  - intros Ho. split.
    + intros p Hp. apply Ho. by apply prefix_app_r.
    + apply Ho; [done|]. by destruct parent.
  - intros [Ho Hc] p [k Hk] Hne. destruct k as [|x k] using rev_ind.
    + rewrite app_nil_r in Hk. by subst p.
    + rewrite app_assoc in Hk. apply app_inj_tail in Hk as [-> _].
      apply Ho; [by exists k|done].
Qed.

Lemma subtree_snoc t parent name c :
  subtree t parent = Some c → subtree t (parent ++ [name]) = child c name.
Proof.
  revert t. induction parent as [|n parent IH]; intros t; cbn.
  - intros [= ->]. by destruct (child c name).
  - intros (c' & -> & Hs)%bind_Some. cbn. by apply IH.
Qed.

Lemma last_snoc_cases (path : Path) :
  path = [] ∨ ∃ parent name, path = parent ++ [name] ∧
    removelast path = parent ∧ last path = Some name.
Proof.
  destruct path as [|name parent _] using rev_ind; [by left|right].
  exists parent, name. by rewrite removelast_last last_snoc.
Qed.

Lemma write_iff s user path block bs :
  fsys_ok s → 0 ≤ block →
  (spec_write user path block bs s).1 = Some None ↔
  ∃ data, resolve (contents s) path = Some (VFile user data) ∧
    owned_along user (contents s) path ∧
    (block < Z.of_nat (length data) ∨
     block = Z.of_nat (length data) ∧ block < FS_MAXFILEBLOCKS ∧ free s ≠ []).
Proof.
  destruct s as [t fr]. intros Hok Hb. unfold spec_write. cbn [contents free]. split.
  - destruct (walk user t path true) as [[b o data|]|] eqn:Hw; [|done..].
    intros Hr. apply walk_iff in Hw as Hw'. destruct Hw' as [Hs Ho].
    apply walk_owner in Hw; [|by eapply (file_path_nonempty (mk_fsys t fr))].
    cbn in Hw. subst o. exists data.*2. split_and!; [apply resolve_VFile; eauto|done|].
    rewrite length_fmap. case_match; reflect_bools; [by left|right].
    case_match; [|done]. reflect_bools. by destruct fr.
  - intros (data & (b & data' & Hs & ->)%resolve_VFile & Ho & Hc).
    assert (walk user t path true = Some (File b user data')) as -> by by apply walk_iff.
    rewrite length_fmap in Hc. destruct (Z.ltb_spec block (Z.of_nat (length data'))); [done|].
    destruct Hc as [|(Heq & Hlt & Hfr)]; [lia|].
    rewrite (proj2 (Z.eqb_eq _ _) Heq) (proj2 (Z.ltb_lt _ _) Hlt). by destruct fr.
Qed.

Lemma removable_iff user t path c :
  shape t → subtree t path = Some c →
  removable user c = true ↔
  (∃ data, resolve t path = Some (VFile user data)) ∨
  (resolve t path = Some (VDir user) ∧ ∀ n, resolve t (path ++ [n]) = None).
Proof.
  intros Hsh Hs. unfold resolve at 1 2. rewrite Hs. unfold removable.
  destruct c as [b o data|b o chunks]; cbn [tree_owner node_view fmap option_fmap option_map].
  - rewrite andb_true_r String.eqb_eq. naive_solver.
  - rewrite andb_true_iff String.eqb_eq. split.
    + intros [-> Hc]. destruct chunks; [|done]. right. split; [done|]. intros n.
      by rewrite (resolve_child _ _ _ _ _ _ Hs).
    + intros [[data [= ]]|[[= ->] Hn]]. split; [done|].
      pose proof (shape_subtree _ _ _ Hsh Hs) as (Hnd & Hne & _)%shape_Dir.
      destruct chunks as [|[b' slots] chunks]; [done|].
      apply Forall_cons in Hne as [Hne _]. cbn in Hne.
      destruct (omap id slots) as [|[n c] l] eqn:Hsl; [done|]. exfalso.
      specialize (Hn n). rewrite (resolve_child _ _ _ _ _ _ Hs) child_Dir in Hn.
      rewrite chunk_entries_cons Hsl /= find_child_cons decide_True // in Hn.
Qed.

Lemma delete_iff s user path :
  fsys_ok s →
  (spec_delete user path s).1 = Some None ↔
  path ≠ [] ∧ owned_along user (contents s) path ∧
  ((∃ data, resolve (contents s) path = Some (VFile user data)) ∨
   (resolve (contents s) path = Some (VDir user) ∧
    ∀ n, resolve (contents s) (path ++ [n]) = None)).
Proof.
  destruct s as [t fr]. intros Hok. unfold spec_delete. cbn [contents].
  destruct (last_snoc_cases path) as [->|(parent & name & -> & -> & ->)]; [naive_solver|].
  rewrite owned_along_snoc. pose proof (proj1 Hok) as Hsh. cbn in Hsh. split.
  - destruct (walk user t parent true) as [[|b o chunks]|] eqn:Hw; [done| |done].
    apply walk_iff in Hw as [Hs Ho].
    destruct (child (Dir b o chunks) name) as [c|] eqn:Hc; [|done].
    destruct (removable user c) eqn:Hrem; [|done]. intros _.
    assert (subtree t (parent ++ [name]) = Some c) as Hsc by by rewrite (subtree_snoc _ _ _ _ Hs).
    split_and!; [by destruct parent|done| |by apply (removable_iff _ _ _ c)].
    exists c. split; [done|]. unfold removable in Hrem. by reflect_bools.
  - intros (_ & (Ho & c & Hsc & Hu) & Hrem).
    apply (removable_iff user t _ c) in Hrem; [|done..].
    assert (∃ b o chunks, subtree t parent = Some (Dir b o chunks) ∧
      child (Dir b o chunks) name = Some c) as (b & o & chunks & Hs & Hc).
    { clear -Hsc. revert t Hsc. induction parent as [|n parent IH]; intros t; cbn.
      - intros (c' & Hc' & [= ->])%bind_Some.
        pose proof (child_is_Dir _ _ _ Hc') as (b & o & chunks & ->). eauto.
      - intros (c' & -> & Hs)%bind_Some. cbn. by apply IH. }
    assert (walk user t parent true = Some (Dir b o chunks)) as -> by by apply walk_iff.
    rewrite Hc Hrem. by destruct (remove_entry name chunks).
Qed.

(** Room for one more entry: a free block for the inode and an unused slot, or
    a second free block and a free place in the inode of the directory. *)
Definition room (chunks : list chunk) (fr : list Z) : Prop :=
  fr ≠ [] ∧
  ((∃ c, c ∈ chunks ∧ None ∈ c.2) ∨
   (2 ≤ length fr)%nat ∧ Z.of_nat (length chunks) ≠ FS_MAXFILEBLOCKS).

Lemma fill_slots_iff e slots : is_Some (fill_slots e slots) ↔ None ∈ slots.
Proof.
  induction slots as [|[e'|] slots IH]; cbn.
  - split; [by intros [? ?]|by intros ?%not_elem_of_nil].
  - rewrite fmap_is_Some IH elem_of_cons. naive_solver.
  - split; [intros _; apply elem_of_cons; by left|by eexists].
Qed.

Lemma fill_chunks_iff e chunks :
  is_Some (fill_chunks e chunks) ↔ ∃ c, c ∈ chunks ∧ None ∈ c.2.
Proof.
  induction chunks as [|[b slots] chunks IH]; cbn.
  - split; [by intros [? ?]|by intros (c & ?%not_elem_of_nil & _)].
  - destruct (fill_slots e slots) eqn:Hs.
    + split; [intros _|by eexists]. exists (b, slots). split; [apply elem_of_cons; by left|].
      apply (fill_slots_iff e). by eexists.
    + rewrite fmap_is_Some IH. split; intros (c & Hc & Hn); exists c.
      * split; [apply elem_of_cons; by right|done].
      * apply elem_of_cons in Hc as [->|]; [|done].
        apply (fill_slots_iff e) in Hn as [? Hn]. cbn in Hn. congruence.
Qed.

Lemma create_iff s user path ty :
  (spec_create user path ty s).1 = Some None ↔
  ∃ parent name b o chunks, path = parent ++ [name] ∧
    owned_along user (contents s) parent ∧
    subtree (contents s) parent = Some (Dir b o chunks) ∧
    resolve (contents s) path = None ∧ room chunks (free s).
Proof.
  destruct s as [t fr]. unfold spec_create. cbn [contents free].
  destruct (last_snoc_cases path) as [->|(parent & name & -> & -> & ->)].
  { split; [done|]. intros (parent & name & ? & ? & ? & Heq & _). by destruct parent. }
  split.
  - destruct (walk user t parent true) as [[|b o chunks]|] eqn:Hw; [done| |done].
    apply walk_iff in Hw as [Hs Ho]. destruct (child (Dir b o chunks) name) eqn:Hc; [done|].
    destruct fr as [|nb fr]; [done|]. intros Hr. exists parent, name, b, o, chunks.
    rewrite (resolve_child _ _ _ _ _ _ Hs) Hc. split_and!; [done..|]. split; [done|].
    case_match eqn:Hf; [left; eapply fill_chunks_iff; by eexists|right].
    destruct fr as [|db fr]; [done|]. case_match; [done|]. reflect_bools. split; [cbn; lia|done].
  - intros (parent' & name' & b & o & chunks & Heq & Ho & Hs & Hn & Hfr & Hroom).
    apply app_inj_tail in Heq as [<- <-].
    assert (walk user t parent true = Some (Dir b o chunks)) as -> by by apply walk_iff.
    rewrite (resolve_child _ _ _ _ _ _ Hs) in Hn. apply fmap_None in Hn as ->.
    destruct fr as [|nb fr]; [done|].
    destruct (fill_chunks (name, new_node ty nb user) chunks) eqn:Hf; [done|].
    destruct Hroom as [Hroom|[Hlen Hmax]].
    + apply (fill_chunks_iff (name, new_node ty nb user)) in Hroom as [? Hroom]. congruence.
    + destruct fr as [|db fr]; [cbn in Hlen; lia|]. by rewrite (proj2 (Z.eqb_neq _ _) Hmax).
Qed.
