(* ===== verification/FsLogic.v ===== *)
(** * A program logic for handlers that run alone

    [triple d fr L p Q]: from a state with disk [d], free list [fr] and live
    locks [L], the program [p] ends (no fault, no wait) in a result, a disk, a
    free list and live locks of [Q].  The concrete table of locks is hidden
    behind [L], which names each live lock with its block and its holders. *)

From S2P Require Import Prelude CStd Request FsTypes FsMonad.

Abbreviation lock_ghost := (gmap lockref (Z * holders)).

(** No live lock is the lock of block [b]. *)
Definition unlocked (b : Z) (L : lock_ghost) : Prop :=
  ∀ l b' h, L !! l = Some (b', h) → b' ≠ b.

Lemma unlocked_empty b : unlocked b ∅.
Proof. by intros l b' h. Qed.

Lemma unlocked_insert b l b' h L :
  b' ≠ b → unlocked b L → unlocked b (<[l := (b', h)]> L).
Proof.
  intros Hne HL l' b'' h'. destruct (decide (l = l')) as [->|Hl].
  - rewrite lookup_insert_eq. by intros [= -> ->].
  - rewrite lookup_insert_ne //. apply HL.
Qed.

#[export] Hint Resolve unlocked_empty unlocked_insert : os.

Section logic.
Context {D M : Type} `{DiskLaws D} `{SharedMutexLaws M}.

(** ** The table of locks and its abstraction *)

Record live (t : lock_table M) (L : lock_ghost) : Prop := {
  live_in l b h :
    L !! l = Some (b, h) → ∃ m, mutexes t !! l = Some (1%nat, m) ∧ sm_holders m = h;
  live_out l : L !! l = None → mutexes t !! l = None;
  live_block b l b' h : data_locks t !! b = Some l → L !! l = Some (b', h) → b' = b;
  live_fresh l : (next_lock t ≤ l)%nat → L !! l = None;
  live_stale b l : data_locks t !! b = Some l → (l < next_lock t)%nat;
  live_inj b b' l : data_locks t !! b = Some l → data_locks t !! b' = Some l → b = b' }.

Lemma live_get_lock t L b :
  live t L → unlocked b L →
  ∃ l t', get_lock_ptr_step b t = (l, t') ∧ L !! l = None ∧
    live t' (<[l := (b, nobody)]> L).
Proof.
  intros HL Hb. exists (next_lock t), (get_lock_ptr_step b t).2.
  assert (L !! next_lock t = None) as Hfresh by (by eapply live_fresh).
  assert (get_lock_ptr_step b t =
    (next_lock t,
     mk_locks (<[b := next_lock t]> (data_locks t))
       (<[next_lock t := (1%nat, sm_init)]> (mutexes t)) (S (next_lock t)))) as ->.
  { unfold get_lock_ptr_step. destruct (data_locks t !! b) as [l|] eqn:Hl; [|done].
    destruct (L !! l) as [[b' h]|] eqn:HLl.
    - exfalso. eapply Hb; [exact HLl|]. by eapply live_block.
    - by rewrite (live_out _ _ HL). }
  split_and!; [done|done|]. destruct HL as [Hin Hout Hblk Hfr Hst Hinj]. split; cbn.
  - intros l b' h. destruct (decide (next_lock t = l)) as [<-|Hl].
    + rewrite !lookup_insert_eq. intros [= <- <-].
      exists sm_init. split; [done|apply sm_holders_init].
    + rewrite !lookup_insert_ne //. apply Hin.
  - intros l. destruct (decide (next_lock t = l)) as [<-|Hl].
    + by rewrite lookup_insert_eq.
    + rewrite !lookup_insert_ne //. apply Hout.
  - intros b' l b'' h. destruct (decide (b = b')) as [<-|Hbb].
    + rewrite lookup_insert_eq. intros [= <-]. rewrite lookup_insert_eq. by intros [= -> _].
    + rewrite (lookup_insert_ne _ b) //. intros Hl. apply Hst in Hl as Hlt.
      rewrite lookup_insert_ne; [|lia]. by apply Hblk.
  - intros l Hl. rewrite lookup_insert_ne; [|lia]. apply Hfr. lia.
  - intros b' l. destruct (decide (b = b')) as [<-|Hbb].
    + rewrite lookup_insert_eq. intros [= <-]. lia.
    + rewrite lookup_insert_ne //. intros Hl%Hst. lia.
  - intros b1 b2 l. destruct (decide (b = b1)) as [<-|Hb1], (decide (b = b2)) as [<-|Hb2];
      rewrite ?lookup_insert_eq ?lookup_insert_ne //.
    + intros [= <-] Hl%Hst. lia.
    + intros Hl%Hst [= <-]. lia.
    + apply Hinj.
Qed.

Lemma live_set t L l b h m :
  live t L → is_Some (L !! l) → (L !! l = Some (b, h) ∨ fst <$> L !! l = Some b) →
  live (set_mutexes (<[l := (1%nat, m)]> (mutexes t)) t) (<[l := (b, sm_holders m)]> L).
Proof.
  intros [Hin Hout Hblk Hfr Hst Hinj] [[b0 h0] HLl] Hor.
  assert (b0 = b) as -> by (rewrite HLl in Hor; cbn in Hor; naive_solver).
  split; cbn; [| | | |done|done].
  - intros l' b' h'. destruct (decide (l = l')) as [<-|Hl].
    + rewrite !lookup_insert_eq. intros [= <- <-]. eauto.
    + rewrite !lookup_insert_ne //. apply Hin.
  - intros l'. destruct (decide (l = l')) as [<-|Hl].
    + by rewrite lookup_insert_eq.
    + rewrite !lookup_insert_ne //. apply Hout.
  - intros b' l' b'' h' Hd. destruct (decide (l = l')) as [<-|Hl].
    + rewrite lookup_insert_eq. intros [= <- _]. by eapply Hblk.
    + rewrite lookup_insert_ne //. by apply Hblk.
  - intros l' Hl'. destruct (decide (l = l')) as [<-|Hl].
    + by rewrite Hfr in HLl.
    + rewrite lookup_insert_ne //. by apply Hfr.
Qed.

(** An operation that succeeds on the holders [h] of a live lock. *)
Lemma live_on_mutex t L l b h (f : M → outcome M) h' :
  live t L → L !! l = Some (b, h) →
  (∀ m, sm_holders m = h → ∃ m', f m = Done m' ∧ sm_holders m' = h') →
  ∃ t', on_mutex l f t = Done t' ∧ live t' (<[l := (b, h')]> L).
Proof.
  intros HL HLl Hf. destruct (live_in _ _ HL _ _ _ HLl) as (m & Hm & Hh).
  destruct (Hf m Hh) as (m' & Hfm & <-). unfold on_mutex. rewrite Hm Hfm.
  eexists. split; [done|]. eapply live_set; eauto.
Qed.

Lemma live_drop t L l b :
  live t L → L !! l = Some (b, nobody) →
  ∃ t', drop_ptr_step l t = Done t' ∧ live t' (delete l L).
Proof.
  intros HL HLl. destruct (live_in _ _ HL _ _ _ HLl) as (m & Hm & Hh).
  unfold drop_ptr_step. rewrite Hm decide_True //. eexists. split; [done|].
  destruct HL as [Hin Hout Hblk Hfr Hst Hinj]. split; cbn; [| | | |done|done].
  - intros l' b' h'. rewrite lookup_delete_Some. intros [Hl HL'].
    rewrite lookup_delete_ne //. by eapply Hin.
  - intros l'. rewrite !lookup_delete_None. intros [->|Hl]; [by left|right; by apply Hout].
  - intros b' l' b'' h' Hd. rewrite lookup_delete_Some. intros [_ HL']. by eapply Hblk.
  - intros l' Hl'. rewrite lookup_delete_None. right. by apply Hfr.
Qed.

Lemma live_erase t L b : live t L → live (erase_lock_step b t) L.
Proof.
  intros [Hin Hout Hblk Hfr Hst Hinj]. split; cbn; [done|done| |done| |].
  - intros b' l b'' h. rewrite lookup_delete_Some. intros [_ Hd]. by apply Hblk.
  - intros b' l. rewrite lookup_delete_Some. intros [_ Hd]. by eapply Hst.
  - intros b1 b2 l. rewrite !lookup_delete_Some. intros [_ Hd1] [_ Hd2]. by eapply Hinj.
Qed.

(** ** States and triples *)

Record st (d : D) (fr : list Z) (L : lock_ghost) (s : fs_state D M) : Prop := {
  st_disk : disk s = d;
  st_free : free_disk_blocks s = fr;
  st_live : live (locks s) L }.

Definition triple {A} (d : D) (fr : list Z) (L : lock_ghost) (p : prog A)
    (Q : A → D → list Z → lock_ghost → Prop) : Prop :=
  ∀ s, st d fr L s → wp p s (λ a s', ∃ d' fr' L', st d' fr' L' s' ∧ Q a d' fr' L').

Lemma triple_ret {A} d fr L (a : A) Q : Q a d fr L → triple d fr L (mret a) Q.
Proof. intros HQ s Hs. apply wp_ret. eauto 10. Qed.

Lemma triple_mono {A} d fr L (p : prog A) Q Q' :
  triple d fr L p Q → (∀ a d' fr' L', Q a d' fr' L' → Q' a d' fr' L') → triple d fr L p Q'.
Proof.
  intros Hp HQ s Hs. eapply wp_mono; [by apply Hp|].
  intros a s' (d' & fr' & L' & ? & ?). eauto 10.
Qed.

Lemma triple_bind {A B} d fr L (p : prog A) (k : A → prog B) Q Q' :
  triple d fr L p Q' →
  (∀ a d' fr' L', Q' a d' fr' L' → triple d' fr' L' (k a) Q) →
  triple d fr L (p ≫= k) Q.
Proof.
  intros Hp Hk s Hs. apply wp_bind. eapply wp_mono; [by apply Hp|].
  intros a s' (d' & fr' & L' & Hs' & HQ). by eapply Hk.
Qed.

Lemma triple_step {X B} d fr L (e : fsE X) (k : X → prog B) Q :
  (∀ s, st d fr L s → ∃ x d' fr' L' s', exec e s = Done (x, s') ∧ st d' fr' L' s' ∧
     triple d' fr' L' (k x) Q) →
  triple d fr L (perform e ≫= k) Q.
Proof.
  intros He s Hs. destruct (He s Hs) as (x & d' & fr' & L' & s' & Hx & Hs' & Hk).
  apply wp_bind. eapply wp_exec; [exact Hx|]. by apply Hk.
Qed.

Lemma triple_read {B} d fr L b (k : bytes → prog B) Q :
  valid_block b → triple d fr L (k (disk_read d b)) Q →
  triple d fr L (disk_readblock b ≫= k) Q.
Proof.
  intros Hb Hk. apply triple_step. intros s Hs. exists (disk_read d b), d, fr, L, s.
  cbn. rewrite decide_True // (st_disk _ _ _ _ Hs). eauto.
Qed.

Lemma triple_write {B} d fr L b bs (k : unit → prog B) Q :
  valid_block b → triple (disk_write d b bs) fr L (k tt) Q →
  triple d fr L (disk_writeblock b bs ≫= k) Q.
Proof.
  intros Hb Hk. apply triple_step. intros s [Hd Hf HL]. do 5 eexists.
  split; [cbn; by rewrite decide_True|]. split; [|exact Hk].
  split; cbn; [by rewrite Hd|done|done].
Qed.

Lemma triple_free {X B} d fr L (f : list Z → X * list Z) (k : X → prog B) Q :
  triple d (f fr).2 L (k (f fr).1) Q → triple d fr L (with_free_list f ≫= k) Q.
Proof.
  intros Hk. apply triple_step. intros s [Hd Hf HL].
  exists (f fr).1, d, (f fr).2, L, (set_free (f fr).2 s).
  split; [cbn; rewrite Hf; by destruct (f fr)|]. split; [|exact Hk]. by split.
Qed.

Lemma triple_get_lock {B} d fr L b (k : lockref → prog B) Q :
  unlocked b L →
  (∀ l, L !! l = None → triple d fr (<[l := (b, nobody)]> L) (k l) Q) →
  triple d fr L (get_lock_ptr b ≫= k) Q.
Proof.
  intros Hb Hk. apply triple_step. intros s [Hd Hf HL].
  destruct (live_get_lock _ _ _ HL Hb) as (l & t' & Hg & Hl & HL'). do 5 eexists.
  split; [cbn; by rewrite Hg|]. split; [|by apply Hk]. by split.
Qed.

(** The shape of the rules on a live lock. *)
Lemma triple_mutex {B} d fr L l b h h' f (e : fsE unit) (k : unit → prog B) Q :
  (∀ s, exec (D := D) (M := M) e s = with_locks (on_mutex l f (locks s)) s) →
  L !! l = Some (b, h) →
  (∀ m, sm_holders m = h → ∃ m', f m = Done m' ∧ sm_holders m' = h') →
  triple d fr (<[l := (b, h')]> L) (k tt) Q → triple d fr L (perform e ≫= k) Q.
Proof.
  intros He HLl Hf Hk. apply triple_step. intros s [Hd Hfr HL].
  destruct (live_on_mutex _ _ _ _ _ f h' HL HLl Hf) as (t' & Ht & HL'). do 5 eexists.
  split; [by rewrite He Ht|]. split; [|exact Hk]. by split.
Qed.

Lemma triple_lock {B} d fr L m l b (k : unit → prog B) Q :
  L !! l = Some (b, nobody) →
  triple d fr (<[l := (b, holders_add m nobody)]> L) (k tt) Q →
  triple d fr L (lock m l ≫= k) Q.
Proof.
  intros HL. eapply triple_mutex; [done|exact HL|]. intros x Hx.
  destruct (sm_lock_free m x Hx) as [x' Hx']. exists x'. unfold lock_step.
  rewrite Hx'. split; [done|]. apply sm_lock_grants in Hx' as (-> & _). by rewrite Hx.
Qed.

Lemma triple_upgrade {B} d fr L l b (k : unit → prog B) Q :
  L !! l = Some (b, mk_holders 0 true false) →
  triple d fr (<[l := (b, mk_holders 0 false true)]> L) (k tt) Q →
  triple d fr L (upgrade l ≫= k) Q.
Proof.
  intros HL. eapply triple_mutex; [done|exact HL|]. intros x Hx.
  destruct (sm_upgrade_free x Hx) as [x' Hx']. exists x'. unfold upgrade_step.
  rewrite Hx Hx'. split; [done|]. by apply sm_upgrade_grants in Hx' as [-> _].
Qed.

Lemma triple_unlock {B} d fr L m l b h (k : unit → prog B) Q :
  L !! l = Some (b, h) → holds m h = true →
  triple d fr (<[l := (b, holders_remove m h)]> L) (k tt) Q →
  triple d fr L (unlock m l ≫= k) Q.
Proof.
  intros HL Hh. eapply triple_mutex; [done|exact HL|]. intros x <-. exists (sm_unlock m x).
  unfold unlock_step. rewrite Hh. split; [done|apply sm_unlock_holders].
Qed.

Lemma triple_drop {B} d fr L l b (k : unit → prog B) Q :
  L !! l = Some (b, nobody) → triple d fr (delete l L) (k tt) Q →
  triple d fr L (drop_ptr l ≫= k) Q.
Proof.
  intros HLl Hk. apply triple_step. intros s [Hd Hfr HL].
  destruct (live_drop _ _ _ _ HL HLl) as (t' & Ht & HL'). do 5 eexists.
  split; [cbn; by rewrite Ht|]. split; [|exact Hk]. by split.
Qed.

Lemma triple_erase {B} d fr L b (k : unit → prog B) Q :
  triple d fr L (k tt) Q → triple d fr L (erase_lock b ≫= k) Q.
Proof.
  intros Hk. apply triple_step. intros s [Hd Hfr HL]. do 5 eexists.
  split; [done|]. split; [|exact Hk]. split; [done|done|by apply live_erase].
Qed.

Lemma triple_get_some {A B} d fr L f (o : option A) a (k : A → prog B) Q :
  o = Some a → triple d fr L (k a) Q → triple d fr L (get_some f o ≫= k) Q.
Proof. intros -> Hk s Hs. by apply wp_bind, wp_ret, Hk. Qed.

Lemma triple_assoc {A B C} d fr L (p : prog A) (f : A → prog B) (g : B → prog C) Q :
  triple d fr L (p ≫= (λ x, f x ≫= g)) Q → triple d fr L ((p ≫= f) ≫= g) Q.
Proof.
  intros Hp s Hs. specialize (Hp s Hs). unfold wp in *.
  unfold mbind, prog_mbind in *. rewrite !run_bind in Hp |- *.
  destruct (run p s) as [[x s']| |]; [|done..]. by rewrite run_bind in Hp.
Qed.

Lemma triple_mret {A B} d fr L (a : A) (k : A → prog B) Q :
  triple d fr L (k a) Q → triple d fr L (mret a ≫= k) Q.
Proof. done. Qed.

(** A loop over the indices of [cs] that only reads. *)
Lemma triple_for {C St R} d fr L (cs : list C) (s0 : St) body
    (Inv : nat → St → Prop) (Q : ctl St R → D → list Z → lock_ghost → Prop) :
  Inv 0%nat s0 →
  (∀ i c s, cs !! i = Some c → Inv i s →
     triple d fr L (body (Z.of_nat i) s) (λ r d' fr' L',
       match r with
       | Next s' => d' = d ∧ fr' = fr ∧ L' = L ∧ Inv (S i) s'
       | Break r => Q (Break r) d' fr' L'
       end)) →
  (∀ s, Inv (length cs) s → Q (Next s) d fr L) →
  triple d fr L (for_each (seqZ 0 (Z.of_nat (length cs))) s0 body) Q.
Proof.
  intros Hinit Hbody Hend. unfold seqZ. rewrite Nat2Z.id.
  enough (∀ n k s, (k + n)%nat = length cs → Inv k s →
    triple d fr L (for_each ((λ i : nat, Z.add (Z.of_nat i) 0) <$> seq k n) s body) Q)
    as Hgen by by eapply (Hgen _ 0%nat).
  induction n as [|n IH]; intros k s Hk Hinv.
  - apply triple_ret, Hend. by rewrite -Hk Nat.add_0_r.
  - destruct (lookup_lt_is_Some_2 cs k) as [c Hc]; [lia|]. cbn [seq fmap list_fmap for_each].
    rewrite Z.add_0_r. eapply triple_bind; [by eapply Hbody|].
    intros [s'|r] d' fr' L'; [|by intros; apply triple_ret].
    intros (-> & -> & -> & Hinv'). apply IH; [lia|done].
Qed.
End logic.
