(* ===== verification/FsTraverse.v ===== *)
(** * The traversal of a path

    What [find_entry] and [traverse_fs] do on a disk that stores a tree: they
    change nothing, they find exactly what [walk] finds, and they end with the
    lock of the node they found and no other. *)

From S2P Require Import Prelude CStd Request FsTypes FsMonad FileSystem FsTree FsLogic.

(** ** Lock ghosts *)

Lemma ghost_eq (L1 L2 : lock_ghost) : (∀ l, L1 !! l = L2 !! l) → L1 = L2.
Proof. apply map_eq. Qed.

(** Equality of maps of locks given by inserts and deletes, and lookups in them. *)
Ltac solve_ghost :=
  repeat match goal with
  | |- @eq lock_ghost _ _ => apply ghost_eq; intros ?
  | |- context [<[_ := _]> _ !! _] => rewrite lookup_insert
  | |- context [delete _ _ !! _] => rewrite lookup_delete
  | |- context [∅ !! _] => rewrite lookup_empty
  | |- context [decide (?x = ?y)] => destruct (decide (x = y)); subst; try (exfalso; congruence)
  end; try done; try congruence.

(** ** Directory blocks and slots *)

(** What the search of a block finds, in terms of its slots. *)
Lemma find_index_spec name es slots j :
  ¬ has_char NUL name → Forall2 entry_is es slots →
  match find_index (entry_matches name) es j with
  | Some (j', e) => ∃ i c, j' = (j + i)%nat ∧ es !! i = Some e ∧
      slots !! i = Some (Some (name, c)) ∧ d_inode_block e = root_block c ∧ root_block c ≠ 0
  | None => name ∉ (omap id slots).*1
  end.
Proof.
  intros Hname Hes. revert j. induction Hes as [|e s es slots He Hes IH]; intros j; cbn.
  { apply not_elem_of_nil. }
  assert (entry_matches name e =
    match s with Some (n, _) => String.eqb n name | None => false end) as ->.
  { unfold entry_matches, strcmp_eq. rewrite cut_nul_id //.
    destruct s as [[n c]|]; cbn in He.
    - destruct He as (-> & Hc & ->). by rewrite (proj2 (Z.eqb_neq _ _) Hc).
    - by rewrite He. }
  destruct s as [[n c]|]; [destruct (String.eqb_spec n name) as [->|Hne]|].
  - exists 0%nat, c. rewrite Nat.add_0_r. cbn in He. naive_solver.
  - specialize (IH (S j)). destruct (find_index _ es (S j)) as [[j' e']|].
    + destruct IH as (i & c' & -> & ? & ? & ? & ?). exists (S i), c'.
      split; [lia|]. by split_and!.
    + cbn. rewrite elem_of_cons. naive_solver.
  - specialize (IH (S j)). destruct (find_index _ es (S j)) as [[j' e']|].
    + destruct IH as (i & c' & -> & ? & ? & ? & ?). exists (S i), c'.
      split; [lia|]. by split_and!.
    + done.
Qed.

Lemma inode_is_block i ty o blocks k b :
  inode_is i ty o blocks → blocks !! k = Some b → i_blocks i !! k = Some b.
Proof.
  intros (_ & _ & _ & Ht) Hk. rewrite -Ht in Hk. by apply lookup_take_Some in Hk as [? _].
Qed.

Lemma chunk_names (chunks : list chunk) i b slots :
  chunks !! i = Some (b, slots) →
  chunk_entries (take (S i) chunks) = chunk_entries (take i chunks) ++ omap id slots.
Proof.
  intros Hi. rewrite (take_S_r _ _ _ Hi) chunk_entries_app chunk_entries_cons.
  unfold chunk_entries at 2. cbn. by rewrite app_nil_r.
Qed.

Section traverse.
Context {D M : Type} `{DiskLaws D} `{SharedMutexLaws M}.
Abbreviation triple := (triple (D := D) (M := M)).

(** ** Reading and writing structures *)

Lemma triple_read_inode {B} d fr L b (k : fs_inode → prog B) Q :
  valid_block b → triple d fr L (k (read_as fs_inode d b)) Q →
  triple d fr L (read_inode b ≫= k) Q.
Proof. intros Hb Hk. apply triple_assoc, triple_read, triple_mret; done. Qed.

Lemma triple_read_direntries {B} d fr L b (k : list fs_direntry → prog B) Q :
  valid_block b → triple d fr L (k (read_as (list fs_direntry) d b)) Q →
  triple d fr L (read_direntries b ≫= k) Q.
Proof. intros Hb Hk. apply triple_assoc, triple_read, triple_mret; done. Qed.

Lemma triple_write_inode {B} d fr L b i (k : unit → prog B) Q :
  valid_block b → triple (disk_write d b (encode i)) fr L (k tt) Q →
  triple d fr L (write_inode b i ≫= k) Q.
Proof. apply triple_write. Qed.

Lemma triple_write_direntries {B} d fr L b (es : list fs_direntry) (k : unit → prog B) Q :
  valid_block b → triple (disk_write d b (encode es)) fr L (k tt) Q →
  triple d fr L (write_direntries b es ≫= k) Q.
Proof. apply triple_write. Qed.

Lemma triple_block_at {B} d fr L blocks i b (k : Z → prog B) Q :
  blocks !! Z.to_nat i = Some b → triple d fr L (k b) Q →
  triple d fr L (block_at blocks i ≫= k) Q.
Proof. apply triple_get_some. Qed.

Lemma triple_set_block {B} d fr L blocks i v (k : list Z → prog B) Q :
  is_Some (blocks !! Z.to_nat i) → triple d fr L (k (<[Z.to_nat i := v]> blocks)) Q →
  triple d fr L (set_block blocks i v ≫= k) Q.
Proof. intros [b Hb] Hk. unfold set_block. rewrite Hb. by apply triple_mret. Qed.

Lemma triple_release {A} d fr L m info (r : A) b Q :
  L !! lock_ptr info = Some (b, holders_add m nobody) →
  Q r d fr (delete (lock_ptr info) L) → triple d fr L (release m info r) Q.
Proof.
  intros HL HQ. eapply triple_unlock; [exact HL|by destruct m|].
  eapply triple_drop; [rewrite lookup_insert_eq; by destruct m|].
  rewrite delete_insert_eq. by apply triple_ret.
Qed.

(** ** [find_entry] *)

(** [p] reads only, and its result satisfies [P]. *)
Definition reads {A} (d : D) (fr : list Z) (L : lock_ghost) (P : A → Prop)
    : A → D → list Z → lock_ghost → Prop :=
  λ a d' fr' L', d' = d ∧ fr' = fr ∧ L' = L ∧ P a.

Lemma triple_reads {A B} d fr L (p : prog A) (P : A → Prop) (k : A → prog B) Q :
  triple d fr L p (reads d fr L P) → (∀ a, P a → triple d fr L (k a) Q) →
  triple d fr L (p ≫= k) Q.
Proof.
  intros Hp Hk. eapply triple_bind; [exact Hp|]. intros a d' fr' L' (-> & -> & -> & HP). by apply Hk.
Qed.

(** The directory at [b] in the disk, with its blocks in range. *)
Definition dir_at (d : D) (b : Z) (o : string) (chunks : list chunk) : Prop :=
  node_stored d (Dir b o chunks) ∧ Forall valid_block chunks.*1.

Lemma dir_at_block d b o chunks i c :
  dir_at d b o chunks → chunks !! i = Some c →
  i_blocks (read_as fs_inode d b) !! Z.to_nat (Z.of_nat i) = Some c.1 ∧
  valid_block c.1 ∧ chunk_is d c.
Proof.
  intros [[Hi Hch] Hv] Hc. rewrite Nat2Z.id. split_and!.
  - eapply inode_is_block; [exact Hi|]. by rewrite list_lookup_fmap Hc.
  - rewrite Forall_lookup in Hv. eapply (Hv i). by rewrite list_lookup_fmap Hc.
  - rewrite Forall_lookup in Hch. by eapply Hch.
Qed.

Lemma dir_at_size d b o chunks :
  dir_at d b o chunks → i_size (read_as fs_inode d b) = Z.of_nat (length chunks).
Proof. intros [[(_ & _ & -> & _) _] _]. by rewrite length_fmap. Qed.

Lemma find_entry_spec d fr L b o chunks name :
  dir_at d b o chunks → NoDup (chunk_entries chunks).*1 → ¬ has_char NUL name →
  triple d fr L (find_entry (read_as fs_inode d b) name)
    (reads d fr L (λ r, r = root_block <$> child (Dir b o chunks) name)).
Proof.
  intros Hd Hnd Hname. unfold find_entry. rewrite (dir_at_size _ _ _ _ Hd).
  eapply triple_reads with (P := λ r, match r with
    | Break b' => Some b' | Next _ => None end = root_block <$> child (Dir b o chunks) name).
  2: { intros [?|b'] Hb'; apply triple_ret; by rewrite -Hb'. }
  apply (triple_for _ _ _ chunks tt _ (λ i _, name ∉ (chunk_entries (take i chunks)).*1)).
  - apply not_elem_of_nil.
  - intros i [b' slots] [] Hi Hn.
    destruct (dir_at_block _ _ _ _ _ _ Hd Hi) as (Hblk & Hv & Hch).
    eapply triple_block_at; [exact Hblk|]. apply triple_read_direntries; [done|].
    pose proof (find_index_spec name _ _ 0 Hname Hch) as Hf. cbn [fst snd] in *.
    destruct (find_index _ _ 0) as [[j e]|]; apply triple_ret.
    + destruct Hf as (k & c & _ & _ & Hk & -> & _). split_and!; [done..|].
      rewrite child_Dir (find_child_elem name _ c); [done..|].
      apply elem_of_chunk_entries. exists b', slots. split; by eapply list_elem_of_lookup_2.
    + split_and!; [done..|]. rewrite (chunk_names _ _ _ _ Hi) fmap_app elem_of_app. tauto.
  - intros [] Hn. rewrite firstn_all in Hn. split_and!; [done..|].
    rewrite child_Dir. by apply find_child_None in Hn as ->.
Qed.

(** ** [traverse_fs] *)

(** What the traversal needs of the tree it crosses. *)
Record sound (d : D) (t : tree) : Prop := {
  sound_stored : stored d t;
  sound_shape : shape t;
  sound_NoDup : NoDup (used t);
  sound_valid : Forall valid_block (used t) }.

Lemma sound_child d t n c : sound d t → (n, c) ∈ children t → sound d c.
Proof.
  intros [Hst Hsh Hnd Hv] Hc. split.
  - by eapply all_nodes_child; [exact Hst|].
  - by eapply all_nodes_child; [exact Hsh|].
  - by eapply used_child_NoDup.
  - rewrite Forall_forall in Hv. apply Forall_forall. intros b Hb. apply Hv. by eapply used_child.
Qed.

Lemma sound_subtree d t p c : sound d t → subtree t p = Some c → sound d c.
Proof.
  revert t. induction p as [|n p IH]; intros t Ht; cbn; [by intros [= <-]|].
  intros (c' & Hc' & Hs)%bind_Some. eapply IH; [|done].
  eapply sound_child; [exact Ht|by apply child_elem].
Qed.

Lemma sound_dir d b o chunks :
  sound d (Dir b o chunks) →
  dir_at d b o chunks ∧ NoDup (chunk_entries chunks).*1.
Proof.
  intros [Hst Hsh _ Hv]. split; [split|].
  - by apply (all_nodes_here _ _ Hst).
  - rewrite used_children in Hv. apply Forall_app in Hv as [Hv _].
    by apply Forall_cons in Hv as [_ Hv].
  - by destruct (all_nodes_here _ _ Hsh).
Qed.

Lemma sound_root_valid d t : sound d t → valid_block (root_block t).
Proof. intros [_ _ _ Hv]. rewrite Forall_forall in Hv. apply Hv, root_block_used. Qed.

Lemma sound_inode d t :
  sound d t →
  i_type (read_as fs_inode d (root_block t)) = (if is_dir t then type_dir else type_file) ∧
  c_str (i_owner (read_as fs_inode d (root_block t))) = tree_owner t.
Proof.
  intros Ht. pose proof (all_nodes_here _ _ (sound_stored _ _ Ht)) as Hn.
  destruct t; destruct Hn as [(Hty & Ho & _) _]; done.
Qed.

Lemma sound_is_file d t :
  sound d t → Ascii.eqb (i_type (read_as fs_inode d (root_block t))) type_file = negb (is_dir t).
Proof. intros [-> _]%sound_inode. by destruct (is_dir t). Qed.

Lemma sound_is_dir d t :
  sound d t → Ascii.eqb (i_type (read_as fs_inode d (root_block t))) type_dir = is_dir t.
Proof. intros [-> _]%sound_inode. by destruct (is_dir t). Qed.

Lemma sound_owner d t user :
  sound d t → ¬ has_char NUL user →
  is_owner user (read_as fs_inode d (root_block t)) = String.eqb user (tree_owner t).
Proof. intros [_ Ho]%sound_inode Hu. unfold is_owner, strcmp_eq. by rewrite Ho cut_nul_id. Qed.

(** The locks during the loop: the current node, read-locked, and the pointer
    to the previous one, not yet dropped. *)
Definition held_in (m : lock_mode) (b : Z) : Z * holders := (b, holders_add m nobody).

Definition loop_locks (cur : lockref) (b : Z) (prev : option (lockref * Z)) : lock_ghost :=
  match prev with
  | None => <[cur := held_in Shared b]> ∅
  | Some (lp, bp) => <[cur := held_in Shared b]> (<[lp := (bp, nobody)]> ∅)
  end.

Definition loop_ok (cur : lockref) (t : tree) (prev : option (lockref * Z)) : Prop :=
  match prev with
  | None => True
  | Some (lp, bp) => lp ≠ cur ∧ bp ∉ used t
  end.

(** What [traverse_fs] returns, against [walk]. *)
Definition traversed (T : lock_mode) (d : D) (fr : list Z) (w : option tree)
    (r : option inode_lock_info) (d' : D) (fr' : list Z) (L' : lock_ghost) : Prop :=
  d' = d ∧ fr' = fr ∧
  match w with
  | Some c => ∃ l, r = Some (mk_info (read_as fs_inode d (root_block c)) l (root_block c)) ∧
      L' = <[l := held_in T (root_block c)]> ∅
  | None => r = None ∧ L' = ∅
  end.

Lemma triple_loop_fail T d fr cur b prev :
  (∀ lp bp, prev = Some (lp, bp) → lp ≠ cur) →
  triple d fr (loop_locks cur b prev)
    (unlock Shared cur;; drop_opt (fst <$> prev);; drop_ptr cur;; mret None)
    (traversed T d fr None).
Proof.
  intros Hne. destruct prev as [[lp bp]|]; cbn [loop_locks fmap option_fmap option_map fst drop_opt].
  - specialize (Hne _ _ eq_refl).
    eapply triple_unlock; [by solve_ghost|done|]. eapply triple_drop; [by solve_ghost|].
    eapply triple_drop; [by solve_ghost|]. apply triple_ret. split_and!; [done..|]. by solve_ghost.
  - eapply triple_unlock; [by solve_ghost|done|]. apply triple_mret.
    eapply triple_drop; [by solve_ghost|]. apply triple_ret. split_and!; [done..|]. by solve_ghost.
Qed.

Lemma traverse_loop_spec T owner path d fr :
  Forall (λ n, ¬ has_char NUL n) path → ¬ has_char NUL owner → path ≠ [] →
  ∀ first t cur prev, sound d t → loop_ok cur t prev →
  triple d fr (loop_locks cur (root_block t) prev)
    (traverse_loop T owner path first (read_as fs_inode d (root_block t)) cur (fst <$> prev))
    (traversed T d fr (walk owner t path first)).
Proof.
  intros Hpath Hown. induction Hpath as [|name path Hname Hpath IH]; intros Hne first t cur prev
    Ht Hok; [done|]. clear Hne. cbn [traverse_loop].
  assert (∀ lp bp, prev = Some (lp, bp) → lp ≠ cur) as Hprev by (intros lp bp ->; by destruct Hok).
  rewrite (sound_is_file _ _ Ht). destruct t as [b o data|b o chunks]; cbn [is_dir negb walk].
  { by apply triple_loop_fail. }
  pose proof (triple_loop_fail T d fr cur b prev Hprev) as Hfail.
  rewrite (sound_owner _ _ _ Ht) //. cbn [tree_owner root_block]. rewrite andb_comm.
  destruct (negb first && negb (String.eqb owner o)); [exact Hfail|].
  destruct (sound_dir _ _ _ _ Ht) as [Hdir Hnd].
  eapply triple_reads; [by apply find_entry_spec|]. intros r ->.
  destruct (child (Dir b o chunks) name) as [c|] eqn:Hc; [|exact Hfail].
  cbn [fmap option_fmap option_map].
  apply child_elem in Hc as Hin. apply (sound_child _ _ _ _ Ht) in Hin as Hcs.
  assert (b ∉ used c) as Hb.
  { eapply (node_blocks_child_disjoint (Dir b o chunks));
      [by eapply sound_NoDup|exact Hin|apply elem_of_cons; by left]. }
  assert (root_block c ≠ b) as Hcb by (intros <-; apply Hb, root_block_used).
  eapply triple_get_lock.
  { destruct prev as [[lp bp]|]; repeat apply unlocked_insert; auto using unlocked_empty.
    intros ->. destruct Hok as [_ Hbp]. apply Hbp.
    eapply used_child; [exact Hin|apply root_block_used]. }
  intros l Hl.
  assert (l ≠ cur) as Hlc.
  { intros ->. destruct prev as [[lp bp]|]; by rewrite lookup_insert_eq in Hl. }
  assert (∀ (k : prog (option inode_lock_info)) (Q : _ → D → list Z → lock_ghost → Prop),
    triple d fr (<[l := (root_block c, nobody)]> (<[cur := held_in Shared b]> ∅)) k Q →
    triple d fr (<[l := (root_block c, nobody)]> (loop_locks cur b prev))
      (drop_opt (fst <$> prev);; k) Q) as Hdrop.
  { intros k Q Hk. destruct prev as [[lp bp]|]; [|by apply triple_mret].
    specialize (Hprev _ _ eq_refl).
    assert (l ≠ lp) by (intros ->; by rewrite lookup_insert_ne // lookup_insert_eq in Hl).
    cbn [loop_locks fmap option_fmap option_map fst drop_opt].
    eapply triple_drop; [by solve_ghost|].
    eassert (delete lp _ = _) as ->; [|exact Hk]. by solve_ghost. }
  apply Hdrop. change (Some c ≫= ?f) with (f c). cbv beta.
  destruct path as [|name' path].
  - eapply triple_lock; [by solve_ghost|].
    eapply triple_unlock; [by solve_ghost|done|].
    apply triple_read_inode; [by eapply sound_root_valid|].
    rewrite (sound_owner _ _ _ Hcs) //. cbn [walk orb].
    destruct (String.eqb owner (tree_owner c)); cbn [negb].
    + eapply triple_drop; [by solve_ghost|]. apply triple_ret. split_and!; [done..|].
      eexists. split; [done|]. by solve_ghost.
    + eapply triple_unlock; [by solve_ghost|by destruct T|].
      eapply triple_drop; [by solve_ghost|].
      eapply triple_drop; [by solve_ghost; destruct T|].
      apply triple_ret. split_and!; [done..|]. by solve_ghost.
  - eapply triple_lock; [by solve_ghost|].
    eapply triple_unlock; [by solve_ghost|done|].
    apply triple_read_inode; [by eapply sound_root_valid|].
    eassert (_ = loop_locks l (root_block c) (Some (cur, b))) as ->; [by cbn [loop_locks]; solve_ghost|].
    by apply (IH ltac:(done) false c l (Some (cur, b))).
Qed.

Lemma traverse_fs_spec T path owner d fr t :
  Forall (λ n, ¬ has_char NUL n) path → ¬ has_char NUL owner →
  sound d t → root_block t = 0 →
  triple d fr ∅ (traverse_fs T path owner) (traversed T d fr (walk owner t path true)).
Proof.
  intros Hpath Hown Ht Hroot. unfold traverse_fs.
  assert (valid_block 0) as H0v by (rewrite -Hroot; by eapply sound_root_valid).
  apply triple_get_lock; [apply unlocked_empty|]. intros l _.
  destruct path as [|name path].
  - eapply triple_lock; [by solve_ghost|]. apply triple_read_inode; [done|].
    apply triple_ret. cbn. split_and!; [done..|]. rewrite Hroot. eexists. split; [done|].
    by solve_ghost.
  - eapply triple_lock; [by solve_ghost|]. apply triple_read_inode; [done|].
    eassert (_ = loop_locks l 0 None) as ->; [by cbn [loop_locks]; solve_ghost|]. rewrite -{1 2}Hroot.
    by apply (traverse_loop_spec T owner (name :: path) d fr Hpath Hown ltac:(done) true t l None).
Qed.
End traverse.
