(* ===== verification/FsStored.v ===== *)
(** * What the handlers' disk writes store

    For each handler, the writes it makes turn a disk that stores a node into
    one that stores the changed node; [stored_update] of FsTree then gives the
    whole tree. *)

From S2P Require Import Prelude CStd Request FsTypes FileSystem FsTree FsSpec.

Lemma u32_lt b : valid_block b → u32 b.
Proof. unfold valid_block, u32, FS_DISKSIZE. lia. Qed.

Lemma u32_to_uint32 z : u32 (to_uint32 z).
Proof. unfold u32, to_uint32. lia. Qed.

Lemma to_uint32_id z : u32 z → to_uint32 z = z.
Proof. unfold u32, to_uint32. lia. Qed.

Section stored.
Context {D : Type} `{DiskLaws D}.

Definition valid_blocks (l : list Z) : Prop := Forall valid_block l.

Lemma valid_blocks_elem l b : valid_blocks l → b ∈ l → valid_block b.
Proof. intros Hv. rewrite /valid_blocks Forall_forall in Hv. apply Hv. Qed.

(** ** Inodes *)

Lemma inode_is_size d b ty o blocks :
  valid_block b → inode_is (read_as fs_inode d b) ty o blocks →
  (length blocks ≤ n_blocks)%nat ∧ i_size (read_as fs_inode d b) = Z.of_nat (length blocks).
Proof.
  intros Hb (_ & _ & Hs & Ht). split; [|done].
  destruct (read_as_typed fs_inode d b Hb) as (_ & _ & Hl & _).
  apply (f_equal length) in Ht. rewrite length_take Hl in Ht. lia.
Qed.

Lemma with_blocks_typed i n blocks :
  inode_typed i → u32 n → length blocks = n_blocks → Forall u32 blocks →
  inode_typed (with_blocks i n blocks).
Proof. intros (Ho & _ & _ & _) Hn Hl Hb. by split_and!. Qed.

Lemma with_blocks_is i ty o blocks n blocks' l :
  inode_is i ty o blocks → n = Z.of_nat (length l) → take (length l) blocks' = l →
  inode_is (with_blocks i n blocks') ty o l.
Proof. intros (Hty & Ho & _ & _) Hn Ht. by split_and!. Qed.

(** One more block at the end of an inode. *)
Lemma inode_append d b ty o blocks nb :
  valid_block b → valid_block nb → inode_is (read_as fs_inode d b) ty o blocks →
  (length blocks < n_blocks)%nat →
  let i := read_as fs_inode d b in
  let i' := with_blocks i (to_uint32 (i_size i + 1)) (<[Z.to_nat (i_size i) := nb]> (i_blocks i)) in
  inode_typed i' ∧ inode_is i' ty o (blocks ++ [nb]).
Proof.
  intros Hb Hnb Hi Hlt i i'. destruct (inode_is_size _ _ _ _ _ Hb Hi) as [_ Hs].
  pose proof (read_as_typed fs_inode d b Hb) as Hty. subst i'. fold i in Hs, Hty, Hi |- *.
  clearbody i. destruct Hty as (Ho & Hsz & Hl & Hbl). rewrite Hs to_uint32_id; [|unfold u32; lia].
  rewrite Nat2Z.id. split.
  - apply with_blocks_typed; [by split_and!|unfold u32; lia|by rewrite length_insert|].
    by apply Forall_insert; [|apply u32_lt].
  - eapply with_blocks_is; [exact Hi|rewrite length_app; cbn; lia|].
    rewrite length_app /= Nat.add_1_r. destruct Hi as (_ & _ & _ & Ht).
    rewrite (take_S_r _ _ nb); [|apply list_lookup_insert_eq; lia].
    by rewrite take_insert_ge // Ht.
Qed.

(** ** Files *)

Lemma disk_read_insert d b bs b' :
  valid_block b → valid_block b' → length bs = n_block →
  disk_read (disk_write d b bs) b' = if decide (b = b') then bs else disk_read d b'.
Proof.
  intros Hb Hb' Hl. case_decide as Heq; [subst; by apply disk_read_write_eq|].
  by apply disk_read_write_ne.
Qed.

Lemma stored_File d b o data :
  stored d (File b o data) ↔ node_stored d (File b o data).
Proof.
  split; [apply all_nodes_here|]. intros Hn. constructor; [done|].
  by intros n c ?%not_elem_of_nil.
Qed.

Lemma stored_set_data d b o data i db old bs :
  stored d (File b o data) → NoDup (used (File b o data)) →
  valid_blocks (used (File b o data)) → data !! i = Some (db, old) → length bs = n_block →
  stored (disk_write d db bs) (set_data i bs (File b o data)).
Proof.
  rewrite !stored_File. intros [Hi Hdata] Hnd Hv Hdb Hl. cbn [used] in Hnd, Hv.
  apply NoDup_cons in Hnd as [Hb Hnd]. apply Forall_cons in Hv as [Hvb Hv].
  assert (db ∈ data.*1) as Hdbin.
  { apply list_elem_of_lookup. exists i. by rewrite list_lookup_fmap Hdb. }
  assert (valid_block db) as Hvdb by by eapply valid_blocks_elem.
  cbn [set_data node_stored]. rewrite set_data_blocks. split.
  - rewrite (read_as_agree _ d) //. apply disk_read_write_ne; [done..|]. by intros ->.
  - apply Forall_lookup. intros j [b' bs'] Hj. cbn.
    destruct (decide (j = i)) as [->|Hji].
    + rewrite list_lookup_alter_eq Hdb in Hj. injection Hj as <- <-. by apply disk_read_write_eq.
    + rewrite list_lookup_alter_ne // in Hj. rewrite Forall_lookup in Hdata.
      rewrite disk_read_write_ne.
      * by apply (Hdata j (b', bs')).
      * done.
      * eapply valid_blocks_elem; [exact Hv|]. apply list_elem_of_lookup. exists j.
        by rewrite list_lookup_fmap Hj.
      * intros ->. apply Hji. eapply (NoDup_lookup data.*1); [done| |];
          rewrite list_lookup_fmap; [by rewrite Hj|by rewrite Hdb].
Qed.

Lemma stored_append_data d b o data nb bs :
  let i := read_as fs_inode d b in
  let i' := with_blocks i (to_uint32 (i_size i + 1)) (<[Z.to_nat (i_size i) := nb]> (i_blocks i)) in
  stored d (File b o data) → valid_blocks (used (File b o data)) →
  valid_block nb → nb ∉ used (File b o data) → (length data < n_blocks)%nat →
  length bs = n_block → b ∉ data.*1 →
  stored (disk_write (disk_write d nb bs) b (encode i')) (append_data nb bs (File b o data)).
Proof.
  intros i i'. rewrite !stored_File. intros [Hi Hdata] Hv Hvnb Hnb Hlen Hl Hb.
  cbn [used] in Hv, Hnb. apply Forall_cons in Hv as [Hvb Hv].
  apply not_elem_of_cons in Hnb as [Hnbb Hnb].
  destruct (inode_append d b type_file o data.*1 nb) as [Hty Hi']; [done..|by rewrite length_fmap|].
  cbn [append_data node_stored]. split.
  - rewrite read_as_write_eq //. by rewrite fmap_app.
  - apply Forall_app. split; [|apply Forall_singleton; cbn].
    + rewrite Forall_forall in Hdata. apply Forall_forall. intros [b' bs'] Hin.
      apply (list_elem_of_fmap_2 fst) in Hin as Hin'. cbn in Hin' |- *.
      assert (valid_block b') by by eapply valid_blocks_elem.
      rewrite !disk_read_write_ne //; [by apply (Hdata (b', bs'))| |]; by intros ->.
    + by rewrite disk_read_write_ne // disk_read_write_eq.
Qed.

(** ** Directories *)

Lemma stored_Dir d b o chunks :
  stored d (Dir b o chunks) ↔
  node_stored d (Dir b o chunks) ∧ ∀ n c, (n, c) ∈ chunk_entries chunks → stored d c.
Proof.
  split.
  - intros Hs. split; [by apply (all_nodes_here _ _ Hs)|]. intros n c.
    by apply (all_nodes_child _ _ _ _ Hs).
  - intros [Hn Hc]. by constructor.
Qed.

(** The entries of the new directory are old ones, or new ones already stored. *)
Lemma stored_Dir_change d d' b o chunks chunks' :
  stored d (Dir b o chunks) → node_stored d' (Dir b o chunks') →
  (∀ n c, (n, c) ∈ chunk_entries chunks' → (n, c) ∈ chunk_entries chunks ∨ stored d' c) →
  (∀ n c x, (n, c) ∈ chunk_entries chunks → x ∈ used c → disk_read d' x = disk_read d x) →
  stored d' (Dir b o chunks').
Proof.
  intros [_ Hst]%stored_Dir Hn Hent Hagree. apply stored_Dir. split; [done|].
  intros n c [Hin|]%Hent; [|done]. eapply stored_frame; [by eapply Hst|].
  intros x. by apply (Hagree n).
Qed.

Lemma stored_new_node d b ty user i :
  (ty = type_file ∨ ty = type_dir) →
  read_as fs_inode d b = i → i_type i = ty → c_str (i_owner i) = user → i_size i = 0 →
  stored d (new_node ty b user).
Proof.
  intros Hty Hr Ht Ho Hs. unfold new_node. destruct (Ascii.eqb_spec ty type_file) as [->|Hne].
  - apply stored_File. split; [rewrite Hr; by split_and!|done].
  - destruct Hty as [| ->]; [done|]. apply stored_Dir.
    split; [|by intros n c ?%not_elem_of_nil]. split; [rewrite Hr; by split_and!|done].
Qed.

(** The slot [j] of the [k]-th block. *)
Definition put_slot (k j : nat) (s : slot) (chunks : list chunk) : list chunk :=
  alter (λ c : chunk, (c.1, <[j := s]> c.2)) k chunks.

Lemma put_slot_blocks k j s chunks : (put_slot k j s chunks).*1 = chunks.*1.
Proof.
  unfold put_slot. revert k. induction chunks as [|c chunks IH]; intros [|k]; cbn;
    [done..|]. by rewrite IH.
Qed.

Lemma node_stored_put d d' b o chunks k j ck slots e s :
  node_stored d (Dir b o chunks) → chunks !! k = Some (ck, slots) → entry_is e s →
  disk_read d' b = disk_read d b →
  (∀ x, x ∈ chunks.*1 → x ≠ ck → disk_read d' x = disk_read d x) → NoDup chunks.*1 →
  read_as (list fs_direntry) d' ck = <[j := e]> (read_as (list fs_direntry) d ck) →
  node_stored d' (Dir b o (put_slot k j s chunks)).
Proof.
  intros [Hi Hch] Hk He Hb Hother Hnd Hck. split.
  - by rewrite put_slot_blocks (read_as_agree _ d).
  - rewrite Forall_lookup in Hch. apply Forall_lookup. intros m [cm sm] Hm. unfold put_slot in Hm.
    destruct (decide (m = k)) as [->|Hne].
    + rewrite list_lookup_alter_eq Hk in Hm. injection Hm as <- <-. unfold chunk_is. cbn.
      rewrite Hck. apply Forall2_insert; [by apply (Hch k (ck, slots))|done].
    + rewrite list_lookup_alter_ne // in Hm. unfold chunk_is. cbn.
      rewrite (read_as_agree _ d); [by apply (Hch m (cm, sm))|]. apply Hother.
      * apply list_elem_of_lookup. exists m. by rewrite list_lookup_fmap Hm.
      * intros ->. apply Hne. eapply (NoDup_lookup chunks.*1); [done| |];
          rewrite list_lookup_fmap; [by rewrite Hm|by rewrite Hk].
Qed.

Lemma node_stored_new_chunk d d' b o chunks db e n c :
  valid_block b → valid_block db → (length chunks < n_blocks)%nat →
  node_stored d (Dir b o chunks) → entry_is e (Some (n, c)) →
  (let i := read_as fs_inode d b in
   read_as fs_inode d' b =
     with_blocks i (to_uint32 (i_size i + 1)) (<[Z.to_nat (i_size i) := db]> (i_blocks i))) →
  (∀ x, x ∈ chunks.*1 → disk_read d' x = disk_read d x) →
  read_as (list fs_direntry) d' db = e :: replicate (n_direntries - 1) zero_direntry →
  node_stored d' (Dir b o (chunks ++ [new_chunk db (n, c)])).
Proof.
  intros Hb Hdb Hlen [Hi Hch] He Hr Hother Hck. split.
  - rewrite Hr fmap_app. apply (inode_append d b type_dir o chunks.*1 db); [done..|].
    by rewrite length_fmap.
  - apply Forall_app. split.
    + rewrite Forall_forall in Hch. apply Forall_forall. intros x Hx. unfold chunk_is.
      rewrite (read_as_agree _ d); [by apply Hch|]. by apply Hother, list_elem_of_fmap_2.
    + apply Forall_singleton. unfold chunk_is. cbn [fst snd new_chunk]. rewrite Hck.
      constructor; [exact He|]. by repeat constructor.
Qed.

Lemma node_stored_delete_chunk d d' b o chunks k n blocks' :
  node_stored d (Dir b o chunks) → (k < length chunks)%nat →
  read_as fs_inode d' b = with_blocks (read_as fs_inode d b) n blocks' →
  n = Z.of_nat (length chunks - 1) → take (length chunks - 1) blocks' = delete k chunks.*1 →
  (∀ x, x ∈ chunks.*1 → disk_read d' x = disk_read d x) →
  node_stored d' (Dir b o (delete k chunks)).
Proof.
  intros [Hi Hch] Hk Hr Hn Ht Hother.
  assert (length (delete k chunks) = (length chunks - 1)%nat) as Hlen.
  { apply length_delete. by apply lookup_lt_is_Some. }
  split.
  - rewrite Hr. eapply with_blocks_is; [exact Hi|by rewrite length_fmap Hlen|].
    rewrite length_fmap Hlen Ht. by rewrite !delete_take_drop fmap_app fmap_take fmap_drop.
  - rewrite Forall_forall in Hch. apply Forall_forall. intros x Hx.
    assert (x ∈ chunks) as Hx'.
    { rewrite delete_take_drop in Hx. rewrite -(take_drop k chunks) elem_of_app.
      apply elem_of_app in Hx as [|Hx]; [by left|right].
      apply lookup_lt_is_Some in Hk as [y Hy]. rewrite (drop_S _ _ _ Hy).
      apply elem_of_cons. by right. }
    unfold chunk_is. rewrite (read_as_agree _ d); [by apply Hch|].
    by apply Hother, list_elem_of_fmap_2.
Qed.
End stored.
