(* ===== verification/FsCorrect.v ===== *)
(** * Reading and writing files implement their specification

    The invariant of the server's state and, for [execute_READBLOCK] and
    [execute_WRITEBLOCK], that the handler alone does what [spec_request] says,
    with every lock released. *)

From S2P Require Import Prelude CStd Request FsTypes FsMonad FileSystem FsTree FsSpec FsLogic FsTraverse FsStored.

(** ** Consequences of well-formedness *)

Section ok.
Context {D : Type} `{DiskLaws D}.

Lemma fsys_ok_valid s : fsys_ok s → Forall valid_block (used (contents s) ++ free s).
Proof.
  intros (_ & _ & _ & Hp). rewrite Hp. apply Forall_forall. intros b Hb%elem_of_seqZ.
  unfold valid_block. lia.
Qed.

Lemma fsys_ok_NoDup s : fsys_ok s → NoDup (used (contents s) ++ free s).
Proof. intros (_ & _ & _ & Hp). rewrite Hp. apply NoDup_seqZ. Qed.

Lemma fsys_ok_sound (d : D) s : fsys_ok s → stored d (contents s) → sound d (contents s).
Proof.
  intros Hok Hst. split; [done|by apply Hok| |].
  - by apply fsys_ok_NoDup, NoDup_app in Hok as (? & _ & _).
  - by apply fsys_ok_valid, Forall_app in Hok as [? _].
Qed.

Lemma fsys_ok_free s b :
  fsys_ok s → b ∈ free s → valid_block b ∧ b ∉ used (contents s).
Proof.
  intros Hok Hb. split.
  - apply fsys_ok_valid, Forall_app in Hok as [_ Hv]. rewrite Forall_forall in Hv. by apply Hv.
  - intros Hu. apply fsys_ok_NoDup, NoDup_app in Hok as (_ & Hd & _). by apply (Hd b).
Qed.

Lemma subtree_used_NoDup t path c : NoDup (used t) → subtree t path = Some c → NoDup (used c).
Proof.
  revert t. induction path as [|n path IH]; intros t Hnd; cbn; [by intros [= <-]|].
  intros (c' & Hc' & Hs)%bind_Some. eapply IH; [|done].
  eapply used_child_NoDup; [exact Hnd|by apply child_elem].
Qed.
End ok.

Section correct.
Context {D M : Type} `{DiskLaws D} `{SharedMutexLaws M}.
Abbreviation triple := (triple (D := D) (M := M)).

(** ** The invariant of the server between requests *)

Record fs_inv (t : tree) (s : fs_state D M) : Prop := {
  inv_stored : stored (disk s) t;
  inv_ok : fsys_ok (mk_fsys t (free_disk_blocks s));
  inv_locks : live (locks s) ∅ }.

(** A handler ended as the specification says: the result and the new system
    [o], an unchanged disk if it failed or only read, and no lock left. *)
Definition implements (d : D) (o : out_block * fsys)
    (r : out_block) (d' : D) (fr' : list Z) (L' : lock_ghost) : Prop :=
  L' = ∅ ∧ r = o.1 ∧ fr' = free o.2 ∧ stored d' (contents o.2) ∧
  (r ≠ Some None → d' = d).

Lemma implements_error d t fr : stored d t → implements d (None, mk_fsys t fr) None d fr ∅.
Proof. intros ?. by split_and!. Qed.

Lemma filename_no_nul n : filename_ok n → ¬ has_char NUL n.
Proof. by intros [[? _] _]. Qed.

Lemma path_no_nul p : path_ok p → Forall (λ n, ¬ has_char NUL n) p.
Proof. intros [Hp _]. eapply Forall_impl; [exact Hp|]. apply filename_no_nul. Qed.

(** The traversal, then the rest of the handler. *)
Lemma triple_traverse {A} T path owner d fr t (k : option inode_lock_info → prog A) Q :
  Forall (λ n, ¬ has_char NUL n) path → ¬ has_char NUL owner →
  sound d t → root_block t = 0 →
  (walk owner t path true = None → triple d fr ∅ (k None) Q) →
  (∀ c l, walk owner t path true = Some c → subtree t path = Some c → sound d c →
    triple d fr (<[l := held_in T (root_block c)]> ∅)
      (k (Some (mk_info (read_as fs_inode d (root_block c)) l (root_block c)))) Q) →
  triple d fr ∅ (traverse_fs T path owner ≫= k) Q.
Proof.
  intros Hp Ho Ht Hr Hnone Hsome. eapply triple_bind; [by apply traverse_fs_spec|].
  intros r d' fr' L' (-> & -> & Hw). destruct (walk owner t path true) as [c|] eqn:Hc.
  - destruct Hw as (l & -> & ->). apply walk_subtree in Hc as Hs.
    apply Hsome; [done..|]. by eapply sound_subtree.
  - destruct Hw as [-> ->]. by apply Hnone.
Qed.

Lemma triple_release_read {A} d fr T l c i (r : A) Q :
  Q r d fr ∅ →
  triple d fr (<[l := held_in T (root_block c)]> ∅) (release T (mk_info i l (root_block c)) r) Q.
Proof.
  intros HQ. eapply triple_release; [by solve_ghost|].
  eassert (delete _ _ = ∅) as ->; [by cbn [lock_ptr]; solve_ghost|done].
Qed.

(** ** [execute_READBLOCK] *)

Lemma execute_READBLOCK_spec (req : FS_READBLOCK) d s :
  fsys_ok s → stored d (contents s) → request_ok (Req_READBLOCK req) →
  triple d (free s) ∅ (execute_READBLOCK req)
    (implements d (spec_request (Req_READBLOCK req) s)).
Proof.
  intros Hok Hst ([[Hu _] _] & Hp & Hb). pose proof (fsys_ok_sound _ _ Hok Hst) as Hs.
  destruct s as [t fr]. cbn in Hu, Hp, Hb. unfold execute_READBLOCK. cbn [spec_request contents free] in *.
  set (Q := implements _ _).
  assert (spec_read (rd_username req) (rd_path req) (rd_block req) t = None → Q None d fr ∅) as Hfail.
  { intros Hnone. unfold Q. rewrite Hnone. by apply implements_error. }
  unfold spec_read in *. case_decide as Hnil.
  { apply triple_ret, Hfail. rewrite Hnil. cbn. destruct Hok as (_ & Hdir & _). by destruct t. }
  destruct (Z.leb_spec FS_MAXFILEBLOCKS (rd_block req)) as [Hmax|Hmax].
  { apply triple_ret, Hfail. destruct (walk _ t _ true) as [[b o data|]|] eqn:Hw; [|done..].
    apply walk_subtree in Hw. pose proof (sound_subtree _ _ _ _ Hs Hw) as Hc.
    destruct (all_nodes_here _ _ (sound_stored _ _ Hc)) as [Hi _].
    apply inode_is_size in Hi as [Hlen _]; [|by apply (sound_root_valid _ _ Hc)].
    rewrite length_fmap in Hlen. unfold FS_MAXFILEBLOCKS in Hmax.
    by rewrite lookup_ge_None_2; [|lia]. }
  eapply triple_traverse; [by apply path_no_nul|done|exact Hs|by apply Hok| |].
  { intros Hw. apply triple_ret, Hfail. by rewrite Hw. }
  intros c l Hw Hsub Hc. rewrite Hw in Hfail. cbn [inode].
  rewrite (sound_is_dir _ _ Hc). destruct c as [b o data|b o chunks]; cbn [is_dir];
    [|by apply triple_release_read, Hfail].
  destruct (all_nodes_here _ _ (sound_stored _ _ Hc)) as [Hi Hdata].
  destruct (inode_is_size _ _ _ _ _ (sound_root_valid _ _ Hc) Hi) as [_ Hsize].
  cbn [root_block] in *. rewrite Hsize length_fmap.
  destruct (Z.leb_spec (Z.of_nat (length data)) (rd_block req)) as [Hge|Hlt].
  { apply (triple_release_read d fr Shared l (File b o data)), Hfail. by rewrite lookup_ge_None_2; [|lia]. }
  destruct (lookup_lt_is_Some_2 data (Z.to_nat (rd_block req))) as [[db bs] Hdb]; [lia|].
  assert (data.*1 !! Z.to_nat (rd_block req) = Some db) as Hdb1 by by rewrite list_lookup_fmap Hdb.
  eapply triple_block_at; [by eapply inode_is_block|]. apply triple_read.
  { destruct Hc as [_ _ _ Hv]. rewrite Forall_forall in Hv. apply Hv. cbn.
    apply elem_of_cons. right. by eapply list_elem_of_lookup_2. }
  apply (triple_release_read d fr Shared l (File b o data)). unfold Q, implements.
  rewrite Hw Hdb. split_and!; [done| |done..]. cbn. rewrite Forall_lookup in Hdata.
  by rewrite (Hdata _ _ Hdb).
Qed.

(** ** [execute_WRITEBLOCK] *)

(** The node at [path] changed on the disk: the tree changed at [path]. *)
Lemma implements_update d d' s path f c fr' :
  fsys_ok s → stored d (contents s) → subtree (contents s) path = Some c →
  (∀ b, b ∈ used (contents s) → b ∉ used c → disk_read d' b = disk_read d b) →
  stored d' (f c) → root_block (f c) = root_block c →
  implements d (Some None, mk_fsys (update (contents s) path f) fr') (Some None) d' fr' ∅.
Proof.
  intros Hok Hst Hs Hagree Hf Hroot. split_and!; [done..| |done]. cbn [contents snd].
  eapply stored_update; [exact Hst|by apply Hok| |exact Hs|done..].
  by apply (sound_NoDup d), fsys_ok_sound.
Qed.

Lemma triple_release_written {A} d fr l c i (r : A) Q :
  Q r d fr ∅ →
  triple d fr (<[l := (root_block c, mk_holders 0 false true)]> (<[l := held_in Upgradable (root_block c)]> ∅))
    (release Exclusive (mk_info i l (root_block c)) r) Q.
Proof.
  intros HQ. eapply triple_release; [by cbn [lock_ptr]; solve_ghost|].
  eassert (delete _ _ = ∅) as ->; [by cbn [lock_ptr]; solve_ghost|done].
Qed.

Lemma execute_WRITEBLOCK_spec (req : FS_WRITEBLOCK) d s bs :
  fsys_ok s → stored d (contents s) → request_ok (Req_WRITEBLOCK req) →
  wr_data req = Some bs → length bs = n_block →
  triple d (free s) ∅ (execute_WRITEBLOCK req)
    (implements d (spec_request (Req_WRITEBLOCK req) s)).
Proof.
  intros Hok Hst ([[Hu _] _] & Hp & Hb) Hdata Hlbs. pose proof (fsys_ok_sound _ _ Hok Hst) as Hs.
  unfold execute_WRITEBLOCK. cbn [spec_request]. rewrite Hdata.
  change (default [] (Some bs)) with bs.
  destruct s as [t fr]. cbn [contents free] in *. cbn in Hu, Hp, Hb.
  set (Q := implements _ _).
  assert (spec_write (wr_username req) (wr_path req) (wr_block req) bs (mk_fsys t fr)
    = (None, mk_fsys t fr) → Q None d fr ∅) as Hfail.
  { intros Hnone. unfold Q. rewrite Hnone. by apply implements_error. }
  unfold spec_write in *. case_decide as Hnil.
  { apply triple_ret, Hfail. rewrite Hnil. cbn. destruct Hok as (_ & Hdir & _). by destruct t. }
  destruct (Z.leb_spec FS_MAXFILEBLOCKS (wr_block req)) as [Hmax|Hmax].
  { apply triple_ret, Hfail. destruct (walk _ t _ true) as [[b o data|]|] eqn:Hw; [|done..].
    apply walk_subtree in Hw. pose proof (sound_subtree _ _ _ _ Hs Hw) as Hc.
    destruct (all_nodes_here _ _ (sound_stored _ _ Hc)) as [Hi _].
    apply inode_is_size in Hi as [Hlen _]; [|by apply (sound_root_valid _ _ Hc)].
    rewrite length_fmap in Hlen. rewrite (proj2 (Z.ltb_ge _ FS_MAXFILEBLOCKS)) // andb_false_r.
    unfold FS_MAXFILEBLOCKS in Hmax. by rewrite (proj2 (Z.ltb_ge _ _)); [|lia]. }
  eapply triple_traverse; [by apply path_no_nul|done|exact Hs|by apply Hok| |].
  { intros Hw. apply triple_ret, Hfail. by rewrite Hw. }
  intros c l Hw Hsub Hc. unfold Q in *. clear Q. rewrite Hw in Hfail |- *. cbn [inode lock_ptr info_block].
  rewrite (sound_is_dir _ _ Hc). destruct c as [b o data|b o chunks]; cbn [is_dir];
    [|by apply triple_release_read, Hfail].
  destruct (all_nodes_here _ _ (sound_stored _ _ Hc)) as [Hi Hbs].
  pose proof (sound_root_valid _ _ Hc) as Hvb.
  destruct (inode_is_size _ _ _ _ _ Hvb Hi) as [Hlen Hsize].
  cbn [root_block] in *. rewrite Hsize length_fmap. rewrite length_fmap in Hlen.
  destruct (Z.ltb_spec (wr_block req) (Z.of_nat (length data))) as [Hlt|Hge].
  - destruct (lookup_lt_is_Some_2 data (Z.to_nat (wr_block req))) as [[db old] Hdb]; [lia|].
    assert (data.*1 !! Z.to_nat (wr_block req) = Some db) as Hdb1
      by by rewrite list_lookup_fmap Hdb.
    assert (db ∈ used (File b o data)) as Hdbu.
    { cbn. apply elem_of_cons. right. by eapply list_elem_of_lookup_2. }
    assert (valid_block db) as Hvdb.
    { destruct Hc as [_ _ _ Hv]. by eapply valid_blocks_elem. }
    eapply triple_upgrade; [by solve_ghost|].
    eapply triple_block_at; [by eapply inode_is_block|].
    eapply triple_get_some; [reflexivity|]. apply triple_write; [done|].
    apply (triple_release_written _ fr l (File b o data)).
    eapply (implements_update _ _ (mk_fsys t fr) _ _ _ _ Hok Hst Hsub); [| |done].
    + intros x Hx Hxn. apply disk_read_write_ne; [done| |by intros ->].
      destruct Hs as [_ _ _ Hv]. by eapply valid_blocks_elem.
    + eapply stored_set_data; [apply Hc..|done|done].
  - destruct (Z.eqb_spec (wr_block req) (Z.of_nat (length data))) as [Heq|Hne];
      [|by apply (triple_release_read d fr Upgradable l (File b o data)), Hfail].
    rewrite (proj2 (Z.ltb_lt _ _) Hmax) in Hfail |- *. cbn [andb] in *.
    apply triple_free. destruct fr as [|nb fr]; cbn [pop_front fst snd].
    { by apply (triple_release_read d [] Upgradable l (File b o data)), Hfail. }
    assert (valid_block nb ∧ nb ∉ used t) as [Hvnb Hnb].
    { apply (fsys_ok_free (mk_fsys t (nb :: fr))); [done|apply elem_of_cons; by left]. }
    assert (nb ∉ used (File b o data)) as Hnbc.
    { intros Hin. apply Hnb. by eapply subtree_used. }
    assert (length data < n_blocks)%nat as Hlt by (unfold FS_MAXFILEBLOCKS in Hmax; lia).
    destruct (read_as_typed fs_inode d b Hvb) as (_ & _ & Hib & _).
    eapply triple_set_block.
    { apply lookup_lt_is_Some. rewrite Hib. lia. }
    eapply triple_block_at.
    { cbn [i_blocks with_blocks]. rewrite Heq. apply list_lookup_insert_eq. rewrite Hib. lia. }
    eapply triple_get_some; [reflexivity|]. apply triple_write; [done|].
    eapply triple_upgrade; [by solve_ghost|]. apply triple_write_inode; [done|].
    apply (triple_release_written _ fr l (File b o data)).
    eapply (implements_update _ _ (mk_fsys t (nb :: fr)) _ _ _ _ Hok Hst Hsub); [| |done].
    + cbn [contents]. intros x Hx Hxn. assert (valid_block x) as Hvx.
      { destruct Hs as [_ _ _ Hv]. by eapply valid_blocks_elem. }
      rewrite !disk_read_write_ne //; intros ->; [done|].
      apply Hxn. cbn. apply elem_of_cons. by left.
    + pose proof (stored_append_data d b o data nb bs) as Hst'. cbv zeta in Hst'.
      rewrite Hsize length_fmap in Hst'. apply Hst'; [apply Hc..|done|done|done|done|].
      pose proof (sound_NoDup _ _ Hc) as Hnd. cbn in Hnd. by apply NoDup_cons in Hnd as [? _].
Qed.
End correct.
