(* ===== verification/FsExample.v ===== *)
(** * A concrete server state

    A freshly formatted disk in memory, the server on it, and some requests: the
    inputs at which the theorems of the file server are applied. *)

From S2P Require Import Prelude CStd Request FsTypes FsMonad FileSystem FsTree FsSpec FsLogic FsTraverse FsStored FsCorrect.

Definition root_inode : fs_inode :=
  mk_inode type_dir (replicate n_owner NUL) 0 (replicate n_blocks 0).

Definition blank_disk : mem_disk := disk_write (∅ : mem_disk) 0 (encode root_inode).

Definition no_locks : lock_table holders := mk_locks ∅ ∅ 0.

(** After [fs_init] on the blank disk. *)
Definition blank_state : fs_state mem_disk holders :=
  mk_fs blank_disk (seqZ 1 (FS_DISKSIZE - 1)) no_locks.

Definition blank_tree : tree := Dir 0 "" [].

(** The indeterminate contents of a new inode. *)
Definition ex_junk : fs_inode :=
  mk_inode type_file (replicate n_owner PLUS) 77 (replicate n_blocks 99).

Definition ex_payload : bytes := replicate n_block PLUS.

Definition ex_mkdir : FS_CREATE := mk_CREATE "alice" ["docs"] type_dir.
Definition ex_create : FS_CREATE := mk_CREATE "alice" ["docs"; "note"] type_file.
Definition ex_write : FS_WRITEBLOCK := mk_WRITEBLOCK "alice" ["docs"; "note"] 0 (Some ex_payload).
Definition ex_read : FS_READBLOCK := mk_READBLOCK "alice" ["docs"; "note"] 0.
Definition ex_delete : FS_DELETE := mk_DELETE "alice" ["docs"; "note"].

Lemma root_inode_typed : inode_typed root_inode.
Proof.
  split_and!; [done|unfold u32; cbn; lia|done|]. apply Forall_replicate. unfold u32. lia.
Qed.

Lemma ex_junk_typed : inode_typed ex_junk.
Proof.
  split_and!; [done|unfold u32; cbn; lia|done|]. apply Forall_replicate. unfold u32. lia.
Qed.

Lemma no_locks_live : live no_locks ∅.
Proof. split; cbn; done. Qed.

Lemma valid_block_0 : valid_block 0.
Proof. unfold valid_block, FS_DISKSIZE. lia. Qed.

Lemma blank_stored : stored blank_disk blank_tree.
Proof.
  apply stored_Dir. split; [|by intros n c ?%not_elem_of_nil]. split; [|done].
  unfold blank_disk. rewrite (read_as_write_eq fs_inode); [|exact valid_block_0|exact root_inode_typed].
  by split_and!.
Qed.

Lemma blank_inv : fs_inv blank_tree blank_state.
Proof.
  split; [exact blank_stored|exact (empty_fsys_ok "")|exact no_locks_live].
Qed.
