(* ===== verification/FsCreate.v ===== *)
(** * Creating files and directories implements its specification *)

From S2P Require Import Prelude CStd Request FsTypes FsMonad FileSystem FsTree FsSpec FsLogic FsTraverse FsStored FsCorrect.

(** ** The first unused slot *)

Fixpoint first_free_slot (slots : list slot) : option nat :=
  match slots with
  | [] => None
  | None :: _ => Some 0%nat
  | Some _ :: l => S <$> first_free_slot l
  end.

Fixpoint first_free (chunks : list chunk) : option (nat * nat) :=
  match chunks with
  | [] => None
  | (_, slots) :: l =>
      match first_free_slot slots with
      | Some j => Some (0%nat, j)
      | None => prod_map S id <$> first_free l
      end
  end.

Lemma fill_slots_first e slots :
  fill_slots e slots = (λ j, <[j := Some e]> slots) <$> first_free_slot slots.
Proof.
  induction slots as [|[e'|] slots IH]; cbn; [done| |done].
  rewrite IH. by destruct (first_free_slot slots).
Qed.

Lemma fill_chunks_first e chunks :
  fill_chunks e chunks = (λ '(k, j), put_slot k j (Some e) chunks) <$> first_free chunks.
Proof.
  induction chunks as [|[b slots] chunks IH]; cbn; [done|].
  rewrite fill_slots_first. destruct (first_free_slot slots); cbn; [done|].
  rewrite IH. by destruct (first_free chunks) as [[k j]|].
Qed.

Lemma first_free_slot_lookup slots j : first_free_slot slots = Some j → slots !! j = Some None.
Proof.
  revert j. induction slots as [|[e|] slots IH]; intros j; cbn; [done| |by intros [= <-]].
  intros (j' & Hj & ->)%fmap_Some. by apply IH.
Qed.

Lemma first_free_lookup chunks k j :
  first_free chunks = Some (k, j) →
  ∃ ck slots, chunks !! k = Some (ck, slots) ∧ slots !! j = Some None.
Proof.
  revert k. induction chunks as [|[b slots] chunks IH]; intros k; cbn; [done|].
  destruct (first_free_slot slots) as [j'|] eqn:Hj.
  - intros [= <- <-]. exists b, slots. split; [done|by apply first_free_slot_lookup].
  - intros ([k' j'] & Hk & [= -> ->])%fmap_Some. by apply IH.
Qed.

Lemma first_free_snoc chunks b slots :
  first_free (chunks ++ [(b, slots)]) =
  match first_free chunks with
  | Some p => Some p
  | None => (λ j, (length chunks, j)) <$> first_free_slot slots
  end.
Proof.
  induction chunks as [|[b' slots'] chunks IH]; cbn.
  - by destruct (first_free_slot slots).
  - destruct (first_free_slot slots'); [done|]. rewrite IH.
    destruct (first_free chunks) as [[k j]|]; [done|]. by destruct (first_free_slot slots).
Qed.

(** ** The inner loop *)

Lemma entry_matches_slot name e s :
  ¬ has_char NUL name → entry_is e s →
  entry_matches name e = match s with Some (n, _) => String.eqb n name | None => false end.
Proof.
  intros Hname He. unfold entry_matches, strcmp_eq. rewrite cut_nul_id //.
  destruct s as [[n c]|]; cbn in He; [destruct He as (-> & Hc & ->)|by rewrite He].
  by rewrite (proj2 (Z.eqb_neq _ _) Hc).
Qed.

Lemma scan_entries_spec name blk dir es slots j spot :
  ¬ has_char NUL name → Forall2 entry_is es slots → 0 ≤ blk →
  scan_entries name blk dir es j spot =
  if decide (name ∈ (omap id slots).*1) then None
  else Some (if next_free_spot_block spot =? -1 then
               match first_free_slot slots with
               | Some i => mk_spot blk (j + Z.of_nat i) dir
               | None => spot
               end
             else spot).
Proof.
  intros Hname Hes Hblk. revert j spot.
  induction Hes as [|e s es slots He Hes IH]; intros j spot; cbn [scan_entries].
  { case_decide as Hin; [by apply not_elem_of_nil in Hin|]. cbn. by case_match. }
  rewrite (entry_matches_slot _ _ s) // IH. clear IH. destruct s as [[n c]|]; cbn in He |- *.
  - destruct He as (-> & Hc & _). rewrite (proj2 (Z.eqb_neq _ _) Hc). cbn.
    destruct (String.eqb_spec n name) as [->|Hne].
    { case_decide as Hin; [done|]. destruct Hin. apply elem_of_cons. by left. }
    destruct (decide (name ∈ (omap id slots).*1)); case_decide as Hd;
      rewrite elem_of_cons in Hd; [done|tauto|naive_solver|].
    f_equal. case_match; [|done]. destruct (first_free_slot slots); cbn; [|done]. f_equal. lia.
  - rewrite He. cbn. case_decide; [done|]. f_equal.
    destruct (next_free_spot_block spot =? -1) eqn:Hs; cbn; [|by rewrite Hs].
    rewrite (proj2 (Z.eqb_neq blk (-1))); [|lia]. f_equal. lia.
Qed.

Section create.
Context {D M : Type} `{DiskLaws D} `{SharedMutexLaws M}.
Abbreviation triple := (triple (D := D) (M := M)).

(** The locals after some blocks: the first unused slot of them. *)
Definition spot_is (d : D) (chunks : list chunk) (ff : option (nat * nat)) (spot : free_spot)
    : Prop :=
  match ff with
  | None => next_free_spot_block spot = -1
  | Some (k, j) => ∃ b slots, chunks !! k = Some (b, slots) ∧ slots !! j = Some None ∧
      spot = mk_spot b (Z.of_nat j) (read_as (list fs_direntry) d b)
  end.

Lemma scan_block d b o chunks i cb slots name spot :
  let es := read_as (list fs_direntry) d cb in
  dir_at d b o chunks → ¬ has_char NUL name → chunks !! i = Some (cb, slots) →
  name ∉ (chunk_entries (take i chunks)).*1 → spot_is d chunks (first_free (take i chunks)) spot →
  match scan_entries name cb es es 0 spot with
  | None => name ∈ (chunk_entries chunks).*1
  | Some spot' => (name ∉ (chunk_entries (take (S i) chunks)).*1) ∧
      spot_is d chunks (first_free (take (S i) chunks)) spot'
  end.
Proof.
  intros es Hd Hname Hi Hn Hsp. destruct (dir_at_block _ _ _ _ _ _ Hd Hi) as (_ & Hv & Hch).
  cbn [fst] in Hv. rewrite (scan_entries_spec _ _ _ _ slots) //; [|apply Hv].
  case_decide as Hin; [|split].
  - apply list_elem_of_fmap in Hin as ([n c] & -> & Hin).
    apply (list_elem_of_fmap_2 fst _ (n, c)), elem_of_chunk_entries. exists cb, slots.
    split; [by eapply list_elem_of_lookup_2|]. apply list_elem_of_omap in Hin as (s & Hs & Heq).
    cbn in Heq. by subst s.
  - rewrite (chunk_names _ _ _ _ Hi) fmap_app elem_of_app. tauto.
  - rewrite (take_S_r _ _ _ Hi) first_free_snoc.
    rewrite length_take_le; [|apply Nat.lt_le_incl; by eapply lookup_lt_Some].
    destruct (first_free (take i chunks)) as [[k j]|].
    + destruct Hsp as (b' & sl & Hk & Hj & ->). cbn [next_free_spot_block].
      assert (valid_block b') as Hvb'.
      { by destruct (dir_at_block _ _ _ _ _ _ Hd Hk) as (_ & ? & _). }
      rewrite (proj2 (Z.eqb_neq b' (-1))); [|destruct Hvb'; lia]. exists b', sl. done.
    + cbn in Hsp. rewrite Hsp. cbn.
      destruct (first_free_slot slots) as [j|] eqn:Hj; cbn; [|done].
      exists cb, slots. split_and!; [done|by apply first_free_slot_lookup|done].
Qed.

(** The search for the name and for an unused slot. *)
Definition scan_loop (dir_inode : fs_inode) (filename : string) (spot : free_spot)
    : prog (ctl free_spot unit) :=
  for_each (seqZ 0 (i_size dir_inode)) spot (λ i spot,
    dir_array_block ← block_at (i_blocks dir_inode) i;
    direntries ← read_direntries dir_array_block;
    match scan_entries filename dir_array_block direntries direntries 0 spot with
    | None => mret (Break tt)
    | Some spot' => mret (Next spot')
    end).

Lemma scan_spec d fr L b o chunks name spot0 :
  dir_at d b o chunks → ¬ has_char NUL name → next_free_spot_block spot0 = -1 →
  triple d fr L (scan_loop (read_as fs_inode d b) name spot0)
    (reads d fr L (λ r, match r with
       | Break _ => name ∈ (chunk_entries chunks).*1
       | Next spot => (name ∉ (chunk_entries chunks).*1) ∧ spot_is d chunks (first_free chunks) spot
       end)).
Proof.
  intros Hd Hname Hspot. unfold scan_loop. rewrite (dir_at_size _ _ _ _ Hd).
  apply (triple_for _ _ _ chunks _ _ (λ i spot, (name ∉ (chunk_entries (take i chunks)).*1) ∧
    spot_is d chunks (first_free (take i chunks)) spot)).
  - split; [apply not_elem_of_nil|done].
  - intros i [cb slots] spot Hi [Hn Hsp].
    destruct (dir_at_block _ _ _ _ _ _ Hd Hi) as (Hblk & Hv & _). cbn [fst] in Hv.
    eapply triple_block_at; [exact Hblk|]. apply triple_read_direntries; [done|]. cbn [fst].
    pose proof (scan_block _ _ _ _ _ _ _ _ _ Hd Hname Hi Hn Hsp) as Hb. cbv zeta in Hb.
    destruct (scan_entries _ _ _ _ _ _); apply triple_ret; split_and!; try done; apply Hb.
  - intros spot [Hn Hsp]. rewrite firstn_all in Hn, Hsp. by split_and!.
Qed.

(** ** What the writes of a creation store *)

(** The node blocks of a directory are not written by writes to other blocks. *)
Lemma sound_children_frame d d' b o chunks (W : list Z) :
  sound d (Dir b o chunks) →
  (∀ x, valid_block x → x ∉ W → disk_read d' x = disk_read d x) →
  (∀ x, x ∈ W → x ∈ b :: chunks.*1 ∨ x ∉ used (Dir b o chunks)) →
  ∀ n c x, (n, c) ∈ chunk_entries chunks → x ∈ used c → disk_read d' x = disk_read d x.
Proof.
  intros [_ _ Hnd Hv] Hd' HW n c x Hc Hx. apply Hd'.
  - eapply valid_blocks_elem; [exact Hv|]. by apply (used_child _ n c).
  - intros [Hin|Hnin]%HW.
    + by eapply (node_blocks_child_disjoint (Dir b o chunks)); [exact Hnd|exact Hc|exact Hin|].
    + apply Hnin. by apply (used_child _ n c).
Qed.

Lemma sound_dir_blocks d b o chunks :
  sound d (Dir b o chunks) →
  (b ∉ chunks.*1) ∧ NoDup chunks.*1 ∧ valid_block b ∧ valid_blocks chunks.*1.
Proof.
  intros [_ _ Hnd Hv]. rewrite used_children in Hnd, Hv. cbn [node_blocks] in *.
  apply NoDup_app in Hnd as (Hnd & _ & _). apply NoDup_cons in Hnd as [? ?].
  apply Forall_app in Hv as [Hv _]. apply Forall_cons in Hv as [? ?]. done.
Qed.

(** The fields the handler gives the new inode. *)
Definition new_inode_ok (i : fs_inode) (ty : byte) (user : string) : Prop :=
  inode_typed i ∧ i_type i = ty ∧ c_str (i_owner i) = user ∧ i_size i = 0 ∧
  (ty = type_file ∨ ty = type_dir).

Lemma new_inode_stored d nb i ty user :
  valid_block nb → new_inode_ok i ty user → read_as fs_inode d nb = i →
  stored d (new_node ty nb user).
Proof. intros Hv (_ & Ht & Ho & Hs & Hty) Hr. by eapply stored_new_node. Qed.

Lemma elem_of_put_entries k j e chunks n c ck slots :
  chunks !! k = Some (ck, slots) → slots !! j = Some None →
  (n, c) ∈ chunk_entries (put_slot k j (Some e) chunks) →
  (n, c) = e ∨ (n, c) ∈ chunk_entries chunks.
Proof.
  intros Hk Hj (b & sl & Hb & Hs)%elem_of_chunk_entries.
  apply list_elem_of_lookup in Hb as [m Hm]. unfold put_slot in Hm.
  destruct (decide (m = k)) as [->|Hne].
  - rewrite list_lookup_alter_eq Hk in Hm. injection Hm as <- <-. cbn in Hs.
    apply list_elem_of_lookup in Hs as [i Hi]. destruct (decide (i = j)) as [->|Hij].
    + rewrite list_lookup_insert_eq in Hi; [|by eapply lookup_lt_Some].
      left. by injection Hi.
    + rewrite list_lookup_insert_ne // in Hi. right. apply elem_of_chunk_entries.
      exists ck, slots. split; by eapply list_elem_of_lookup_2.
  - rewrite list_lookup_alter_ne // in Hm. right. apply elem_of_chunk_entries.
    exists b, sl. split; [by eapply list_elem_of_lookup_2|done].
Qed.

Lemma stored_fill d b o chunks k j ck slots name nb i e ty user :
  sound d (Dir b o chunks) → chunks !! k = Some (ck, slots) → slots !! j = Some None →
  valid_block nb → nb ∉ used (Dir b o chunks) → new_inode_ok i ty user →
  direntry_typed e → entry_is e (Some (name, new_node ty nb user)) →
  stored (disk_write (disk_write d nb (encode i)) ck
            (encode (<[j := e]> (read_as (list fs_direntry) d ck))))
    (Dir b o (put_slot k j (Some (name, new_node ty nb user)) chunks)).
Proof.
  intros Hs Hk Hj Hvnb Hnb Hi Hety He. set (d' := disk_write _ ck _).
  destruct (sound_dir_blocks _ _ _ _ Hs) as (Hb & Hnd & Hvb & Hv).
  assert (ck ∈ chunks.*1) as Hck.
  { by eapply (list_elem_of_fmap_2 fst _ (ck, slots)), list_elem_of_lookup_2. }
  assert (valid_block ck) as Hvck by by eapply valid_blocks_elem.
  rewrite used_Dir in Hnb. apply not_elem_of_cons in Hnb as [Hnbb Hnb].
  apply not_elem_of_app in Hnb as [Hnbc Hnbe].
  assert (∀ x, valid_block x → x ∉ [nb; ck] → disk_read d' x = disk_read d x) as Hd'.
  { intros x Hx [Hx1 [Hx2 _]%not_elem_of_cons]%not_elem_of_cons. unfold d'.
    by rewrite !disk_read_write_ne. }
  assert (typed (<[j := e]> (read_as (list fs_direntry) d ck))) as Htyped.
  { destruct (read_as_typed (list fs_direntry) d ck Hvck) as [Hl Hes].
    split; [by rewrite length_insert|by apply Forall_insert]. }
  assert (nb ≠ ck) as Hnck by by intros ->.
  eapply stored_Dir_change; [apply Hs| | |].
  - eapply (node_stored_put d); [by apply (all_nodes_here _ _ (sound_stored _ _ Hs))|done|done| | |done|].
    + apply Hd'; [done|]. rewrite !not_elem_of_cons. split_and!; [done| |apply not_elem_of_nil].
      by intros ->.
    + intros x Hx Hne. apply Hd'; [by eapply valid_blocks_elem|].
      rewrite !not_elem_of_cons. split_and!; [by intros ->|done|apply not_elem_of_nil].
    + by apply (read_as_write_eq (list fs_direntry)).
  - intros n c [[= -> ->]|]%(elem_of_put_entries _ _ _ _ _ _ _ _ Hk Hj); [right|by left].
    apply (new_inode_stored _ _ i); [done..|]. rewrite (read_as_agree _ (disk_write d nb (encode i))).
    + apply (read_as_write_eq fs_inode); [done|apply Hi].
    + by apply disk_read_write_ne.
  - apply (sound_children_frame _ _ b o _ [nb; ck]); [done|done|].
    intros x [->|[->|?%not_elem_of_nil]%elem_of_cons]%elem_of_cons; [right|left|done].
    + rewrite used_Dir. by rewrite not_elem_of_cons not_elem_of_app.
    + apply elem_of_cons. by right.
Qed.

Lemma new_direntries_typed e :
  direntry_typed e → typed (e :: replicate (n_direntries - 1) zero_direntry).
Proof.
  intros He. split; [done|]. constructor; [done|]. apply Forall_replicate.
  split; [done|]. unfold u32. cbn. lia.
Qed.

Lemma stored_add_chunk d b o chunks name nb db i e ty user :
  let di := read_as fs_inode d b in
  let di' := with_blocks di (to_uint32 (i_size di + 1)) (<[Z.to_nat (i_size di) := db]> (i_blocks di)) in
  sound d (Dir b o chunks) → (length chunks < n_blocks)%nat →
  valid_block nb → nb ∉ used (Dir b o chunks) → new_inode_ok i ty user →
  valid_block db → db ∉ used (Dir b o chunks) → db ≠ nb →
  direntry_typed e → entry_is e (Some (name, new_node ty nb user)) →
  stored (disk_write (disk_write
            (disk_write d db (encode (e :: replicate (n_direntries - 1) zero_direntry)))
            nb (encode i)) b (encode di'))
    (Dir b o (chunks ++ [new_chunk db (name, new_node ty nb user)])).
Proof.
  intros di di' Hs Hlen Hvnb Hnb Hi Hvdb Hdb Hne Hety He. set (d' := disk_write _ b _).
  destruct (sound_dir_blocks _ _ _ _ Hs) as (Hb & Hnd & Hvb & Hv).
  pose proof (all_nodes_here _ _ (sound_stored _ _ Hs)) as Hnode.
  rewrite used_Dir !not_elem_of_cons !not_elem_of_app in Hnb, Hdb.
  destruct Hnb as (Hnbb & Hnbc & Hnbe), Hdb as (Hdbb & Hdbc & Hdbe).
  assert (∀ x, valid_block x → x ∉ [db; nb; b] → disk_read d' x = disk_read d x) as Hd'.
  { intros x Hx (Hx1 & (Hx2 & (Hx3 & _)%not_elem_of_cons)%not_elem_of_cons)%not_elem_of_cons.
    unfold d'. by rewrite !disk_read_write_ne. }
  assert (inode_typed di') as Htyped.
  { destruct Hnode as [Hin _].
    destruct (inode_append d b type_dir o chunks.*1 db) as [Ht _]; [done..| |exact Ht].
    by rewrite length_fmap. }
  eapply stored_Dir_change; [apply Hs| | |].
  - eapply (node_stored_new_chunk d); [done..|exact He| | |].
    + by apply (read_as_write_eq fs_inode).
    + intros x Hx. apply Hd'; [by eapply valid_blocks_elem|].
      rewrite !not_elem_of_cons. split_and!; [| | |apply not_elem_of_nil]; by intros ->.
    + unfold d'. rewrite (read_as_agree _ (disk_write d db
        (encode (e :: replicate (n_direntries - 1) zero_direntry)))).
      * apply (read_as_write_eq (list fs_direntry)); [done|by apply new_direntries_typed].
      * by rewrite disk_read_write_ne // disk_read_write_ne.
  - intros n c. rewrite new_chunk_entries elem_of_app list_elem_of_singleton.
    intros [|[= -> ->]]; [by left|right]. apply (new_inode_stored _ _ i); [done..|].
    rewrite (read_as_agree _ (disk_write (disk_write d db
      (encode (e :: replicate (n_direntries - 1) zero_direntry))) nb (encode i))).
    + apply (read_as_write_eq fs_inode); [done|apply Hi].
    + by apply disk_read_write_ne.
  - apply (sound_children_frame _ _ b o _ [db; nb; b]); [done|done|].
    rewrite used_Dir. intros x. rewrite !elem_of_cons !elem_of_app elem_of_nil.
    intros [->|[->|[->|[]]]]; [right|right|left; by left]; intros [|[|]]; done.
Qed.

(** ** [execute_CREATE] *)

Lemma triple_strcpy {B} d fr L dst src (k : bytes → prog B) Q :
  size src < Z.of_nat (length dst) → ¬ has_char NUL src →
  (∀ a, length a = length dst → c_str a = src → triple d fr L (k a) Q) →
  triple d fr L (get_strcpy dst src ≫= k) Q.
Proof.
  intros Hsz Hn Hk. destruct (strcpy_fits _ _ Hsz) as [a Ha].
  unfold get_strcpy. rewrite cut_nul_id //. eapply triple_get_some; [exact Ha|].
  apply Hk; [by eapply strcpy_length|by eapply strcpy_c_str].
Qed.

Lemma path_ok_parts path parent name :
  path_ok path → path = parent ++ [name] →
  Forall (λ n, ¬ has_char NUL n) parent ∧ ¬ has_char NUL name ∧ size name ≤ FS_MAXFILENAME.
Proof.
  intros [Hp _] ->. apply Forall_app in Hp as [Hp Hn]. split.
  - eapply Forall_impl; [exact Hp|]. apply filename_no_nul.
  - rewrite Forall_singleton in Hn. split; [exact (filename_no_nul _ Hn)|]. by destruct Hn as (_ & _ & ?).
Qed.

Lemma new_inode_typed junk ty owner user :
  inode_typed junk → length owner = length (i_owner junk) → c_str owner = user →
  ty = type_file ∨ ty = type_dir →
  new_inode_ok (mk_inode ty owner 0 (i_blocks junk)) ty user.
Proof.
  intros (Ho & _ & Hl & Hb) Hlo Hu Hty. split; [|by split_and!].
  split; cbn; [congruence|]. split; [unfold u32; lia|done].
Qed.

(** The new direntry, over an old one or a zero one. *)
Lemma new_direntry e name nm ty nb user :
  direntry_typed e → length nm = length (d_name e) → c_str nm = name →
  valid_block nb → nb ≠ 0 →
  direntry_typed (mk_direntry nm nb) ∧
  entry_is (mk_direntry nm nb) (Some (name, new_node ty nb user)).
Proof.
  intros [Hl _] Hnm Hc Hv Hnz. split.
  - split; cbn; [congruence|by apply u32_lt].
  - cbn. by rewrite root_block_new_node.
Qed.

Lemma spec_create_child s user path ty parent name b o chunks :
  path = parent ++ [name] →
  walk user (contents s) parent true = Some (Dir b o chunks) →
  spec_create user path ty s =
  match child (Dir b o chunks) name, free s with
  | None, nb :: fr1 =>
      match first_free chunks, fr1 with
      | Some (k, j), _ =>
          (Some None, mk_fsys (update (contents s) parent
             (set_chunks (put_slot k j (Some (name, new_node ty nb user)) chunks))) fr1)
      | None, db :: fr2 =>
          if Z.of_nat (length chunks) =? FS_MAXFILEBLOCKS then (None, s)
          else (Some None, mk_fsys (update (contents s) parent
             (set_chunks (chunks ++ [new_chunk db (name, new_node ty nb user)]))) fr2)
      | None, [] => (None, s)
      end
  | _, _ => (None, s)
  end.
Proof.
  intros -> Hw. destruct s as [t fr]. unfold spec_create. cbn [contents free] in *.
  rewrite last_snoc removelast_last Hw. destruct (child _ name); [done|].
  destruct fr as [|nb fr1]; [done|]. rewrite fill_chunks_first.
  destruct (first_free chunks) as [[k j]|]; cbn; [by destruct fr1|]. by destruct fr1.
Qed.

Lemma add_chunk_case (req : FS_CREATE) t fr d parent name b o chunks l nb owner junk :
  let info := mk_info (read_as fs_inode d b) l b in
  let di := read_as fs_inode d b in
  let new_inode := mk_inode (cr_type req) owner 0 (i_blocks junk) in
  fsys_ok (mk_fsys t (nb :: fr)) → stored d t → subtree t parent = Some (Dir b o chunks) →
  sound d (Dir b o chunks) → ¬ has_char NUL name → size name ≤ FS_MAXFILENAME →
  new_inode_ok new_inode (cr_type req) (cr_username req) →
  spec_create (cr_username req) (cr_path req) (cr_type req) (mk_fsys t (nb :: fr)) =
    match fr with
    | db :: fr2 =>
        if Z.of_nat (length chunks) =? FS_MAXFILEBLOCKS then (None, mk_fsys t (nb :: fr))
        else (Some None, mk_fsys (update t parent (set_chunks
               (chunks ++ [new_chunk db (name, new_node (cr_type req) nb (cr_username req))]))) fr2)
    | [] => (None, mk_fsys t (nb :: fr))
    end →
  triple d fr (<[l := held_in Upgradable b]> ∅)
    (if i_size di =? FS_MAXFILEBLOCKS then
       with_free_list (λ l, (tt, nb :: l));;
       release Upgradable info None
     else
       front2 ← with_free_list (λ l,
         match l with
         | [] => (None, nb :: l)
         | b :: l' => (Some b, l')
         end);
       match front2 with
       | None => release Upgradable info None
       | Some new_direntries_block =>
           name ← get_strcpy (d_name zero_direntry) name;
           write_direntries new_direntries_block
             (mk_direntry name nb :: replicate (n_direntries - 1) zero_direntry);;
           write_inode nb new_inode;;
           blocks ← set_block (i_blocks di) (i_size di) new_direntries_block;
           upgrade l;;
           write_inode b (with_blocks di (to_uint32 (i_size di + 1)) blocks);;
           release Exclusive info (Some None)
       end)
    (implements d (spec_create (cr_username req) (cr_path req) (cr_type req) (mk_fsys t (nb :: fr)))).
Proof.
  intros info di new_inode Hok Hst Hsub Hc Hname Hsz Hi Hspec. rewrite Hspec.
  destruct (all_nodes_here _ _ (sound_stored _ _ Hc)) as [Hdi _].
  pose proof (sound_root_valid _ _ Hc) as Hvb. cbn [root_block] in Hvb.
  destruct (inode_is_size _ _ _ _ _ Hvb Hdi) as [Hlen Hsize]. rewrite length_fmap in Hlen Hsize.
  assert (∀ x, x ∈ nb :: fr → valid_block x ∧ x ∉ used (Dir b o chunks)) as Hfree.
  { intros x Hx. destruct (fsys_ok_free _ _ Hok Hx) as [Hv Hn]. split; [done|].
    intros Hu. apply Hn. by eapply subtree_used. }
  subst di. rewrite Hsize. destruct (Z.eqb_spec (Z.of_nat (length chunks)) FS_MAXFILEBLOCKS) as [Hmax|Hmax].
  { apply triple_free. apply (triple_release_read d (nb :: fr) Upgradable l (Dir b o chunks)).
    destruct fr; by apply implements_error. }
  apply triple_free. destruct fr as [|db fr]; cbn [fst snd].
  { apply (triple_release_read d [nb] Upgradable l (Dir b o chunks)). by apply implements_error. }
  destruct (Hfree nb) as [Hvnb Hnb]; [apply elem_of_cons; by left|].
  destruct (Hfree db) as [Hvdb Hdb]; [apply elem_of_cons; right; apply elem_of_cons; by left|].
  assert (db ≠ nb) as Hne.
  { apply fsys_ok_NoDup, NoDup_app in Hok as (_ & _ & Hnd). cbn in Hnd.
    apply NoDup_cons in Hnd as [Hnd _]. intros ->. apply Hnd, elem_of_cons. by left. }
  assert (nb ≠ 0) as Hnz.
  { intros ->. destruct (fsys_ok_free _ 0 Hok) as [_ Hn]; [apply elem_of_cons; by left|].
    destruct Hok as (_ & _ & Hroot & _). apply Hn. cbn in *. rewrite -{1}Hroot. apply root_block_used. }
  apply triple_strcpy; [cbn; unfold FS_MAXFILENAME in Hsz; lia|done|]. intros nm Hlnm Hnm.
  destruct (new_direntry zero_direntry name nm (cr_type req) nb (cr_username req))
    as [Hety He]; [split; [done|unfold u32; cbn; lia]|done..|].
  apply triple_write_direntries; [done|]. apply triple_write_inode; [done|].
  destruct (read_as_typed fs_inode d b Hvb) as (_ & _ & Hib & _).
  eapply triple_set_block.
  { apply lookup_lt_is_Some. rewrite Hib. unfold FS_MAXFILEBLOCKS in Hmax. lia. }
  eapply triple_upgrade; [by solve_ghost|]. apply triple_write_inode; [done|].
  apply (triple_release_written _ fr l (Dir b o chunks)).
  eapply (implements_update _ _ (mk_fsys t (nb :: db :: fr)) _ _ _ _ Hok Hst Hsub); [| |done].
  - intros x Hx Hxn. assert (valid_block x) as Hvx.
    { pose proof (fsys_ok_valid _ Hok) as [Hv _]%Forall_app. by eapply valid_blocks_elem. }
    cbn [contents] in Hx. assert (x ∉ nb :: db :: fr) as Hxf.
    { intros Hin. by destruct (fsys_ok_free _ _ Hok Hin). }
    rewrite !not_elem_of_cons in Hxf. destruct Hxf as (Hx1 & Hx2 & _).
    rewrite !disk_read_write_ne //; [by intros ->..|].
    intros ->. apply Hxn. cbn. apply elem_of_cons. by left.
  - cbn [set_chunks]. pose proof (stored_add_chunk d b o chunks name nb db new_inode
      (mk_direntry nm nb) (cr_type req) (cr_username req)) as Hst'. cbv zeta in Hst'.
    rewrite Hsize in Hst'. apply Hst'; try done. unfold FS_MAXFILEBLOCKS in Hmax. lia.
Qed.

Lemma fill_case (req : FS_CREATE) t fr d parent name b o chunks l nb owner k j ck slots junk :
  let info := mk_info (read_as fs_inode d b) l b in
  let new_inode := mk_inode (cr_type req) owner 0 (i_blocks junk) in
  let spot := mk_spot ck (Z.of_nat j) (read_as (list fs_direntry) d ck) in
  fsys_ok (mk_fsys t (nb :: fr)) → stored d t → subtree t parent = Some (Dir b o chunks) →
  sound d (Dir b o chunks) → ¬ has_char NUL name → size name ≤ FS_MAXFILENAME →
  chunks !! k = Some (ck, slots) → slots !! j = Some None →
  new_inode_ok new_inode (cr_type req) (cr_username req) →
  triple d fr (<[l := held_in Upgradable b]> ∅)
    (let j := Z.to_nat (next_free_spot_arr_index spot) in
     entry ← get_some OutOfBounds (next_free_spot_direntries spot !! j);
     name ← get_strcpy (d_name entry) name;
     let direntries := <[j := mk_direntry name nb]> (next_free_spot_direntries spot) in
     write_inode nb new_inode;;
     upgrade l;;
     write_direntries (next_free_spot_block spot) direntries;;
     release Exclusive info (Some None))
    (implements d (Some None, mk_fsys (update t parent (set_chunks
       (put_slot k j (Some (name, new_node (cr_type req) nb (cr_username req))) chunks))) fr)).
Proof.
  intros info new_inode spot Hok Hst Hsub Hc Hname Hsz Hk Hj Hi. subst spot.
  cbn [next_free_spot_arr_index next_free_spot_direntries next_free_spot_block].
  rewrite Nat2Z.id. destruct (sound_dir _ _ _ _ Hc) as [Hdir _].
  destruct (dir_at_block _ _ _ _ _ _ Hdir Hk) as (_ & Hvck & Hch). cbn [fst] in Hvck.
  assert (ck ∈ used (Dir b o chunks)) as Hck.
  { rewrite used_Dir elem_of_cons elem_of_app. right. left.
    by eapply (list_elem_of_fmap_2 fst _ (ck, slots)), list_elem_of_lookup_2. }
  destruct (fsys_ok_free _ nb Hok) as [Hvnb Hnb]; [apply elem_of_cons; by left|]. cbn [contents] in Hnb.
  assert (nb ≠ 0) as Hnz.
  { intros ->. destruct Hok as (_ & _ & Hroot & _). apply Hnb. cbn in *.
    rewrite -{1}Hroot. apply root_block_used. }
  assert (∃ e, read_as (list fs_direntry) d ck !! j = Some e ∧ direntry_typed e) as (e & He & Hety).
  { destruct (Forall2_lookup_r _ _ _ _ _ Hch Hj) as (e & He & _). exists e. split; [done|].
    destruct (read_as_typed (list fs_direntry) d ck Hvck) as [_ Hes].
    rewrite Forall_lookup in Hes. by eapply Hes. }
  eapply triple_get_some; [exact He|].
  apply triple_strcpy; [destruct Hety as [-> _]; unfold FS_MAXFILENAME in Hsz; lia|done|].
  intros nm Hlnm Hnm.
  destruct (new_direntry e name nm (cr_type req) nb (cr_username req)) as [Hety' He'];
    [done..|].
  apply triple_write_inode; [done|]. eapply triple_upgrade; [by solve_ghost|].
  apply triple_write_direntries; [done|].
  apply (triple_release_written _ fr l (Dir b o chunks)).
  eapply (implements_update _ _ (mk_fsys t (nb :: fr)) _ _ _ _ Hok Hst Hsub); [| |done].
  - intros x Hx Hxn. assert (valid_block x) as Hvx.
    { pose proof (fsys_ok_valid _ Hok) as [Hv _]%Forall_app. by eapply valid_blocks_elem. }
    rewrite !disk_read_write_ne //; intros ->; done.
  - cbn [set_chunks]. eapply stored_fill; try done.
    intros Hu. apply Hnb. by eapply subtree_used.
Qed.

Lemma execute_CREATE_spec (junk : fs_inode) (req : FS_CREATE) d s :
  fsys_ok s → stored d (contents s) → request_ok (Req_CREATE req) → inode_typed junk →
  triple d (free s) ∅ (execute_CREATE junk req)
    (implements d (spec_request (Req_CREATE req) s)).
Proof.
  intros Hok Hst ([[Hu _] Husz] & Hp & Hty) Hjunk.
  pose proof (fsys_ok_sound _ _ Hok Hst) as Hs. cbn in Hu, Husz, Hp, Hty.
  unfold execute_CREATE. cbn [spec_request]. destruct s as [t fr]. cbn [contents free] in *.
  destruct (last_snoc_cases (cr_path req)) as [Hnil|(parent & name & Hpath & Hrem & Hlast)].
  { rewrite Hnil. apply triple_ret. by apply implements_error. }
  case_decide as Hne; [rewrite Hpath in Hne; by destruct parent|].
  destruct (path_ok_parts _ _ _ Hp Hpath) as (Hparent & Hname & Hsz).
  apply triple_free. cbn [fst snd]. rewrite Hrem Hlast. change (default "" (Some name)) with name.
  destruct (bool_decide (fr = [])) eqn:Hfr; reflect_bools.
  { apply triple_ret. subst fr. unfold spec_create. rewrite Hrem Hlast.
    destruct (walk _ t parent true) as [[|b o chunks]|]; try by apply implements_error.
    destruct (child _ name); by apply implements_error. }
  eapply triple_traverse; [done|done|exact Hs|by apply Hok| |].
  { intros Hw. apply triple_ret. unfold spec_create. rewrite Hrem Hlast Hw. by apply implements_error. }
  intros c l Hw Hsub Hc. cbn [inode lock_ptr info_block]. rewrite (sound_is_file _ _ Hc).
  destruct c as [b o data|b o chunks]; cbn [is_dir negb root_block] in *.
  { apply (triple_release_read d fr Upgradable l (File b o data)). unfold spec_create.
    rewrite Hrem Hlast Hw. by apply implements_error. }
  pose proof (spec_create_child (mk_fsys t fr) (cr_username req) _ (cr_type req) _ _ _ _ _ Hpath Hw) as Hspec.
  destruct (sound_dir _ _ _ _ Hc) as [Hdir Hnd].
  eapply triple_reads; [by eapply scan_spec|]. intros [spot|[]] Hscan.
  2: { destruct (child (Dir b o chunks) name) eqn:Hch.
       - apply (triple_release_read d fr Upgradable l (Dir b o chunks)). rewrite Hspec.
         by apply implements_error.
       - by apply find_child_None in Hch. }
  destruct Hscan as [Hnin Hspot]. apply find_child_None in Hnin. rewrite child_Dir Hnin in Hspec.
  apply triple_free. destruct fr as [|nb fr]; [done|]. cbn [pop_front fst snd free] in *.
  apply triple_strcpy; [destruct Hjunk as (-> & _); unfold FS_MAXUSERNAME in Husz; lia|done|].
  intros owner Hlo Ho. pose proof (new_inode_typed junk _ owner _ Hjunk Hlo Ho Hty) as Hnew.
  destruct (first_free chunks) as [[k j]|] eqn:Hff.
  - destruct Hspot as (ck & slots & Hk & Hj & ->). cbn [next_free_spot_block].
    rewrite (proj2 (Z.eqb_neq ck (-1))).
    { rewrite Hspec. by eapply (fill_case req t fr d parent name b o chunks l nb owner k j ck slots junk). }
    destruct (dir_at_block _ _ _ _ _ _ Hdir Hk) as (_ & Hvck & _). destruct Hvck. cbn in *. lia.
  - cbn in Hspot. rewrite Hspot. cbn [Z.eqb].
    by eapply (add_chunk_case req t fr d parent name b o chunks l nb owner junk).
Qed.
End create.
