(* ===== verification/FsDelete.v ===== *)
(** * Deleting files and directories implements its specification *)

From S2P Require Import Prelude CStd Request FsTypes FsMonad FileSystem FsTree FsSpec FsLogic FsTraverse FsStored FsCorrect FsCreate.

(** ** The entry by its position *)

Lemma elem_of_slots (n : string) (c : tree) (slots : list slot) :
  Some (n, c) ∈ slots → (n, c) ∈ omap id slots.
Proof. intros Hs. apply list_elem_of_omap. by exists (Some (n, c)). Qed.

Lemma slot_unique name (c c' : tree) (slots : list slot) i j :
  NoDup (omap id slots).*1 →
  slots !! i = Some (Some (name, c)) → slots !! j = Some (Some (name, c')) → i = j.
Proof.
  revert i j. induction slots as [|s slots IH]; intros i j Hnd Hi Hj; [done|].
  assert (∀ m x, slots !! m = Some (Some (name, x)) → name ∈ (omap id slots).*1) as Hin.
  { intros m x Hm%list_elem_of_lookup_2. by apply (list_elem_of_fmap_2 fst _ (name, x)), elem_of_slots. }
  destruct i as [|i], j as [|j]; cbn in Hi, Hj; [done|..].
  - injection Hi as ->. cbn in Hnd. apply NoDup_cons in Hnd as [Hn _]. destruct Hn. by eapply Hin.
  - injection Hj as ->. cbn in Hnd. apply NoDup_cons in Hnd as [Hn _]. destruct Hn. by eapply Hin.
  - f_equal. eapply IH; [|done..]. destruct s; cbn in Hnd; [by apply NoDup_cons in Hnd as [_ ?]|done].
Qed.

Lemma clear_slots_insert name (c : tree) (slots : list slot) j :
  NoDup (omap id slots).*1 → slots !! j = Some (Some (name, c)) →
  map (clear_slot name) slots = <[j := None]> slots.
Proof.
  intros Hnd Hj. apply list_eq. intros i. change (map ?f ?l) with (f <$> l).
  rewrite list_lookup_fmap. destruct (decide (i = j)) as [->|Hne].
  - rewrite list_lookup_insert_eq; [|by eapply lookup_lt_Some]. rewrite Hj. cbn.
    unfold clear_slot. cbn. by rewrite String.eqb_refl.
  - rewrite list_lookup_insert_ne //. destruct (slots !! i) as [[[n c']|]|] eqn:Hi; cbn; [|done..].
    unfold clear_slot. cbn. destruct (String.eqb_spec n name) as [->|]; [|done].
    destruct Hne. by eapply slot_unique.
Qed.

Lemma remove_entry_at name chunks k j ck slots c :
  NoDup (chunk_entries chunks).*1 →
  chunks !! k = Some (ck, slots) → slots !! j = Some (Some (name, c)) →
  remove_entry name chunks =
  if forallb slot_unused (<[j := None]> slots) then (delete k chunks, [ck])
  else (put_slot k j None chunks, []).
Proof.
  revert k. induction chunks as [|[b sl] chunks IH]; intros k Hnd Hk Hj; [done|].
  rewrite chunk_entries_cons fmap_app in Hnd. apply NoDup_app in Hnd as (Hnd1 & Hdisj & Hnd2).
  assert (name ∈ (omap id slots).*1) as Hn.
  { apply (list_elem_of_fmap_2 fst _ (name, c)), elem_of_slots. by eapply list_elem_of_lookup_2. }
  destruct k as [|k]; cbn [remove_entry]; cbn in Hk.
  - injection Hk as -> ->. apply slot_named_elem in Hn. rewrite Hn.
    rewrite (clear_slots_insert _ c _ j) //.
  - assert (existsb (slot_named name) sl = false) as ->.
    { apply not_true_is_false. rewrite slot_named_elem. intros Hin. apply (Hdisj _ Hin).
      apply (list_elem_of_fmap_2 fst _ (name, c)), elem_of_chunk_entries. exists ck, slots.
      split; by eapply list_elem_of_lookup_2. }
    rewrite (IH k) //. by case_match.
Qed.

(** Looking for another entry in the block, on the direntries. *)
Lemma others_unused chunks k j ck slots es name c b o :
  NoDup (used (Dir b o chunks)) → NoDup (chunk_entries chunks).*1 →
  chunks !! k = Some (ck, slots) → slots !! j = Some (Some (name, c)) → Forall2 entry_is es slots →
  forallb (λ e, (d_inode_block e =? 0) || (d_inode_block e =? root_block c)) es =
  forallb slot_unused (<[j := None]> slots).
Proof.
  intros Hnd Hnames Hk Hj Hes.
  assert (∀ i n c', slots !! i = Some (Some (n, c')) → (n, c') ∈ chunk_entries chunks) as Hin.
  { intros i n c' Hi. apply elem_of_chunk_entries. exists ck, slots.
    split; by eapply list_elem_of_lookup_2. }
  assert (∀ i n c', slots !! i = Some (Some (n, c')) → i ≠ j → root_block c' ≠ root_block c) as Hroot.
  { intros i n c' Hi Hij Heq. destruct (decide (n = name)) as [->|Hne].
    - apply Hij. eapply slot_unique; [|exact Hi|exact Hj].
      apply list_elem_of_lookup_2 in Hk. apply list_elem_of_split in Hk as (l1 & l2 & ->).
      rewrite chunk_entries_app chunk_entries_cons !fmap_app in Hnames.
      apply NoDup_app in Hnames as (_ & _ & Hnames). by apply NoDup_app in Hnames as (? & _ & _).
    - eapply (used_children_disjoint (Dir b o chunks) n c' name c (root_block c));
        [exact Hnd|by eapply Hin|by eapply Hin|done| |apply root_block_used].
      rewrite -Heq. apply root_block_used. }
  apply eq_true_iff_eq. rewrite !forallb_forall. split.
  - intros Hall s (i & Hi)%list_elem_of_In%list_elem_of_lookup.
    destruct (decide (i = j)) as [->|Hij].
    { rewrite list_lookup_insert_eq in Hi; [|by eapply lookup_lt_Some]. by injection Hi as <-. }
    rewrite list_lookup_insert_ne // in Hi.
    destruct (Forall2_lookup_r _ _ _ _ _ Hes Hi) as (e & He & Hse).
    destruct s as [[n c']|]; [exfalso|done]. cbn in Hse. destruct Hse as (Heb & Hnz & _).
    assert (In e es) as Hine by by eapply list_elem_of_In, list_elem_of_lookup_2.
    specialize (Hall e Hine). apply orb_true_iff in Hall. rewrite !Z.eqb_eq Heb in Hall.
    destruct Hall as [|Hall]; [done|]. by eapply Hroot.
  - intros Hall e (i & Hi)%list_elem_of_In%list_elem_of_lookup.
    destruct (Forall2_lookup_l _ _ _ _ _ Hes Hi) as (s & Hs & Hse). apply orb_true_iff. rewrite !Z.eqb_eq.
    destruct (decide (i = j)) as [->|Hij].
    { rewrite Hj in Hs. injection Hs as <-. right. by destruct Hse as (-> & _). }
    left. assert (In s (<[j := None]> slots)) as Hins.
    { apply list_elem_of_In, list_elem_of_lookup. exists i. by rewrite list_lookup_insert_ne. }
    specialize (Hall s Hins). by destruct s as [[n c']|].
Qed.

(** ** The loops of the handler *)

(** The blocks of the parent after the shift: the loop has no effect. *)
Lemma shift_loop_eq n : ∀ k blocks,
  (k + n < length blocks)%nat →
  for_each (R := Empty_set) (seqZ (Z.of_nat k) (Z.of_nat n)) blocks (λ i blocks,
    next ← block_at blocks (i + 1);
    blocks' ← set_block blocks i next;
    mret (Next blocks')) =
  mret (Next (take k blocks ++ take n (drop (S k) blocks) ++ drop (k + n) blocks)).
Proof.
  induction n as [|n IH]; intros k blocks Hlen.
  { cbn. by rewrite Nat.add_0_r take_drop. }
  destruct (lookup_lt_is_Some_2 blocks (S k)) as [x Hx]; [lia|].
  destruct (lookup_lt_is_Some_2 blocks k) as [y Hy]; [lia|].
  rewrite seqZ_cons; [|lia]. cbn [for_each].
  replace (Z.pred (Z.of_nat (S n))) with (Z.of_nat n) by lia.
  replace (Z.succ (Z.of_nat k)) with (Z.of_nat (S k)) by lia.
  unfold block_at, set_block. replace (Z.to_nat (Z.of_nat k + 1)) with (S k) by lia.
  rewrite Hx Nat2Z.id. cbn [get_some mbind prog_bind]. rewrite Hy. cbn [mbind prog_bind].
  etrans; [apply IH; rewrite length_insert; lia|]. do 2 f_equal.
  rewrite (drop_S _ _ _ Hx). rewrite !drop_insert_lt; [|lia..].
  rewrite (take_S_r _ _ x); [|apply list_lookup_insert_eq; lia].
  rewrite take_insert_ge; [|lia]. cbn. rewrite -app_assoc. by rewrite Nat.add_succ_r.
Qed.

Lemma shift_blocks_eq blocks k n :
  (k < n)%nat → (n ≤ length blocks)%nat → (n ≤ n_blocks)%nat →
  ∃ r, shift_blocks blocks (Z.of_nat k) (Z.of_nat n) = mret r ∧
    length r = length blocks ∧ (Forall u32 blocks → Forall u32 r) ∧
    take (n - 1) r = delete k (take n blocks).
Proof.
  intros Hk Hn Hmax. unfold shift_blocks.
  replace (to_uint32 (Z.of_nat n - 1) - Z.of_nat k) with (Z.of_nat (n - 1 - k)).
  2: { rewrite to_uint32_id; [|unfold u32; lia]. lia. }
  rewrite shift_loop_eq; [|lia]. eexists. split; [reflexivity|]. cbn [loop_end].
  replace (k + (n - 1 - k))%nat with (n - 1)%nat by lia. split_and!.
  - rewrite !length_app !length_take !length_drop. lia.
  - intros Hu. rewrite !Forall_app. split_and!; [|apply Forall_take|];
      by [apply Forall_take|apply Forall_drop].
  - rewrite app_assoc take_app_length'.
    + rewrite delete_take_drop take_take Nat.min_l; [|lia].
      rewrite take_drop_commute. by replace (S k + (n - 1 - k))%nat with n by lia.
    + rewrite length_app !length_take !length_drop. lia.
Qed.

Lemma blocks_upto_eq blocks n : ∀ k l,
  take n (drop k blocks) = l → length l = n →
  blocks_upto blocks (seqZ (Z.of_nat k) (Z.of_nat n)) = mret l.
Proof.
  induction n as [|n IH]; intros k l Hl Hlen; [by subst l|].
  destruct l as [|x l]; [done|].
  assert (blocks !! k = Some x) as Hx.
  { assert (take (S n) (drop k blocks) !! 0%nat = Some x) as H0' by by rewrite Hl.
    apply lookup_take_Some in H0' as [H0' _]. by rewrite lookup_drop Nat.add_0_r in H0'. }
  rewrite (drop_S _ _ _ Hx) in Hl. cbn in Hl. injection Hl as Hl.
  rewrite seqZ_cons; [|lia]. cbn [blocks_upto].
  replace (Z.pred (Z.of_nat (S n))) with (Z.of_nat n) by lia.
  replace (Z.succ (Z.of_nat k)) with (Z.of_nat (S k)) by lia.
  unfold block_at. rewrite Nat2Z.id Hx. cbn [get_some mbind prog_bind].
  by rewrite (IH _ _ Hl); [|injection Hlen].
Qed.

(** The data blocks of the target. *)
Lemma data_blocks_eq {D} `{DiskLaws D} (d : D) c :
  let target_inode := read_as fs_inode d (root_block c) in
  sound d c →
  (if Ascii.eqb (i_type target_inode) type_file
   then blocks_upto (i_blocks target_inode) (seqZ 0 (i_size target_inode))
   else mret []) = mret (data_blocks c).
Proof.
  intros target_inode Hc. unfold target_inode. rewrite (sound_is_file _ _ Hc).
  destruct c as [b' o' data|b' o' chunks']; cbn [is_dir negb data_blocks root_block] in *; [|done].
  destruct (all_nodes_here _ _ (sound_stored _ _ Hc)) as [(_ & _ & Hsz & Ht) _].
  rewrite Hsz. apply (blocks_upto_eq _ _ 0); [by rewrite drop_0|done].
Qed.

Section delete.
Context {D M : Type} `{DiskLaws D} `{SharedMutexLaws M}.
Abbreviation triple := (triple (D := D) (M := M)).

(** The parent write-locked and the target upgrade-locked. *)
Definition both_locked (l tl : lockref) (b tb : Z) : lock_ghost :=
  <[tl := held_in Upgradable tb]> (<[l := (b, mk_holders 0 false true)]> ∅).

Lemma find_target_spec d fr l b o chunks name :
  sound d (Dir b o chunks) → ¬ has_char NUL name →
  triple d fr (<[l := held_in Upgradable b]> ∅)
    (find_target (mk_info (read_as fs_inode d b) l b) name)
    (λ r d' fr' L', d' = d ∧ fr' = fr ∧
       match r with
       | Next _ => L' = <[l := held_in Upgradable b]> ∅ ∧ child (Dir b o chunks) name = None
       | Break f => ∃ k j ck slots c tl,
           chunks !! k = Some (ck, slots) ∧ slots !! j = Some (Some (name, c)) ∧ tl ≠ l ∧
           f = mk_found (Z.of_nat k) ck j (read_as (list fs_direntry) d ck) (root_block c)
                 (read_as fs_inode d (root_block c)) tl ∧
           L' = both_locked l tl b (root_block c)
       end).
Proof.
  intros Hs Hname. destruct (sound_dir _ _ _ _ Hs) as [Hd Hnd]. unfold find_target.
  cbn [inode lock_ptr]. rewrite (dir_at_size _ _ _ _ Hd).
  apply (triple_for _ _ _ chunks tt _ (λ i _, name ∉ (chunk_entries (take i chunks)).*1)).
  - apply not_elem_of_nil.
  - intros i [ck slots] [] Hi Hn.
    destruct (dir_at_block _ _ _ _ _ _ Hd Hi) as (Hblk & Hv & Hch).
    eapply triple_block_at; [exact Hblk|]. apply triple_read_direntries; [done|].
    pose proof (find_index_spec name _ _ 0 Hname Hch) as Hf. cbn [fst snd] in *.
    destruct (find_index _ _ 0) as [[j e]|].
    + destruct Hf as (k & c & -> & He & Hk & -> & _).
      assert ((name, c) ∈ children (Dir b o chunks)) as Hin.
      { apply elem_of_chunk_entries. exists ck, slots. split; by eapply list_elem_of_lookup_2. }
      assert (root_block c ≠ b) as Hcb.
      { intros Heq. eapply (node_blocks_child_disjoint (Dir b o chunks) name c b);
          [by eapply sound_NoDup|exact Hin|apply elem_of_cons; by left|].
        rewrite -Heq. apply root_block_used. }
      apply (sound_child _ _ _ _ Hs) in Hin.
      apply triple_get_lock; [by apply unlocked_insert; auto using unlocked_empty|]. intros tl Htl.
      assert (tl ≠ l) as Hne by (intros ->; by rewrite lookup_insert_eq in Htl).
      eapply triple_upgrade; [by solve_ghost|]. eapply triple_lock; [by solve_ghost|].
      apply triple_read_inode; [by eapply sound_root_valid|]. apply triple_ret.
      split_and!; [done..|]. exists i, k, ck, slots, c, tl. split_and!; [done..|].
      unfold both_locked. by solve_ghost.
    + apply triple_ret. split_and!; [done..|].
      rewrite (chunk_names _ _ _ _ Hi) fmap_app elem_of_app. tauto.
  - intros [] Hn. rewrite firstn_all in Hn. split_and!; [done..|]. by apply find_child_None.
Qed.

(** ** What the writes of a deletion store *)

Lemma elem_of_delete_entries k chunks n c :
  (n, c) ∈ chunk_entries (delete k chunks) → (n, c) ∈ chunk_entries chunks.
Proof.
  rewrite !elem_of_chunk_entries. intros (b & sl & Hb & Hs). exists b, sl. split; [|done].
  rewrite delete_take_drop in Hb. rewrite -(take_drop k chunks) elem_of_app.
  apply elem_of_app in Hb as [|Hb]; [by left|right].
  destruct (chunks !! k) as [y|] eqn:Hy.
  - rewrite (drop_S _ _ _ Hy). apply elem_of_cons. by right.
  - rewrite drop_ge in Hb; [by apply not_elem_of_nil in Hb|].
    apply lookup_ge_None in Hy. lia.
Qed.

Lemma elem_of_cleared_entries k j chunks n c :
  (n, c) ∈ chunk_entries (put_slot k j None chunks) → (n, c) ∈ chunk_entries chunks.
Proof.
  rewrite !elem_of_chunk_entries. intros (b & sl & [m Hm]%list_elem_of_lookup & Hs).
  unfold put_slot in Hm. destruct (decide (m = k)) as [->|Hne].
  - rewrite list_lookup_alter_eq in Hm. apply fmap_Some in Hm as ([b' sl'] & Hk & [= -> ->]).
    exists b', sl'. split; [by eapply list_elem_of_lookup_2|]. cbn in Hs.
    apply list_elem_of_lookup in Hs as [i Hi]. destruct (decide (i = j)) as [->|Hij].
    + apply list_lookup_insert_Some in Hi as [(_ & ? & _)|[? _]]; done.
    + rewrite list_lookup_insert_ne // in Hi. by eapply list_elem_of_lookup_2.
  - rewrite list_lookup_alter_ne // in Hm. exists b, sl.
    split; [by eapply list_elem_of_lookup_2|done].
Qed.

(** One block written, a node block of the directory: the children stay. *)
Lemma stored_Dir_write d b o chunks chunks' x bs :
  sound d (Dir b o chunks) → x ∈ b :: chunks.*1 → valid_block x →
  node_stored (disk_write d x bs) (Dir b o chunks') →
  (∀ n c, (n, c) ∈ chunk_entries chunks' → (n, c) ∈ chunk_entries chunks) →
  stored (disk_write d x bs) (Dir b o chunks').
Proof.
  intros Hs Hx Hv Hn Hent. eapply stored_Dir_change; [apply Hs|done| |].
  - intros n c Hc. left. by apply Hent.
  - apply (sound_children_frame _ _ b o _ [x]); [done| |].
    + intros y Hy Hyx%not_elem_of_cons. apply disk_read_write_ne; [done..|].
      by destruct Hyx as [? _].
    + intros y ->%list_elem_of_singleton. by left.
Qed.

Lemma stored_remove_chunk d b o chunks k blocks :
  let di := read_as fs_inode d b in
  sound d (Dir b o chunks) → (k < length chunks)%nat → length blocks = n_blocks →
  Forall u32 blocks →
  take (length chunks - 1) blocks = delete k (take (length chunks) (i_blocks di)) →
  stored (disk_write d b (encode (with_blocks di (to_uint32 (i_size di - 1)) blocks)))
    (Dir b o (delete k chunks)).
Proof.
  intros di Hs Hk Hlen Hu Ht. destruct (sound_dir_blocks _ _ _ _ Hs) as (Hb & Hnd & Hvb & Hv).
  pose proof (all_nodes_here _ _ (sound_stored _ _ Hs)) as Hnode. pose proof Hnode as [Hi _].
  destruct (inode_is_size _ _ _ _ _ Hvb Hi) as [Hl Hsize]. rewrite length_fmap in Hl Hsize.
  assert (to_uint32 (i_size di - 1) = Z.of_nat (length chunks - 1)) as Hn.
  { unfold di. rewrite Hsize to_uint32_id; [lia|unfold u32; lia]. }
  apply (stored_Dir_write _ _ _ chunks); [done|apply elem_of_cons; by left|done| |].
  - eapply (node_stored_delete_chunk d); [done..| |exact Hn| |].
    + apply (read_as_write_eq fs_inode); [done|]. apply with_blocks_typed; [|by rewrite Hn; unfold u32; lia|done..].
      exact (read_as_typed fs_inode d b Hvb).
    + rewrite Ht. destruct Hi as (_ & _ & _ & Ht'). rewrite length_fmap in Ht'.
      fold di in Ht'. by rewrite Ht'.
    + intros x Hx. apply disk_read_write_ne; [done|by eapply valid_blocks_elem|]. by intros ->.
  - apply elem_of_delete_entries.
Qed.

Lemma stored_clear_slot d b o chunks k j ck slots :
  let es := read_as (list fs_direntry) d ck in
  sound d (Dir b o chunks) → chunks !! k = Some (ck, slots) → (j < length slots)%nat →
  stored (disk_write d ck (encode (alter (λ e, mk_direntry (d_name e) 0) j es)))
    (Dir b o (put_slot k j None chunks)).
Proof.
  intros es Hs Hk Hj. destruct (sound_dir_blocks _ _ _ _ Hs) as (Hb & Hnd & Hvb & Hv).
  destruct (sound_dir _ _ _ _ Hs) as [Hd _].
  destruct (dir_at_block _ _ _ _ _ _ Hd Hk) as (_ & Hvck & Hch). cbn [fst] in Hvck.
  destruct (read_as_typed (list fs_direntry) d ck Hvck) as [Hl Hes]. fold es in Hl, Hes.
  unfold chunk_is in Hch. cbn [fst snd] in Hch. apply Forall2_length in Hch as Hls.
  destruct (lookup_lt_is_Some_2 es j) as [e He]; [unfold es; lia|].
  assert (alter (λ e, mk_direntry (d_name e) 0) j es = <[j := mk_direntry (d_name e) 0]> es) as Halt.
  { apply list_eq. intros i. destruct (decide (i = j)) as [->|Hij].
    - rewrite list_lookup_alter_eq He list_lookup_insert_eq //. by eapply lookup_lt_Some.
    - by rewrite list_lookup_alter_ne // list_lookup_insert_ne. }
  rewrite Halt. assert (ck ∈ chunks.*1) as Hck.
  { by eapply (list_elem_of_fmap_2 fst _ (ck, slots)), list_elem_of_lookup_2. }
  apply (stored_Dir_write _ _ _ chunks); [done|apply elem_of_cons; by right|done| |].
  - eapply (node_stored_put d); [|done| | | |done|].
    + by apply (all_nodes_here _ _ (sound_stored _ _ Hs)).
    + by instantiate (1 := mk_direntry (d_name e) 0).
    + apply disk_read_write_ne; [done..|]. by intros ->.
    + intros x Hx Hne. apply disk_read_write_ne; [done|by eapply valid_blocks_elem|done].
    + apply (read_as_write_eq (list fs_direntry)); [done|].
      split; [by rewrite length_insert|]. apply Forall_insert; [done|].
      rewrite Forall_lookup in Hes. destruct (Hes _ _ He) as [Hne _].
      split; [done|unfold u32; cbn; lia].
  - apply elem_of_cleared_entries.
Qed.

(** ** [execute_DELETE] *)

Lemma spec_delete_at s user path parent name b o chunks k j ck slots c :
  NoDup (chunk_entries chunks).*1 → path = parent ++ [name] →
  walk user (contents s) parent true = Some (Dir b o chunks) →
  chunks !! k = Some (ck, slots) → slots !! j = Some (Some (name, c)) →
  spec_delete user path s =
  if removable user c then
    if forallb slot_unused (<[j := None]> slots) then
      (Some None, mk_fsys (update (contents s) parent (set_chunks (delete k chunks)))
                    ((free s ++ [ck]) ++ data_blocks c ++ [root_block c]))
    else
      (Some None, mk_fsys (update (contents s) parent (set_chunks (put_slot k j None chunks)))
                    (free s ++ data_blocks c ++ [root_block c]))
  else (None, s).
Proof.
  intros Hnd -> Hw Hk Hj. destruct s as [t fr]. unfold spec_delete. cbn [contents free] in *.
  rewrite last_snoc removelast_last Hw.
  rewrite child_Dir (find_child_elem name _ c); [|done|].
  - destruct (removable user c); [|done]. rewrite (remove_entry_at _ _ _ _ _ _ _ Hnd Hk Hj).
    destruct (forallb _ _); [|done]. by rewrite -app_assoc.
  - apply elem_of_chunk_entries. exists ck, slots. split; by eapply list_elem_of_lookup_2.
Qed.

Lemma fsys_ok_names s user parent b o chunks :
  fsys_ok s → walk user (contents s) parent true = Some (Dir b o chunks) →
  NoDup (chunk_entries chunks).*1.
Proof.
  intros Hok Hw%walk_subtree. assert (shape (Dir b o chunks)) as (Hnd & _)%shape_Dir; [|done].
  eapply shape_subtree; [apply Hok|done].
Qed.

Lemma spec_delete_no_child s user path parent name :
  path = parent ++ [name] →
  (∀ b o chunks, walk user (contents s) parent true = Some (Dir b o chunks) →
     child (Dir b o chunks) name = None) →
  spec_delete user path s = (None, s).
Proof.
  intros -> Hc. destruct s as [t fr]. unfold spec_delete. rewrite last_snoc removelast_last.
  cbn [contents] in Hc. destruct (walk user t parent true) as [[|b o chunks]|]; [done| |done].
  by rewrite Hc.
Qed.

(** A tree of one block is only the empty root. *)
Lemma spec_delete_root s user path :
  is_dir (contents s) = true → (length (used (contents s)) ≤ 1)%nat →
  spec_delete user path s = (None, s).
Proof.
  intros Hdir Hlen.
  assert (∃ b o, contents s = Dir b o []) as (b & o & Ht).
  { destruct (contents s) as [|b o chunks]; [done|]. exists b, o. f_equal.
    rewrite used_Dir in Hlen. cbn in Hlen. rewrite length_app length_fmap in Hlen.
    destruct chunks; [done|cbn in Hlen; lia]. }
  destruct (last_snoc_cases path) as [->|(parent & name & Hpath & _)]; [by destruct s|].
  eapply spec_delete_no_child; [exact Hpath|]. intros b' o' chunks'. rewrite Ht.
  destruct parent as [|n parent]; cbn; [by intros [= <- <- <-]|].
  by destruct o.
Qed.

(** With 4095 free blocks there is no other block. *)
Lemma spec_delete_empty s user path :
  fsys_ok s → length (free s) = 4095%nat → spec_delete user path s = (None, s).
Proof.
  intros (_ & Hdir & _ & Hp) Hlen. apply spec_delete_root; [done|].
  apply Permutation_length in Hp. rewrite length_app length_seqZ Hlen in Hp.
  unfold FS_DISKSIZE in Hp. lia.
Qed.

Lemma triple_abandon d fr l tl info f b c Q :
  lock_ptr info = l → target_lock_ptr f = tl → tl ≠ l → Q None d fr ∅ →
  triple d fr (both_locked l tl b (root_block c)) (abandon_delete info f) Q.
Proof.
  intros Hl Htl Hne HQ. unfold abandon_delete, both_locked. rewrite Hl Htl.
  eapply triple_unlock; [by solve_ghost|done|]. eapply triple_unlock; [by solve_ghost|done|].
  eapply triple_drop; [by solve_ghost|]. eapply triple_drop; [by solve_ghost|].
  apply triple_ret. eassert (delete l _ = ∅) as ->; [by solve_ghost|exact HQ].
Qed.

Lemma removable_code d user c :
  sound d c →
  removable user c =
  String.eqb user (tree_owner c) &&
  negb (is_dir c && (0 <? i_size (read_as fs_inode d (root_block c)))).
Proof.
  intros Hc. unfold removable. rewrite String.eqb_sym. f_equal.
  destruct c as [b o data|b o chunks]; [done|]. cbn [is_dir andb root_block].
  destruct (sound_dir _ _ _ _ Hc) as [Hd _]. rewrite (dir_at_size _ _ _ _ Hd).
  by destruct chunks.
Qed.

(** The end of the handler: the target's blocks go to the free list. *)
Lemma finish_delete d d1 fr1 l tl b c (Q : out_block → D → list Z → lock_ghost → Prop) :
  tl ≠ l → sound d c →
  Q (Some None) d1 (fr1 ++ data_blocks c ++ [root_block c]) ∅ →
  let target_inode := read_as fs_inode d (root_block c) in
  triple d1 fr1 (both_locked l tl b (root_block c))
    (unlock Exclusive l;;
     upgrade tl;;
     erase_lock (root_block c);;
     data ← (if Ascii.eqb (i_type target_inode) type_file
             then blocks_upto (i_blocks target_inode) (seqZ 0 (i_size target_inode))
             else mret []);
     with_free_list (λ l, (tt, l ++ data ++ [root_block c]));;
     unlock Exclusive tl;;
     drop_ptr tl;;
     drop_ptr l;;
     mret (Some None)) Q.
Proof.
  intros Hne Hc HQ target_inode. unfold both_locked, target_inode.
  eapply triple_unlock; [by solve_ghost|done|]. eapply triple_upgrade; [by solve_ghost|].
  apply triple_erase. rewrite (data_blocks_eq d c Hc).
  apply triple_mret, triple_free. cbn [fst snd].
  eapply triple_unlock; [by solve_ghost|done|].
  eapply triple_drop; [by solve_ghost|]. eapply triple_drop; [by solve_ghost|].
  apply triple_ret. eassert (delete l _ = ∅) as ->; [by solve_ghost|exact HQ].
Qed.

(** The blocks written are the parent's: the rest of the tree stays. *)
Lemma implements_delete d x bs s parent b o chunks chunks' fr' :
  fsys_ok s → stored d (contents s) → subtree (contents s) parent = Some (Dir b o chunks) →
  x ∈ b :: chunks.*1 → stored (disk_write d x bs) (Dir b o chunks') →
  implements d (Some None, mk_fsys (update (contents s) parent (set_chunks chunks')) fr')
    (Some None) (disk_write d x bs) fr' ∅.
Proof.
  intros Hok Hst Hsub Hx Hnew. pose proof (fsys_ok_sound _ _ Hok Hst) as Hs.
  assert (x ∈ used (Dir b o chunks)) as Hxu.
  { rewrite used_children. apply elem_of_app. by left. }
  eapply implements_update; [done..| |exact Hnew|done].
  intros y Hy Hyn. destruct Hs as [_ _ _ Hv].
  apply disk_read_write_ne; [|by eapply valid_blocks_elem|by intros ->].
  eapply valid_blocks_elem; [exact Hv|]. by eapply subtree_used.
Qed.

Lemma execute_DELETE_spec (req : FS_DELETE) d s :
  fsys_ok s → stored d (contents s) → request_ok (Req_DELETE req) →
  triple d (free s) ∅ (execute_DELETE req)
    (implements d (spec_request (Req_DELETE req) s)).
Proof.
  intros Hok Hst ([[Hu _] _] & Hp & _).
  pose proof (fsys_ok_sound _ _ Hok Hst) as Hs. cbn in Hu, Hp.
  unfold execute_DELETE. cbn [spec_request].
  assert (implements d (None, s) None d (free s) ∅) as Hfail by by split_and!.
  destruct (last_snoc_cases (de_path req)) as [Hnil|(parent & name & Hpath & Hrem & Hlast)].
  { rewrite Hnil. apply triple_ret. by destruct s. }
  case_decide as Hne; [rewrite Hpath in Hne; by destruct parent|].
  destruct (path_ok_parts _ _ _ Hp Hpath) as (Hparent & Hname & _).
  apply triple_free. cbn [fst snd]. rewrite Hrem Hlast. change (default "" (Some name)) with name.
  destruct (Z.eqb_spec (Z.of_nat (length (free s))) 4095) as [Hfull|_].
  { apply triple_ret. rewrite spec_delete_empty //. lia. }
  eapply triple_traverse; [done|done|exact Hs|by apply Hok| |].
  { intros Hw. apply triple_ret. rewrite (spec_delete_no_child _ _ _ _ _ Hpath) //. by rewrite Hw. }
  intros c l Hw Hsub Hc. cbn [inode lock_ptr info_block].
  rewrite (sound_is_file _ _ Hc).
  destruct c as [b o data|b o chunks]; cbn [is_dir negb root_block] in *.
  { assert (∀ T, triple d (free s) (<[l:=held_in Upgradable b]> ∅) T
      (implements d (None, s)) → triple d (free s) (<[l:=held_in Upgradable b]> ∅) T
      (implements d (spec_delete (de_username req) (de_path req) s))) as Hno.
    { intros T. rewrite (spec_delete_no_child _ _ _ _ _ Hpath) //. by rewrite Hw. }
    apply Hno. case_match; by apply (triple_release_read d _ Upgradable l (File b o data)). }
  destruct (sound_dir _ _ _ _ Hc) as [Hdir Hnd]. rewrite (dir_at_size _ _ _ _ Hdir).
  destruct (Z.eqb_spec (Z.of_nat (length chunks)) 0) as [Hzero|_].
  { rewrite (spec_delete_no_child _ _ _ _ _ Hpath).
    - by apply (triple_release_read d _ Upgradable l (Dir b o chunks)).
    - rewrite Hw. intros ? ? ? [= <- <- <-]. by destruct chunks. }
  eapply triple_bind; [by eapply find_target_spec|].
  intros r d' fr' L' (-> & -> & Hr). destruct r as [[]|f].
  { destruct Hr as [-> Hch]. rewrite (spec_delete_no_child _ _ _ _ _ Hpath).
    - by apply (triple_release_read d _ Upgradable l (Dir b o chunks)).
    - rewrite Hw. by intros ? ? ? [= <- <- <-]. }
  destruct Hr as (k & j & ck & slots & c & tl & Hk & Hj & Hne' & -> & ->).
  assert ((name, c) ∈ children (Dir b o chunks)) as Hin.
  { apply elem_of_chunk_entries. exists ck, slots. split; by eapply list_elem_of_lookup_2. }
  apply (sound_child _ _ _ _ Hc) in Hin as Hcs.
  rewrite (spec_delete_at _ _ _ _ _ _ _ _ _ _ _ _ _ Hnd Hpath Hw Hk Hj) (removable_code d) //.
  cbn [target_inode target_block found_spot_direntries found_spot_direntries_block
    found_spot_direntries_index direntries_index_in_parent target_lock_ptr].
  rewrite (sound_owner _ _ _ Hcs) // (sound_is_dir _ _ Hcs).
  destruct (String.eqb (de_username req) (tree_owner c)); cbn [andb negb];
    [|by apply (triple_abandon _ _ l tl)].
  destruct (is_dir c && (0 <? i_size (read_as fs_inode d (root_block c)))); cbn [negb];
    [by apply (triple_abandon _ _ l tl)|].
  destruct (dir_at_block _ _ _ _ _ _ Hdir Hk) as (_ & Hvck & Hch). cbn [fst] in Hvck.
  rewrite (others_unused chunks k j ck slots _ name c b o);
    [|by eapply sound_NoDup|done|done|done|exact Hch].
  destruct (sound_dir_blocks _ _ _ _ Hc) as (_ & _ & Hvb & _).
  apply lookup_lt_Some in Hk as Hklt.
  destruct (forallb slot_unused (<[j := None]> slots)).
  - destruct (all_nodes_here _ _ (sound_stored _ _ Hc)) as [Hi _].
    destruct (inode_is_size _ _ _ _ _ Hvb Hi) as [Hl _]. rewrite length_fmap in Hl.
    destruct (read_as_typed fs_inode d b Hvb) as (_ & _ & Hib & Hu32).
    destruct (shift_blocks_eq (i_blocks (read_as fs_inode d b)) k (length chunks))
      as (blocks & -> & Hlb & Hub & Htb); [exact Hklt|rewrite Hib; exact Hl|exact Hl|].
    apply triple_assoc, triple_mret, triple_assoc, triple_write_inode; [done|].
    apply triple_free. cbn [fst snd].
    apply (finish_delete d); [done..|].
    eapply implements_delete; [done..|apply elem_of_cons; by left|].
    rewrite -(dir_at_size _ _ _ _ Hdir).
    apply stored_remove_chunk; [done|done|congruence|by apply Hub|done].
  - apply triple_write_direntries; [done|].
    apply (finish_delete d); [done..|].
    eapply implements_delete; [done..| |].
    + apply elem_of_cons. right.
      by eapply (list_elem_of_fmap_2 fst _ (ck, slots)), list_elem_of_lookup_2.
    + eapply stored_clear_slot; [done|exact Hk|]. by eapply lookup_lt_Some.
Qed.
End delete.
