(* ===== verification/FsServer.v ===== *)
(** * The request server implements its specification

    [execute_request] of a well-formed request, run alone, does what
    [spec_request] says; sequences of requests; what that means to the clients
    path by path; and that the tree is determined by the disk. *)

From S2P Require Import Prelude CStd Request FsTypes FsMonad FileSystem FsTree FsSpec FsLogic FsTraverse FsStored FsCorrect FsExample FsCreate FsDelete.

(** The payload of a write is a whole block, as [handle_connection] makes it. *)
Definition payload_ok (r : Request) : Prop :=
  match r with
  | Req_WRITEBLOCK r => length (default [] (wr_data r)) = n_block
  | _ => True
  end.

#[export] Instance payload_ok_dec r : Decision (payload_ok r).
Proof. destruct r; apply _. Defined.

Lemma payload_data r :
  payload_ok (Req_WRITEBLOCK r) → ∃ bs, wr_data r = Some bs ∧ length bs = n_block.
Proof. cbn. destruct (wr_data r) as [bs|]; [by eauto|done]. Qed.

(** The results of the requests that write. *)
Lemma spec_write_result s user path block bs :
  (spec_write user path block bs s).1 = None ∨ (spec_write user path block bs s).1 = Some None.
Proof.
  destruct s as [t fr]. unfold spec_write.
  destruct (walk _ t _ true) as [[b o data|]|]; [|by left..].
  case_match; [by right|]. case_match; [|by left]. destruct fr; [by left|by right].
Qed.

Lemma spec_create_result s user path ty :
  (spec_create user path ty s).1 = None ∨ (spec_create user path ty s).1 = Some None.
Proof.
  destruct s as [t fr]. unfold spec_create. destruct (last path); [|by left].
  destruct (walk _ t _ true) as [[|b o chunks]|]; [by left| |by left].
  destruct (child _ _); [by left|]. destruct fr as [|nb fr]; [by left|].
  destruct (fill_chunks _ chunks); [by right|]. destruct fr; [by left|].
  case_match; [by left|by right].
Qed.

Lemma spec_delete_result s user path :
  (spec_delete user path s).1 = None ∨ (spec_delete user path s).1 = Some None.
Proof.
  destruct s as [t fr]. unfold spec_delete. destruct (last path); [|by left].
  destruct (walk _ t _ true) as [[|b o chunks]|]; [by left| |by left].
  destruct (child _ _); [|by left]. destruct (removable _ _); [|by left].
  destruct (remove_entry _ chunks). by right.
Qed.

(** A request that fails or reads is a no-op of the specification. *)
Lemma spec_error req s : (spec_request req s).1 ≠ Some None → (spec_request req s).2 = s.
Proof.
  destruct req as [r|r|r|r]; destruct s as [t fr]; cbn [spec_request contents]; [done|..].
  - unfold spec_write. destruct (walk _ t _ true) as [[b o data|]|]; [|done..].
    case_match; [done|]. case_match; [|done]. by destruct fr.
  - unfold spec_create. destruct (last (cr_path r)); [|done].
    destruct (walk _ t _ true) as [[|b o chunks]|]; [done| |done].
    destruct (child _ _); [done|]. destruct fr as [|nb fr]; [done|].
    destruct (fill_chunks _ chunks); [done|]. destruct fr; [done|]. by case_match.
  - unfold spec_delete. destruct (last (de_path r)); [|done].
    destruct (walk _ t _ true) as [[|b o chunks]|]; [done| |done].
    destruct (child _ _); [|done]. destruct (removable _ _); [|done].
    by destruct (remove_entry _ chunks).
Qed.

Section server.
Context {D M : Type} `{DiskLaws D} `{SharedMutexLaws M}.
Abbreviation state := (fs_state D M).

Definition abs (t : tree) (s : state) : fsys := mk_fsys t (free_disk_blocks s).

Lemma execute_request_triple junk req d s :
  fsys_ok s → stored d (contents s) → request_ok req → payload_ok req → inode_typed junk →
  triple (M := M) d (free s) ∅ (execute_request junk req) (implements d (spec_request req s)).
Proof.
  intros Hok Hst Hreq Hpay Hjunk. destruct req as [r|r|r|r]; cbn [execute_request].
  - by apply execute_READBLOCK_spec.
  - destruct (payload_data _ Hpay) as (bs & Hbs & Hl). by eapply execute_WRITEBLOCK_spec.
  - by apply execute_CREATE_spec.
  - by apply execute_DELETE_spec.
Qed.

(** The run of a handler, in the form the theorems use. *)
Lemma execute_request_run junk req t (s : state) :
  fs_inv t s → request_ok req → payload_ok req → inode_typed junk →
  ∃ r t' s', run (execute_request junk req) s = Done (r, s') ∧
    spec_request req (abs t s) = (r, abs t' s') ∧ fs_inv t' s' ∧
    (r ≠ Some None → disk s' = disk s ∧ t' = t).
Proof.
  intros [Hst Hok Hl] Hreq Hpay Hjunk.
  pose proof (execute_request_triple junk req (disk s) (abs t s) Hok Hst Hreq Hpay Hjunk) as Ht.
  specialize (Ht s). apply wp_done in Ht as (r & s' & Hrun & d' & fr' & L' & [Hd Hf HL] &
    -> & -> & -> & Hst' & Herr); [|by split].
  exists (spec_request req (abs t s)).1, (contents (spec_request req (abs t s)).2), s'.
  split; [done|]. pose proof (spec_request_ok req (abs t s) Hok) as Hok'.
  pose proof (spec_error req (abs t s)) as Hnoop.
  destruct (spec_request req (abs t s)) as [r' [t' f']]. cbn in *. subst f'.
  split; [done|]. split; [split; [rewrite Hd; exact Hst'|exact Hok'|exact HL]|].
  intros Hr. split; [rewrite Hd; by apply Herr|]. specialize (Hnoop Hr). by injection Hnoop.
Qed.

(** ** Sequences of requests *)

(** The server answers requests one after the other. *)
Fixpoint serve (reqs : list (fs_inode * Request)) (s : state) : outcome (list out_block * state) :=
  match reqs with
  | [] => Done ([], s)
  | (junk, req) :: reqs' =>
      match run (execute_request junk req) s with
      | Done (r, s') =>
          match serve reqs' s' with
          | Done (rs, s'') => Done (r :: rs, s'')
          | Wait => Wait
          | Crash f => Crash f
          end
      | Wait => Wait
      | Crash f => Crash f
      end
  end.

Fixpoint spec_serve (reqs : list Request) (s : fsys) : list out_block * fsys :=
  match reqs with
  | [] => ([], s)
  | req :: reqs' =>
      let '(r, s') := spec_request req s in
      let '(rs, s'') := spec_serve reqs' s' in (r :: rs, s'')
  end.

Definition call_ok (c : fs_inode * Request) : Prop :=
  inode_typed c.1 ∧ request_ok c.2 ∧ payload_ok c.2.

Lemma serve_run reqs t (s : state) :
  fs_inv t s → Forall call_ok reqs →
  ∃ rs t' s', serve reqs s = Done (rs, s') ∧
    spec_serve reqs.*2 (abs t s) = (rs, abs t' s') ∧ fs_inv t' s'.
Proof.
  intros Hinv Hok. revert t s Hinv.
  induction Hok as [|[junk req] reqs (Hj & Hr & Hp) _ IH]; intros t s Hinv; cbn.
  { by exists [], t, s. }
  destruct (execute_request_run junk req t s Hinv Hr Hp Hj) as (r & t1 & s1 & -> & -> & Hinv1 & _).
  destruct (IH t1 s1 Hinv1) as (rs & t2 & s2 & -> & -> & Hinv2). by exists (r :: rs), t2, s2.
Qed.

(** ** The tree is a function of the disk *)

Lemma slots_unique es slots1 slots2 :
  Forall2 entry_is es slots1 → Forall2 entry_is es slots2 →
  (∀ n c1 c2, (n, c1) ∈ omap id slots1 → root_block c1 = root_block c2 →
     (n, c2) ∈ omap id slots2 → c1 = c2) →
  slots1 = slots2.
Proof.
  intros Ha. revert slots2. induction Ha as [|e s1 es slots1 He1 Ha IH]; intros slots2 Hb2 Hc;
    inversion Hb2 as [|? s2 ? slots2' He2 Hb2']; subst; [done|]. f_equal.
  - destruct s1 as [[n1 c1]|], s2 as [[n2 c2]|]; cbn in He1, He2; [| | |done].
    + destruct He1 as (Hr1 & _ & Hn1), He2 as (Hr2 & _ & Hn2). subst n1 n2.
      do 2 f_equal. eapply (Hc _); [apply elem_of_cons; by left|congruence|apply elem_of_cons; by left].
    + destruct He1 as (? & ? & _). congruence.
    + destruct He2 as (? & ? & _). congruence.
  - apply IH; [done|]. intros n c1 c2 Hin1 Hr Hin2. apply (Hc n); [|done|].
    + destruct s1; [apply elem_of_cons; by right|done].
    + destruct s2; [apply elem_of_cons; by right|done].
Qed.

Lemma stored_unique (d : D) t1 t2 :
  stored d t1 → stored d t2 → root_block t1 = root_block t2 → t1 = t2.
Proof.
  revert t2. induction t1 as [b o data|b o chunks IH] using tree_children_ind;
    intros [b' o' data'|b' o' chunks'] Ha Hb2; cbn; intros <-.
  - apply stored_File in Ha as [(_ & Ho1 & Hs1 & Ht1) Hd1], Hb2 as [(_ & Ho2 & Hs2 & Ht2) Hd2].
    f_equal; [congruence|]. assert (data.*1 = data'.*1) as Hb.
    { rewrite -Ht1 -Ht2. f_equal. rewrite Hs1 in Hs2. by apply Nat2Z.inj. }
    clear -Hb Hd1 Hd2. revert data' Hb Hd2.
    induction Hd1 as [|[x bs] data Hx _ IH]; intros [|[x' bs'] data'] Heq Hd2; try done.
    injection Heq as <- Hb.
    apply Forall_cons in Hd2 as [Hx' Hd2]. cbn in Hx, Hx'. f_equal; [congruence|by apply IH].
  - exfalso. apply all_nodes_here in Ha as [(Hty1 & _) _]. apply all_nodes_here in Hb2 as [(Hty2 & _) _].
    rewrite Hty1 in Hty2. done.
  - exfalso. apply all_nodes_here in Ha as [(Hty1 & _) _]. apply all_nodes_here in Hb2 as [(Hty2 & _) _].
    rewrite Hty1 in Hty2. done.
  - apply stored_Dir in Ha as [[(_ & Ho1 & Hs1 & Ht1) Hd1] Hc1],
      Hb2 as [[(_ & Ho2 & Hs2 & Ht2) Hd2] Hc2].
    f_equal; [congruence|]. assert (chunks.*1 = chunks'.*1) as Hb.
    { rewrite -Ht1 -Ht2. f_equal. rewrite Hs1 in Hs2. by apply Nat2Z.inj. }
    clear -IH Hb Hd1 Hd2 Hc1 Hc2. revert chunks' Hb Hd2 Hc2.
    induction Hd1 as [|[x slots] chunks Hx _ IHc]; intros [|[x' slots'] chunks'] Heq Hd2 Hc2; try done.
    injection Heq as <- Hb.
    setoid_rewrite chunk_entries_cons in IH. setoid_rewrite chunk_entries_cons in Hc1.
    setoid_rewrite chunk_entries_cons in Hc2. setoid_rewrite elem_of_app in IH.
    setoid_rewrite elem_of_app in Hc1. setoid_rewrite elem_of_app in Hc2.
    apply Forall_cons in Hd2 as [Hx' Hd2]. f_equal.
    + f_equal. eapply slots_unique; [exact Hx|exact Hx'|]. intros n c1 c2 Hin1 Hr Hin2.
      apply (IH n); eauto.
    + apply IHc; eauto.
Qed.
End server.

(** ** Theorems *)

(** ** Users do not touch each other's nodes *)

Definition view_owner (v : view) : string :=
  match v with VFile o _ | VDir o => o end.

Lemma spec_other_users req s r s' q v :
  fsys_ok s → spec_request req s = (r, s') → resolve (contents s) q = Some v →
  view_owner v ≠ req_username req → resolve (contents s') q = Some v.
Proof.
  intros Hok Hspec Hq Hv.
  destruct (decide (r = Some None)) as [->|Hr].
  2: { pose proof (spec_error req s) as He. rewrite Hspec in He. cbn in He. by rewrite He. }
  destruct req as [rq|rq|rq|rq]; cbn [spec_request req_username] in *.
  - by injection Hspec as _ <-.
  - destruct (write_effect _ _ _ _ _ _ q Hok Hspec) as (data & Hdata & _ & ->).
    case_decide as Heq; [subst q|done]. rewrite Hdata in Hq. by injection Hq as <-.
  - destruct (create_effect _ _ _ _ _ q Hok Hspec) as [Hnone ->].
    case_decide as Heq; [subst q|done]. congruence.
  - destruct (delete_effect _ _ _ _ q Hok Hspec) as [Hwhat ->].
    case_decide as Hpre; [|done]. exfalso. destruct Hpre as [q' ->]. destruct q' as [|n q'].
    + rewrite app_nil_r in Hq. destruct Hwhat as [[data Hd]|[Hd _]]; rewrite Hd in Hq; by injection Hq as <-.
    + assert (resolve (contents s) (de_path rq ++ [n]) = None) as Hnone.
      { destruct Hwhat as [[data Hd]|[_ Hd]]; [|done].
        apply resolve_VFile in Hd as (b & data' & Hd & _).
        unfold resolve. by rewrite (subtree_snoc _ _ _ _ Hd). }
      rewrite (resolve_None_prefix _ (de_path rq ++ [n])) in Hq; [done| |done].
      by apply prefix_app, prefix_cons, prefix_nil.
Qed.

(** ** A creation undone *)

Lemma update_chunks_undo name f g chunks :
  (∀ c, (name, c) ∈ chunk_entries chunks → g (f c) = c) →
  update_chunks name g (update_chunks name f chunks) = chunks.
Proof.
  induction chunks as [|[b slots] chunks IH]; intros Hc; cbn; [done|].
  setoid_rewrite chunk_entries_cons in Hc. setoid_rewrite elem_of_app in Hc.
  f_equal; [f_equal|by apply IH; eauto].
  assert (∀ c, (name, c) ∈ omap id slots → g (f c) = c) as Hs by eauto.
  clear Hc IH. induction slots as [|[[n c]|] slots IH]; cbn; [done| |].
  - f_equal; [|apply IH; intros c' Hc'; apply Hs; cbn; apply elem_of_cons; by right].
    destruct (String.eqb n name) eqn:Hn; cbn; rewrite Hn; [|done].
    apply String.eqb_eq in Hn as ->. do 2 f_equal. apply Hs. cbn. apply elem_of_cons. by left.
  - f_equal. by apply IH.
Qed.

Lemma update_undo t path f g c :
  shape t → subtree t path = Some c → g (f c) = c → update (update t path f) path g = t.
Proof.
  revert t. induction path as [|n path IH]; intros t Hsh; cbn; [by intros [= ->]|].
  intros (c' & Hc' & Hs)%bind_Some Hgf.
  pose proof (child_is_Dir _ _ _ Hc') as (b & o & chunks & ->). cbn. f_equal.
  pose proof Hsh as (Hnd & _ & Hsub)%shape_Dir. apply update_chunks_undo. intros x Hx.
  rewrite child_Dir (find_child_elem n _ x) // in Hc'. injection Hc' as ->.
  apply IH; [by eapply Hsub|done..].
Qed.

Lemma tree_owner_update t path f c :
  subtree t path = Some c → tree_owner (f c) = tree_owner c →
  tree_owner (update t path f) = tree_owner t.
Proof.
  destruct path as [|n path]; cbn; [by intros [= ->]|].
  intros (c' & Hc' & _)%bind_Some _. by apply child_is_Dir in Hc' as (b & o & chunks & ->).
Qed.

Lemma subtree_update_prefix t p k f c :
  subtree t (p ++ k) = Some c →
  ∃ c', subtree t p = Some c' ∧ subtree c' k = Some c ∧
    subtree (update t (p ++ k) f) p = Some (update c' k f).
Proof.
  revert t. induction p as [|n p IH]; intros t; cbn; [by eauto|].
  intros (c' & Hc' & Hs)%bind_Some.
  pose proof (child_is_Dir _ _ _ Hc') as (b & o & chunks & ->).
  rewrite child_update_chunks_eq Hc'. cbn. by apply IH.
Qed.

Lemma walk_update user t path f c :
  walk user t path true = Some c → tree_owner (f c) = tree_owner c →
  walk user (update t path f) path true = Some (f c).
Proof.
  rewrite !walk_iff. intros [Hs Ho] Hf. split.
  - rewrite -{2}(app_nil_r path). by rewrite (subtree_update_below _ _ _ _ _ Hs).
  - intros p [k ->] Hne. destruct (subtree_update_prefix t p k f c Hs) as (c' & Hc' & Hk & Hup).
    exists (update c' k f). split; [done|]. rewrite (tree_owner_update _ _ _ _ Hk Hf).
    destruct (Ho p) as (c'' & Hc'' & Hu); [by apply prefix_app_r|done|]. congruence.
Qed.

Lemma put_slot_undo k j e chunks ck slots :
  chunks !! k = Some (ck, slots) → slots !! j = Some None →
  put_slot k j None (put_slot k j (Some e) chunks) = chunks.
Proof.
  intros Hk Hj. unfold put_slot. apply list_eq. intros i.
  destruct (decide (i = k)) as [->|Hne].
  - rewrite !list_lookup_alter_eq Hk. cbn. rewrite list_insert_insert_eq list_insert_id //.
  - by rewrite !list_lookup_alter_ne.
Qed.

Lemma create_delete_undo s user path ty s' :
  fsys_ok s → spec_create user path ty s = (Some None, s') →
  ∃ s'', spec_delete user path s' = (Some None, s'') ∧ contents s'' = contents s ∧
    free s'' ≡ₚ free s.
Proof.
  intros Hok Hcreate. assert (fsys_ok s') as Hok'.
  { pose proof (fsys_ok_create s user path ty Hok) as Hok'. by rewrite Hcreate in Hok'. }
  destruct (last_snoc_cases path) as [->|(parent & name & Hpath & Hrem & Hlast)].
  { destruct s as [t fr]. by unfold spec_create in Hcreate. }
  destruct (walk user (contents s) parent true) as [[|b o chunks]|] eqn:Hw;
    [destruct s as [t fr]; unfold spec_create in Hcreate; cbn in Hw; by rewrite Hrem Hlast Hw in Hcreate|
    |destruct s as [t fr]; unfold spec_create in Hcreate; cbn in Hw; by rewrite Hrem Hlast Hw in Hcreate].
  rewrite (spec_create_child _ _ _ _ _ _ _ _ _ Hpath Hw) in Hcreate.
  apply walk_subtree in Hw as Hs. destruct s as [t fr]. cbn [contents free] in *.
  assert (shape (Dir b o chunks)) as (_ & Hne & _)%shape_Dir
    by (eapply shape_subtree; [apply Hok|done]).
  destruct (child (Dir b o chunks) name); [done|]. destruct fr as [|nb fr]; [done|].
  set (e := (name, new_node ty nb user)) in *.
  assert (removable user e.2 = true) as Hrm.
  { unfold removable, e, new_node. cbn [snd]. destruct (Ascii.eqb ty type_file); cbn [tree_owner];
      by rewrite String.eqb_refl. }
  assert (∀ chunks', walk user (update t parent (set_chunks chunks')) parent true
    = Some (Dir b o chunks')) as Hw' by (intros; by rewrite (walk_update _ _ _ _ _ Hw)).
  assert (∀ chunks', update (update t parent (set_chunks chunks')) parent (set_chunks chunks) = t) as Hun.
  { intros. eapply update_undo; [apply Hok|exact Hs|done]. }
  assert (data_blocks e.2 = []) as Hdata by (unfold e, new_node; by destruct (Ascii.eqb ty type_file)).
  destruct (first_free chunks) as [[k j]|] eqn:Hff.
  - injection Hcreate as <-.
    destruct (first_free_lookup _ _ _ Hff) as (ck & slots & Hk & Hj).
    eexists. split.
    + pose proof (fsys_ok_names _ _ _ _ _ _ Hok' (Hw' _)) as Hnd'.
      rewrite (spec_delete_at (mk_fsys _ fr) user path parent name b o (put_slot k j (Some e) chunks) k j ck
        (<[j := Some e]> slots) e.2 Hnd' Hpath (Hw' _)).
      * rewrite Hrm list_insert_insert_eq list_insert_id //.
        assert (forallb slot_unused slots = false) as ->; [|done].
        apply not_true_is_false. intros Hun'%slots_unused. rewrite Forall_lookup in Hne.
        by apply (Hne k (ck, slots)).
      * unfold put_slot. by rewrite list_lookup_alter_eq Hk.
      * apply list_lookup_insert_eq. by eapply lookup_lt_Some.
    + cbn [contents free]. rewrite (put_slot_undo _ _ _ _ _ _ Hk Hj) Hun Hdata.
      unfold e. cbn [snd]. rewrite root_block_new_node. split; [done|]. cbn. solve_Permutation.
  - destruct fr as [|db fr]; [done|].
    destruct (Z.of_nat (length chunks) =? FS_MAXFILEBLOCKS); [done|]. injection Hcreate as <-.
    eexists. split.
    + pose proof (fsys_ok_names _ _ _ _ _ _ Hok' (Hw' _)) as Hnd'.
      rewrite (spec_delete_at (mk_fsys _ fr) user path parent name b o (chunks ++ [new_chunk db e]) (length chunks) 0 db
        (new_chunk db e).2 e.2 Hnd' Hpath (Hw' _)).
      * by rewrite Hrm.
      * by rewrite list_lookup_middle.
      * done.
    + cbn [contents free]. rewrite delete_middle app_nil_r Hun Hdata.
      unfold e. cbn [snd]. rewrite root_block_new_node. split; [done|]. cbn. solve_Permutation.
Qed.

Section theorems.
Context {D M : Type} `{DiskLaws D} `{SharedMutexLaws M}.
Abbreviation state := (fs_state D M).

(** C7: every well-formed request, executed alone in a consistent state, ends
  without a fault and without waiting for a lock, with the result, the tree and
  the free list its specification gives; the new state is consistent, with every
  lock released, and after an error the disk and the tree are unchanged. *)
Theorem execute_request_refines junk req t (s : state) :
fs_inv t s → request_ok req → payload_ok req → inode_typed junk →
∃ r t' s', run (execute_request junk req) s = Done (r, s') ∧
  spec_request req (abs t s) = (r, abs t' s') ∧ fs_inv t' s' ∧
  (r ≠ Some None → disk s' = disk s ∧ t' = t).
Proof. apply execute_request_run. Qed.

(** A server that answers any number of requests one after the other gives
  the answers of the specification and stays consistent. *)
Theorem serve_refines reqs t (s : state) :
fs_inv t s → Forall call_ok reqs →
∃ rs t' s', serve reqs s = Done (rs, s') ∧
  spec_serve reqs.*2 (abs t s) = (rs, abs t' s') ∧ fs_inv t' s'.
Proof. apply serve_run. Qed.

(** A consistent state represents one tree only, the tree the disk stores. *)
Theorem abstraction_unique t1 t2 (s : state) : fs_inv t1 s → fs_inv t2 s → t1 = t2.
Proof.
intros [H1' Hok1 _] [H2' Hok2 _]. eapply stored_unique; [done..|].
by rewrite (proj1 (proj2 (proj2 Hok1))) (proj1 (proj2 (proj2 Hok2))).
Qed.

(** C11: [FS_READBLOCK] changes nothing, and gives a block exactly when the path
  leads, through directories the user owns, to a file of the user that has this
  block: then what was last written there. *)
Theorem read_correct req t (s : state) :
fs_inv t s → request_ok (Req_READBLOCK req) →
∃ r s', run (execute_READBLOCK req) s = Done (r, s') ∧ fs_inv t s' ∧
  disk s' = disk s ∧ free_disk_blocks s' = free_disk_blocks s ∧ r ≠ Some None ∧
  ∀ bs, r = Some (Some bs) ↔
    ∃ data, resolve t (rd_path req) = Some (VFile (rd_username req) data) ∧
      owned_along (rd_username req) t (rd_path req) ∧
      data !! Z.to_nat (rd_block req) = Some bs.
Proof.
intros Hinv Hreq. set (junk := decode_inode (replicate n_block NUL)).
destruct (execute_request_run junk (Req_READBLOCK req) t s Hinv Hreq I) as
  (r & t' & s' & Hrun & Hspec & Hinv' & Herr); [by apply inode_typed_decode|].
cbn [execute_request spec_request] in *. injection Hspec as Hr Ht Hf. cbn in Hr. subst r t'.
exists (spec_read (rd_username req) (rd_path req) (rd_block req) t), s'.
assert (spec_read (rd_username req) (rd_path req) (rd_block req) t ≠ Some None) as Hne
  by apply read_not_empty.
destruct (Herr Hne) as [Hd _]. split_and!; [done..|].
intros bs. apply (read_iff (abs t s)). by destruct Hinv.
Qed.

(** C10: [FS_WRITEBLOCK] succeeds exactly on a block of a file the user can reach
  and owns, or right after its last block while there is room; then the file has
  the new contents and no other path changes.  Otherwise nothing changes. *)
Theorem write_correct req t (s : state) :
fs_inv t s → request_ok (Req_WRITEBLOCK req) → payload_ok (Req_WRITEBLOCK req) →
∃ r t' s', run (execute_WRITEBLOCK req) s = Done (r, s') ∧ fs_inv t' s' ∧
  (r = Some None ∨ r = None ∧ disk s' = disk s ∧ t' = t) ∧
  (r = Some None ↔ ∃ data, resolve t (wr_path req) = Some (VFile (wr_username req) data) ∧
     owned_along (wr_username req) t (wr_path req) ∧
     (wr_block req < Z.of_nat (length data) ∨
      wr_block req = Z.of_nat (length data) ∧ wr_block req < FS_MAXFILEBLOCKS ∧
      free_disk_blocks s ≠ [])) ∧
  (r = Some None → ∃ data, resolve t (wr_path req) = Some (VFile (wr_username req) data) ∧
     ∀ q, resolve t' q =
       if decide (q = wr_path req)
       then Some (VFile (wr_username req) (written (wr_block req) (default [] (wr_data req)) data))
       else resolve t q).
Proof.
intros Hinv Hreq Hpay. set (junk := decode_inode (replicate n_block NUL)).
destruct (execute_request_run junk (Req_WRITEBLOCK req) t s Hinv Hreq Hpay) as
  (r & t' & s' & Hrun & Hspec & Hinv' & Herr); [by apply inode_typed_decode|].
cbn [execute_request spec_request] in *. exists r, t', s'.
assert (fsys_ok (abs t s)) as Hok by by destruct Hinv.
pose proof (write_iff (abs t s) (wr_username req) (wr_path req) (wr_block req)
  (default [] (wr_data req)) Hok) as Hiff. rewrite Hspec in Hiff. cbn [fst] in Hiff.
split; [done|]. split; [done|]. split; [|split].
- pose proof (spec_write_result (abs t s) (wr_username req) (wr_path req) (wr_block req)
    (default [] (wr_data req))) as Hres. rewrite Hspec in Hres. cbn in Hres.
  destruct Hres as [->| ->]; [right|by left]. by destruct (Herr ltac:(done)).
- apply Hiff. by destruct Hreq as (_ & _ & ? & _).
- intros ->. destruct (write_effect _ _ _ _ _ _ [] Hok Hspec) as (data & Hdata & _).
  exists data. split; [done|]. intros q.
  destruct (write_effect _ _ _ _ _ _ q Hok Hspec) as (data' & Hdata' & _ & Hq).
  rewrite Hdata in Hdata'. injection Hdata' as <-. exact Hq.
Qed.

(** C8: [FS_CREATE] succeeds exactly when the parent directory exists, can be
  reached by the user, has no entry of that name and has room; then the new file
  or directory is at the path, empty and owned by the user, and no other path
  changes.  Otherwise nothing changes. *)
Theorem create_correct junk req t (s : state) :
fs_inv t s → request_ok (Req_CREATE req) → inode_typed junk →
∃ r t' s', run (execute_CREATE junk req) s = Done (r, s') ∧ fs_inv t' s' ∧
  (r = Some None ∨ r = None ∧ disk s' = disk s ∧ t' = t) ∧
  (r = Some None ↔ ∃ parent name b o chunks, cr_path req = parent ++ [name] ∧
     owned_along (cr_username req) t parent ∧
     subtree t parent = Some (Dir b o chunks) ∧
     resolve t (cr_path req) = None ∧ room chunks (free_disk_blocks s)) ∧
  (r = Some None → ∀ q, resolve t' q =
     if decide (q = cr_path req) then Some (new_view (cr_type req) (cr_username req))
     else resolve t q).
Proof.
intros Hinv Hreq Hjunk.
destruct (execute_request_run junk (Req_CREATE req) t s Hinv Hreq I Hjunk) as
  (r & t' & s' & Hrun & Hspec & Hinv' & Herr).
cbn [execute_request spec_request] in *. exists r, t', s'.
assert (fsys_ok (abs t s)) as Hok by by destruct Hinv.
pose proof (create_iff (abs t s) (cr_username req) (cr_path req) (cr_type req)) as Hiff.
rewrite Hspec in Hiff. cbn [fst] in Hiff.
split; [done|]. split; [done|]. split; [|split; [done|]].
- pose proof (spec_create_result (abs t s) (cr_username req) (cr_path req) (cr_type req)) as Hres.
  rewrite Hspec in Hres. cbn in Hres.
  destruct Hres as [->| ->]; [right|by left]. by destruct (Herr ltac:(done)).
- intros -> q. by destruct (create_effect _ _ _ _ _ q Hok Hspec) as [_ Hq].
Qed.

(** C9: [FS_DELETE] succeeds exactly on a file, or a directory without entries,
  that the user can reach and owns; then nothing is left at the path and no other
  path changes.  Otherwise nothing changes. *)
Theorem delete_correct req t (s : state) :
fs_inv t s → request_ok (Req_DELETE req) →
∃ r t' s', run (execute_DELETE req) s = Done (r, s') ∧ fs_inv t' s' ∧
  (r = Some None ∨ r = None ∧ disk s' = disk s ∧ t' = t) ∧
  (r = Some None ↔ de_path req ≠ [] ∧ owned_along (de_username req) t (de_path req) ∧
     ((∃ data, resolve t (de_path req) = Some (VFile (de_username req) data)) ∨
      resolve t (de_path req) = Some (VDir (de_username req)) ∧
      ∀ n, resolve t (de_path req ++ [n]) = None)) ∧
  (r = Some None → ∀ q, resolve t' q =
     if decide (de_path req `prefix_of` q) then None else resolve t q).
Proof.
intros Hinv Hreq. set (junk := decode_inode (replicate n_block NUL)).
destruct (execute_request_run junk (Req_DELETE req) t s Hinv Hreq I) as
  (r & t' & s' & Hrun & Hspec & Hinv' & Herr); [by apply inode_typed_decode|].
cbn [execute_request spec_request] in *. exists r, t', s'.
assert (fsys_ok (abs t s)) as Hok by by destruct Hinv.
pose proof (delete_iff (abs t s) (de_username req) (de_path req) Hok) as Hiff.
rewrite Hspec in Hiff. cbn [fst] in Hiff.
split; [done|]. split; [done|]. split; [|split; [done|]].
- pose proof (spec_delete_result (abs t s) (de_username req) (de_path req)) as Hres.
  rewrite Hspec in Hres. cbn in Hres.
  destruct Hres as [->| ->]; [right|by left]. by destruct (Herr ltac:(done)).
- intros -> q. by destruct (delete_effect _ _ _ _ q Hok Hspec) as [_ Hq].
Qed.

(** C12: whatever a user requests, the files and directories of the other users
  stay as they are. *)
Theorem other_users_untouched junk req t (s : state) q v :
fs_inv t s → request_ok req → payload_ok req → inode_typed junk →
resolve t q = Some v → view_owner v ≠ req_username req →
∃ r t' s', run (execute_request junk req) s = Done (r, s') ∧ fs_inv t' s' ∧
  resolve t' q = Some v.
Proof.
intros Hinv Hreq Hpay Hjunk Hq Hv.
destruct (execute_request_run junk req t s Hinv Hreq Hpay Hjunk) as
  (r & t' & s' & Hrun & Hspec & Hinv' & _).
exists r, t', s'. split; [done|]. split; [done|].
eapply (spec_other_users _ _ _ _ _ _ (inv_ok _ _ Hinv) Hspec); done.
Qed.

(** C16: deleting what one has just created gives back the same tree and the same
  free blocks: no block leaks and none is freed twice. *)
Theorem create_delete_round_trip junk user path ty t (s : state) s1 :
fs_inv t s → request_ok (Req_CREATE (mk_CREATE user path ty)) → inode_typed junk →
run (execute_CREATE junk (mk_CREATE user path ty)) s = Done (Some None, s1) →
∃ s2, run (execute_DELETE (mk_DELETE user path)) s1 = Done (Some None, s2) ∧
  fs_inv t s2 ∧ free_disk_blocks s2 ≡ₚ free_disk_blocks s.
Proof.
intros Hinv Hreq Hjunk Hrun.
destruct (execute_request_run junk (Req_CREATE (mk_CREATE user path ty)) t s Hinv Hreq I Hjunk)
  as (r & t1 & s1' & Hrun' & Hspec & Hinv1 & _).
cbn [execute_request spec_request cr_username cr_path cr_type] in *.
rewrite Hrun in Hrun'. injection Hrun' as <- <-.
destruct (create_delete_undo _ _ _ _ _ (inv_ok _ _ Hinv) Hspec) as (s'' & Hdel & Hcont & Hfree).
assert (request_ok (Req_DELETE (mk_DELETE user path))) as Hreq2.
{ by destruct Hreq as (? & ? & _). }
destruct (execute_request_run junk (Req_DELETE (mk_DELETE user path)) t1 s1 Hinv1 Hreq2 I Hjunk)
  as (r2 & t2 & s2 & Hrun2 & Hspec2 & Hinv2 & _).
cbn [execute_request spec_request de_username de_path] in *.
rewrite Hdel in Hspec2. injection Hspec2 as <- ->. cbn in *. subst t2. by exists s2.
Qed.
End theorems.

(** ** The theorems at a concrete state *)

(** alice has made a directory with a file of one block. *)
Definition ex_calls : list (fs_inode * Request) :=
  [(ex_junk, Req_CREATE ex_mkdir); (ex_junk, Req_CREATE ex_create);
   (ex_junk, Req_WRITEBLOCK ex_write)].

Definition ex_state : fs_state mem_disk holders :=
  match serve ex_calls blank_state with
  | Done (_, s) => s
  | _ => blank_state
  end.

Definition ex_tree : tree := contents (spec_serve ex_calls.*2 (abs blank_tree blank_state)).2.

Lemma ex_calls_ok : Forall call_ok ex_calls.
Proof.
  repeat (apply Forall_cons; split;
    [split; [exact ex_junk_typed|split; cbn [snd]; by_decide]|]). apply Forall_nil_2.
Qed.

Lemma ex_inv : fs_inv ex_tree ex_state.
Proof.
  destruct (serve_run ex_calls blank_tree blank_state blank_inv ex_calls_ok)
    as (rs & t' & s' & Hserve & Hspec & Hinv).
  unfold ex_state, ex_tree. rewrite Hserve Hspec. exact Hinv.
Qed.

Lemma ex_resolve : resolve ex_tree ["docs"; "note"] = Some (VFile "alice" [ex_payload]).
Proof. vm_compute. reflexivity. Qed.

Lemma ex_owned : owned_along "alice" ex_tree ["docs"; "note"].
Proof.
  assert (is_Some (walk "alice" ex_tree ["docs"; "note"] true)) as [c Hc]
    by (vm_compute; by eexists).
  by apply walk_iff in Hc as [_ Ho].
Qed.

Lemma execute_request_refines_witness :
  ∃ r t' s', run (execute_request ex_junk (Req_DELETE ex_delete)) ex_state = Done (r, s') ∧
    fs_inv t' s'.
Proof.
  destruct (execute_request_refines ex_junk (Req_DELETE ex_delete) ex_tree ex_state)
    as (r & t' & s' & Hrun & _ & Hinv & _).
  - exact ex_inv.
  - by_decide.
  - exact I.
  - exact ex_junk_typed.
  - exists r, t', s'. split; assumption.
Defined.

Lemma serve_refines_witness :
  ∃ rs t' s', serve ex_calls blank_state = Done (rs, s') ∧ fs_inv t' s'.
Proof.
  destruct (serve_refines ex_calls blank_tree blank_state blank_inv ex_calls_ok)
    as (rs & t' & s' & Hrun & _ & Hinv).
  exists rs, t', s'. split; assumption.
Defined.

Lemma abstraction_unique_witness : ∃ t, fs_inv t ex_state ∧ t = ex_tree.
Proof.
  destruct (serve_run ex_calls blank_tree blank_state blank_inv ex_calls_ok)
    as (rs & t & s & Hserve & _ & Hinv).
  exists t. assert (fs_inv t ex_state) as Ht by (unfold ex_state; rewrite Hserve; exact Hinv).
  split; [exact Ht|]. exact (abstraction_unique t ex_tree ex_state Ht ex_inv).
Defined.

Lemma read_correct_witness :
  ∃ s', run (execute_READBLOCK ex_read) ex_state = Done (Some (Some ex_payload), s') ∧
    fs_inv ex_tree s'.
Proof.
  destruct (read_correct ex_read ex_tree ex_state) as (r & s' & Hrun & Hinv & _ & _ & _ & Hr).
  - exact ex_inv.
  - by_decide.
  - assert (r = Some (Some ex_payload)) as ->.
    + apply Hr. exists [ex_payload]. split; [exact ex_resolve|]. split; [exact ex_owned|done].
    + exists s'. split; assumption.
Defined.

Lemma write_correct_witness :
  ∃ t' s', run (execute_WRITEBLOCK ex_write) ex_state = Done (Some None, s') ∧ fs_inv t' s'.
Proof.
  destruct (write_correct ex_write ex_tree ex_state) as (r & t' & s' & Hrun & Hinv & _ & Hiff & _).
  - exact ex_inv.
  - by_decide.
  - reflexivity.
  - assert (r = Some None) as ->.
    + apply Hiff. exists [ex_payload]. split; [exact ex_resolve|]. split; [exact ex_owned|]. by left.
    + exists t', s'. split; assumption.
Defined.

Lemma create_correct_witness :
  ∃ r t' s', run (execute_CREATE ex_junk ex_mkdir) blank_state = Done (r, s') ∧ fs_inv t' s'.
Proof.
  destruct (create_correct ex_junk ex_mkdir blank_tree blank_state) as (r & t' & s' & Hrun & Hinv & _).
  - exact blank_inv.
  - by_decide.
  - exact ex_junk_typed.
  - exists r, t', s'. split; assumption.
Defined.

Lemma delete_correct_witness :
  ∃ t' s', run (execute_DELETE ex_delete) ex_state = Done (Some None, s') ∧
    resolve t' ["docs"; "note"] = None.
Proof.
  destruct (delete_correct ex_delete ex_tree ex_state) as (r & t' & s' & Hrun & Hinv & _ & Hiff & Heff).
  - exact ex_inv.
  - by_decide.
  - assert (r = Some None) as ->.
    + apply Hiff. split; [done|]. split; [exact ex_owned|]. left. eexists. exact ex_resolve.
    + exists t', s'. split; [exact Hrun|]. by rewrite Heff.
Defined.

Lemma other_users_untouched_witness :
  ∃ r t' s', run (execute_request ex_junk (Req_DELETE (mk_DELETE "bob" ["docs"; "note"]))) ex_state
      = Done (r, s') ∧
    resolve t' ["docs"; "note"] = Some (VFile "alice" [ex_payload]).
Proof.
  destruct (other_users_untouched ex_junk (Req_DELETE (mk_DELETE "bob" ["docs"; "note"])) ex_tree
    ex_state ["docs"; "note"] (VFile "alice" [ex_payload])) as (r & t' & s' & Hrun & _ & Hres).
  - exact ex_inv.
  - by_decide.
  - exact I.
  - exact ex_junk_typed.
  - exact ex_resolve.
  - discriminate.
  - exists r, t', s'. split; assumption.
Defined.

Lemma create_delete_round_trip_witness :
  ∃ s1 s2, run (execute_CREATE ex_junk ex_mkdir) blank_state = Done (Some None, s1) ∧
    run (execute_DELETE (mk_DELETE "alice" ["docs"])) s1 = Done (Some None, s2) ∧
    free_disk_blocks s2 ≡ₚ free_disk_blocks blank_state.
Proof.
  destruct (execute_request_run ex_junk (Req_CREATE ex_mkdir) blank_tree blank_state blank_inv)
    as (r & t1 & s1 & Hrun & Hspec & _); [by_decide|exact I|exact ex_junk_typed|].
  assert (r = Some None) as ->.
  { apply (f_equal fst) in Hspec. cbn [fst] in Hspec. rewrite -Hspec. vm_compute. reflexivity. }
  destruct (create_delete_round_trip ex_junk "alice" ["docs"] type_dir blank_tree blank_state s1)
    as (s2 & Hdel & _ & Hfree).
  - exact blank_inv.
  - by_decide.
  - exact ex_junk_typed.
  - exact Hrun.
  - exists s1, s2. split; [exact Hrun|]. split; assumption.
Defined.
