(* ===== verification/FsInit.v ===== *)
(** * Starting the server: [fs_init]

    The recursive traversal ends on every disk, and on a disk that stores a tree
    it computes exactly the blocks the tree does not use. *)

From stdpp Require Import fin_sets.
From S2P Require Import Prelude CStd Request FsTypes FsMonad FileSystem FsTree FsSpec FsLogic FsTraverse FsStored FsCorrect FsExample.

(** ** Termination on any disk *)

Section termination.
Context {D M : Type} `{DiskLaws D} `{SharedMutex M}.
Abbreviation state := (fs_state D M).

(** Block [b] of the disk, read as an inode, has a size past its array. *)
Definition oversized (d : D) (b : Z) : Prop :=
  valid_block b ∧ FS_MAXFILEBLOCKS < i_size (decode_inode (disk_read d b)).

(** The faults of the traversal of a disk that stores no tree. *)
Definition traverse_fault (d : D) (f : fault) : Prop :=
  f = DiskAssert ∨ f = AssertFailed ∨ f = OutOfBounds ∧ ∃ b, oversized d b.

(** [p] ends and leaves the disk as it was: with a result of [P], or with one of
    these faults. *)
Definition ends {A} (p : prog A) (s : state) (P : A → state → Prop) : Prop :=
  match run p s with
  | Done (a, s') => disk s' = disk s ∧ P a s'
  | Wait => False
  | Crash f => traverse_fault (disk s) f
  end.

Lemma ends_bind {A B} (p : prog A) (k : A → prog B) s P :
  ends p s (λ a s', ends (k a) s' P) → ends (p ≫= k) s P.
Proof.
  unfold ends, mbind, prog_mbind. rewrite run_bind. destruct (run p s) as [[a s']| |]; [|done..].
  intros [Hd Hk]. rewrite Hd in Hk. by destruct (run (k a) s') as [[b s'']| |].
Qed.

Lemma ends_mono {A} (p : prog A) (s : state) (P Q : A → state → Prop) :
  ends p s P → (∀ a s', disk s' = disk s → P a s' → Q a s') → ends p s Q.
Proof. unfold ends. destruct (run p s) as [[a s']| |]; [|done..]. intros [Hd HP] HQ. eauto. Qed.

Lemma ends_ret {A} (a : A) (s : state) (P : A → state → Prop) : P a s → ends (mret a) s P.
Proof. by split. Qed.

Lemma ends_cases {A} (p : prog A) s P :
  ends p s P →
  (∃ a s', run p s = Done (a, s') ∧ disk s' = disk s ∧ P a s') ∨
  (∃ f, run p s = Crash f ∧ traverse_fault (disk s) f).
Proof. unfold ends. destruct (run p s) as [[a s']| |f]; [intros []; left; eauto|done|by right; eauto]. Qed.

(** An index below the size of an inode is in its array, or the size is past it. *)
Lemma ends_block_at b i s :
  valid_block b → 0 ≤ i < i_size (decode_inode (disk_read (disk s) b)) →
  ends (block_at (i_blocks (decode_inode (disk_read (disk s) b))) i) s (λ _ _, True).
Proof.
  intros Hb Hi. unfold block_at. destruct (i_blocks _ !! Z.to_nat i) as [x|] eqn:Hx; [done|].
  right. right. split; [done|]. exists b. split; [done|]. apply lookup_ge_None in Hx.
  destruct (inode_typed_decode _ (disk_read_length (disk s) b Hb)) as (_ & _ & Hl & _).
  rewrite Hl in Hx. unfold FS_MAXFILEBLOCKS. lia.
Qed.

Lemma ends_read_inode b (s : state) :
  ends (read_inode b) s (λ i _, valid_block b ∧ i = decode_inode (disk_read (disk s) b)).
Proof. unfold ends. cbn. case_decide; [done|by left]. Qed.

Lemma ends_read_direntries b (s : state) : ends (read_direntries b) s (λ _ _, True).
Proof. unfold ends. cbn. case_decide; [done|by left]. Qed.

Lemma ends_fold_blocks {St} d b (l : list Z) (st : St) body (Inv : St → Prop) s :
  disk s = d → valid_block b → (∀ i, i ∈ l → 0 ≤ i < i_size (decode_inode (disk_read d b))) →
  Inv st → (∀ x st s, disk s = d → Inv st → ends (body x st) s (λ st' _, Inv st')) →
  ends (fold_blocks (i_blocks (decode_inode (disk_read d b))) l st body) s (λ st' _, Inv st').
Proof.
  intros Hd Hb Hl Hst Hbody. revert st s Hst Hd.
  induction l as [|i l IH]; intros st s Hst Hd; [done|]. cbn.
  apply ends_bind. eapply ends_mono; [rewrite -Hd; apply ends_block_at; [done|]|].
  { rewrite Hd. apply Hl. by left. }
  intros x s' Hd' _. apply ends_bind. eapply ends_mono; [apply Hbody; [congruence|done]|].
  intros st' s'' Hd'' Hst'. apply IH; [|done|congruence]. intros j Hj. apply Hl. by right.
Qed.

Lemma ends_fold_entries {St} d es (st : St) body (Inv : St → Prop) s :
  disk s = d → Inv st → (∀ e st s, disk s = d → Inv st → ends (body e st) s (λ st' _, Inv st')) →
  ends (fold_entries es st body) s (λ st' _, Inv st').
Proof.
  intros Hd Hst Hbody. revert st s Hst Hd. induction es as [|e es IH]; intros st s Hst Hd; [done|]. cbn.
  apply ends_bind. eapply ends_mono; [by apply Hbody|]. intros st' s' Hd' Hst'. apply IH; congruence.
Qed.

(** The blocks that no inode or direntry was seen to use; block 0 is the root. *)
Definition nonroot_blocks : gset Z := list_to_set (seqZ 1 (FS_DISKSIZE - 1)).

Lemma elem_of_nonroot b : b ∈ nonroot_blocks ↔ valid_block b ∧ b ≠ 0.
Proof.
  unfold nonroot_blocks. rewrite elem_of_list_to_set elem_of_seqZ. unfold valid_block. lia.
Qed.

Definition unseen (used : gset Z) : nat := base.size (nonroot_blocks ∖ used).

Lemma unseen_mono u u' : u ⊆ u' → (unseen u' ≤ unseen u)%nat.
Proof.
  intros Hu. unfold unseen. apply subseteq_size. generalize nonroot_blocks. set_solver.
Qed.

Lemma unseen_use b u : valid_block b → b ≠ 0 → b ∉ u → (S (unseen ({[b]} ∪ u)) ≤ unseen u)%nat.
Proof.
  intros Hv Hnz Hb. unfold unseen. assert (b ∈ nonroot_blocks) as Hin by by apply elem_of_nonroot.
  generalize dependent nonroot_blocks. intros X Hin.
  assert (X ∖ u = {[b]} ∪ X ∖ ({[b]} ∪ u)) as ->.
  { apply set_eq. intros x. destruct (decide (x = b)); set_solver. }
  rewrite size_union; [|set_solver]. rewrite size_singleton. done.
Qed.

Lemma ends_use_block u b (s : state) : ends (use_block u b) s (λ u' _, (b ∉ u) ∧ u' = {[b]} ∪ u).
Proof. unfold use_block. case_decide; [by right; left|by apply ends_ret]. Qed.

(** A call on a block that can be read needs as much fuel as there are unseen
    blocks; on another block it fails at once. *)
Lemma helper_ends fuel : ∀ used b s,
  (valid_block b → 1 + unseen used < fuel)%nat → (0 < fuel)%nat →
  ends (initial_traverse_helper fuel used b) s (λ used' _, used ⊆ used').
Proof.
  induction fuel as [|fuel IH]; intros used b s Hfuel Hpos; [lia|]. clear Hpos.
  cbn [initial_traverse_helper]. apply ends_bind.
  eapply ends_mono; [apply ends_read_inode|]. intros i s1 Hd1 [Hb ->]. specialize (Hfuel Hb).
  set (d := disk s) in *.
  assert (∀ j, j ∈ seqZ 0 (i_size (decode_inode (disk_read d b))) →
    0 ≤ j < i_size (decode_inode (disk_read d b))) as Hidx by (intros j Hj%elem_of_seqZ; lia).
  apply ends_bind. eapply ends_mono.
  { apply (ends_fold_blocks d b _ _ _ (λ u, used ⊆ u)); [done..|]. intros b' u s' _ Hu.
    eapply ends_mono; [apply ends_use_block|]. intros u' s6 _ [_ ->]. set_solver. }
  intros u s2 Hd2 Hu. cbv beta. case_match; [by apply ends_ret|]. case_match; [|by right; left].
  apply (ends_fold_blocks d b _ _ _ (λ u, used ⊆ u)); [congruence|done..|]. intros b' u' s' Hd' Hu'.
  apply ends_bind. eapply ends_mono; [apply ends_read_direntries|]. intros es s3 Hd3 _.
  apply (ends_fold_entries d _ _ _ (λ u, used ⊆ u)); [congruence|done|]. intros e u2 s4 Hd4 Hu2.
  destruct (Z.eqb_spec (d_inode_block e) 0) as [|Hnz]; [by apply ends_ret|]. apply ends_bind.
  eapply ends_mono; [apply ends_use_block|]. intros u3 s5 Hd5 [Hnin ->].
  eapply ends_mono; [apply IH|].
  - intros Hv. pose proof (unseen_use _ _ Hv Hnz Hnin). pose proof (unseen_mono _ _ Hu2). lia.
  - lia.
  - intros u4 s6 _ Hu4. set_solver.
Qed.
End termination.

(** ** The blocks of a stored tree *)

Section blocks.
Context {D M : Type} `{DiskLaws D} `{SharedMutexLaws M}.
Abbreviation triple := (triple (D := D) (M := M)).

(** A loop over the blocks of an array; [Inv] knows those already visited. *)
Lemma fold_blocks_spec {St} d fr L arr (l : list Z) (st0 : St) body (Inv : list Z → St → Prop) :
  take (length l) arr = l → Inv [] st0 →
  (∀ k x st, l !! k = Some x → Inv (take k l) st →
     triple d fr L (body x st) (reads d fr L (Inv (take k l ++ [x])))) →
  triple d fr L (fold_blocks arr (seqZ 0 (Z.of_nat (length l))) st0 body)
    (reads d fr L (Inv l)).
Proof.
  intros Harr Hinit Hbody. unfold seqZ. rewrite Nat2Z.id.
  enough (∀ n k st, (k + n)%nat = length l → Inv (take k l) st →
    triple d fr L (fold_blocks arr ((λ i : nat, Z.add (Z.of_nat i) 0) <$> seq k n) st body)
      (reads d fr L (Inv l))) as Hgen by by apply (Hgen _ 0%nat).
  induction n as [|n IH]; intros k st Hk Hinv.
  - apply triple_ret. split_and!; [done..|].
    replace k with (length l) in Hinv by lia. by rewrite firstn_all in Hinv.
  - destruct (lookup_lt_is_Some_2 l k) as [x Hx]; [lia|]. cbn [seq fmap list_fmap fold_blocks].
    rewrite Z.add_0_r. eapply triple_block_at.
    { rewrite Nat2Z.id. rewrite -Harr in Hx. by apply lookup_take_Some in Hx as [? _]. }
    eapply triple_reads; [by apply (Hbody k)|]. intros st' Hst'. apply IH; [lia|].
    by rewrite (take_S_r _ _ _ Hx).
Qed.

Lemma fold_entries_spec {St} d fr L es (slots : list slot) (st0 : St) body
    (Inv : list slot → St → Prop) :
  Forall2 entry_is es slots → Inv [] st0 →
  (∀ pre e s st rest, slots = pre ++ s :: rest → entry_is e s → Inv pre st →
     triple d fr L (body e st) (reads d fr L (Inv (pre ++ [s])))) →
  triple d fr L (fold_entries es st0 body) (reads d fr L (Inv slots)).
Proof.
  intros Hes Hinit Hbody. enough (∀ pre rest es' st, slots = pre ++ rest →
    Forall2 entry_is es' rest → Inv pre st →
    triple d fr L (fold_entries es' st body) (reads d fr L (Inv slots))) as Hgen
    by by apply (Hgen [] slots).
  intros pre rest. revert pre. induction rest as [|s rest IH]; intros pre es' st Hsl Hes' Hinv;
    inversion Hes' as [|e ? es'' ? He Hes'']; subst es'; cbn [fold_entries].
  - apply triple_ret. rewrite Hsl app_nil_r. by split_and!.
  - eapply triple_reads; [by apply (Hbody pre e s st rest)|]. intros st' Hst'.
    apply (IH (pre ++ [s])); [|done|done]. by rewrite -app_assoc.
Qed.

Lemma use_block_spec d fr L u b :
  b ∉ u → triple d fr L (use_block u b) (reads d fr L (λ u', u' = {[b]} ∪ u)).
Proof.
  intros Hb. unfold use_block. case_decide; [done|]. apply triple_ret. by split_and!.
Qed.

(** The blocks below the root of the tree, as a set. *)
Definition below (t : tree) : list Z := tail (used t).

Lemma used_below t : used t = root_block t :: below t.
Proof. by destruct t. Qed.

Definition disjoint_from (l : list Z) (u : gset Z) : Prop := ∀ b, b ∈ l → b ∉ u.

(** Looping over blocks with no repetition adds them all. *)
Lemma use_blocks_spec d fr L arr l u :
  take (length l) arr = l → NoDup l → disjoint_from l u →
  triple d fr L (fold_blocks arr (seqZ 0 (Z.of_nat (length l))) u (λ b u, use_block u b))
    (reads d fr L (λ u', u' = u ∪ list_to_set l)).
Proof.
  intros Harr Hnd Hdisj.
  apply (fold_blocks_spec _ _ _ _ _ _ _ (λ l u', u' = u ∪ list_to_set l)); [done|set_solver|].
  intros k x st Hk ->. eapply triple_mono; [apply use_block_spec|].
  - apply list_elem_of_lookup_2 in Hk as Hx. apply not_elem_of_union. split; [by apply Hdisj|].
    rewrite elem_of_list_to_set. intros Hin.
    rewrite -(take_drop_middle _ _ _ Hk) in Hnd. apply NoDup_app in Hnd as (_ & Hnd & _).
    apply (Hnd x Hin). apply elem_of_cons. by left.
  - intros u' d' fr' L' (-> & -> & -> & ->). split_and!; [done..|].
    rewrite list_to_set_app_L. set_solver.
Qed.

(** The entries of part of a directory. *)
Abbreviation slots_used slots := (entries_used (omap id slots)).

Lemma slots_used_snoc slots n c :
  slots_used (slots ++ [Some (n, c)]) = slots_used slots ++ used c.
Proof.
  rewrite omap_app. unfold entries_used. cbn. rewrite !fmap_app concat_app. cbn. by rewrite app_nil_r.
Qed.

Lemma slots_used_none slots : slots_used (slots ++ [None]) = slots_used slots.
Proof. rewrite omap_app. cbn. by rewrite app_nil_r. Qed.

Lemma slots_used_cons n c slots : slots_used (Some (n, c) :: slots) = used c ++ slots_used slots.
Proof. done. Qed.

Lemma entries_used_app l1 l2 : entries_used (l1 ++ l2) = entries_used l1 ++ entries_used l2.
Proof. unfold entries_used. by rewrite !fmap_app concat_app. Qed.

(** The entries before a position of the directory, and the entry there. *)
Lemma chunk_entries_at chunks k x pre n c rest :
  chunks !! k = Some (x, pre ++ Some (n, c) :: rest) →
  chunk_entries chunks =
  (chunk_entries (take k chunks) ++ omap id pre) ++
  (n, c) :: (omap id rest ++ chunk_entries (drop (S k) chunks)).
Proof.
  intros Hk. rewrite -{1}(take_drop_middle _ _ _ Hk) chunk_entries_app chunk_entries_cons.
  rewrite omap_app -!app_assoc. done.
Qed.

(** What was visited before an entry is disjoint from the entry's blocks. *)
Lemma entry_fresh b o chunks k x pre n c rest u y :
  NoDup (used (Dir b o chunks)) → disjoint_from (below (Dir b o chunks)) u →
  chunks !! k = Some (x, pre ++ Some (n, c) :: rest) → y ∈ used c →
  y ∉ u ∪ list_to_set chunks.*1 ∪ list_to_set (entries_used (chunk_entries (take k chunks)))
        ∪ list_to_set (slots_used pre).
Proof.
  intros Hnd Hdisj Hk Hy. rewrite used_Dir in Hnd. apply NoDup_cons in Hnd as [_ Hnd].
  unfold disjoint_from, below in Hdisj. rewrite used_Dir in Hdisj. cbn [tail] in Hdisj.
  rewrite (chunk_entries_at _ _ _ _ _ _ _ Hk) in Hnd, Hdisj.
  rewrite !entries_used_app entries_used_cons in Hnd, Hdisj.
  apply NoDup_app in Hnd as (_ & Hnd1 & Hnd). apply NoDup_app in Hnd as (_ & Hnd2 & _).
  rewrite !not_elem_of_union !elem_of_list_to_set. split_and!.
  - apply Hdisj. rewrite !elem_of_app. tauto.
  - intros Hin. apply (Hnd1 _ Hin). rewrite !elem_of_app. tauto.
  - intros Hin. apply (Hnd2 y); [apply elem_of_app; by left|]. apply elem_of_app. by left.
  - intros Hin. apply (Hnd2 y); [apply elem_of_app; by right|]. apply elem_of_app. by left.
Qed.

(** One entry of a directory block. *)
Lemma entry_spec fuel b o chunks k x pre e sl rest u d fr L :
  let st := u ∪ list_to_set chunks.*1
              ∪ list_to_set (entries_used (chunk_entries (take k chunks))) in
  sound d (Dir b o chunks) → disjoint_from (below (Dir b o chunks)) u →
  chunks !! k = Some (x, pre ++ sl :: rest) → entry_is e sl →
  (∀ n c, sl = Some (n, c) → ∀ u d fr L, sound d c → disjoint_from (below c) u →
     triple d fr L (initial_traverse_helper fuel u (root_block c))
       (reads d fr L (λ u', u' = u ∪ list_to_set (below c)))) →
  triple d fr L
    (if d_inode_block e =? 0 then mret (st ∪ list_to_set (slots_used pre))
     else
       used' ← use_block (st ∪ list_to_set (slots_used pre)) (d_inode_block e);
       initial_traverse_helper fuel used' (d_inode_block e))
    (reads d fr L (λ u', u' = st ∪ list_to_set (slots_used (pre ++ [sl])))).
Proof.
  intros st Hs Hdisj Hk He Hcall. destruct sl as [[n c]|]; cbn in He.
  - destruct He as (-> & Hnz & _). rewrite (proj2 (Z.eqb_neq _ _) Hnz).
    pose proof (sound_NoDup _ _ Hs) as Hnd.
    pose proof (λ y, entry_fresh b o chunks k x pre n c rest u y Hnd Hdisj Hk) as Hfresh.
    fold st in Hfresh. rewrite used_below in Hfresh.
    eapply triple_reads; [apply use_block_spec, Hfresh, elem_of_cons; by left|]. intros u' ->.
    assert (sound d c) as Hc.
    { eapply (sound_child _ _ n); [exact Hs|]. cbn [children].
      rewrite (chunk_entries_at _ _ _ _ _ _ _ Hk). rewrite !elem_of_app !elem_of_cons. tauto. }
    eapply triple_mono; [apply (Hcall _ _ eq_refl); [done|]|].
    + intros y Hy [Heq%elem_of_singleton|Hin]%elem_of_union.
      * subst y. pose proof (sound_NoDup _ _ Hc) as Hndc. rewrite used_below in Hndc.
        by apply NoDup_cons in Hndc as [? _].
      * eapply Hfresh; [|exact Hin]. apply elem_of_cons. by right.
    + intros u' d' fr' L' (-> & -> & -> & ->). split_and!; [done..|].
      rewrite slots_used_snoc used_below list_to_set_app_L. cbn. set_solver.
  - rewrite He. apply triple_ret. split_and!; [done..|]. by rewrite slots_used_none.
Qed.

Lemma helper_spec t : ∀ fuel u d fr L,
  (length (used t) ≤ fuel)%nat → sound d t → disjoint_from (below t) u →
  triple d fr L (initial_traverse_helper fuel u (root_block t))
    (reads d fr L (λ u', u' = u ∪ list_to_set (below t))).
Proof.
  induction t as [b o data|b o chunks IH] using tree_children_ind; intros fuel u d fr L Hfuel Hs Hdisj;
    (destruct fuel as [|fuel]; [cbn in Hfuel; lia|]); cbn [initial_traverse_helper root_block];
    (apply triple_read_inode; [by apply (sound_root_valid _ _ Hs)|]);
    destruct (all_nodes_here _ _ (sound_stored _ _ Hs)) as [(Hty & _ & -> & Ht) Hch];
    pose proof (sound_NoDup _ _ Hs) as [_ Hnd]%NoDup_cons; rewrite Hty.
  - eapply triple_reads; [by apply use_blocks_spec|]. intros u' ->. by apply triple_ret.
  - apply NoDup_app in Hnd as (Hndb & _ & _).
    eapply triple_reads; [apply use_blocks_spec; [done|done|]|].
    { intros x Hx. apply Hdisj. unfold below. rewrite used_Dir. apply elem_of_app. by left. }
    intros u' ->. cbn [Ascii.eqb]. change (Ascii.eqb type_dir type_file) with false.
    change (Ascii.eqb type_dir type_dir) with true. cbv iota.
    eapply triple_mono; [apply (fold_blocks_spec _ _ _ _ _ _ _ (λ l st, st = u ∪ list_to_set chunks.*1
      ∪ list_to_set (entries_used (chunk_entries (take (length l) chunks))))); [done|symmetry; apply (right_id_L ∅ (∪))|]|].
    + intros k x st Hk ->. rewrite list_lookup_fmap in Hk.
      apply fmap_Some in Hk as ([x' slots] & Hk & ->). cbn [fst].
      rewrite length_take_le; [|rewrite length_fmap; apply lookup_lt_Some in Hk; lia].
      destruct (sound_dir _ _ _ _ Hs) as [Hdir _].
      destruct (dir_at_block _ _ _ _ _ _ Hdir Hk) as (_ & Hv & Hchk). cbn [fst] in Hv.
      apply triple_read_direntries; [done|].
      eapply triple_mono; [apply (fold_entries_spec _ _ _ _ slots _ _ (λ pre st,
        st = u ∪ list_to_set chunks.*1 ∪ list_to_set (entries_used (chunk_entries (take k chunks)))
          ∪ list_to_set (slots_used pre))); [exact Hchk|symmetry; apply (right_id_L ∅ (∪))|]|].
      * intros pre e sl st rest -> He ->. eapply entry_spec; [exact Hs|done|exact Hk|done|].
        intros n c -> u' d' fr' L' Hc Hd'.
        assert ((n, c) ∈ chunk_entries chunks) as Hin.
        { rewrite (chunk_entries_at _ _ _ _ _ _ _ Hk). rewrite !elem_of_app !elem_of_cons. tauto. }
        apply (IH n); [done| |done|done]. rewrite used_Dir in Hfuel.
        apply list_elem_of_split in Hin as (l1 & l2 & Hl). rewrite Hl in Hfuel.
        rewrite entries_used_app entries_used_cons /= !length_app in Hfuel. lia.
      * intros u' d' fr' L' (-> & -> & -> & ->). split_and!; [done..|].
        rewrite length_app length_take_le; [|rewrite length_fmap; apply lookup_lt_Some in Hk; lia].
        cbn [length]. rewrite Nat.add_1_r (chunk_names _ _ _ _ Hk) entries_used_app list_to_set_app_L.
        by rewrite (assoc_L (∪)).
    + intros u' d' fr' L' (-> & -> & -> & ->). split_and!; [done..|].
      unfold below. rewrite used_Dir length_fmap firstn_all. cbn [tail].
      rewrite list_to_set_app_L. by rewrite (assoc_L (∪)).
Qed.
End blocks.

(** ** The free list *)

(** A disk that holds a file system: a tree with every block used once. *)
Record formatted {D} `{Disk D} (d : D) (t : tree) : Prop := {
  formatted_stored : stored d t;
  formatted_shape : shape t;
  formatted_dir : is_dir t = true;
  formatted_root : root_block t = 0;
  formatted_once : NoDup (used t);
  formatted_valid : Forall valid_block (used t) }.

Definition unused_blocks (t : tree) : list Z :=
  filter (λ i, i ∉ (list_to_set (below t) : gset Z)) (seqZ 1 (FS_DISKSIZE - 1)).

Lemma used_unused_perm t :
  root_block t = 0 → NoDup (used t) → Forall valid_block (used t) →
  used t ++ unused_blocks t ≡ₚ seqZ 0 FS_DISKSIZE.
Proof.
  intros Hroot Hnd Hv. unfold unused_blocks. rewrite Forall_forall in Hv.
  assert (∀ x, x ∈ used t ↔ x = 0 ∨ x ∈ below t) as Hused.
  { intros x. rewrite used_below Hroot. apply elem_of_cons. }
  apply NoDup_Permutation.
  - apply NoDup_app. split_and!; [done| |apply NoDup_filter, NoDup_seqZ].
    intros x Hx [Hn Hs]%list_elem_of_filter. apply Hused in Hx as [->|Hx].
    + apply elem_of_seqZ in Hs. lia.
    + apply Hn. by apply elem_of_list_to_set.
  - apply NoDup_seqZ.
  - intros x. rewrite elem_of_app list_elem_of_filter elem_of_list_to_set !elem_of_seqZ.
    split.
    + intros [Hx%Hv|[_ Hs]]; [|unfold FS_DISKSIZE in *; lia]. unfold valid_block in Hx. lia.
    + intros Hx. destruct (decide (x ∈ used t)) as [|Hn]; [by left|right].
      rewrite Hused in Hn. split; [tauto|]. unfold FS_DISKSIZE in *. lia.
Qed.

Section fs_init.
Context {D M : Type} `{DiskLaws D} `{SharedMutexLaws M}.
Abbreviation state := (fs_state D M).

Lemma formatted_sound (d : D) t : formatted d t → sound d t.
Proof. by intros []. Qed.

Lemma triple_free_last {X} d fr L (f : list Z → X * list Z) Q :
  Q (f fr).1 d (f fr).2 L → triple (D := D) (M := M) d fr L (with_free_list f) Q.
Proof.
  intros HQ s [Hd Hf HL]. eapply wp_exec with (x := (f fr).1) (s' := set_free (f fr).2 s).
  - cbn. rewrite Hf. by destruct (f fr).
  - exists d, (f fr).2, L. split; [by split|done].
Qed.

Lemma fs_init_triple d t fr L :
  formatted d t →
  triple (D := D) (M := M) d fr L fs_init
    (λ _ d' fr' L', d' = d ∧ L' = L ∧ fr' = fr ++ unused_blocks t).
Proof.
  intros Hf. unfold fs_init.
  assert (length (used t) ≤ traverse_fuel)%nat as Hlen.
  { pose proof (used_unused_perm t) as Hp. apply Permutation_length in Hp; [|by apply Hf..].
    rewrite length_app length_seqZ in Hp. unfold traverse_fuel, FS_DISKSIZE in *. lia. }
  rewrite -{1}(formatted_root _ _ Hf).
  eapply triple_reads; [apply helper_spec; [done|by apply formatted_sound|done]|].
  intros u ->. apply triple_free_last. cbn [fst snd]. split_and!; [done..|].
  unfold unused_blocks. f_equal. apply list_filter_iff. intros x. by rewrite (left_id_L ∅ (∪)).
Qed.

Lemma fs_init_fuel (s : state) : ends fs_init s (λ _ _, True).
Proof.
  unfold fs_init. apply ends_bind. eapply ends_mono.
  - apply helper_ends; [|by apply Nat.lt_0_succ]. intros _. unfold unseen.
    assert (nonroot_blocks ∖ ∅ = nonroot_blocks) as -> by apply difference_empty_L.
    unfold nonroot_blocks. rewrite size_list_to_set; [|apply NoDup_seqZ].
    rewrite length_seqZ. unfold traverse_fuel, FS_DISKSIZE. lia.
  - intros u s' _ _. unfold ends. cbn. done.
Qed.

(** C14: [fs_init] ends on every disk, whatever its blocks hold, and never writes:
    it ends in a result, in an assertion of the disk or of the traversal, or with
    an index out of range, which needs a block that read as an inode has a size of
    more than [FS_MAXFILEBLOCKS].  Its recursion is never deeper than the bound, and
    it never waits. *)
Theorem fs_init_terminates (s : state) :
  (∃ s', run fs_init s = Done (tt, s') ∧ disk s' = disk s) ∨
  run fs_init s = Crash DiskAssert ∨ run fs_init s = Crash AssertFailed ∨
  run fs_init s = Crash OutOfBounds ∧
    ∃ b, valid_block b ∧ FS_MAXFILEBLOCKS < i_size (decode_inode (disk_read (disk s) b)).
Proof.
  destruct (ends_cases _ _ _ (fs_init_fuel s))
    as [([] & s' & Hrun & Hd & _)|(f & Hrun & [->|[->|[-> Hb]]])]; [left; by exists s'|by auto..].
Qed.

Lemma fs_init_run t (s : state) :
  formatted (disk s) t → free_disk_blocks s = [] → live (locks s) ∅ →
  ∃ s', run fs_init s = Done (tt, s') ∧ disk s' = disk s ∧ fs_inv t s'.
Proof.
  intros Hf Hfree HL.
  destruct (proj1 (wp_done _ _ _) (fs_init_triple (disk s) t [] ∅ Hf s ltac:(by split)))
    as ([] & s' & Hrun & d' & fr' & L' & [Hd Hfr HL'] & -> & -> & ->).
  exists s'. split; [done|]. split; [done|]. split; [rewrite Hd; by destruct Hf| |exact HL'].
  rewrite Hfr. destruct Hf as [Hst Hsh Hdir Hroot Hnd Hv]. split; [done|].
  split; [done|]. split; [done|]. by apply used_unused_perm.
Qed.

(** C13: on a formatted disk, [fs_init] puts exactly the unused blocks into the
    free list, without writing to the disk: the server starts consistent. *)
Theorem fs_init_correct t (s : state) :
  formatted (disk s) t → free_disk_blocks s = [] → live (locks s) ∅ →
  ∃ s', run fs_init s = Done (tt, s') ∧ disk s' = disk s ∧ fs_inv t s'.
Proof. apply fs_init_run. Qed.

(** C21: [check_disk_blocks_synced], the self-check the handlers run under
    [strong_asserts], passes in every consistent state, but calls [fs_init] again,
    which appends to the free list: afterwards every free block is in it twice,
    and the state is no longer consistent. *)
Theorem check_disk_blocks_synced_duplicates t (s : state) :
  fs_inv t s →
  ∃ s', run check_disk_blocks_synced s = Done (tt, s') ∧ disk s' = disk s ∧
    free_disk_blocks s' ≡ₚ free_disk_blocks s ++ free_disk_blocks s ∧
    (free_disk_blocks s ≠ [] → ∀ t', ¬ fs_inv t' s').
Proof.
  intros [Hst Hok HL]. pose proof Hok as (Hsh & Hdir & Hroot & Hp). cbn in Hsh, Hdir, Hroot, Hp.
  pose proof (fsys_ok_NoDup _ Hok) as Hnd. pose proof (fsys_ok_valid _ Hok) as Hv. cbn in Hnd, Hv.
  assert (formatted (disk s) t) as Hf.
  { split; [done..| |]; [by apply NoDup_app in Hnd as (? & _ & _)|by apply Forall_app in Hv as [? _]]. }
  assert (unused_blocks t ≡ₚ free_disk_blocks s) as Hun.
  { apply (Permutation_app_inv_l (used t)). rewrite Hp. apply used_unused_perm; apply Hf. }
  assert (triple (D := D) (M := M) (disk s) (free_disk_blocks s) ∅ check_disk_blocks_synced
    (λ _ d' fr' L', d' = disk s ∧ fr' = free_disk_blocks s ++ unused_blocks t)) as Ht.
  { apply triple_free. cbn [fst snd]. eapply triple_bind; [by apply fs_init_triple|].
    intros [] d' fr' L' (-> & -> & ->). apply triple_free. cbn [fst snd].
    rewrite decide_True; [by apply triple_ret|]. apply set_eq. intros x.
    rewrite !elem_of_list_to_set elem_of_app Hun. tauto. }
  destruct (proj1 (wp_done _ _ _) (Ht s ltac:(by split)))
    as ([] & s' & Hrun & d' & fr' & L' & [Hd Hfr HL'] & -> & ->).
  exists s'. split; [done|]. split; [done|]. rewrite Hfr Hun. split; [done|].
  intros Hne t' [_ Hok' _]. apply fsys_ok_NoDup in Hok'. cbn in Hok'. rewrite Hfr Hun in Hok'.
  apply NoDup_app in Hok' as (_ & _ & Hdup). apply NoDup_app in Hdup as (_ & Hdup & _).
  destruct (free_disk_blocks s) as [|b l]; [done|]. apply (Hdup b); apply elem_of_cons; by left.
Qed.
End fs_init.

Lemma blank_formatted : formatted blank_disk blank_tree.
Proof.
  split; [exact blank_stored|apply (proj1 (empty_fsys_ok ""))|done|done|apply NoDup_singleton|].
  apply Forall_singleton, valid_block_0.
Qed.

Lemma fs_init_correct_witness :
  ∃ s', run fs_init (mk_fs blank_disk [] no_locks) = Done (tt, s') ∧ fs_inv blank_tree s'.
Proof.
  destruct (fs_init_correct blank_tree (mk_fs blank_disk [] no_locks)) as (s' & Hrun & _ & Hinv).
  - exact blank_formatted.
  - reflexivity.
  - exact no_locks_live.
  - exists s'. split; assumption.
Defined.

Lemma fs_init_terminates_witness :
  ∃ s', run fs_init (mk_fs blank_disk [] no_locks) = Done (tt, s') ∧ disk s' = blank_disk.
Proof.
  destruct (fs_init_run blank_tree (mk_fs blank_disk [] no_locks) blank_formatted eq_refl no_locks_live)
    as (s0 & Hrun & _).
  destruct (fs_init_terminates (mk_fs blank_disk [] no_locks)) as [H|H]; [exact H|].
  rewrite Hrun in H. destruct H as [H|[H|[H _]]]; discriminate H.
Defined.

Lemma check_disk_blocks_synced_duplicates_witness :
  ∃ s', run check_disk_blocks_synced blank_state = Done (tt, s') ∧ ∀ t', ¬ fs_inv t' s'.
Proof.
  destruct (check_disk_blocks_synced_duplicates blank_tree blank_state blank_inv)
    as (s' & Hrun & _ & _ & Hbad).
  exists s'. split; [exact Hrun|]. apply Hbad. discriminate.
Defined.
