(* ===== verification/FsFace.v ===== *)
(** * What one node of the tree looks like

    A thread of the server that holds the lock of a node knows the node itself,
    not what is below it: the inode, the data of a file, the names and blocks of
    the entries of a directory.  [face_of] is that part of a tree; changes below a
    node or beside it leave its face as it is.  [cross] is the part of [walk] that
    a thread has behind it when it takes the lock of a node. *)

From S2P Require Import Prelude CStd Request FsTypes FsTree FsSpec.

Inductive face :=
  | FFile (blk : Z) (owner : string) (data : list (Z * bytes))
  | FDir (blk : Z) (owner : string) (chunks : list (Z * list (option (string * Z)))).

Definition slot_face (s : slot) : option (string * Z) := prod_map id root_block <$> s.
Definition chunk_face (c : chunk) : Z * list (option (string * Z)) := (c.1, slot_face <$> c.2).

Definition face_of (t : tree) : face :=
  match t with
  | File b o data => FFile b o data
  | Dir b o chunks => FDir b o (chunk_face <$> chunks)
  end.

(** A file, or a directory without entries: what can be deleted. *)
Definition is_leaf (t : tree) : bool :=
  match t with
  | File _ _ _ => true
  | Dir _ _ chunks => match chunks with [] => true | _ => false end
  end.

(** ** What the face determines *)

Section face.
Context (c c' : tree) (Hface : face_of c = face_of c').

Lemma face_root : root_block c = root_block c'.
Proof using Hface. destruct c, c'; cbn in *; congruence. Qed.

Lemma face_owner : tree_owner c = tree_owner c'.
Proof using Hface. destruct c, c'; cbn in *; congruence. Qed.

Lemma face_dir : is_dir c = is_dir c'.
Proof using Hface. by destruct c, c'. Qed.

Lemma face_leaf : is_leaf c = is_leaf c'.
Proof using Hface.
  destruct c as [|b o chunks], c' as [|b' o' chunks']; cbn in *; try done.
  injection Hface as _ _ Heq. by destruct chunks, chunks'.
Qed.

Lemma face_is_leaf : is_leaf c = true → c = c'.
Proof using Hface.
  destruct c as [|b o [|]], c' as [|b' o' [|]]; cbn in *; try done; congruence.
Qed.

Lemma face_blocks : node_blocks c = node_blocks c'.
Proof using Hface.
  destruct c as [|b o chunks], c' as [|b' o' chunks']; cbn in *; [congruence|done..|].
  injection Hface as -> -> Heq. f_equal. apply (f_equal (fmap fst)) in Heq.
  by rewrite -!list_fmap_compose in Heq.
Qed.
End face.

Lemma face_chunk b o chunks b' o' chunks' k ck slots :
  face_of (Dir b o chunks) = face_of (Dir b' o' chunks') → chunks !! k = Some (ck, slots) →
  ∃ slots', chunks' !! k = Some (ck, slots') ∧ slot_face <$> slots = slot_face <$> slots'.
Proof.
  cbn. intros [= _ _ Heq] Hk. apply (f_equal (.!! k)) in Heq.
  rewrite !list_lookup_fmap Hk in Heq. cbn in Heq. symmetry in Heq.
  apply fmap_Some in Heq as ([ck' slots'] & -> & [= -> ->]). by exists slots'.
Qed.

Lemma face_slot (slots slots' : list slot) j s :
  slot_face <$> slots = slot_face <$> slots' → slots !! j = Some s →
  ∃ s', slots' !! j = Some s' ∧ slot_face s = slot_face s'.
Proof.
  intros Heq Hj. apply (f_equal (.!! j)) in Heq. rewrite !list_lookup_fmap Hj in Heq.
  cbn in Heq. symmetry in Heq. apply fmap_Some in Heq as (s' & -> & ->). by exists s'.
Qed.

Lemma chunk_entries_face (chunks : list chunk) :
  prod_map id root_block <$> chunk_entries chunks = omap id (concat (chunk_face <$> chunks).*2).
Proof.
  unfold chunk_entries. induction chunks as [|[b slots] chunks IH]; cbn; [done|].
  rewrite !omap_app fmap_app IH. f_equal. clear.
  induction slots as [|[[n c]|] slots IH]; cbn; [done|by rewrite IH|done].
Qed.

Lemma find_child_map name (l : list (string * tree)) :
  root_block <$> find_child name l =
  snd <$> find (λ p, String.eqb p.1 name) (prod_map id root_block <$> l).
Proof.
  unfold find_child. induction l as [|[n c] l IH]; [done|]. cbn.
  by destruct (String.eqb n name).
Qed.

Lemma face_child c c' name :
  face_of c = face_of c' → root_block <$> child c name = root_block <$> child c' name.
Proof.
  destruct c as [|b o chunks], c' as [|b' o' chunks']; cbn [face_of]; [done..|].
  intros [= _ _ Heq]. rewrite !child_Dir !find_child_map !chunk_entries_face. by rewrite Heq.
Qed.

Lemma face_child_Some c c' name cc :
  face_of c = face_of c' → child c name = Some cc →
  ∃ cc', child c' name = Some cc' ∧ root_block cc' = root_block cc.
Proof.
  intros Hf Hc. pose proof (face_child _ _ name Hf) as Heq. rewrite Hc in Heq. cbn in Heq.
  symmetry in Heq. apply fmap_Some in Heq as (cc' & -> & ->). by exists cc'.
Qed.

Lemma face_child_None c c' name :
  face_of c = face_of c' → child c name = None → child c' name = None.
Proof.
  intros Hf Hc. pose proof (face_child _ _ name Hf) as Heq. rewrite Hc in Heq. cbn in Heq.
  symmetry in Heq. by apply fmap_None in Heq.
Qed.

Lemma child_not_leaf c name cc : child c name = Some cc → is_leaf c = false.
Proof. by destruct c as [|b o [|]]. Qed.

Section stored_face.
Context {D : Type} `{Disk D}.

Lemma entry_is_face e s s' : slot_face s = slot_face s' → entry_is e s → entry_is e s'.
Proof. destruct s as [[n c]|], s' as [[n' c']|]; cbn; try done. by intros [= -> ->]. Qed.

Lemma node_stored_face (d : D) c c' :
  face_of c = face_of c' → node_stored d c → node_stored d c'.
Proof.
  destruct c as [b o data|b o chunks], c' as [b' o' data'|b' o' chunks']; cbn [face_of node_stored].
  - by intros [= -> -> ->].
  - done.
  - done.
  - intros Heq. pose proof (face_blocks (Dir b o chunks) (Dir b' o' chunks') Heq) as Hb.
    injection Heq as -> -> Heq. injection Hb as Hb. rewrite Hb. intros [Hi Hch]. split; [done|].
    rewrite !Forall_lookup in Hch |- *. intros k [ck slots] Hk.
    destruct (face_chunk b' o' chunks' b' o' chunks k ck slots) as (slots' & Hk' & Hs);
      [by cbn; rewrite Heq|done|].
    specialize (Hch _ _ Hk'). unfold chunk_is in *. cbn [fst snd] in *.
    rewrite !Forall2_lookup in Hch |- *. intros j. specialize (Hch j).
    apply (f_equal (.!! j)) in Hs. rewrite !list_lookup_fmap in Hs.
    destruct (slots !! j) as [s|], (slots' !! j) as [s'|]; cbn in Hs; try done.
    injection Hs as Hs. inversion Hch as [e ? He|]; subst. constructor. by eapply entry_is_face.
Qed.
End stored_face.

(** ** Different nodes have different blocks *)

Lemma node_blocks_used t b : b ∈ node_blocks t → b ∈ used t.
Proof. rewrite used_children elem_of_app. by left. Qed.

Lemma root_block_node t : root_block t ∈ node_blocks t.
Proof. destruct t; cbn; apply elem_of_cons; by left. Qed.

Lemma subtree_blocks_unique t p q c c' b :
  NoDup (used t) → subtree t p = Some c → subtree t q = Some c' →
  b ∈ node_blocks c → b ∈ node_blocks c' → p = q.
Proof.
  revert t q. induction p as [|n p IH]; intros t [|m q] Hnd; cbn [subtree]; [done|..].
  - intros [= ->] (x & Hx%child_elem & Hq)%bind_Some Hb Hb'. exfalso.
    eapply node_blocks_child_disjoint; [exact Hnd|exact Hx|exact Hb|].
    eapply subtree_used; [exact Hq|]. by apply node_blocks_used.
  - intros (x & Hx%child_elem & Hp)%bind_Some [= ->] Hb Hb'. exfalso.
    eapply node_blocks_child_disjoint; [exact Hnd|exact Hx|exact Hb'|].
    eapply subtree_used; [exact Hp|]. by apply node_blocks_used.
  - intros (x & Hx & Hp)%bind_Some (y & Hy & Hq)%bind_Some Hb Hb'.
    destruct (decide (n = m)) as [->|Hne].
    + rewrite Hx in Hy. injection Hy as <-. f_equal. eapply IH; [|done..].
      eapply used_child_NoDup; [done|by apply child_elem].
    + exfalso. eapply (used_children_disjoint t n x m y b); [done|by apply child_elem..|done| |].
      * eapply subtree_used; [exact Hp|]. by apply node_blocks_used.
      * eapply subtree_used; [exact Hq|]. by apply node_blocks_used.
Qed.

Lemma subtree_root_unique t p q c c' :
  NoDup (used t) → subtree t p = Some c → subtree t q = Some c' →
  root_block c = root_block c' → p = q.
Proof.
  intros Hnd Hp Hq Heq. eapply subtree_blocks_unique; [done..|apply root_block_node|].
  rewrite Heq. apply root_block_node.
Qed.

(** ** The way behind a thread *)

(** [walk] without the check of the node at the end. *)
Fixpoint cross (user : string) (t : tree) (path : Path) (first : bool) : option tree :=
  match path with
  | [] => Some t
  | name :: path' =>
      if negb first && negb (String.eqb user (tree_owner t)) then None
      else c ← child t name; cross user c path' false
  end.

Definition first_of (path : Path) (first : bool) : bool :=
  match path with [] => first | _ => false end.

Lemma walk_cross user t p q first :
  walk user t (p ++ q) first = c ← cross user t p first; walk user c q (first_of p first).
Proof.
  revert t first. induction p as [|n p IH]; intros t first; cbn [app walk cross first_of]; [done|].
  destruct t as [b o data|b o chunks]; cbn [tree_owner]; [by case_match|].
  case_match; [done|]. destruct (child _ n) as [c|]; cbn; [|done]. rewrite IH. by destruct p.
Qed.

Lemma cross_snoc user t p name first :
  cross user t (p ++ [name]) first =
  c ← cross user t p first;
  if negb (first_of p first) && negb (String.eqb user (tree_owner c)) then None else child c name.
Proof.
  revert t first. induction p as [|n p IH]; intros t first; cbn [app cross first_of].
  - cbn. case_match; [done|]. by destruct (child t name).
  - case_match; [done|]. destruct (child t n) as [c|]; cbn; [|done]. rewrite IH.
    by destruct p.
Qed.

Lemma cross_subtree user t p first c : cross user t p first = Some c → subtree t p = Some c.
Proof.
  revert t first. induction p as [|n p IH]; intros t first; cbn [cross subtree]; [done|].
  case_match; [done|]. intros (c' & -> & Hc)%bind_Some. cbn. by eapply IH.
Qed.

(** ** Faces under updates *)

Lemma face_update t name path f c x :
  shape t → child t name = Some c → subtree c path = Some x → root_block (f x) = root_block x →
  face_of (update t (name :: path) f) = face_of t.
Proof.
  intros Hsh Hc Hs Hf. pose proof (child_is_Dir _ _ _ Hc) as (b & o & chunks & ->).
  apply shape_Dir in Hsh as (Hnd & _ & _). rewrite child_Dir in Hc.
  cbn [update face_of]. f_equal. unfold update_chunks. change (map ?f ?l) with (f <$> l).
  rewrite -list_fmap_compose. apply list_fmap_ext. intros k [ck slots] Hk. cbn.
  unfold chunk_face. cbn. f_equal. change (map ?f ?l) with (f <$> l).
  rewrite -list_fmap_compose. apply list_fmap_ext. intros j [[n cc]|] Hj; cbn; [|done].
  destruct (String.eqb_spec n name) as [->|]; cbn; [|done]. do 2 f_equal.
  assert (cc = c) as ->.
  { assert (find_child name (chunk_entries chunks) = Some cc) as Hcc; [|congruence].
    apply find_child_elem; [done|]. apply elem_of_chunk_entries. exists ck, slots.
    split; by eapply list_elem_of_lookup_2. }
  by eapply root_block_update.
Qed.

(** The way to a node other than the one that changes, and its face, stay; below
    the changed node if it keeps the child on the way. *)
Lemma cross_update user t p g c q first x :
  shape t → subtree t p = Some c → root_block (g c) = root_block c →
  tree_owner (g c) = tree_owner c → cross user t q first = Some x → q ≠ p →
  (∀ n q' y, q = p ++ n :: q' → child c n = Some y → child (g c) n = Some y) →
  ∃ x', cross user (update t p g) q first = Some x' ∧ face_of x' = face_of x.
Proof.
  intros Hsh Hs Hr Ho. revert t q first Hsh Hs.
  induction p as [|m p IH]; intros t q first Hsh; cbn [subtree update].
  - intros [= ->]. destruct q as [|n q]; [done|]. cbn [cross]. rewrite Ho. intros Hq _ Hk.
    case_match; [done|]. apply bind_Some in Hq as (y & Hy & Hq). exists x.
    by rewrite (Hk n q y eq_refl Hy).
  - intros (c' & Hc' & Hs)%bind_Some Hq Hne Hk.
    pose proof (face_update t m p g c' c Hsh Hc' Hs Hr) as Hface.
    pose proof (child_is_Dir _ _ _ Hc') as (b & o & chunks & ->).
    destruct q as [|n q]; cbn [cross] in *; [injection Hq as <-; by eexists|].
    cbn [tree_owner] in *. destruct (negb first && negb (String.eqb user o)); [done|].
    apply bind_Some in Hq as (cn & Hcn & Hq). destruct (decide (n = m)) as [->|Hnm].
    + rewrite Hc' in Hcn. injection Hcn as <-. rewrite child_update_chunks_eq Hc'. cbn.
      apply IH; [|done..|congruence|].
      * eapply all_nodes_child; [exact Hsh|by apply child_elem].
      * intros n' q' y ->. by apply (Hk n' q').
    + rewrite child_update_chunks_ne //. rewrite Hcn. cbn. by exists x.
Qed.

Lemma cross_update_here user t p g c first :
  cross user t p first = Some c → cross user (update t p g) p first = Some (g c).
Proof.
  revert t first. induction p as [|m p IH]; intros t first; cbn [cross update].
  - by intros [= ->].
  - case_match; [done|]. intros (c' & Hc' & Hs)%bind_Some.
    pose proof (child_is_Dir _ _ _ Hc') as (b & o & chunks & ->). cbn [tree_owner] in *.
    rewrite H child_update_chunks_eq Hc'. cbn. by apply IH.
Qed.

Lemma is_dir_update t p g c :
  subtree t p = Some c → is_dir (g c) = is_dir c → is_dir (update t p g) = is_dir t.
Proof.
  destruct p as [|n p]; cbn [subtree update]; [by intros [= ->]|].
  intros (c' & Hc' & _)%bind_Some _. by apply child_is_Dir in Hc' as (b & o & chunks & ->).
Qed.
