(* ===== verification/FsTable.v ===== *)
(** * The table of locks, shared by threads

    [table_ok T P H]: the table [T] when [P l] pointers to the lock [l] exist and
    [H l m] of their owners hold it in mode [m].  Each operation of the handlers
    on the table keeps it for the new counts; a thread waits only for another
    holder. *)

From S2P Require Import Prelude CStd Request FsTypes FsMonad.

(** The holders of a lock, against the numbers of holds in each mode. *)
Definition holders_are (h : holders) (H : lock_mode → nat) : Prop :=
  n_shared h = H Shared ∧ H Upgradable = Nat.b2n (upgradable h) ∧
  H Exclusive = Nat.b2n (exclusive h) ∧
  (exclusive h = true → H Shared = 0%nat ∧ H Upgradable = 0%nat).

Lemma holders_are_nobody h H : holders_are h H → (∀ m, H m = 0%nat) → h = nobody.
Proof.
  destruct h as [n u e]. intros (Hn & Hu & He & _) H0. cbn in *. rewrite !H0 in Hn, Hu, He.
  by destruct u, e; subst.
Qed.

Lemma holders_are_zero h H : holders_are h H → h = nobody → ∀ m, H m = 0%nat.
Proof. intros (Hn & Hu & He & _) ->. cbn in *. by intros []. Qed.

Lemma holders_are_some h H : holders_are h H → h ≠ nobody → ∃ m, H m ≠ 0%nat.
Proof.
  intros HH Hne. destruct (decide (H Shared = 0%nat)); [|by exists Shared].
  destruct (decide (H Upgradable = 0%nat)); [|by exists Upgradable].
  destruct (decide (H Exclusive = 0%nat)); [|by exists Exclusive].
  destruct Hne. apply (holders_are_nobody _ H); [done|]. by intros [].
Qed.

Lemma holders_are_holds h H m : holders_are h H → holds m h = true ↔ H m ≠ 0%nat.
Proof.
  intros (Hn & Hu & He & _). destruct m; unfold holds.
  - rewrite Nat.ltb_lt Hn. lia.
  - rewrite Hu. by destruct (upgradable h).
  - rewrite He. by destruct (exclusive h).
Qed.

Lemma holders_are_ext h H H' : holders_are h H → (∀ m, H' m = H m) → holders_are h H'.
Proof. unfold holders_are. intros HH Heq. by rewrite !Heq. Qed.

(** Arithmetic on counts that differ by one at a mode. *)
Ltac count := repeat case_decide; try congruence; cbn in *; try lia; try done.

Lemma holders_are_add h H H' m :
  holders_are h H → exclusive h = false → (m = Upgradable → upgradable h = false) →
  (m = Exclusive → h = nobody) →
  (∀ m', H' m' = (H m' + if decide (m' = m) then 1 else 0)%nat) →
  holders_are (holders_add m h) H'.
Proof.
  destruct h as [n u e]. intros (Hn & Hu & He & Hx) Hex Hup Hnb HH'. cbn in *. subst e.
  unfold holders_are. rewrite !HH'. destruct m; cbn in *.
  - split_and!; count.
  - rewrite (Hup eq_refl) in Hu |- *. split_and!; count.
  - injection (Hnb eq_refl) as -> ->. split_and!; count.
Qed.

Lemma holders_are_remove h H H' m :
  holders_are h H → H m ≠ 0%nat →
  (∀ m', H m' = (H' m' + if decide (m' = m) then 1 else 0)%nat) →
  holders_are (holders_remove m h) H'.
Proof.
  destruct h as [n u e]. intros (Hn & Hu & He & Hx) Hm HH'. cbn in *.
  pose proof (HH' Shared) as H1. pose proof (HH' Upgradable) as H2.
  pose proof (HH' Exclusive) as H3. unfold holders_are.
  destruct m; cbn in *.
  - split_and!; [count..|]. intros He'. destruct (Hx He'). count.
  - destruct u; [|count]. split_and!; [count..|]. intros He'. destruct (Hx He'). count.
  - destruct e; [|count]. destruct (Hx eq_refl). split_and!; count.
Qed.

Section table.
Context {M : Type} {SM : SharedMutex M} {SML : SharedMutexLaws M}.

Record table_ok (T : lock_table M) (P : lockref → nat) (H : lockref → lock_mode → nat) : Prop := {
  tb_live l n m : mutexes T !! l = Some (n, m) →
    n = P l ∧ n ≠ 0%nat ∧ holders_are (sm_holders m) (H l) ∧ (l < next_lock T)%nat;
  tb_dead l : mutexes T !! l = None → P l = 0%nat ∧ ∀ m, H l m = 0%nat;
  tb_data b l : data_locks T !! b = Some l → (l < next_lock T)%nat;
  tb_inj b b' l : data_locks T !! b = Some l → data_locks T !! b' = Some l → b = b' }.

Lemma table_ext T P H P' H' :
  table_ok T P H → (∀ l, P' l = P l) → (∀ l m, H' l m = H l m) → table_ok T P' H'.
Proof.
  intros [Hl Hd Hb Hi] HP HH. split; [| |done|done].
  - intros l n m Hm. rewrite HP. destruct (Hl _ _ _ Hm) as (? & ? & Hh & ?).
    split_and!; [done..| |done]. by eapply holders_are_ext.
  - intros l Hm. rewrite HP. destruct (Hd _ Hm) as [? HH0]. split; [done|]. intros m. by rewrite HH.
Qed.

(** A lock with a pointer to it is alive. *)
Lemma table_alive T P H l :
  table_ok T P H → P l ≠ 0%nat →
  ∃ m, mutexes T !! l = Some (P l, m) ∧ holders_are (sm_holders m) (H l).
Proof.
  intros HT HP. destruct (mutexes T !! l) as [[n m]|] eqn:Hm.
  - destruct (tb_live _ _ _ HT _ _ _ Hm) as (-> & _ & ? & _). by exists m.
  - destruct (tb_dead _ _ _ HT _ Hm) as [? _]. done.
Qed.

(** At most one thread holds a lock exclusively, and then alone. *)
Lemma table_exclusive T P H l :
  table_ok T P H → H l Exclusive ≠ 0%nat →
  H l Exclusive = 1%nat ∧ H l Shared = 0%nat ∧ H l Upgradable = 0%nat.
Proof.
  intros HT He. destruct (mutexes T !! l) as [[n m]|] eqn:Hm.
  - destruct (tb_live _ _ _ HT _ _ _ Hm) as (_ & _ & (_ & _ & Heq & Hx) & _).
    destruct (exclusive (sm_holders m)); [|done]. destruct (Hx eq_refl). done.
  - destruct (tb_dead _ _ _ HT _ Hm) as [_ HH]. by rewrite HH in He.
Qed.

Lemma table_upgradable T P H l : table_ok T P H → (H l Upgradable ≤ 1)%nat.
Proof.
  intros HT. destruct (mutexes T !! l) as [[n m]|] eqn:Hm.
  - destruct (tb_live _ _ _ HT _ _ _ Hm) as (_ & _ & (_ & -> & _) & _).
    by destruct (upgradable (sm_holders m)); cbn; lia.
  - destruct (tb_dead _ _ _ HT _ Hm) as [_ HH]. rewrite HH. lia.
Qed.

(** ** The operations *)

Lemma table_get T P H b l T' P' :
  table_ok T P H → get_lock_ptr_step b T = (l, T') →
  (∀ l', P' l' = (P l' + if decide (l' = l) then 1 else 0)%nat) →
  table_ok T' P' H ∧ data_locks T' !! b = Some l ∧
  (∀ b' l', P l' ≠ 0%nat → data_locks T !! b' = Some l' → data_locks T' !! b' = Some l') ∧
  (∀ b' l', P l' ≠ 0%nat → data_locks T' !! b' = Some l' →
     data_locks T !! b' = Some l').
Proof.
  intros HT Hg HP'. unfold get_lock_ptr_step in Hg. cbv zeta in Hg.
  assert ((l, T') = (next_lock T, mk_locks (<[b := next_lock T]> (data_locks T))
              (<[next_lock T := (1%nat, sm_init)]> (mutexes T)) (S (next_lock T))) ∧
          (∀ l', data_locks T !! b = Some l' → P l' = 0%nat) ∨
          ∃ n m, data_locks T !! b = Some l ∧ mutexes T !! l = Some (n, m) ∧
            T' = set_mutexes (<[l := (S n, m)]> (mutexes T)) T) as [[[= -> ->] Hexp]|Hold].
  { destruct (data_locks T !! b) as [l0|] eqn:Hb; [|left; by split; [|done]].
    destruct (mutexes T !! l0) as [[n m]|] eqn:Hm; injection Hg as <- <-.
    - right. by exists n, m.
    - left. split; [done|]. intros l' [= <-]. by apply (tb_dead _ _ _ HT). }
  - assert (mutexes T !! next_lock T = None) as Hfresh.
    { destruct (mutexes T !! next_lock T) as [[n m]|] eqn:Hm; [|done].
      destruct (tb_live _ _ _ HT _ _ _ Hm) as (_ & _ & _ & ?). lia. }
    destruct (tb_dead _ _ _ HT _ Hfresh) as [HP0 HH0].
    destruct HT as [Hl Hd Hb Hi]. split_and!; [split|..]; cbn.
    + intros l' n m. rewrite HP'. destruct (decide (l' = next_lock T)) as [->|Hne].
      * rewrite lookup_insert_eq. intros [= <- <-]. rewrite HP0. split_and!; [done..| |lia].
        rewrite sm_holders_init. unfold holders_are. by rewrite !HH0.
      * rewrite lookup_insert_ne //. intros (-> & ? & ? & ?)%Hl. split_and!; [lia..|done|lia].
    + intros l'. rewrite HP'. destruct (decide (l' = next_lock T)) as [->|Hne].
      * by rewrite lookup_insert_eq.
      * rewrite lookup_insert_ne //. intros [-> ?]%Hd. done.
    + intros b' l'. destruct (decide (b' = b)) as [->|Hne].
      * rewrite lookup_insert_eq. intros [= <-]. lia.
      * rewrite lookup_insert_ne //. intros ?%Hb. lia.
    + intros b1 b2 l'. destruct (decide (b1 = b)) as [->|Hn1], (decide (b2 = b)) as [->|Hn2];
        rewrite ?lookup_insert_eq ?lookup_insert_ne //.
      * intros [= <-] ?%Hb. lia.
      * intros Hb1 [= <-]. apply Hb in Hb1. lia.
      * apply Hi.
    + by rewrite lookup_insert_eq.
    + intros b' l' HPl Hb'. rewrite lookup_insert_ne //. intros <-. by rewrite Hexp in HPl.
    + intros b' l' HPl. destruct (decide (b' = b)) as [->|Hne].
      * rewrite lookup_insert_eq. intros [= <-]. congruence.
      * by rewrite lookup_insert_ne.
  - destruct Hold as (n & m & Hb & Hm & ->). destruct HT as [Hl Hd Hbl Hi].
    destruct (Hl _ _ _ Hm) as (-> & Hn & Hh & Hlt). split_and!; [split|..]; cbn; [|
      |done..].
    + intros l' n' m'. rewrite HP'. destruct (decide (l' = l)) as [->|Hne].
      * rewrite lookup_insert_eq. intros [= <- <-]. split_and!; [lia..|done|done].
      * rewrite lookup_insert_ne //. intros (-> & ? & ? & ?)%Hl. split_and!; [lia..|done|done].
    + intros l'. rewrite HP'. destruct (decide (l' = l)) as [->|Hne].
      * by rewrite lookup_insert_eq.
      * rewrite lookup_insert_ne //. intros [-> ?]%Hd. done.
Qed.

Lemma table_erase T P H b : table_ok T P H → table_ok (erase_lock_step b T) P H.
Proof.
  intros [Hl Hd Hb Hi]. split; cbn; [done|done|..].
  - intros b' l [_ ?]%lookup_delete_Some. by eapply Hb.
  - intros b1 b2 l [_ ?]%lookup_delete_Some [_ ?]%lookup_delete_Some. by eapply Hi.
Qed.

Lemma table_drop T P H l P' :
  table_ok T P H → (∀ l', P l' = (P' l' + if decide (l' = l) then 1 else 0)%nat) →
  (P' l = 0%nat → ∀ m, H l m = 0%nat) →
  ∃ T', drop_ptr_step l T = Done T' ∧ table_ok T' P' H ∧ data_locks T' = data_locks T.
Proof.
  intros HT HP' H0. pose proof (HP' l) as HPl. rewrite decide_True // in HPl.
  destruct (table_alive _ _ _ l HT) as (m & Hm & Hh); [lia|]. unfold drop_ptr_step. rewrite Hm HPl.
  rewrite Nat.add_1_r. destruct (P' l) as [|n] eqn:HPn.
  - rewrite decide_True; [|by apply (holders_are_nobody _ (H l)); auto].
    eexists. split_and!; [done| |done]. destruct HT as [Hl Hd Hb Hi]. split; cbn; [| |done|done].
    + intros l' n' m' [Hne Hm']%lookup_delete_Some. specialize (HP' l').
      rewrite decide_False // in HP'. destruct (Hl _ _ _ Hm') as (-> & ? & ? & ?).
      split_and!; [lia..|done|done].
    + intros l' [<-|Hm']%lookup_delete_None; [by auto|].
      destruct (Hd _ Hm') as [HP0 HH]. specialize (HP' l'). split; [lia|done].
  - eexists. split_and!; [done| |done]. destruct HT as [Hl Hd Hb Hi]. split; cbn; [| |done|done].
    + intros l' n' m'. specialize (HP' l'). destruct (decide (l' = l)) as [->|Hne].
      * rewrite lookup_insert_eq. intros [= <- <-]. split_and!; [lia..|done|]. by eapply Hl.
      * rewrite lookup_insert_ne //. intros (-> & ? & ? & ?)%Hl. split_and!; [lia..|done|done].
    + intros l'. specialize (HP' l'). destruct (decide (l' = l)) as [->|Hne].
      * by rewrite lookup_insert_eq.
      * rewrite lookup_insert_ne //. intros [? ?]%Hd. split; [lia|done].
Qed.

(** One mutex in a new state. *)
Lemma table_set T P H l m m' H' :
  table_ok T P H → mutexes T !! l = Some (P l, m) → holders_are (sm_holders m') (H' l) →
  (∀ l', l' ≠ l → ∀ k, H' l' k = H l' k) →
  table_ok (set_mutexes (<[l := (P l, m')]> (mutexes T)) T) P H'.
Proof.
  intros [Hl Hd Hb Hi] Hm Hh Hne. destruct (Hl _ _ _ Hm) as (_ & ? & _ & ?).
  split; cbn; [| |done|done].
  - intros l' n k. destruct (decide (l' = l)) as [->|Hll].
    + rewrite lookup_insert_eq. intros [= <- <-]. by split_and!.
    + rewrite lookup_insert_ne //. intros (-> & ? & ? & ?)%Hl. split_and!; [done..| |done].
      eapply holders_are_ext; [done|]. by apply Hne.
  - intros l'. destruct (decide (l' = l)) as [->|Hll]; [by rewrite lookup_insert_eq|].
    rewrite lookup_insert_ne //. intros [-> HH0]%Hd. split; [done|]. intros k. by rewrite Hne.
Qed.

(** What one more hold in mode [m] of [l] makes of the counts. *)
Definition one_more (l : lockref) (m : lock_mode) (H H' : lockref → lock_mode → nat) : Prop :=
  ∀ l' m', H' l' m' = (H l' m' + if decide (l' = l ∧ m' = m) then 1 else 0)%nat.

Lemma one_more_here l m H H' m' :
  one_more l m H H' → H' l m' = (H l m' + if decide (m' = m) then 1 else 0)%nat.
Proof. intros ->. repeat case_decide; naive_solver. Qed.

Lemma one_more_other l m H H' l' m' : one_more l m H H' → l' ≠ l → H' l' m' = H l' m'.
Proof. intros -> Hne. rewrite decide_False; [lia|naive_solver]. Qed.

Lemma table_lock T P H l m H' :
  table_ok T P H → P l ≠ 0%nat → one_more l m H H' →
  match on_mutex l (lock_step m) T with
  | Done T' => table_ok T' P H' ∧ data_locks T' = data_locks T
  | Wait => ∃ m', H l m' ≠ 0%nat
  | Crash _ => False
  end.
Proof.
  intros HT HP HH'. destruct (table_alive _ _ _ _ HT HP) as (x & Hx & Hh).
  unfold on_mutex, lock_step, or_wait. rewrite Hx. destruct (sm_lock m x) as [x'|] eqn:Hlock.
  - apply sm_lock_grants in Hlock as (Hx' & Hex & Hup & Hnb). split; [|done].
    eapply table_set; [exact HT|exact Hx| |].
    + rewrite Hx'. eapply holders_are_add; [done..|]. intros m'. by apply one_more_here.
    + intros l' Hne k. by eapply one_more_other.
  - apply (holders_are_some _ _ Hh). intros Hn.
    destruct (sm_lock_free m x Hn) as [x' Hx']. congruence.
Qed.

Lemma table_unlock T P H l m H' :
  table_ok T P H → one_more l m H' H → P l ≠ 0%nat →
  ∃ T', on_mutex l (unlock_step m) T = Done T' ∧ table_ok T' P H' ∧ data_locks T' = data_locks T.
Proof.
  intros HT HH HP. destruct (table_alive _ _ _ _ HT HP) as (x & Hx & Hh).
  assert (H l m ≠ 0%nat) as Hm by (rewrite (one_more_here _ _ _ _ m HH) decide_True //; lia).
  unfold on_mutex, unlock_step. rewrite Hx (proj2 (holders_are_holds _ _ _ Hh)) //.
  eexists. split_and!; [done| |done]. eapply table_set; [exact HT|exact Hx| |].
  - rewrite sm_unlock_holders. eapply holders_are_remove; [done..|].
    intros m'. by apply one_more_here.
  - intros l' Hne k. symmetry. by eapply one_more_other.
Qed.

Lemma table_upgrade T P H l H0 H' :
  table_ok T P H → P l ≠ 0%nat → one_more l Upgradable H0 H → one_more l Exclusive H0 H' →
  match on_mutex l upgrade_step T with
  | Done T' => table_ok T' P H' ∧ data_locks T' = data_locks T
  | Wait => H l Shared ≠ 0%nat
  | Crash _ => False
  end.
Proof.
  intros HT HP HU HE. destruct (table_alive _ _ _ _ HT HP) as (x & Hx & Hh).
  assert (∀ m, H l m = (H0 l m + if decide (m = Upgradable) then 1 else 0)%nat) as HUl
    by (intros; by apply one_more_here).
  assert (∀ m, H' l m = (H0 l m + if decide (m = Exclusive) then 1 else 0)%nat) as HEl
    by (intros; by apply one_more_here).
  pose proof (HUl Shared) as HS. pose proof (HUl Upgradable) as HG.
  pose proof (HUl Exclusive) as HX. pose proof (HEl Shared) as HS'.
  pose proof (HEl Upgradable) as HG'. pose proof (HEl Exclusive) as HX'.
  destruct Hh as (Hn & Hu & He & Hex). unfold on_mutex, upgrade_step, or_wait. rewrite Hx.
  destruct (upgradable (sm_holders x)) eqn:Hup; [|count].
  destruct (sm_upgrade x) as [x'|] eqn:Hupg.
  - apply sm_upgrade_grants in Hupg as [Hx' Hfrom]. split; [|done].
    rewrite Hfrom in Hn, He. eapply table_set; [exact HT|exact Hx| |].
    + rewrite Hx'. unfold holders_are. split_and!; count.
    + intros l' Hne k. rewrite (one_more_other _ _ _ _ _ _ HE Hne).
      by rewrite (one_more_other _ _ _ _ _ _ HU Hne).
  - intros Hs. destruct (sm_upgrade_free x) as [x' Hx']; [|congruence].
    destruct (sm_holders x) as [n u e]. cbn in *. subst u.
    destruct e; [destruct (Hex eq_refl); count|]. f_equal. congruence.
Qed.
End table.
