(* ===== verification/FsShared.v ===== *)
(** * The state of the file server, shared by threads

    What each thread of the server owns while it runs a handler, as a list of
    tokens: pointers to locks, locks held with the node they protect, blocks of the
    disk taken from the free list.  [shared R s t]: the state [s] represents the tree
    [t] while the threads own the tokens [R] together; the lemmas give, for each
    operation of a handler, how the tokens and the tree change with the state. *)

From S2P Require Import Prelude CStd Request FsTypes FsMonad FsTree FsSpec FsTraverse FsStored FsFace FsTable.

(** ** Tokens *)

(** What the holder of a lock knows of the node.  [Live d c]: it was [c] on the
    disk [d] when the lock was taken, and has the same face on the same blocks
    since.  [Binned c]: this thread has unlinked the leaf [c], which is no longer
    in the tree; its lock can still be found.  [Gone]: nobody finds this lock any
    more. *)
Inductive node (D : Type) :=
  | Live (d : D) (c : tree)
  | Binned (c : tree)
  | Gone.
Arguments Live {D} d c.
Arguments Binned {D} c.
Arguments Gone {D}.

(** A lock held: for a request of [h_user], at the end of [h_path]; [h_want] is
    the pointer to the lock of an entry of the node, taken and not yet locked. *)
Record hold (D : Type) := mk_hold {
  h_lock : lockref;
  h_mode : lock_mode;
  h_user : string;
  h_path : Path;
  h_node : node D;
  h_want : option (string * lockref) }.
Arguments mk_hold {D}.
Arguments h_lock {D}.
Arguments h_mode {D}.
Arguments h_user {D}.
Arguments h_path {D}.
Arguments h_node {D}.
Arguments h_want {D}.

(** [Ptr l]: a [shared_ptr] to a lock this thread does not hold; [Root l]: one to
    the lock of the root, about to be locked; [Fresh b bs]: a block that only this
    thread uses, with its contents. *)
Inductive tok (D : Type) :=
  | Ptr (l : lockref)
  | Root (l : lockref)
  | Hold (h : hold D)
  | Fresh (b : Z) (bs : bytes).
Arguments Ptr {D} l.
Arguments Root {D} l.
Arguments Hold {D} h.
Arguments Fresh {D} b bs.

Section tokens.
Context {D : Type}.
Abbreviation tok := (tok D).
Abbreviation hold := (hold D).

Definition b2n (P : Prop) `{Decision P} : nat := (if decide P then 1 else 0)%nat.

Definition want_is (l : lockref) (w : option (string * lockref)) : nat :=
  match w with Some (_, l') => b2n (l' = l) | None => 0%nat end.

(** The pointers to [l], and the holds of it in mode [m], of a token. *)
Definition ptrs_of (l : lockref) (k : tok) : nat :=
  match k with
  | Ptr l' | Root l' => b2n (l' = l)
  | Hold h => (b2n (h_lock h = l) + want_is l (h_want h))%nat
  | Fresh _ _ => 0%nat
  end.

Definition holds_of (l : lockref) (m : lock_mode) (k : tok) : nat :=
  match k with
  | Hold h => b2n (h_lock h = l ∧ h_mode h = m)
  | _ => 0%nat
  end.

Definition ptrs (R : list tok) (l : lockref) : nat := sum_list_with (ptrs_of l) R.
Definition holdings (R : list tok) (l : lockref) (m : lock_mode) : nat :=
  sum_list_with (holds_of l m) R.

(** The blocks that are neither in the tree nor free. *)
Definition tok_blocks (k : tok) : list Z :=
  match k with
  | Fresh b _ => [b]
  | Hold h => match h_node h with Binned c => node_blocks c | _ => [] end
  | _ => []
  end.

Definition blocks (R : list tok) : list Z := concat (tok_blocks <$> R).

(** A node this thread can rely on to stay in the tree: nobody deletes the root, a
    directory with entries, or a node whose lock is held for writing. *)
Definition pinned (h : hold) (c : tree) : bool :=
  bool_decide (h_mode h ≠ Shared) || negb (is_leaf c) || (root_block c =? 0).

Definition in_tree (t : tree) (h : hold) (c : tree) : Prop :=
  ∃ c', cross (h_user h) t (h_path h) true = Some c' ∧ face_of c' = face_of c.

Definition binned (R : list tok) (l : lockref) (p : Path) (c : tree) : Prop :=
  ∃ h, Hold h ∈ R ∧ h_lock h = l ∧ h_path h = p ∧ h_node h = Binned c.

#[export] Instance blocks_perm : Proper ((≡ₚ) ==> (≡ₚ)) blocks.
Proof. intros R R' HR. unfold blocks. by rewrite HR. Qed.

Lemma blocks_cons k R : blocks (k :: R) = tok_blocks k ++ blocks R.
Proof. done. Qed.

Lemma blocks_app R R' : blocks (R ++ R') = blocks R ++ blocks R'.
Proof. unfold blocks. by rewrite fmap_app concat_app. Qed.

Lemma elem_of_blocks b R : b ∈ blocks R ↔ ∃ k, k ∈ R ∧ b ∈ tok_blocks k.
Proof.
  unfold blocks. rewrite elem_of_concat. split.
  - intros (l & Hb & (k & -> & Hk)%list_elem_of_fmap). eauto.
  - intros (k & Hk & Hb). exists (tok_blocks k). split; [done|]. by apply list_elem_of_fmap_2.
Qed.

Lemma binned_mono R R' l p c : R ⊆ R' → binned R l p c → binned R' l p c.
Proof. intros HR (h & Hh & ?). exists h. split; [by apply HR|done]. Qed.

Lemma ptrs_cons k R l : ptrs (k :: R) l = (ptrs_of l k + ptrs R l)%nat.
Proof. done. Qed.

Lemma holdings_cons k R l m : holdings (k :: R) l m = (holds_of l m k + holdings R l m)%nat.
Proof. done. Qed.

Lemma ptrs_elem k R l : k ∈ R → (ptrs_of l k ≤ ptrs R l)%nat.
Proof. apply sum_list_with_in. Qed.

Lemma holdings_elem k R l m : k ∈ R → (holds_of l m k ≤ holdings R l m)%nat.
Proof. apply sum_list_with_in. Qed.

Lemma holds_of_Hold h : holds_of (h_lock h) (h_mode h) (Hold h) = 1%nat.
Proof. cbn. unfold b2n. by rewrite decide_True. Qed.

Lemma ptrs_of_Hold h : ptrs_of (h_lock h) (Hold h) ≠ 0%nat.
Proof. cbn. unfold b2n at 1. by rewrite decide_True. Qed.

Lemma holdings_ptrs R l : ptrs R l = 0%nat → ∀ m, holdings R l m = 0%nat.
Proof.
  induction R as [|k R IH]; [done|]. rewrite ptrs_cons. intros HP m. rewrite holdings_cons.
  rewrite IH; [|lia]. destruct k as [| |h|]; cbn in *; [done..| |done].
  unfold b2n in *. rewrite decide_False; [done|]. intros [Hl _].
  rewrite decide_True // in HP.
Qed.

Lemma pinned_child h c name cc : child c name = Some cc → pinned h c = true.
Proof.
  intros Hc. unfold pinned. rewrite (child_not_leaf _ _ _ Hc). by rewrite orb_true_r.
Qed.

Lemma pinned_mode h c : h_mode h ≠ Shared → pinned h c = true.
Proof. intros Hm. unfold pinned. by rewrite bool_decide_eq_true_2. Qed.

Lemma pinned_root h c : root_block c = 0 → pinned h c = true.
Proof. intros Hr. unfold pinned. by rewrite Hr orb_true_r. Qed.
End tokens.

#[global] Arguments ptrs : simpl never.
#[global] Arguments holdings : simpl never.
#[global] Arguments blocks : simpl never.

(** ** The invariant *)

Section shared.
Context {D M : Type} {HD : Disk D} {HDL : DiskLaws D} {SM : SharedMutex M} {SML : SharedMutexLaws M}.
Abbreviation state := (fs_state D M).
Abbreviation tok := (tok D).
Abbreviation hold := (hold D).

Definition want_ok (T : lock_table M) (c : tree) (w : option (string * lockref)) : Prop :=
  match w with
  | Some (name, l) => ∃ cc, child c name = Some cc ∧ data_locks T !! root_block cc = Some l
  | None => True
  end.

Definition hold_ok (R : list tok) (T : lock_table M) (d : D) (t : tree) (h : hold) : Prop :=
  match h_node h with
  | Live d0 c =>
      data_locks T !! root_block c = Some (h_lock h) ∧ sound d0 c ∧
      (∀ b, b ∈ node_blocks c → disk_read d b = disk_read d0 b) ∧
      (in_tree t h c ∨ pinned h c = false ∧ binned R (h_lock h) (h_path h) c) ∧
      want_ok T c (h_want h)
  | Binned c =>
      data_locks T !! root_block c = Some (h_lock h) ∧ is_leaf c = true ∧
      h_mode h ≠ Shared ∧ h_want h = None
  | Gone => (∀ b, data_locks T !! b ≠ Some (h_lock h)) ∧ h_want h = None
  end.

Definition tok_ok (R : list tok) (T : lock_table M) (d : D) (t : tree) (k : tok) : Prop :=
  match k with
  | Ptr _ => True
  | Root l => data_locks T !! 0 = Some l
  | Hold h => hold_ok R T d t h
  | Fresh b bs => disk_read d b = bs
  end.

Record shared (R : list tok) (s : state) (t : tree) : Prop := mk_shared {
  sh_stored : stored (disk s) t;
  sh_shape : shape t;
  sh_dir : is_dir t = true;
  sh_root : root_block t = 0;
  sh_blocks : used t ++ free_disk_blocks s ++ blocks R ≡ₚ seqZ 0 FS_DISKSIZE;
  sh_toks k : k ∈ R → tok_ok R (locks s) (disk s) t k;
  sh_table : table_ok (locks s) (ptrs R) (holdings R) }.

(** ** Frames *)

(** What a token says of the locks, and of the disk. *)
Definition tok_locks (k : tok) : list lockref :=
  match k with
  | Root l => [l]
  | Hold h => h_lock h :: match h_want h with Some (_, l) => [l] | None => [] end
  | _ => []
  end.

Definition tok_reads (k : tok) : list Z :=
  match k with
  | Fresh b _ => [b]
  | Hold h => match h_node h with Live _ c => node_blocks c | _ => [] end
  | _ => []
  end.

Lemma tok_ok_frame R R' T T' d d' t k :
  tok_ok R T d t k →
  (∀ h c, k = Hold h → binned R (h_lock h) (h_path h) c → binned R' (h_lock h) (h_path h) c) →
  (∀ b l, l ∈ tok_locks k → data_locks T !! b = Some l ↔ data_locks T' !! b = Some l) →
  (∀ b, b ∈ tok_reads k → disk_read d' b = disk_read d b) →
  tok_ok R' T' d' t k.
Proof.
  intros Hk HR HT Hd. destruct k as [l|l|h|b bs]; cbn [tok_ok tok_locks tok_reads] in *.
  - done.
  - apply HT; [by apply elem_of_cons; left|done].
  - assert (∀ b, data_locks T !! b = Some (h_lock h) ↔ data_locks T' !! b = Some (h_lock h)) as Hl.
    { intros b. apply HT. apply elem_of_cons. by left. }
    unfold hold_ok in *. destruct (h_node h) as [d0 c|c|].
    + destruct Hk as (Hb & Hs & Hag & Hin & Hw). rewrite -Hl. split_and!; [done..| | |].
      * intros b Hbb. rewrite Hd; auto.
      * destruct Hin as [|[? Hb']]; [by left|right]. split; [done|]. by apply HR.
      * unfold want_ok in *. destruct (h_want h) as [[name l]|]; [|done].
        destruct Hw as (cc & Hcc & Hl'). exists cc. split; [done|]. apply HT; [|done].
        set_solver.
    + by rewrite -Hl.
    + destruct Hk as [Hno Hw]. split; [|done]. intros b Hb. apply (Hno b). by rewrite Hl.
  - rewrite Hd; [done|]. apply elem_of_cons. by left.
Qed.

Lemma shared_perm R R' s t : R ≡ₚ R' → shared R s t → shared R' s t.
Proof.
  intros HR [Hst Hsh Hdir Hroot Hbl Hk HT]. split; [done..| | |].
  - by rewrite -HR.
  - intros k Hin. rewrite -HR in Hin. apply (tok_ok_frame R _ (locks s) _ (disk s));
      [by apply Hk| |done..]. intros h c _. apply binned_mono. intros k'. by rewrite HR.
  - eapply table_ext; [exact HT|..]; intros; unfold ptrs, holdings; by rewrite HR.
Qed.

#[export] Instance shared_proper : Proper ((≡ₚ) ==> (=) ==> (=) ==> iff) shared.
Proof. intros R R' HR s ? <- t ? <-. split; by apply shared_perm. Qed.

(** The free list and the tokens do not matter to the tree; tokens that stay
    stay right when a part of the others changes. *)
Lemma shared_change R R' K s T' fr' t :
  shared (R ++ K) s t →
  free_disk_blocks s ++ blocks R ≡ₚ fr' ++ blocks R' →
  (∀ k, k ∈ K → ∀ b l, l ∈ tok_locks k →
     data_locks (locks s) !! b = Some l ↔ data_locks T' !! b = Some l) →
  (∀ h c, Hold h ∈ K → binned (R ++ K) (h_lock h) (h_path h) c →
     binned (R' ++ K) (h_lock h) (h_path h) c) →
  (∀ k, k ∈ R' → tok_ok (R' ++ K) T' (disk s) t k) →
  table_ok T' (ptrs (R' ++ K)) (holdings (R' ++ K)) →
  shared (R' ++ K) (mk_fs (disk s) fr' T') t.
Proof.
  intros [Hst Hsh Hdir Hroot Hbl Hk HT] Hfr HK Hbin HR' HT'. split; [done..| | |done]; cbn.
  - rewrite -Hbl !blocks_app. rewrite !app_assoc -(app_assoc _ _ (blocks R)) Hfr. by rewrite !app_assoc.
  - intros k [Hin|Hin]%elem_of_app; [by apply HR'|].
    apply (tok_ok_frame (R ++ K) _ (locks s) _ (disk s)); [| | |done].
    + apply Hk, elem_of_app. by right.
    + intros h c ->. by apply Hbin.
    + by apply HK.
Qed.

(** ** What the invariant says *)

Section facts.
Context (R : list tok) (s : state) (t : tree) (HI : shared R s t).

Lemma shared_NoDup : NoDup (used t ++ free_disk_blocks s ++ blocks R).
Proof using HI. rewrite (sh_blocks _ _ _ HI). apply NoDup_seqZ. Qed.

Lemma shared_valid b : b ∈ used t ++ free_disk_blocks s ++ blocks R → valid_block b.
Proof using HI. rewrite (sh_blocks _ _ _ HI). intros Hb%elem_of_seqZ. unfold valid_block. lia. Qed.

Lemma shared_used_valid b : b ∈ used t → valid_block b.
Proof using HI. intros Hb. apply shared_valid, elem_of_app. by left. Qed.

Lemma shared_own_valid b : b ∈ blocks R → valid_block b.
Proof using HI. intros Hb. apply shared_valid. rewrite !elem_of_app. auto. Qed.

Lemma shared_own_unused b : b ∈ blocks R → b ∉ used t.
Proof using HI.
  intros Hb Hu. pose proof shared_NoDup as (_ & Hd & _)%NoDup_app.
  apply (Hd _ Hu). rewrite elem_of_app. by right.
Qed.

Lemma shared_own_NoDup : NoDup (blocks R).
Proof using HI. pose proof shared_NoDup as (_ & _ & Hn)%NoDup_app. by apply NoDup_app in Hn as (_ & _ & ?). Qed.

Lemma shared_zero : 0 ∈ used t.
Proof using HI. rewrite -(sh_root _ _ _ HI). apply root_block_used. Qed.

Lemma shared_sound : sound (disk s) t.
Proof using HI.
  split; [apply HI|apply HI| |].
  - by pose proof shared_NoDup as (? & _ & _)%NoDup_app.
  - apply Forall_forall. apply shared_used_valid.
Qed.

Lemma shared_cross user p c : cross user t p true = Some c → sound (disk s) c.
Proof using HI. intros Hc. apply cross_subtree in Hc. eapply sound_subtree; [apply shared_sound|done]. Qed.

Lemma shared_hold h : Hold h ∈ R → hold_ok R (locks s) (disk s) t h.
Proof using HI. apply (sh_toks _ _ _ HI). Qed.

(** The node of a hold is in the tree, or it is an unlinked leaf. *)
Lemma shared_live h d0 c :
  Hold h ∈ R → h_node h = Live d0 c →
  sound d0 c ∧ (∀ b, b ∈ node_blocks c → disk_read (disk s) b = disk_read d0 b) ∧
  data_locks (locks s) !! root_block c = Some (h_lock h) ∧
  (in_tree t h c ∨ pinned h c = false ∧ binned R (h_lock h) (h_path h) c).
Proof using HI.
  intros Hh Hn. pose proof (shared_hold _ Hh) as Hok. unfold hold_ok in Hok. rewrite Hn in Hok.
  destruct Hok as (? & ? & ? & ? & _). done.
Qed.

Lemma shared_pinned h d0 c :
  Hold h ∈ R → h_node h = Live d0 c → pinned h c = true →
  ∃ c', cross (h_user h) t (h_path h) true = Some c' ∧ face_of c' = face_of c ∧
    sound (disk s) c'.
Proof using HI.
  intros Hh Hn Hp. destruct (shared_live _ _ _ Hh Hn) as (_ & _ & _ & [(c' & Hc & Hf)|[Hp' _]]);
    [|congruence].
  exists c'. split_and!; [done..|]. by eapply shared_cross.
Qed.

(** The blocks of a live node are in the tree or those of an unlinked node. *)
Lemma shared_node_blocks h d0 c b :
  Hold h ∈ R → h_node h = Live d0 c → b ∈ node_blocks c →
  (in_tree t h c ∧ b ∈ used t) ∨
  (pinned h c = false ∧ binned R (h_lock h) (h_path h) c ∧ b ∈ blocks R).
Proof using HI.
  intros Hh Hn Hb. destruct (shared_live _ _ _ Hh Hn) as (_ & _ & _ & [Ht|[Hp Hbin]]).
  - left. split; [done|]. destruct Ht as (c' & Hc & Hf). eapply subtree_used; [by eapply cross_subtree|].
    apply node_blocks_used. by rewrite (face_blocks _ _ Hf).
  - right. split_and!; [done..|]. destruct Hbin as (h' & Hh' & _ & _ & Hn').
    apply elem_of_blocks. exists (Hold h'). split; [done|]. cbn. by rewrite Hn'.
Qed.

Lemma shared_node_valid h d0 c b :
  Hold h ∈ R → h_node h = Live d0 c → b ∈ node_blocks c → valid_block b.
Proof using HI.
  intros Hh Hn Hb. destruct (shared_node_blocks _ _ _ _ Hh Hn Hb) as [[_ Hu]|(_ & _ & Hu)].
  - by apply shared_used_valid.
  - by apply shared_own_valid.
Qed.
End facts.

(** ** Who may be where together *)

Lemma tok_blocks_unique (R : list tok) k1 k2 b :
  NoDup (blocks R) → k1 ∈ R → k2 ∈ R → b ∈ tok_blocks k1 → b ∈ tok_blocks k2 → k1 = k2.
Proof.
  intros Hnd (i & Hi)%list_elem_of_lookup (j & Hj)%list_elem_of_lookup Hb1 Hb2.
  destruct (decide (i = j)) as [->|Hij]; [congruence|]. exfalso.
  eapply (NoDup_concat_disjoint (tok_blocks <$> R) i j); [exact Hnd| | |exact Hij|exact Hb1|exact Hb2];
    by rewrite list_lookup_fmap ?Hi ?Hj.
Qed.

(** Holds of one node have one lock, and one path. *)
Lemma shared_same_node R s t h1 h2 d1 d2 c1 c2 b :
  shared R s t → Hold h1 ∈ R → Hold h2 ∈ R → h_node h1 = Live d1 c1 → h_node h2 = Live d2 c2 →
  b ∈ node_blocks c1 → b ∈ node_blocks c2 →
  h_lock h1 = h_lock h2 ∧ h_path h1 = h_path h2.
Proof.
  intros HI Hh1 Hh2 Hn1 Hn2 Hb1 Hb2.
  destruct (shared_live _ _ _ HI _ _ _ Hh1 Hn1) as (_ & _ & Hl1 & _).
  destruct (shared_live _ _ _ HI _ _ _ Hh2 Hn2) as (_ & _ & Hl2 & _).
  destruct (shared_node_blocks _ _ _ HI _ _ _ _ Hh1 Hn1 Hb1) as [[Ht1 Hu1]|(_ & Hk1 & Hu1)],
    (shared_node_blocks _ _ _ HI _ _ _ _ Hh2 Hn2 Hb2) as [[Ht2 Hu2]|(_ & Hk2 & Hu2)].
  - destruct Ht1 as (c1' & Hc1%cross_subtree & Hf1), Ht2 as (c2' & Hc2%cross_subtree & Hf2).
    rewrite -(face_blocks _ _ Hf1) in Hb1. rewrite -(face_blocks _ _ Hf2) in Hb2.
    assert (h_path h1 = h_path h2) as Hp.
    { eapply subtree_blocks_unique; [|exact Hc1|exact Hc2|done..].
      apply (sound_NoDup (disk s)), (shared_sound _ _ _ HI). }
    rewrite Hp Hc2 in Hc1. injection Hc1 as ->.
    rewrite -(face_root _ _ Hf1) in Hl1. rewrite -(face_root _ _ Hf2) in Hl2. split; [congruence|done].
  - by destruct (shared_own_unused _ _ _ HI _ Hu2).
  - by destruct (shared_own_unused _ _ _ HI _ Hu1).
  - destruct Hk1 as (k1 & Hk1 & <- & <- & Hkn1), Hk2 as (k2 & Hk2 & <- & <- & Hkn2).
    assert (Hold k1 = Hold k2) as [= ->]; [|done].
    apply (tok_blocks_unique R _ _ b); [by apply (shared_own_NoDup _ _ _ HI)|done..| |].
    + cbn. by rewrite Hkn1.
    + cbn. by rewrite Hkn2.
Qed.

Section exclusion.
Context (h h2 : hold) (R : list tok) (s : state) (t : tree).
Context (HI : shared (Hold h :: R) s t) (Hh2 : Hold h2 ∈ R) (Hl : h_lock h2 = h_lock h).

Lemma two_holdings :
  (2 ≤ holdings (Hold h :: R) (h_lock h) (h_mode h) ∨ h_mode h2 ≠ h_mode h)%nat.
Proof using Hh2 Hl.
  destruct (decide (h_mode h2 = h_mode h)) as [Hm|]; [left|by right].
  rewrite holdings_cons holds_of_Hold.
  pose proof (holdings_elem _ _ (h_lock h) (h_mode h) Hh2) as Hle.
  rewrite -Hl -Hm holds_of_Hold in Hle. rewrite -Hl -Hm. lia.
Qed.

Lemma holdings_other : (1 ≤ holdings (Hold h :: R) (h_lock h) (h_mode h2))%nat.
Proof using Hh2 Hl.
  rewrite holdings_cons. pose proof (holdings_elem _ _ (h_lock h2) (h_mode h2) Hh2) as Hle.
  rewrite holds_of_Hold in Hle. rewrite -Hl. lia.
Qed.

(** No other thread holds a lock held exclusively. *)
Lemma shared_exclusive : h_mode h ≠ Exclusive.
Proof using HI Hh2 Hl.
  intros Hm. pose proof two_holdings as H2. pose proof holdings_other as Ho. rewrite Hm in H2.
  destruct (table_exclusive _ _ _ (h_lock h) (sh_table _ _ _ HI)) as (H1 & H3 & H4).
  { rewrite -Hm holdings_cons holds_of_Hold. lia. }
  destruct (h_mode h2); [lia|lia|]. destruct H2 as [H2|?]; [lia|done].
Qed.

(** Beside an upgradable lock, other threads read. *)
Lemma shared_upgradable : h_mode h = Upgradable → h_mode h2 = Shared.
Proof using HI Hh2 Hl.
  intros Hm. pose proof two_holdings as H2. pose proof holdings_other as Ho. rewrite Hm in H2.
  pose proof (table_upgradable _ _ _ (h_lock h) (sh_table _ _ _ HI)) as Hu.
  destruct (h_mode h2); [done|destruct H2 as [H2|?]; [lia|done]|].
  destruct (table_exclusive _ _ _ (h_lock h) (sh_table _ _ _ HI)) as (_ & _ & H4); [lia|].
  rewrite -Hm holdings_cons holds_of_Hold in H4. lia.
Qed.
End exclusion.

(** The blocks of a node held exclusively are nobody else's. *)
Lemma shared_alone h d0 c R s t k b :
  shared (Hold h :: R) s t → h_mode h = Exclusive → h_node h = Live d0 c → b ∈ node_blocks c →
  k ∈ R → b ∉ tok_reads k.
Proof.
  intros HI Hm Hn Hb Hk Hr.
  assert (Hold h ∈ Hold h :: R) as Hh by (apply elem_of_cons; by left).
  assert (k ∈ Hold h :: R) as Hk' by (apply elem_of_cons; by right).
  destruct (shared_node_blocks _ _ _ HI _ _ _ _ Hh Hn Hb) as [[_ Hu]|(Hp & _)].
  2: { by rewrite pinned_mode // Hm in Hp. }
  destruct k as [| |h2|b' bs]; cbn in Hr; [by apply not_elem_of_nil in Hr..| |].
  - destruct (h_node h2) as [d2 c2| |] eqn:Hn2; [|by apply not_elem_of_nil in Hr..].
    destruct (shared_same_node _ _ _ _ _ _ _ _ _ _ HI Hh Hk' Hn Hn2 Hb Hr) as [Hl _].
    by apply (shared_exclusive h h2 R s t).
  - apply list_elem_of_singleton in Hr as ->.
    apply (shared_own_unused _ _ _ HI b'); [|done]. apply elem_of_blocks.
    exists (Fresh b' bs). split; [done|]. by apply list_elem_of_singleton.
Qed.

(** A fresh block is nobody else's. *)
Lemma shared_fresh_alone b bs R s t k :
  shared (Fresh b bs :: R) s t → k ∈ R → b ∉ tok_reads k.
Proof.
  intros HI Hk Hr. assert (k ∈ Fresh b bs :: R) as Hk' by (apply elem_of_cons; by right).
  pose proof (shared_own_NoDup _ _ _ HI) as Hnd. rewrite blocks_cons in Hnd. cbn in Hnd.
  apply NoDup_cons in Hnd as [Hnb _].
  assert (b ∉ used t) as Hu.
  { apply (shared_own_unused _ _ _ HI). apply elem_of_cons. by left. }
  destruct k as [| |h2|b' bs']; cbn in Hr; [by apply not_elem_of_nil in Hr..| |].
  - destruct (h_node h2) as [d2 c2| |] eqn:Hn2; [|by apply not_elem_of_nil in Hr..].
    destruct (shared_node_blocks _ _ _ HI _ _ _ _ Hk' Hn2 Hr) as [[_ ?]|(_ & Hbin & _)]; [done|].
    apply Hnb, elem_of_blocks. destruct Hbin as (hb & [?|Hhb]%elem_of_cons & _ & _ & Hnb'); [done|].
    exists (Hold hb). split; [done|]. cbn. by rewrite Hnb'.
  - apply Hnb, elem_of_blocks. exists (Fresh b' bs'). split; [done|]. exact Hr.
Qed.

Lemma shared_reads_valid R s t k b :
  shared R s t → k ∈ R → b ∈ tok_reads k → valid_block b.
Proof.
  intros HI Hk Hr. destruct k as [| |h|b' bs]; cbn in Hr; [by apply not_elem_of_nil in Hr..| |].
  - destruct (h_node h) as [d c| |] eqn:Hn; [|by apply not_elem_of_nil in Hr..].
    by eapply (shared_node_valid _ _ _ HI).
  - apply (shared_own_valid _ _ _ HI), elem_of_blocks. by exists (Fresh b' bs).
Qed.
End shared.
