(* ===== verification/FsLocks.v ===== *)
(** * Locks and blocks change hands

    How each operation on the free list, the table of locks and the locks changes
    the tokens of FsShared; for the operations that can wait, whom the thread
    waits for. *)

From S2P Require Import Prelude CStd Request FsTypes FsMonad FsTree FsSpec FsTraverse FsStored FsFace FsTable FsShared.

Section locks.
Context {D M : Type} {HD : Disk D} {HDL : DiskLaws D} {SM : SharedMutex M} {SML : SharedMutexLaws M}.
Abbreviation state := (fs_state D M).
Abbreviation tok := (tok D).
Abbreviation hold := (hold D).

Definition set_want (w : option (string * lockref)) (h : hold) : hold :=
  mk_hold (h_lock h) (h_mode h) (h_user h) (h_path h) (h_node h) w.
Definition set_mode (m : lock_mode) (h : hold) : hold :=
  mk_hold (h_lock h) m (h_user h) (h_path h) (h_node h) (h_want h).
Definition set_node (n : node D) (h : hold) : hold :=
  mk_hold (h_lock h) (h_mode h) (h_user h) (h_path h) n (h_want h).

(** Blocks with their contents, as tokens. *)
Definition fresh_toks (fs : list (Z * bytes)) : list tok := (λ p, Fresh p.1 p.2) <$> fs.

Lemma blocks_fresh fs : blocks (fresh_toks fs) = fs.*1.
Proof. induction fs as [|[b bs] fs IH]; [done|]. cbn. by rewrite -IH. Qed.

Lemma ptrs_fresh fs R l : ptrs (fresh_toks fs ++ R) l = ptrs R l.
Proof. induction fs as [|p fs IH]; [done|]. cbn [fmap list_fmap fresh_toks app]. exact IH. Qed.

Lemma holdings_fresh fs R l m : holdings (fresh_toks fs ++ R) l m = holdings R l m.
Proof. induction fs as [|p fs IH]; [done|]. cbn [fmap list_fmap fresh_toks app]. exact IH. Qed.

Lemma elem_of_fresh k fs : k ∈ fresh_toks fs → ∃ b bs, k = Fresh b bs ∧ (b, bs) ∈ fs.
Proof. intros ([b bs] & -> & Hin)%list_elem_of_fmap. eauto. Qed.

(** Tokens that change without being a [Binned] hold. *)
Lemma binned_swap (R R' K : list tok) l p c :
  (∀ h c, Hold h ∈ R → h_node h ≠ Binned c) → binned (R ++ K) l p c → binned (R' ++ K) l p c.
Proof.
  intros HR (h & [Hh|Hh]%elem_of_app & Hl & Hp & Hn); [by destruct (HR h c)|].
  exists h. split; [|done]. apply elem_of_app. by right.
Qed.

Lemma tok_locks_ptrs (R : list tok) k l : k ∈ R → l ∈ tok_locks k → ptrs R l ≠ 0%nat.
Proof.
  intros Hk Hl. pose proof (ptrs_elem _ _ l Hk) as Hle. enough (ptrs_of l k ≠ 0%nat) by lia.
  destruct k as [l'|l'|h|b bs]; cbn in *; unfold b2n in *;
    [by apply not_elem_of_nil in Hl| | |by apply not_elem_of_nil in Hl].
  - apply list_elem_of_singleton in Hl as ->. by rewrite decide_True.
  - apply elem_of_cons in Hl as [->|Hl]; [by rewrite decide_True|].
    destruct (h_want h) as [[n l']|]; [|by apply not_elem_of_nil in Hl].
    apply list_elem_of_singleton in Hl as ->. cbn. unfold b2n. rewrite (decide_True (P := l' = l')); [|done]. lia.
Qed.

Lemma holdings_nonzero (R : list tok) l m :
  holdings R l m ≠ 0%nat → ∃ h, Hold h ∈ R ∧ h_lock h = l ∧ h_mode h = m.
Proof.
  induction R as [|k R IH]; [done|]. rewrite holdings_cons. intros Hne.
  destruct (decide (holds_of l m k = 0%nat)) as [Hz|Hz].
  - destruct IH as (h & Hh & ?); [lia|]. exists h. split; [apply elem_of_cons; by right|done].
  - destruct k as [| |h|]; cbn in Hz; [done..| |done]. unfold b2n in Hz.
    case_decide as Hlm; [|done]. exists h. split; [apply elem_of_cons; by left|done].
Qed.

Lemma one_more_Hold (R : list tok) h :
  one_more (h_lock h) (h_mode h) (holdings R) (holdings (Hold h :: R)).
Proof.
  intros l m. rewrite holdings_cons. cbn. unfold b2n.
  destruct (decide (l = h_lock h ∧ m = h_mode h)) as [[-> ->]|Hne].
  - rewrite decide_True //. lia.
  - rewrite decide_False; [lia|naive_solver].
Qed.

(** ** Blocks *)

Lemma shared_write_fresh b bs0 bs R (s : state) t :
  shared (Fresh b bs0 :: R) s t → length bs = n_block →
  shared (Fresh b bs :: R) (set_disk (disk_write (disk s) b bs) s) t.
Proof.
  intros HI Hlen. assert (b ∈ blocks (Fresh b bs0 :: R)) as Hb by (apply elem_of_cons; by left).
  pose proof (shared_own_valid _ _ _ HI _ Hb) as Hv.
  pose proof (shared_own_unused _ _ _ HI _ Hb) as Hu. split; cbn; try apply HI.
  - apply (stored_frame (disk s)); [apply HI|]. intros b' Hb'.
    apply disk_read_write_ne; [done|by apply (shared_used_valid _ _ _ HI)|by intros ->].
  - intros k [->|Hk]%elem_of_cons; [by apply disk_read_write_eq|].
    apply (tok_ok_frame (Fresh b bs0 :: R) _ (locks s) _ (disk s)); [| |done|].
    + apply (sh_toks _ _ _ HI), elem_of_cons. by right.
    + intros h c _. apply (binned_swap [Fresh b bs0] [Fresh b bs]). by intros h' c' ?%list_elem_of_singleton.
    + intros b' Hb'. apply disk_read_write_ne; [done| |].
      * eapply (shared_reads_valid _ _ _ _ _ HI); [|done]. apply elem_of_cons. by right.
      * intros ->. by eapply shared_fresh_alone.
Qed.

Lemma shared_take b fr R (s : state) t :
  shared R s t → free_disk_blocks s = b :: fr →
  shared (Fresh b (disk_read (disk s) b) :: R) (set_free fr s) t.
Proof.
  intros HI Hfr. apply (shared_change [] [Fresh b (disk_read (disk s) b)] R); [done|..].
  - rewrite Hfr. cbn. rewrite app_nil_r. solve_Permutation.
  - done.
  - intros h2 c2 _. by apply binned_swap; intros ? ? ?%not_elem_of_nil.
  - intros k ->%list_elem_of_singleton. done.
  - eapply table_ext; [apply HI|done|done].
Qed.

Lemma shared_give fs fr' R (s : state) t :
  shared (fresh_toks fs ++ R) s t → fr' ≡ₚ free_disk_blocks s ++ fs.*1 →
  shared R (set_free fr' s) t.
Proof.
  intros HI Hfr. apply (shared_change (fresh_toks fs) [] R _ (locks s)); [done|..].
  - by rewrite blocks_fresh Hfr app_nil_r.
  - done.
  - intros h2 c2 _. apply binned_swap. by intros h c' (? & ? & ? & _)%elem_of_fresh.
  - by intros k ?%not_elem_of_nil.
  - eapply table_ext; [apply HI|..]; intros; cbn [app].
    + by rewrite ptrs_fresh.
    + by rewrite holdings_fresh.
Qed.

(** ** Pointers *)

Lemma shared_get_root R (s : state) t l T' :
  shared R s t → get_lock_ptr_step 0 (locks s) = (l, T') →
  shared (Root l :: R) (set_locks T' s) t.
Proof.
  intros HI Hg.
  destruct (table_get _ _ _ _ _ _ (ptrs (Root l :: R)) (sh_table _ _ _ HI) Hg)
    as (HT & H0 & Hkeep & Hback).
  { intros l'. rewrite ptrs_cons. cbn. unfold b2n. repeat case_decide; subst; try done; lia. }
  apply (shared_change [] [Root l] R); [done|done| | | |].
  - intros k Hk b l' Hl. pose proof (tok_locks_ptrs _ _ _ Hk Hl) as HP.
    split; intros; [by apply Hkeep|by apply Hback].
  - intros h2 c2 _. by apply binned_swap; intros ? ? ?%not_elem_of_nil.
  - by intros k ->%list_elem_of_singleton.
  - eapply table_ext; [exact HT|done|done].
Qed.

Lemma shared_get_child h d0 c name cc R (s : state) t l T' :
  shared (Hold h :: R) s t → h_node h = Live d0 c → h_want h = None → child c name = Some cc →
  get_lock_ptr_step (root_block cc) (locks s) = (l, T') →
  shared (Hold (set_want (Some (name, l)) h) :: R) (set_locks T' s) t.
Proof.
  intros HI Hn Hw Hc Hg.
  destruct (table_get _ _ _ _ _ _ (ptrs (Hold (set_want (Some (name, l)) h) :: R))
    (sh_table _ _ _ HI) Hg) as (HT & H0 & Hkeep & Hback).
  { intros l'. rewrite !ptrs_cons. cbn. rewrite Hw. cbn. unfold b2n.
    repeat case_decide; subst; try done; lia. }
  assert (Hold h ∈ Hold h :: R) as Hh by (apply elem_of_cons; by left).
  assert (∀ l' p c', binned ([Hold h] ++ R) l' p c' →
    binned ([Hold (set_want (Some (name, l)) h)] ++ R) l' p c') as Hbin.
  { intros l' p c'. apply binned_swap. intros h' c2 [= ->]%list_elem_of_singleton. by rewrite Hn. }
  apply (shared_change [Hold h] [Hold (set_want (Some (name, l)) h)] R); [done|..].
  - unfold blocks. cbn. by rewrite Hn.
  - intros k Hk b l' Hl. assert (ptrs (Hold h :: R) l' ≠ 0%nat) as HP.
    { eapply tok_locks_ptrs; [|exact Hl]. apply elem_of_cons. by right. }
    split; intros; [by apply Hkeep|by apply Hback].
  - intros h2 c2 _. apply Hbin.
  - intros k ->%list_elem_of_singleton. pose proof (shared_hold _ _ _ HI _ Hh) as Hok.
    cbn. unfold hold_ok in *. cbn. rewrite Hn in Hok |- *.
    destruct Hok as (Hb & Hs & Hag & Hin & _). split_and!; [|done..| |].
    + apply Hkeep; [|done]. eapply tok_locks_ptrs; [exact Hh|]. cbn. apply elem_of_cons. by left.
    + destruct Hin as [|[? Hin]]; [by left|right]. split; [done|]. by apply (Hbin _ _ _ Hin).
    + by exists cc.
  - eapply table_ext; [exact HT|done|done].
Qed.

Lemma shared_drop l R (s : state) t :
  shared (Ptr l :: R) s t →
  ∃ T', drop_ptr_step l (locks s) = Done T' ∧ shared R (set_locks T' s) t.
Proof.
  intros HI. destruct (table_drop _ _ _ l (ptrs R) (sh_table _ _ _ HI)) as (T' & Hd & HT & Hdl).
  { intros l'. rewrite ptrs_cons. cbn. unfold b2n. repeat case_decide; subst; try done; lia. }
  { intros HP m. rewrite holdings_cons. cbn. by apply holdings_ptrs. }
  exists T'. split; [done|]. apply (shared_change [Ptr l] [] R); [done|done| | | |].
  - intros k _ b l' _. by rewrite Hdl.
  - intros h2 c2 _. apply binned_swap. by intros h c' ?%list_elem_of_singleton.
  - by intros k ?%not_elem_of_nil.
  - eapply table_ext; [exact HT|done|done].
Qed.

(** ** Locking *)

(** A lock that leads to a node of the tree is held at the path of the node. *)
Lemma shared_lock_at R (s : state) t h p c :
  shared R s t → Hold h ∈ R → subtree t p = Some c →
  data_locks (locks s) !! root_block c = Some (h_lock h) → h_path h = p.
Proof.
  intros HI Hh Hp Hl. pose proof (shared_hold _ _ _ HI _ Hh) as Hok. unfold hold_ok in Hok.
  assert (root_block c ∈ used t) as Hu by (eapply subtree_used; [done|apply root_block_used]).
  assert (∀ k c', k ∈ R → root_block c' = root_block c → tok_blocks k = node_blocks c' → False) as Hno.
  { intros k c' Hk Heq Hb. apply (shared_own_unused _ _ _ HI (root_block c)); [|done].
    apply elem_of_blocks. exists k. split; [done|]. rewrite Hb -Heq. apply root_block_node. }
  destruct (h_node h) as [d0 c1|c1|] eqn:Hn.
  - destruct Hok as (Hl1 & _ & _ & Hin & _).
    assert (root_block c1 = root_block c) as Heq by by eapply (tb_inj _ _ _ (sh_table _ _ _ HI)).
    destruct Hin as [(c' & Hc' & Hf)|[_ (hb & Hhb & _ & _ & Hnb)]].
    + eapply subtree_root_unique; [apply (sound_NoDup (disk s)), (shared_sound _ _ _ HI)| | |].
      * by eapply cross_subtree.
      * exact Hp.
      * rewrite -Heq. by apply face_root.
    + exfalso. eapply (Hno (Hold hb) c1); [done..|]. cbn. by rewrite Hnb.
  - destruct Hok as (Hl1 & _). exfalso. eapply (Hno (Hold h) c1); [done| |by cbn; rewrite Hn].
    by eapply (tb_inj _ _ _ (sh_table _ _ _ HI)).
  - destruct Hok as [Hok _]. by destruct (Hok _ Hl).
Qed.

(** Holds of one lock, one of them not for reading, are at one path. *)
Lemma shared_same_path R (s : state) t h h2 :
  shared R s t → Hold h ∈ R → Hold h2 ∈ R → h_lock h2 = h_lock h →
  h_mode h ≠ Shared → h_node h ≠ Gone → h_path h2 = h_path h.
Proof.
  intros HI Hh Hh2 Hl Hm Hg. pose proof (shared_hold _ _ _ HI _ Hh) as Hok. unfold hold_ok in Hok.
  destruct (h_node h) as [d0 c|c|] eqn:Hn; [| |done].
  - destruct (shared_pinned _ _ _ HI _ _ _ Hh Hn) as (c' & Hc & Hf & _); [by apply pinned_mode|].
    eapply shared_lock_at; [done..|by eapply cross_subtree|].
    rewrite (face_root _ _ Hf) Hl. by destruct Hok as (? & _).
  - destruct Hok as (Hlc & _). pose proof (shared_hold _ _ _ HI _ Hh2) as Hok2. unfold hold_ok in Hok2.
    assert (∀ k, k ∈ R → root_block c ∈ tok_blocks k → k = Hold h) as Huniq.
    { intros k Hk Hb. eapply tok_blocks_unique; [by apply (shared_own_NoDup _ _ _ HI)|done..|].
      cbn. rewrite Hn. apply root_block_node. }
    destruct (h_node h2) as [d2 c2|c2|] eqn:Hn2.
    + destruct Hok2 as (Hlc2 & _ & _ & Hin & _). rewrite Hl in Hlc2.
      assert (root_block c2 = root_block c) as Heq by by eapply (tb_inj _ _ _ (sh_table _ _ _ HI)).
      destruct Hin as [(c' & Hc' & Hf)|[_ (hb & Hhb & _ & Hp & Hnb)]].
      * exfalso. apply (shared_own_unused _ _ _ HI (root_block c)).
        { apply elem_of_blocks. exists (Hold h). split; [done|]. cbn. rewrite Hn. apply root_block_node. }
        rewrite -Heq -(face_root _ _ Hf). eapply subtree_used; [by eapply cross_subtree|].
        apply root_block_used.
      * assert (Hold hb = Hold h) as [= ->]; [|done]. apply Huniq; [done|].
        cbn. rewrite Hnb -Heq. apply root_block_node.
    + destruct Hok2 as (Hlc2 & _). rewrite Hl in Hlc2.
      assert (root_block c2 = root_block c) as Heq by by eapply (tb_inj _ _ _ (sh_table _ _ _ HI)).
      assert (Hold h2 = Hold h) as [= ->]; [|done]. apply Huniq; [done|].
      cbn. rewrite Hn2 -Heq. apply root_block_node.
    + destruct Hok2 as [Hno _]. rewrite Hl in Hno. by destruct (Hno (root_block c)).
Qed.

(** The state after a lock of a node of the tree has been taken. *)
Lemma shared_locked k R R' (s : state) T' t l m user p c :
  shared (k :: R) s t → cross user t p true = Some c →
  data_locks (locks s) !! root_block c = Some l → data_locks T' = data_locks (locks s) →
  tok_blocks k ≡ₚ blocks R' →
  (∀ k', k' ∈ R' → tok_ok (R' ++ R) (locks s) (disk s) t k') →
  (∀ h c, k = Hold h → h_node h ≠ Binned c) →
  table_ok T' (ptrs (Hold (mk_hold l m user p (Live (disk s) c) None) :: R' ++ R))
    (holdings (Hold (mk_hold l m user p (Live (disk s) c) None) :: R' ++ R)) →
  shared (Hold (mk_hold l m user p (Live (disk s) c) None) :: R' ++ R) (set_locks T' s) t.
Proof.
  intros HI Hc Hl Hdl Hbl HR' Hk HT. set (h := mk_hold l m user p _ None).
  apply (shared_change [k] (Hold h :: R') R); [done|..].
  - rewrite !blocks_cons. cbn. rewrite app_nil_r. by rewrite Hbl.
  - intros k' _ b l' _. by rewrite Hdl.
  - intros h2 c3 _. apply (binned_swap [k]). intros h' c2 <-%list_elem_of_singleton. by apply Hk.
  - intros k' [->|Hk']%elem_of_cons.
    + cbn. rewrite Hdl. split_and!; [done| |done|by left; exists c|done].
      by eapply (shared_cross _ _ _ HI).
    + specialize (HR' _ Hk').
      apply (tok_ok_frame (R' ++ R) _ (locks s) _ (disk s)); [done| |by rewrite Hdl|done].
      intros h2 c2 _. apply binned_mono. intros x Hx. by apply elem_of_cons; right.
  - exact HT.
Qed.

Lemma shared_lock_root m user l R (s : state) t :
  shared (Root l :: R) s t →
  match on_mutex l (lock_step m) (locks s) with
  | Done T' => shared (Hold (mk_hold l m user [] (Live (disk s) t) None) :: R) (set_locks T' s) t
  | Wait => ∃ h, Hold h ∈ R ∧ h_path h = []
  | Crash _ => False
  end.
Proof.
  intros HI. set (h := mk_hold l m user [] _ None).
  assert (data_locks (locks s) !! 0 = Some l) as Hl.
  { apply (sh_toks _ _ _ HI (Root l)), elem_of_cons. by left. }
  assert (ptrs (Root l :: R) l ≠ 0%nat) as HP.
  { rewrite ptrs_cons. cbn. unfold b2n. by rewrite decide_True. }
  pose proof (table_lock _ _ _ l m (holdings (Hold h :: R)) (sh_table _ _ _ HI) HP
    (one_more_Hold R h)) as Hlk.
  destruct (on_mutex l (lock_step m) (locks s)) as [T'| |f]; [| |done].
  - destruct Hlk as [HT Hdl]. apply (shared_locked (Root l) R [] s T' t l m user [] t); try done.
    + by rewrite (sh_root _ _ _ HI).
    + by intros k ?%not_elem_of_nil.
    + eapply table_ext; [exact HT| |done]. intros l'. rewrite !ptrs_cons. cbn. lia.
  - destruct Hlk as [m' Hm']. apply holdings_nonzero in Hm' as (h' & [?|Hh']%elem_of_cons & Hl' & _); [done|].
    exists h'. split; [done|]. apply (shared_lock_at (Root l :: R) s t h' [] t HI); [|done|].
    + apply elem_of_cons. by right.
    + by rewrite (sh_root _ _ _ HI) Hl'.
Qed.

Lemma shared_lock_child m h d0 c name cc l R (s : state) t :
  shared (Hold h :: R) s t → h_node h = Live d0 c → h_want h = Some (name, l) →
  child c name = Some cc →
  negb (first_of (h_path h) true) && negb (String.eqb (h_user h) (tree_owner c)) = false →
  match on_mutex l (lock_step m) (locks s) with
  | Done T' => ∃ c1, cross (h_user h) t (h_path h ++ [name]) true = Some c1 ∧
      root_block c1 = root_block cc ∧ sound (disk s) c1 ∧
      shared (Hold (mk_hold l m (h_user h) (h_path h ++ [name]) (Live (disk s) c1) None)
              :: Hold (set_want None h) :: R) (set_locks T' s) t
  | Wait => ∃ h2, Hold h2 ∈ R ∧ h_path h2 = h_path h ++ [name]
  | Crash _ => False
  end.
Proof.
  intros HI Hn Hw Hc Hown. set (p := h_path h ++ [name]).
  assert (Hold h ∈ Hold h :: R) as Hh by (apply elem_of_cons; by left).
  destruct (shared_pinned _ _ _ HI _ _ _ Hh Hn) as (c' & Hc' & Hf & _); [by eapply pinned_child|].
  destruct (face_child_Some c c' name cc) as (c1 & Hc1 & Hr1); [done..|].
  assert (cross (h_user h) t p true = Some c1) as Hcross.
  { unfold p. rewrite cross_snoc Hc'. cbn. by rewrite (face_owner _ _ Hf) Hown. }
  pose proof (shared_hold _ _ _ HI _ Hh) as Hok. unfold hold_ok in Hok. rewrite Hn Hw in Hok.
  destruct Hok as (Hl & Hs & Hag & Hin & (cc' & Hcc' & Hl1)). rewrite Hc in Hcc'. injection Hcc' as <-.
  set (h1 := mk_hold l m (h_user h) p (Live (disk s) c1) None).
  assert (ptrs (Hold h :: R) l ≠ 0%nat) as HP.
  { eapply tok_locks_ptrs; [exact Hh|]. cbn. rewrite Hw. set_solver. }
  pose proof (table_lock _ _ _ l m (holdings (Hold h1 :: Hold h :: R)) (sh_table _ _ _ HI) HP
    (one_more_Hold _ h1)) as Hlk.
  destruct (on_mutex l (lock_step m) (locks s)) as [T'| |f]; [| |done].
  - destruct Hlk as [HT Hdl]. exists c1. split_and!; [done..|by eapply (shared_cross _ _ _ HI)|].
    apply (shared_locked (Hold h) R [Hold (set_want None h)] s T' t l m (h_user h) p c1); try done.
    + by rewrite Hr1.
    + unfold blocks. cbn. by rewrite Hn.
    + intros k' ->%list_elem_of_singleton. cbn. unfold hold_ok. cbn. rewrite Hn.
      split_and!; [done..| |done]. left. by exists c'.
    + intros h' c2 [= <-]. by rewrite Hn.
    + eapply table_ext; [exact HT| |].
      * intros l'. rewrite !ptrs_cons. cbn. rewrite Hw. cbn. lia.
      * intros l' m'. rewrite !holdings_cons. cbn. lia.
  - destruct Hlk as [m' Hm']. apply holdings_nonzero in Hm' as (h2 & Hh2 & Hl2 & _).
    assert (h_path h2 = p) as Hp2.
    { apply (shared_lock_at (Hold h :: R) s t h2 p c1 HI Hh2); [by eapply cross_subtree|].
      by rewrite Hr1 Hl2. }
    apply elem_of_cons in Hh2 as [[= ->]|Hh2]; [|by exists h2]. exfalso. unfold p in Hp2.
    apply (f_equal length) in Hp2. rewrite length_app in Hp2. cbn in Hp2. lia.
Qed.

Lemma shared_unlock h R (s : state) t :
  shared (Hold h :: R) s t → h_want h = None → (∀ c, h_node h ≠ Binned c) →
  ∃ T', on_mutex (h_lock h) (unlock_step (h_mode h)) (locks s) = Done T' ∧
    shared (Ptr (h_lock h) :: R) (set_locks T' s) t.
Proof.
  intros HI Hw Hn. destruct (table_unlock _ _ _ _ _ _ (sh_table _ _ _ HI) (one_more_Hold R h))
    as (T' & Hu & HT & Hdl).
  { rewrite ptrs_cons. pose proof (ptrs_of_Hold h). lia. }
  exists T'. split; [done|]. apply (shared_change [Hold h] [Ptr (h_lock h)] R); [done|..].
  - unfold blocks. cbn. destruct (h_node h) as [| c|]; [done| |done]. by destruct (Hn c).
  - intros k _ b l _. by rewrite Hdl.
  - intros h2 c2 _. apply binned_swap. by intros h' c' [= ->]%list_elem_of_singleton.
  - by intros k ->%list_elem_of_singleton.
  - eapply table_ext; [exact HT| |done]. intros l. cbn [app]. rewrite !ptrs_cons. cbn.
    rewrite Hw. cbn. lia.
Qed.

Lemma shared_upgrade h R (s : state) t :
  shared (Hold h :: R) s t → h_mode h = Upgradable → h_node h ≠ Gone →
  match on_mutex (h_lock h) upgrade_step (locks s) with
  | Done T' => shared (Hold (set_mode Exclusive h) :: R) (set_locks T' s) t
  | Wait => ∃ h2, Hold h2 ∈ R ∧ h_mode h2 = Shared ∧ h_path h2 = h_path h
  | Crash _ => False
  end.
Proof.
  intros HI Hm Hg. set (h' := set_mode Exclusive h).
  assert (Hold h ∈ Hold h :: R) as Hh by (apply elem_of_cons; by left).
  assert (ptrs (Hold h :: R) (h_lock h) ≠ 0%nat) as HP.
  { rewrite ptrs_cons. pose proof (ptrs_of_Hold h). lia. }
  assert (one_more (h_lock h) Upgradable (holdings R) (holdings (Hold h :: R))) as HU
    by (rewrite -Hm; apply one_more_Hold).
  pose proof (table_upgrade _ _ _ _ _ _ (sh_table _ _ _ HI) HP HU (one_more_Hold R h')) as Hup.
  destruct (on_mutex (h_lock h) upgrade_step (locks s)) as [T'| |f]; [| |done].
  - destruct Hup as [HT Hdl]. apply (shared_change [Hold h] [Hold h'] R); [done|by unfold blocks| | | |].
    + intros k _ b l _. by rewrite Hdl.
    + intros h0 c _ (h2 & [[= ->]|Hh2]%elem_of_cons & Hr).
      * exists h'. split; [apply elem_of_cons; by left|done].
      * exists h2. split; [apply elem_of_cons; by right|done].
    + intros k ->%list_elem_of_singleton. pose proof (shared_hold _ _ _ HI _ Hh) as Hok.
      cbn. unfold hold_ok in *. cbn. rewrite Hdl. destruct (h_node h) as [d0 c|c|] eqn:Hn.
      * destruct Hok as (? & ? & ? & Hin & ?). split_and!; [done..| |by unfold want_ok in *; rewrite Hdl].
        destruct Hin as [|[Hp _]]; [by left|]. by rewrite pinned_mode // Hm in Hp.
      * destruct Hok as (? & ? & _ & ?). by split_and!.
      * done.
    + eapply table_ext; [exact HT|done|done].
  - apply holdings_nonzero in Hup as (h2 & Hh2 & Hl2 & Hm2).
    assert (h_path h2 = h_path h) as Hp.
    { apply (shared_same_path _ _ _ h h2 HI); [done..| |done]. by rewrite Hm. }
    apply elem_of_cons in Hh2 as [[= ->]|Hh2]; [congruence|by exists h2].
Qed.

(** The lock of an unlinked node leaves the map: its blocks are fresh. *)
Lemma shared_erase h c R (s : state) t :
  shared (Hold h :: R) s t → h_mode h = Exclusive → h_node h = Binned c →
  shared (fresh_toks ((λ b, (b, disk_read (disk s) b)) <$> node_blocks c) ++ Hold (set_node Gone h) :: R)
    (set_locks (erase_lock_step (root_block c) (locks s)) s) t.
Proof.
  intros HI Hm Hn. set (fs := (λ b, (b, _)) <$> _). set (h' := set_node Gone h).
  assert (Hold h ∈ Hold h :: R) as Hh by (apply elem_of_cons; by left).
  pose proof (shared_hold _ _ _ HI _ Hh) as Hok. unfold hold_ok in Hok. rewrite Hn in Hok.
  destruct Hok as (Hl & _ & _ & Hw).
  assert (∀ b l, data_locks (erase_lock_step (root_block c) (locks s)) !! b = Some l →
    data_locks (locks s) !! b = Some l) as Hback by (intros b l; cbn; by intros [_ ?]%lookup_delete_Some).
  assert (root_block c ∉ used t) as Hu.
  { apply (shared_own_unused _ _ _ HI), elem_of_blocks. exists (Hold h). split; [done|].
    cbn. rewrite Hn. apply root_block_node. }
  change (Hold h' :: R) with ([Hold h'] ++ R). rewrite app_assoc.
  apply (shared_change [Hold h] _ R); [done|..].
  - rewrite blocks_app blocks_fresh !blocks_cons. cbn. rewrite Hn !app_nil_r.
    subst fs. by rewrite -list_fmap_compose list_fmap_id.
  - intros k Hk b l Hlk. split; [|by apply Hback]. intros Hb. cbn.
    rewrite lookup_delete_ne //. intros <-. rewrite Hl in Hb. injection Hb as <-.
    destruct k as [| l0|h2|]; cbn in Hlk; [by apply not_elem_of_nil in Hlk| | |by apply not_elem_of_nil in Hlk].
    + apply list_elem_of_singleton in Hlk as <-.
      assert (data_locks (locks s) !! 0 = Some (h_lock h)) as H0.
      { apply (sh_toks _ _ _ HI (Root (h_lock h))), elem_of_cons. by right. }
      apply Hu. rewrite (tb_inj _ _ _ (sh_table _ _ _ HI) _ _ _ Hl H0). apply (shared_zero _ _ _ HI).
    + apply elem_of_cons in Hlk as [Hlk|Hlk].
      { by apply (shared_exclusive h h2 R s t). }
      destruct (h_want h2) as [[name l]|] eqn:Hw2; [|by apply not_elem_of_nil in Hlk].
      apply list_elem_of_singleton in Hlk as <-.
      assert (Hold h2 ∈ Hold h :: R) as Hh2 by (apply elem_of_cons; by right).
      pose proof (shared_hold _ _ _ HI _ Hh2) as Hok2. unfold hold_ok in Hok2. rewrite Hw2 in Hok2.
      destruct (h_node h2) as [d2 c2|c2|] eqn:Hn2; [|by destruct Hok2 as (_ & _ & _ & ?)|by destruct Hok2].
      destruct Hok2 as (_ & _ & _ & _ & (cc & Hcc & Hlcc)).
      destruct (shared_pinned _ _ _ HI _ _ _ Hh2 Hn2) as (c' & Hc' & Hf & _); [by eapply pinned_child|].
      destruct (face_child_Some c2 c' name cc) as (cc' & Hcc' & Hr); [done..|].
      apply Hu. rewrite (tb_inj _ _ _ (sh_table _ _ _ HI) _ _ _ Hl Hlcc) -Hr.
      eapply subtree_used; [by eapply cross_subtree|]. eapply used_child; [by apply child_elem|].
      apply root_block_used.
  - intros h2 c2 Hh2 (hb & [[= ->]|Hhb]%elem_of_cons & Hlb & Hr).
    { by destruct (shared_exclusive h h2 R s t). }
    exists hb. split; [by apply elem_of_app; right|done].
  - intros k [(b & bs & -> & Hb)%elem_of_fresh| ->%list_elem_of_singleton]%elem_of_app.
    + subst fs. apply list_elem_of_fmap in Hb as (b' & [= -> ->] & _). done.
    + split; [|done]. intros b Hb. cbn in Hb. apply lookup_delete_Some in Hb as [Hne Hb].
      apply Hne. by apply (tb_inj _ _ _ (sh_table _ _ _ HI) _ _ _ Hl Hb).
  - rewrite -app_assoc. eapply table_ext; [apply table_erase, HI|..]; intros.
    + by rewrite ptrs_fresh.
    + by rewrite holdings_fresh.
Qed.
End locks.
