(* ===== verification/FsLink.v ===== *)
(** * The write that changes the tree

    Each successful request changes the tree by one write to a block of a node
    held exclusively: it makes blocks that were fresh part of the tree, or takes a
    leaf out of it.  What the other threads know of their nodes stays true. *)

From S2P Require Import Prelude CStd Request FsTypes FsMonad FsTree FsSpec FsTraverse FsStored FsFace FsTable FsShared FsLocks.

Lemma subtree_app t p q : subtree t (p ++ q) = c ← subtree t p; subtree c q.
Proof.
  revert t. induction p as [|n p IH]; intros t; cbn [app subtree]; [done|].
  destruct (child t n) as [c|]; cbn; [apply IH|done].
Qed.

Lemma leaf_child c n : is_leaf c = true → child c n = None.
Proof. by destruct c as [|b o [|]]. Qed.

Section link.
Context {D M : Type} {HD : Disk D} {HDL : DiskLaws D} {SM : SharedMutex M} {SML : SharedMutexLaws M}.
Abbreviation state := (fs_state D M).
Abbreviation tok := (tok D).
Abbreviation hold := (hold D).

Context (h : hold) (d0 : D) (c c' : tree) (κ ρ : list tok) (s : state) (t : tree).
Context (b : Z) (bs : bytes) (g : tree → tree).
Context (HI : shared (Hold h :: κ ++ ρ) s t).
Context (Hmode : h_mode h = Exclusive) (Hnode : h_node h = Live d0 c) (Hwant : h_want h = None).
Context (Hcross : cross (h_user h) t (h_path h) true = Some c') (Hface : face_of c' = face_of c).
Context (Hb : b ∈ node_blocks c) (Hlen : length bs = n_block).
Context (Hroot : root_block (g c') = root_block c') (Howner : tree_owner (g c') = tree_owner c').
Context (Hdir : is_dir (g c') = is_dir c').
Abbreviation d' := (disk_write (disk s) b bs).
Abbreviation t' := (update t (h_path h) g).

Lemma link_h : Hold h ∈ Hold h :: κ ++ ρ.
Proof. apply elem_of_cons. by left. Qed.

Lemma link_other k : k ∈ ρ → k ∈ κ ++ ρ.
Proof. intros Hk. apply elem_of_app. by right. Qed.

Lemma link_reads k b' : k ∈ κ ++ ρ → b' ∈ tok_reads k → disk_read d' b' = disk_read (disk s) b'.
Proof using Hb HDL HI SML Hmode Hnode.
  intros Hk Hb'. apply disk_read_write_ne.
  - by eapply (shared_node_valid _ _ _ HI _ _ _ _ link_h).
  - eapply (shared_reads_valid _ _ _ _ _ HI); [|done]. apply elem_of_cons. by right.
  - intros <-. by eapply (shared_alone h d0 c _ _ _ k b HI).
Qed.

(** Another hold, if the node keeps the child on its way, or drops it as a leaf
    that this hold reads. *)
Lemma link_hold R' h2 :
  Hold h2 ∈ ρ →
  (∀ c0, binned (Hold h :: κ ++ ρ) (h_lock h2) (h_path h2) c0 → binned R' (h_lock h2) (h_path h2) c0) →
  (∀ n y, child c' n = Some y → child (g c') n = Some y ∨
     is_leaf y = true ∧ root_block y ≠ 0 ∧
     ∀ d2 c2, h_node h2 = Live d2 c2 → root_block c2 = root_block y →
       h_mode h2 = Shared ∧ binned R' (h_lock h2) (h_path h ++ [n]) y) →
  hold_ok R' (locks s) d' t' h2.
Proof using All.
  intros Hh2 Hbin Hkeep.
  assert (Hold h2 ∈ Hold h :: κ ++ ρ) as Hh2' by (apply elem_of_cons; right; by apply link_other).
  pose proof (shared_hold _ _ _ HI _ Hh2') as Hok. unfold hold_ok in *.
  destruct (h_node h2) as [d2 c2|c2|] eqn:Hn2; [|done..].
  destruct Hok as (Hl & Hs & Hag & Hin & Hw). split_and!; [done..| | |done].
  { intros b' Hb'. rewrite (link_reads (Hold h2)); [by apply Hag|by apply link_other|]. cbn. by rewrite Hn2. }
  destruct Hin as [(x & Hx & Hfx)|[Hp Hbn]]; [|right; split; [done|by apply Hbin]].
  pose proof (cross_subtree _ _ _ _ _ Hcross) as Hsub. pose proof (cross_subtree _ _ _ _ _ Hx) as Hxs.
  assert (h_path h2 ≠ h_path h) as Hne.
  { intros Heq. rewrite Heq Hsub in Hxs. injection Hxs as <-.
    apply (shared_exclusive h h2 (κ ++ ρ) s t); [done|by apply link_other| |done].
    destruct (shared_live _ _ _ HI _ _ _ link_h Hnode) as (_ & _ & Hl' & _).
    rewrite -(face_root _ _ Hface) (face_root _ _ Hfx) Hl in Hl'. by injection Hl'. }
  assert (shape t) as Hsh by apply HI.
  assert ((∀ n q' y, h_path h2 = h_path h ++ n :: q' → child c' n = Some y → child (g c') n = Some y) →
    in_tree t' h2 c2) as Hstay.
  { intros Hk. destruct (cross_update (h_user h2) t (h_path h) g c' (h_path h2) true x)
      as (x' & Hx' & Hfx'); [done..|]. exists x'. split; [done|congruence]. }
  destruct (decide (h_path h `prefix_of` h_path h2)) as [[q Hq]|Hnp].
  2: { left. apply Hstay. intros n q' y Heq. destruct Hnp. by exists (n :: q'). }
  destruct q as [|n q]; [by rewrite app_nil_r in Hq|].
  rewrite Hq subtree_app Hsub in Hxs. cbn in Hxs. apply bind_Some in Hxs as (y & Hy & Hxs).
  destruct (Hkeep n y Hy) as [Hgy|(Hleaf & Hr0 & Hlast)].
  { left. apply Hstay. intros n' q' y' Heq Hy'. rewrite Hq in Heq. apply app_inv_head in Heq.
    injection Heq as <- <-. congruence. }
  destruct q as [|n' q]; [|by cbn in Hxs; rewrite leaf_child in Hxs]. injection Hxs as <-.
  assert (y = c2) as <- by by apply face_is_leaf.
  destruct (Hlast d2 y) as [Hm Hbn]; [done..|]. right. rewrite Hq. split; [|done].
  unfold pinned. rewrite Hm Hleaf. rewrite bool_decide_eq_false_2; [|by intros ?]. cbn.
  by apply Z.eqb_neq.
Qed.

Section tokens.
Context (κ' : list tok).
Context (Hst : stored d' (g c')) (Hsh : shape (g c')).
Context (Hused : used (g c') ++ blocks κ' ≡ₚ used c' ++ blocks κ).
Abbreviation h' := (set_node (Live d' (g c')) h).

Lemma link_sound : sound d' (g c').
Proof using HDL HI SML Hcross Hst Hsh Hused.
  assert (subtree t (h_path h) = Some c') as Hsub by by eapply cross_subtree.
  assert (∀ x, x ∈ blocks κ → x ∈ blocks (Hold h :: κ ++ ρ)) as Hin.
  { intros x Hx. rewrite blocks_cons blocks_app !elem_of_app. auto. }
  assert (NoDup (used (g c') ++ blocks κ')) as (Hnd & _ & _)%NoDup_app.
  { rewrite Hused. apply NoDup_app. split_and!.
    - apply (sound_NoDup (disk s)). by eapply (shared_cross _ _ _ HI).
    - intros x Hx Hx'. apply (shared_own_unused _ _ _ HI x); [by apply Hin|]. by eapply subtree_used.
    - pose proof (shared_own_NoDup _ _ _ HI) as Hnd. rewrite blocks_cons blocks_app in Hnd.
      apply NoDup_app in Hnd as (_ & _ & Hnd). by apply NoDup_app in Hnd as (? & _ & _). }
  split; [done..|]. apply Forall_forall. intros x Hx.
  assert (x ∈ used c' ++ blocks κ) as [Hxc|Hxk]%elem_of_app.
  { rewrite -Hused. apply elem_of_app. by left. }
  - apply (shared_used_valid _ _ _ HI). by eapply subtree_used.
  - apply (shared_own_valid _ _ _ HI). by apply Hin.
Qed.

Lemma link_blocks : used t' ++ free_disk_blocks s ++ blocks (Hold h' :: κ' ++ ρ) ≡ₚ seqZ 0 FS_DISKSIZE.
Proof using HI Hcross Hnode Hused.
  assert (subtree t (h_path h) = Some c') as Hsub by by eapply cross_subtree.
  rewrite -(sh_blocks _ _ _ HI) !blocks_cons !blocks_app. cbn. rewrite Hnode. cbn.
  pose proof (used_update t (h_path h) g c' (sh_shape _ _ _ HI) Hsub) as Hup.
  apply (Permutation_app_inv_r (used c')). trans ((used t' ++ used c') ++ free_disk_blocks s ++ blocks κ' ++ blocks ρ); [solve_Permutation|].
  rewrite Hup. trans (used t ++ free_disk_blocks s ++ blocks ρ ++ (used (g c') ++ blocks κ')); [solve_Permutation|].
  rewrite Hused. solve_Permutation.
Qed.

Lemma shared_link :
  (∀ h2, Hold h2 ∈ ρ → hold_ok (Hold h' :: κ' ++ ρ) (locks s) d' t' h2) →
  (∀ k, k ∈ κ' → tok_ok (Hold h' :: κ' ++ ρ) (locks s) d' t' k) →
  (∀ l, ptrs κ' l = ptrs κ l) → (∀ l m, holdings κ' l m = holdings κ l m) →
  shared (Hold h' :: κ' ++ ρ) (set_disk d' s) t'.
Proof using All.
  intros Hρ Hκ HP HH. assert (subtree t (h_path h) = Some c') as Hsub by by eapply cross_subtree.
  assert (valid_block b) as Hvb by by eapply (shared_node_valid _ _ _ HI _ _ _ _ link_h).
  split; cbn.
  - eapply (stored_update (disk s)); [apply HI|apply HI| |exact Hsub| |done|done].
    + apply (sound_NoDup (disk s)), (shared_sound _ _ _ HI).
    + intros x Hx Hxn. apply disk_read_write_ne; [done|by apply (shared_used_valid _ _ _ HI)|].
      intros <-. apply Hxn, node_blocks_used. by rewrite (face_blocks _ _ Hface).
  - by eapply shape_update; [apply HI|exact Hsub|].
  - rewrite (is_dir_update _ _ _ _ Hsub Hdir). apply HI.
  - rewrite (root_block_update _ _ _ _ Hsub Hroot). apply HI.
  - apply link_blocks.
  - intros k [->|[Hk|Hk]%elem_of_app]%elem_of_cons; [|by apply Hκ|].
    + pose proof (shared_hold _ _ _ HI _ link_h) as Hok. cbn. unfold hold_ok in *. cbn. rewrite Hnode in Hok.
      destruct Hok as (Hl & _ & _ & _ & _).
      split_and!; [|apply link_sound|done| |by rewrite Hwant].
      * by rewrite Hroot (face_root _ _ Hface).
      * left. exists (g c'). split; [|done]. by apply cross_update_here.
    + destruct k as [l|l|h2|b' bs']; [done| |by apply Hρ|].
      * apply (sh_toks _ _ _ HI (Root l)), elem_of_cons. right. by apply link_other.
      * cbn. rewrite (link_reads (Fresh b' bs')); [|by apply link_other|apply elem_of_cons; by left].
        apply (sh_toks _ _ _ HI (Fresh b' bs')), elem_of_cons. right. by apply link_other.
  - eapply table_ext; [apply HI|..].
    + intros l. rewrite !ptrs_cons. unfold ptrs in *. rewrite !sum_list_with_app HP. done.
    + intros l m. rewrite !holdings_cons. unfold holdings in *. rewrite !sum_list_with_app HH. done.
Qed.
End tokens.
End link.

Section links.
Context {D M : Type} {HD : Disk D} {HDL : DiskLaws D} {SM : SharedMutex M} {SML : SharedMutexLaws M}.
Abbreviation state := (fs_state D M).
Abbreviation tok := (tok D).
Abbreviation hold := (hold D).

(** What a write by the holder of a node does to it. *)
Record node_change (c' : tree) (d' : D) (g : tree → tree) : Prop := {
  nc_stored : stored d' (g c');
  nc_shape : shape (g c');
  nc_root : root_block (g c') = root_block c';
  nc_owner : tree_owner (g c') = tree_owner c';
  nc_dir : is_dir (g c') = is_dir c' }.

(** Fresh blocks become part of the node, and its children stay. *)
Lemma shared_link_keep h d0 c c' fs ρ (s : state) t b bs g :
  shared (Hold h :: fresh_toks fs ++ ρ) s t →
  h_mode h = Exclusive → h_node h = Live d0 c → h_want h = None →
  cross (h_user h) t (h_path h) true = Some c' → face_of c' = face_of c →
  b ∈ node_blocks c → length bs = n_block →
  node_change c' (disk_write (disk s) b bs) g →
  (∀ n y, child c' n = Some y → child (g c') n = Some y) →
  used (g c') ≡ₚ used c' ++ fs.*1 →
  shared (Hold (set_node (Live (disk_write (disk s) b bs) (g c')) h) :: ρ)
    (set_disk (disk_write (disk s) b bs) s) (update t (h_path h) g).
Proof.
  intros HI Hm Hn Hw Hc Hf Hb Hlen [Hst Hsh Hr Ho Hdir] Hkeep Hu.
  apply (shared_link h d0 c c' (fresh_toks fs) ρ s t b bs g HI Hm Hn Hw Hc Hf Hb Hlen Hr Ho Hdir []);
    [done|done| | | | |].
  - by rewrite blocks_fresh Hu app_nil_r.
  - intros h2 Hh2. eapply (link_hold h d0 c c' (fresh_toks fs) ρ); [done..| |].
    + intros c0 (hb & [[= ->]|[Hhb|Hhb]%elem_of_app]%elem_of_cons & Hr').
      * rewrite Hn in Hr'. by destruct Hr' as (_ & _ & ?).
      * by apply elem_of_fresh in Hhb as (? & ? & ? & _).
      * exists hb. split; [|done]. apply elem_of_cons. by right.
    + intros n y Hy. left. by apply Hkeep.
  - by intros k ?%not_elem_of_nil.
  - intros l. unfold fresh_toks. pose proof (ptrs_fresh fs ([] : list tok) l) as HP.
    by rewrite app_nil_r in HP.
  - intros l m. pose proof (holdings_fresh fs ([] : list tok) l m) as HP. by rewrite app_nil_r in HP.
Qed.

(** A leaf, locked against other writers, leaves the tree; blocks of the node are
    freed with it. *)
Lemma shared_link_delete h ht d0 dt c c' x n freed ρ (s : state) t b bs g :
  shared (Hold h :: Hold ht :: ρ) s t →
  h_mode h = Exclusive → h_node h = Live d0 c → h_want h = None →
  cross (h_user h) t (h_path h) true = Some c' → face_of c' = face_of c →
  b ∈ node_blocks c → length bs = n_block →
  h_mode ht = Upgradable → h_node ht = Live dt x → h_want ht = None →
  h_path ht = h_path h ++ [n] → child c' n = Some x → is_leaf x = true →
  node_change c' (disk_write (disk s) b bs) g →
  (∀ n' y, n' ≠ n → child c' n' = Some y → child (g c') n' = Some y) →
  used (g c') ++ node_blocks x ++ freed ≡ₚ used c' →
  shared (Hold (set_node (Live (disk_write (disk s) b bs) (g c')) h)
          :: (Hold (set_node (Binned x) ht)
          :: fresh_toks ((λ y, (y, disk_read (disk_write (disk s) b bs) y)) <$> freed)) ++ ρ)
    (set_disk (disk_write (disk s) b bs) s) (update t (h_path h) g).
Proof.
  intros HI Hm Hn Hw Hc Hf Hb Hlen Hmt Hnt Hwt Hpt Hx Hleaf [Hst Hsh Hr Ho Hdir] Hkeep Hu.
  set (fs := (λ y, (y, _)) <$> freed). set (d' := disk_write _ _ _) in *.
  assert (Hold ht ∈ Hold h :: Hold ht :: ρ) as Hht by set_solver.
  destruct (shared_live _ _ _ HI _ _ _ Hht Hnt) as (_ & _ & Hlt & _).
  assert (root_block x ≠ 0) as Hx0.
  { intros Heq. pose proof (cross_subtree _ _ _ _ _ Hc) as Hsub.
    assert (h_path h ++ [n] = []) as Hnil; [|by destruct (h_path h)].
    eapply (subtree_root_unique t _ _ x t); [apply (sound_NoDup (disk s)), (shared_sound _ _ _ HI)| |done|].
    - rewrite subtree_app Hsub. cbn. by rewrite Hx.
    - by rewrite Heq (sh_root _ _ _ HI). }
  apply (shared_link h d0 c c' [Hold ht] ρ s t b bs g HI Hm Hn Hw Hc Hf Hb Hlen Hr Ho Hdir
    (Hold (set_node (Binned x) ht) :: fresh_toks fs)); [done|done| | | | |].
  - rewrite blocks_cons blocks_fresh. unfold blocks. cbn. rewrite Hnt. cbn. rewrite app_nil_r.
    subst fs. rewrite -list_fmap_compose list_fmap_id. exact Hu.
  - intros h2 Hh2. eapply (link_hold h d0 c c' [Hold ht] ρ); [done..| |].
    + intros c0 (hb & [[= ->]|[[= ->]|Hhb]%elem_of_cons]%elem_of_cons & Hrb).
      * rewrite Hn in Hrb. by destruct Hrb as (_ & _ & ?).
      * rewrite Hnt in Hrb. by destruct Hrb as (_ & _ & ?).
      * exists hb. split; [|done]. rewrite !elem_of_cons !elem_of_app. auto.
    + intros n' y Hy. destruct (decide (n' = n)) as [->|Hne]; [right|left; by apply Hkeep].
      rewrite Hx in Hy. injection Hy as <-. split_and!; [done..|]. intros d2 c2 Hn2 Hr2.
      assert (Hold h2 ∈ Hold h :: Hold ht :: ρ) as Hh2' by (rewrite !elem_of_cons; auto).
      destruct (shared_live _ _ _ HI _ _ _ Hh2' Hn2) as (_ & _ & Hl2 & _).
      assert (h_lock h2 = h_lock ht) as Hll by (rewrite Hr2 Hlt in Hl2; by injection Hl2).
      split.
      * apply (shared_upgradable ht h2 (Hold h :: ρ) s t); [| |done|done].
        -- eapply shared_perm; [|exact HI]. apply perm_swap.
        -- apply elem_of_cons. by right.
      * exists (set_node (Binned x) ht). split; [rewrite !elem_of_cons; auto|]. by split_and!.
  - intros k [->|Hk]%elem_of_cons.
    + cbn. unfold hold_ok. cbn. rewrite Hlt Hmt. by split_and!.
    + apply elem_of_fresh in Hk as (y & bs' & -> & Hy). subst fs.
      by apply list_elem_of_fmap in Hy as (y' & [= -> ->] & _).
  - intros l. pose proof (ptrs_fresh fs ([] : list tok) l) as HP. rewrite app_nil_r in HP.
    rewrite !ptrs_cons HP. done.
  - intros l m. pose proof (holdings_fresh fs ([] : list tok) l m) as HP. rewrite app_nil_r in HP.
    rewrite !holdings_cons HP. done.
Qed.
End links.
