(* ===== verification/FsAtomic.v ===== *)
(** * A program logic for handlers that run together

    [cwp req p κ q Q]: a thread that handles [req] and owns the tokens [κ] can run
    [p] to its end in [Q] whatever the other threads do in between: each of its
    steps is without fault, keeps the shared state right, and waits only for
    another thread.  [q] says whether the request has been answered: at one step
    of the handler the tree changes as [spec_request] says, for the blocks that are
    neither in the tree nor in the hands of other requests. *)

From S2P Require Import Prelude CStd Request FsTypes FsMonad FileSystem FsTree FsSpec FsTraverse FsStored FsFace FsTable FsShared FsLocks FsLink.

(** The request has no effect yet, or it had its effect, with this answer. *)
Inductive status := Pending | Answered (r : out_block).

(** Nothing happens to the request, or all of it happens at once, with the blocks
    that are neither in the tree nor in the hands of other requests. *)
Definition answers (req : Request) (held : list Z) (t : tree) (q : status) (t' : tree) (q' : status)
    : Prop :=
  (t' = t ∧ q' = q) ∨
  (q = Pending ∧ ∃ r fr fr', q' = Answered r ∧
     spec_request req (mk_fsys t fr) = (r, mk_fsys t' fr') ∧
     used t ++ fr ++ held ≡ₚ seqZ 0 FS_DISKSIZE).

(** A request has at most so many blocks in its hands: those of a file and of the
    direntries that are deleted with it. *)
Definition held_max : nat := n_blocks + 2.

Section cwp.
Context {D M : Type} {HD : Disk D} {HDL : DiskLaws D} {SM : SharedMutex M} {SML : SharedMutexLaws M}.
Abbreviation state := (fs_state D M).
Abbreviation tok := (tok D).
Abbreviation hold := (hold D).

(** ** Steps of one thread *)

(** The blocks whose contents only this thread may change. *)
Definition tok_writes (k : tok) : list Z :=
  match k with
  | Fresh b _ => [b]
  | Hold h =>
      match h_mode h, h_node h with Exclusive, Live _ c => node_blocks c | _, _ => [] end
  | _ => []
  end.

Definition access {X} (e : fsE X) (κ : list tok) : Prop :=
  match e with
  | DiskRead b => ∃ k, k ∈ κ ∧ b ∈ tok_reads k
  | DiskWrite b _ => ∃ k, k ∈ κ ∧ b ∈ tok_writes k
  | _ => True
  end.

(** Whom a thread waits for: the holder of a lock deeper in the tree than its own,
    or, to upgrade its only lock, a reader at the same depth. *)
Definition blocked (κ ρ : list tok) : Prop :=
  (∃ d, (∀ h, Hold h ∈ κ → length (h_path h) < d)%nat ∧
     ∃ h, Hold h ∈ ρ ∧ length (h_path h) = d) ∨
  (∃ d, (∀ h, Hold h ∈ κ → length (h_path h) = d ∧ h_mode h = Upgradable) ∧
     ∃ h, Hold h ∈ ρ ∧ length (h_path h) = d ∧ h_mode h = Shared).

Context (req : Request).

(** A thread takes blocks only up to the bound. *)
Definition few (κ κ' : list tok) : Prop :=
  (length (blocks κ') ≤ max held_max (length (blocks κ)))%nat.

Lemma few_same κ κ' : blocks κ ≡ₚ blocks κ' → few κ κ'.
Proof. unfold few. intros ->. lia. Qed.

Lemma few_less κ κ' : (length (blocks κ') ≤ length (blocks κ))%nat → few κ κ'.
Proof. unfold few. lia. Qed.

Definition eff {X} (e : fsE X) (κ : list tok) (q : status) (Q : X → list tok → status → Prop)
    : Prop :=
  access e κ ∧
  ∀ ρ (s : state) t, shared (κ ++ ρ) s t →
    match exec e s with
    | Done (x, s') => ∃ κ' t' q', shared (κ' ++ ρ) s' t' ∧
        answers req (blocks ρ) t q t' q' ∧ few κ κ' ∧ Q x κ' q'
    | Wait => blocked κ ρ
    | Crash _ => False
    end.

Fixpoint cwp {A} (p : prog A) (κ : list tok) (q : status) (Q : A → list tok → status → Prop)
    : Prop :=
  match p with
  | Ret a => Q a κ q
  | Do e k => eff e κ q (λ x κ' q', cwp (k x) κ' q' Q)
  end.

(** ** Structural rules *)

Lemma eff_mono {X} (e : fsE X) κ q (Q Q' : X → list tok → status → Prop) :
  eff e κ q Q → (∀ x κ' q', Q x κ' q' → Q' x κ' q') → eff e κ q Q'.
Proof.
  intros [Ha He] HQ. split; [done|]. intros ρ s t HI. specialize (He ρ s t HI).
  destruct (exec e s) as [[x s']| |]; [|done..].
  destruct He as (κ' & t' & q' & ? & ? & ? & ?). eauto 10.
Qed.

Lemma eff_perm {X} (e : fsE X) κ κ' q Q : κ ≡ₚ κ' → eff e κ q Q → eff e κ' q Q.
Proof.
  intros HP [Ha He]. split.
  - destruct e; try done; destruct Ha as (k & Hk & ?); exists k; by rewrite -HP.
  - intros ρ s t HI. rewrite -HP in HI. specialize (He ρ s t HI).
    destruct (exec e s) as [[x s']| |]; [| |done].
    + unfold few in *. by setoid_rewrite HP in He.
    + unfold blocked in *. by setoid_rewrite HP in He.
Qed.

Lemma cwp_mono {A} (p : prog A) κ q (Q Q' : A → list tok → status → Prop) :
  cwp p κ q Q → (∀ a κ' q', Q a κ' q' → Q' a κ' q') → cwp p κ q Q'.
Proof.
  revert κ q. induction p as [a|X e k IH]; intros κ q; cbn; [auto|].
  intros He HQ. eapply eff_mono; [exact He|]. eauto.
Qed.

Lemma cwp_bind {A B} (p : prog A) (k : A → prog B) κ q Q :
  cwp p κ q (λ a κ' q', cwp (k a) κ' q' Q) → cwp (p ≫= k) κ q Q.
Proof.
  revert κ q. induction p as [a|X e k' IH]; intros κ q; cbn; [done|].
  intros He. eapply eff_mono; [exact He|]. intros x κ' q'. apply IH.
Qed.

Lemma cwp_perm {X B} (e : fsE X) (k : X → prog B) κ κ' q Q :
  κ ≡ₚ κ' → cwp (perform e ≫= k) κ' q Q → cwp (perform e ≫= k) κ q Q.
Proof. intros HP. apply eff_perm. by symmetry. Qed.

Lemma cwp_mret {A B} (a : A) (k : A → prog B) κ q Q :
  cwp (k a) κ q Q → cwp (mret a ≫= k) κ q Q.
Proof. done. Qed.

Lemma cwp_get_some {A B} f (o : option A) a (k : A → prog B) κ q Q :
  o = Some a → cwp (k a) κ q Q → cwp (get_some f o ≫= k) κ q Q.
Proof. by intros ->. Qed.

(** ** Answering without a change *)

(** As long as a thread owns [κ], its request can be answered by [r] with no
    effect on the tree, whatever the free blocks are. *)
Definition settled (κ : list tok) (r : out_block) : Prop :=
  ∀ ρ (s : state) t, shared (κ ++ ρ) s t →
    ∀ fr, spec_request req (mk_fsys t fr) = (r, mk_fsys t fr).

Lemma shared_held κ ρ (s : state) t :
  shared (κ ++ ρ) s t → used t ++ (free_disk_blocks s ++ blocks κ) ++ blocks ρ ≡ₚ seqZ 0 FS_DISKSIZE.
Proof. intros HI. rewrite -(sh_blocks _ _ _ HI) blocks_app. by rewrite !app_assoc. Qed.

(** A request that can be answered may be answered at the next step. *)
Lemma cwp_answer {X B} r (e : fsE X) (k : X → prog B) κ Q :
  settled κ r → cwp (perform e ≫= k) κ (Answered r) Q → cwp (perform e ≫= k) κ Pending Q.
Proof.
  intros Hr [Ha He]. split; [done|]. intros ρ s t HI. specialize (He ρ s t HI).
  destruct (exec e s) as [[x s']| |]; [|done..].
  destruct He as (κ' & t' & q' & HI' & Hans & HQ). exists κ', t', q'. split; [done|]. split; [|done].
  destruct Hans as [[-> ->]|[? _]]; [|done]. right. split; [done|].
  exists r, (free_disk_blocks s ++ blocks κ), (free_disk_blocks s ++ blocks κ). split_and!.
  - done.
  - by eapply Hr.
  - by eapply shared_held.
Qed.

(** The request stays as it is, or is answered with no effect on the tree [t]. *)
Definition settles (t : tree) (q q' : status) : Prop :=
  q' = q ∨ (q = Pending ∧ ∃ r, q' = Answered r ∧
    ∀ fr, spec_request req (mk_fsys t fr) = (r, mk_fsys t fr)).

Lemma settles_refl t q : settles t q q.
Proof. by left. Qed.

Lemma settles_answers κ ρ (s : state) t q q' :
  shared (κ ++ ρ) s t → settles t q q' → answers req (blocks ρ) t q t q'.
Proof.
  intros HI [->|(-> & r & -> & Hr)]; [by left|right]. split; [done|].
  exists r, (free_disk_blocks s ++ blocks κ), (free_disk_blocks s ++ blocks κ). split_and!.
  - done.
  - by apply Hr.
  - by eapply shared_held.
Qed.

(** No free block: the specification may answer for the blocks this thread has. *)
Lemma no_space_answers κ ρ (s : state) t r :
  shared (κ ++ ρ) s t → free_disk_blocks s = [] →
  spec_request req (mk_fsys t (blocks κ)) = (r, mk_fsys t (blocks κ)) →
  answers req (blocks ρ) t Pending t (Answered r).
Proof.
  intros HI Hfr Hr. right. split; [done|]. exists r, (blocks κ), (blocks κ). split_and!; [done..|].
  pose proof (shared_held _ _ _ _ HI) as Hh. by rewrite Hfr in Hh.
Qed.

(** ** The disk *)

Lemma cwp_read_live {B} h d0 c b (k : bytes → prog B) κ q Q :
  Hold h ∈ κ → h_node h = Live d0 c → b ∈ node_blocks c →
  cwp (k (disk_read d0 b)) κ q Q → cwp (disk_readblock b ≫= k) κ q Q.
Proof.
  intros Hh Hn Hb Hk. split.
  { exists (Hold h). split; [done|]. cbn. by rewrite Hn. }
  intros ρ s t HI. assert (Hold h ∈ κ ++ ρ) as Hh' by (apply elem_of_app; by left). cbn.
  rewrite decide_True; [|by eapply (shared_node_valid _ _ _ HI)].
  exists κ, t, q. split; [done|]. split; [by left|]. split; [by apply few_same|].
  destruct (shared_live _ _ _ HI _ _ _ Hh' Hn) as (_ & -> & _); done.
Qed.

Lemma cwp_read_inode {B} h d0 c (k : fs_inode → prog B) κ κ0 q Q :
  κ ≡ₚ Hold h :: κ0 → h_node h = Live d0 c →
  cwp (k (read_as fs_inode d0 (root_block c))) (Hold h :: κ0) q Q →
  cwp (read_inode (root_block c) ≫= k) κ q Q.
Proof.
  intros HP Hn Hk. apply cwp_bind. eapply cwp_perm; [exact HP|].
  eapply cwp_read_live; [apply elem_of_cons; by left|exact Hn|apply root_block_node|exact Hk].
Qed.

Lemma cwp_write_fresh {B} b bs0 bs (k : unit → prog B) κ κ0 q Q :
  κ ≡ₚ Fresh b bs0 :: κ0 → length bs = n_block →
  cwp (k tt) (Fresh b bs :: κ0) q Q → cwp (disk_writeblock b bs ≫= k) κ q Q.
Proof.
  intros HP Hlen Hk. eapply cwp_perm; [exact HP|]. split.
  { exists (Fresh b bs0). split; [apply elem_of_cons; by left|]. apply elem_of_cons. by left. }
  intros ρ s t HI. cbn. rewrite decide_True.
  - exists (Fresh b bs :: κ0), t, q. split; [by eapply shared_write_fresh|].
    split; [by left|]. split; [by apply few_same|done].
  - apply (shared_own_valid _ _ _ HI), elem_of_blocks. exists (Fresh b bs0).
    split; apply elem_of_cons; by left.
Qed.

(** ** The free list *)

Lemma cwp_free {X B} (f : list Z → X * list Z) (k : X → prog B) κ q Q :
  (∀ ρ (s : state) t, shared (κ ++ ρ) s t → ∃ κ' q',
     shared (κ' ++ ρ) (set_free (f (free_disk_blocks s)).2 s) t ∧
     answers req (blocks ρ) t q t q' ∧ few κ κ' ∧ cwp (k (f (free_disk_blocks s)).1) κ' q' Q) →
  cwp (with_free_list f ≫= k) κ q Q.
Proof.
  intros Hk. split; [done|]. intros ρ s t HI. cbn.
  destruct (Hk ρ s t HI) as (κ' & q' & HI' & Hans & Hfew & HQ).
  destruct (f (free_disk_blocks s)) as [x l]. cbn in *. by exists κ', t, q'.
Qed.

(** A look at the list. *)
Lemma cwp_peek {X B} (f : list Z → X) (k : X → prog B) κ q Q :
  (∀ ρ (s : state) t, shared (κ ++ ρ) s t → ∃ q',
     answers req (blocks ρ) t q t q' ∧ cwp (k (f (free_disk_blocks s))) κ q' Q) →
  cwp (with_free_list (λ l, (f l, l)) ≫= k) κ q Q.
Proof.
  intros Hk. apply cwp_free. intros ρ s t HI. destruct (Hk ρ s t HI) as (q' & Hans & HQ).
  exists κ, q'. split; [by destruct s|]. split; [done|]. split; [by apply few_same|done].
Qed.

(** A block of the free list can be used, and is not the root. *)
Lemma shared_free_block R (s : state) t b :
  shared R s t → b ∈ free_disk_blocks s → valid_block b ∧ b ≠ 0.
Proof.
  intros HI Hb. split.
  - apply (shared_valid _ _ _ HI). rewrite !elem_of_app. auto.
  - intros ->. pose proof (shared_NoDup _ _ _ HI) as (_ & Hd & _)%NoDup_app.
    apply (Hd 0); [apply (shared_zero _ _ _ HI)|]. apply elem_of_app. by left.
Qed.

Lemma cwp_pop {B} (k : option Z → prog B) κ q Q :
  (length (blocks κ) < held_max)%nat →
  (∀ b bs, valid_block b → b ≠ 0 → cwp (k (Some b)) (Fresh b bs :: κ) q Q) →
  (∀ ρ (s : state) t, shared (κ ++ ρ) s t → free_disk_blocks s = [] → ∃ q',
     answers req (blocks ρ) t q t q' ∧ cwp (k None) κ q' Q) →
  cwp (with_free_list pop_front ≫= k) κ q Q.
Proof.
  intros Hfew Hsome Hnone. apply cwp_free. intros ρ s t HI.
  destruct (free_disk_blocks s) as [|b fr] eqn:Hfr; cbn.
  - destruct (Hnone ρ s t HI Hfr) as (q' & Hans & HQ). exists κ, q'.
    split; [destruct s; cbn in *; by subst|]. split; [done|]. split; [by apply few_same|done].
  - exists (Fresh b (disk_read (disk s) b) :: κ), q. split; [by apply shared_take|].
    split; [by left|]. split; [unfold few; rewrite blocks_cons; cbn [tok_blocks app length]; lia|]. destruct (shared_free_block _ _ _ b HI) as [Hv Hz]; [|by apply Hsome].
    rewrite Hfr. apply elem_of_cons. by left.
Qed.

Lemma cwp_give {B} fs (f : list Z → unit * list Z) (k : unit → prog B) κ κ0 q Q :
  κ ≡ₚ fresh_toks fs ++ κ0 → (∀ l, (f l).2 ≡ₚ l ++ fs.*1) →
  cwp (k tt) κ0 q Q → cwp (with_free_list f ≫= k) κ q Q.
Proof.
  intros HP Hf Hk. eapply cwp_perm; [exact HP|]. apply cwp_free. intros ρ s t HI.
  rewrite -app_assoc in HI. exists κ0, q. split; [by eapply shared_give|]. split; [by left|].
  split; [apply few_less; rewrite blocks_app length_app; lia|]. by destruct (f (free_disk_blocks s)).1.
Qed.

(** ** Pointers to locks *)

Lemma cwp_get_root {B} (k : lockref → prog B) κ q Q :
  (∀ l, cwp (k l) (Root l :: κ) q Q) → cwp (get_lock_ptr 0 ≫= k) κ q Q.
Proof.
  intros Hk. split; [done|]. intros ρ s t HI. cbn.
  destruct (get_lock_ptr_step 0 (locks s)) as [l T'] eqn:Hg.
  exists (Root l :: κ), t, q. split; [by apply shared_get_root|]. split; [by left|].
  split; [by apply few_same|apply Hk].
Qed.

Lemma cwp_get_child {B} h d0 c name cc (k : lockref → prog B) κ κ0 q Q :
  κ ≡ₚ Hold h :: κ0 → h_node h = Live d0 c → h_want h = None → child c name = Some cc →
  (∀ l, cwp (k l) (Hold (set_want (Some (name, l)) h) :: κ0) q Q) →
  cwp (get_lock_ptr (root_block cc) ≫= k) κ q Q.
Proof.
  intros HP Hn Hw Hc Hk. eapply cwp_perm; [exact HP|]. split; [done|]. intros ρ s t HI. cbn.
  destruct (get_lock_ptr_step (root_block cc) (locks s)) as [l T'] eqn:Hg.
  exists (Hold (set_want (Some (name, l)) h) :: κ0), t, q.
  split; [by eapply shared_get_child|]. split; [by left|]. split; [by apply few_same|apply Hk].
Qed.

Lemma cwp_drop {B} l (k : unit → prog B) κ κ0 q Q :
  κ ≡ₚ Ptr l :: κ0 → cwp (k tt) κ0 q Q → cwp (drop_ptr l ≫= k) κ q Q.
Proof.
  intros HP Hk. eapply cwp_perm; [exact HP|]. split; [done|]. intros ρ s t HI. cbn.
  destruct (shared_drop _ _ _ _ HI) as (T' & -> & HI'). exists κ0, t, q.
  split; [done|]. split; [by left|]. split; [by apply few_same|done].
Qed.

Lemma cwp_erase {B} h c (k : unit → prog B) κ κ0 q Q :
  κ ≡ₚ Hold h :: κ0 → h_mode h = Exclusive → h_node h = Binned c →
  (∀ fs, fs.*1 = node_blocks c → cwp (k tt) (fresh_toks fs ++ Hold (set_node Gone h) :: κ0) q Q) →
  cwp (erase_lock (root_block c) ≫= k) κ q Q.
Proof.
  intros HP Hm Hn Hk. eapply cwp_perm; [exact HP|]. split; [done|]. intros ρ s t HI. cbn.
  set (fs := (λ b, (b, disk_read (disk s) b)) <$> node_blocks c).
  assert (fs.*1 = node_blocks c) as Hfs by (subst fs; by rewrite -list_fmap_compose list_fmap_id).
  exists (fresh_toks fs ++ Hold (set_node Gone h) :: κ0), t, q.
  split; [|split; [by left|split; [|by apply Hk]]].
  - rewrite -app_assoc. by apply shared_erase.
  - apply few_same. rewrite blocks_app blocks_fresh Hfs !blocks_cons. cbn. by rewrite Hn.
Qed.

(** ** Locks *)

Definition holdless (κ : list tok) : Prop := ∀ h, Hold h ∉ κ.

Lemma holdless_nil : holdless [].
Proof. intros h. apply not_elem_of_nil. Qed.

Lemma holdless_cons k κ : (∀ h, k ≠ Hold h) → holdless κ → holdless (k :: κ).
Proof. intros Hk Hκ h [Heq|Hin]%elem_of_cons; [by apply (Hk h)|by apply (Hκ h)]. Qed.

Lemma cwp_lock_root {B} m user l (k : unit → prog B) κ κ0 q Q :
  κ ≡ₚ Root l :: κ0 → holdless κ0 →
  (∀ d t, sound d t → root_block t = 0 → is_dir t = true → ∃ q', settles t q q' ∧
     cwp (k tt) (Hold (mk_hold l m user [] (Live d t) None) :: κ0) q' Q) →
  cwp (lock m l ≫= k) κ q Q.
Proof.
  intros HP Hno Hk. eapply cwp_perm; [exact HP|]. split; [done|]. intros ρ s t HI. cbn.
  pose proof (shared_lock_root m user _ _ _ _ HI) as Hlk.
  destruct (on_mutex l (lock_step m) (locks s)) as [T'| |]; cbn; [| |done].
  - destruct (Hk (disk s) t) as (q' & Hset & Hq);
      [by apply (shared_sound _ _ _ HI)|apply HI|apply HI|].
    exists (Hold (mk_hold l m user [] (Live (disk s) t) None) :: κ0), t, q'.
    split; [exact Hlk|]. split; [|split; [by apply few_same|done]].
    eapply (settles_answers (Root l :: κ0)); [exact HI|done].
  - left. exists 0%nat. split.
    + intros h [?|Hh]%elem_of_cons; [done|]. by apply Hno in Hh.
    + destruct Hlk as (h & [Hh|Hh]%elem_of_app & Hp); [by apply Hno in Hh|]. exists h. by rewrite Hp.
Qed.

Lemma cwp_lock_child {B} m h d0 c name cc l (k : unit → prog B) κ κ0 q Q :
  κ ≡ₚ Hold h :: κ0 → holdless κ0 → h_node h = Live d0 c → h_want h = Some (name, l) →
  child c name = Some cc →
  negb (first_of (h_path h) true) && negb (String.eqb (h_user h) (tree_owner c)) = false →
  (∀ d t c1, sound d c1 → cross (h_user h) t (h_path h ++ [name]) true = Some c1 →
     root_block c1 = root_block cc → ∃ q', settles t q q' ∧
     cwp (k tt) (Hold (mk_hold l m (h_user h) (h_path h ++ [name]) (Live d c1) None)
                 :: Hold (set_want None h) :: κ0) q' Q) →
  cwp (lock m l ≫= k) κ q Q.
Proof.
  intros HP Hno Hn Hw Hc Hown Hk. eapply cwp_perm; [exact HP|]. split; [done|]. intros ρ s t HI. cbn.
  pose proof (shared_lock_child m _ _ _ _ _ _ _ _ _ HI Hn Hw Hc Hown) as Hlk.
  destruct (on_mutex l (lock_step m) (locks s)) as [T'| |]; cbn; [| |done].
  - destruct Hlk as (c1 & Hc1 & Hr & Hs & HI'). destruct (Hk (disk s) t c1) as (q' & Hset & Hq); [done..|].
    exists (Hold (mk_hold l m (h_user h) (h_path h ++ [name]) (Live (disk s) c1) None)
      :: Hold (set_want None h) :: κ0), t, q'. split; [exact HI'|]. split; [|split; [by apply few_same|done]].
    eapply (settles_answers (Hold h :: κ0)); [exact HI|done].
  - left. exists (S (length (h_path h))). split.
    + intros h' [[= ->]|Hh]%elem_of_cons; [lia|]. by apply Hno in Hh.
    + destruct Hlk as (h2 & [Hh|Hh]%elem_of_app & Hp); [by apply Hno in Hh|].
      exists h2. rewrite Hp length_app. split; [done|]. cbn. lia.
Qed.

Lemma cwp_unlock {B} h (k : unit → prog B) κ κ0 q Q :
  κ ≡ₚ Hold h :: κ0 → h_want h = None → (∀ c, h_node h ≠ Binned c) →
  cwp (k tt) (Ptr (h_lock h) :: κ0) q Q →
  cwp (unlock (h_mode h) (h_lock h) ≫= k) κ q Q.
Proof.
  intros HP Hw Hn Hk. eapply cwp_perm; [exact HP|]. split; [done|]. intros ρ s t HI. cbn.
  destruct (shared_unlock _ _ _ _ HI Hw Hn) as (T' & -> & HI'). cbn.
  exists (Ptr (h_lock h) :: κ0), t, q. split; [exact HI'|]. split; [by left|].
  split; [apply few_less; rewrite !blocks_cons !length_app; cbn [tok_blocks length]; lia|done].
Qed.

Lemma cwp_upgrade {B} h (k : unit → prog B) κ κ0 q Q :
  κ ≡ₚ Hold h :: κ0 → holdless κ0 → h_mode h = Upgradable → h_node h ≠ Gone →
  cwp (k tt) (Hold (set_mode Exclusive h) :: κ0) q Q →
  cwp (upgrade (h_lock h) ≫= k) κ q Q.
Proof.
  intros HP Hno Hm Hg Hk. eapply cwp_perm; [exact HP|]. split; [done|]. intros ρ s t HI. cbn.
  pose proof (shared_upgrade _ _ _ _ HI Hm Hg) as Hup.
  destruct (on_mutex (h_lock h) upgrade_step (locks s)) as [T'| |]; cbn; [| |done].
  - exists (Hold (set_mode Exclusive h) :: κ0), t, q. split; [exact Hup|]. split; [by left|].
    split; [by apply few_same|done].
  - right. exists (length (h_path h)). split.
    + intros h' [[= ->]|Hh]%elem_of_cons; [done|]. by apply Hno in Hh.
    + destruct Hup as (h2 & [Hh|Hh]%elem_of_app & Hm2 & Hp); [by apply Hno in Hh|].
      exists h2. by rewrite Hp.
Qed.

(** ** The write that answers the request *)

(** What the thread knows at its write: the node now, its own fresh blocks. *)
Record at_link (h : hold) (d0 : D) (c : tree) (fs : list (Z * bytes)) (d : D) (t c' : tree) : Prop := {
  al_sound : sound d c';
  al_cross : cross (h_user h) t (h_path h) true = Some c';
  al_face : face_of c' = face_of c;
  al_disk x : x ∈ node_blocks c → disk_read d x = disk_read d0 x;
  al_fresh : Forall (λ p, disk_read d p.1 = p.2) fs;
  al_valid : Forall valid_block fs.*1;
  al_unused x : x ∈ fs.*1 → x ∉ used t;
  al_NoDup : NoDup fs.*1;
  al_zero : 0 ∈ used t }.

Lemma shared_at_link h d0 c fs ρ (s : state) t :
  shared (Hold h :: fresh_toks fs ++ ρ) s t → h_mode h = Exclusive → h_node h = Live d0 c →
  ∃ c', at_link h d0 c fs (disk s) t c'.
Proof.
  intros HI Hm Hn. assert (Hold h ∈ Hold h :: fresh_toks fs ++ ρ) as Hh by (apply elem_of_cons; by left).
  destruct (shared_pinned _ _ _ HI _ _ _ Hh Hn) as (c' & Hc & Hf & Hs).
  { apply pinned_mode. by rewrite Hm. }
  destruct (shared_live _ _ _ HI _ _ _ Hh Hn) as (_ & Hd & _).
  assert (∀ x, x ∈ fs.*1 → x ∈ blocks (Hold h :: fresh_toks fs ++ ρ)) as Hin.
  { intros x Hx. rewrite blocks_cons blocks_app blocks_fresh !elem_of_app. auto. }
  exists c'. split; [done..| | | | |by apply (shared_zero _ _ _ HI)].
  - apply Forall_forall. intros [b bs] Hb. apply (sh_toks _ _ _ HI (Fresh b bs)).
    apply elem_of_cons. right. apply elem_of_app. left. by apply (list_elem_of_fmap_2 (λ p, Fresh p.1 p.2) fs (b, bs)).
  - apply Forall_forall. intros x Hx. apply (shared_own_valid _ _ _ HI). by apply Hin.
  - intros x Hx. apply (shared_own_unused _ _ _ HI). by apply Hin.
  - pose proof (shared_own_NoDup _ _ _ HI) as Hnd.
    rewrite blocks_cons blocks_app blocks_fresh in Hnd.
    apply NoDup_app in Hnd as (_ & _ & Hnd). by apply NoDup_app in Hnd as (? & _ & _).
Qed.

(** Fresh blocks join the tree: a write to a file, a new entry. *)
Lemma cwp_link_keep {B} h d0 c fs b bs r (k : unit → prog B) κ Q :
  κ ≡ₚ Hold h :: fresh_toks fs →
  h_mode h = Exclusive → h_node h = Live d0 c → h_want h = None →
  b ∈ node_blocks c → length bs = n_block →
  (∀ d t c', at_link h d0 c fs d t c' → ∃ g,
     node_change c' (disk_write d b bs) g ∧
     (∀ n y, child c' n = Some y → child (g c') n = Some y) ∧
     used (g c') ≡ₚ used c' ++ fs.*1 ∧
     ∀ fr, spec_request req (mk_fsys t (fs.*1 ++ fr)) = (r, mk_fsys (update t (h_path h) g) fr)) →
  (∀ d c', cwp (k tt) [Hold (set_node (Live d c') h)] (Answered r) Q) →
  cwp (disk_writeblock b bs ≫= k) κ Pending Q.
Proof.
  intros HP Hm Hn Hw Hb Hlen Hg Hk. eapply cwp_perm; [exact HP|]. split.
  { exists (Hold h). split; [apply elem_of_cons; by left|]. cbn. by rewrite Hm Hn. }
  intros ρ s t HI. cbn [app] in HI. destruct (shared_at_link _ _ _ _ _ _ _ HI Hm Hn) as (c' & Hal).
  destruct (Hg _ _ _ Hal) as (g & Hnc & Hkeep & Hu & Hspec).
  cbn [exec]. rewrite decide_True.
  2: { eapply (shared_node_valid _ _ _ HI); [apply elem_of_cons; by left|done..]. }
  assert (tok_blocks (Hold h) = []) as Hbl by (cbn; by rewrite Hn).
  eexists [_], _, _. split; [|split; [|split; [|apply Hk]]].
  - eapply shared_link_keep; [exact HI|done..|apply Hal|apply Hal|exact Hb|exact Hlen|exact Hnc|exact Hkeep|exact Hu].
  - right. split; [done|]. exists r, (fs.*1 ++ free_disk_blocks s), (free_disk_blocks s). split_and!.
    + done.
    + apply Hspec.
    + pose proof (shared_held (Hold h :: fresh_toks fs) ρ s t HI) as Hh.
      rewrite blocks_cons blocks_fresh Hbl in Hh. by rewrite (comm app fs.*1).
  - apply few_less. exact (Nat.le_0_l _).
Qed.

(** A leaf leaves the tree. *)
Lemma cwp_link_delete {B} h ht d0 dt c x n freed b bs (k : unit → prog B) κ Q :
  κ ≡ₚ [Hold h; Hold ht] →
  h_mode h = Exclusive → h_node h = Live d0 c → h_want h = None →
  h_mode ht = Upgradable → h_node ht = Live dt x → h_want ht = None →
  h_path ht = h_path h ++ [n] → is_leaf x = true →
  (length (node_blocks x) + length freed ≤ held_max)%nat →
  b ∈ node_blocks c → length bs = n_block →
  (∀ d t c', at_link h d0 c [] d t c' → subtree t (h_path h ++ [n]) = Some x → ∃ g,
     node_change c' (disk_write d b bs) g ∧
     (∀ n' y, n' ≠ n → child c' n' = Some y → child (g c') n' = Some y) ∧
     used (g c') ++ node_blocks x ++ freed ≡ₚ used c' ∧
     ∀ fr, ∃ fr', spec_request req (mk_fsys t fr) = (Some None, mk_fsys (update t (h_path h) g) fr')) →
  (∀ d c' fs, fs.*1 = freed →
     cwp (k tt) (Hold (set_node (Live d c') h) :: Hold (set_node (Binned x) ht) :: fresh_toks fs)
       (Answered (Some None)) Q) →
  cwp (disk_writeblock b bs ≫= k) κ Pending Q.
Proof.
  intros HP Hm Hn Hw Hmt Hnt Hwt Hpt Hleaf Hfew Hb Hlen Hg Hk. eapply cwp_perm; [exact HP|]. split.
  { exists (Hold h). split; [apply elem_of_cons; by left|]. cbn. by rewrite Hm Hn. }
  intros ρ s t HI. cbn [app] in HI.
  destruct (shared_at_link h d0 c [] (Hold ht :: ρ) s t) as (c' & Hal); [done..|].
  assert (Hold ht ∈ Hold h :: Hold ht :: ρ) as Hht by (rewrite !elem_of_cons; auto).
  destruct (shared_pinned _ _ _ HI _ _ _ Hht Hnt) as (x' & Hx & Hfx & _).
  { apply pinned_mode. by rewrite Hmt. }
  assert (x' = x) as ->.
  { symmetry. by apply face_is_leaf. }
  apply cross_subtree in Hx. rewrite Hpt in Hx. destruct (Hg _ _ _ Hal Hx) as (g & Hnc & Hkeep & Hu & Hspec).
  destruct (Hspec (free_disk_blocks s)) as [fr' Hs'].
  cbn [exec]. rewrite decide_True.
  2: { eapply (shared_node_valid _ _ _ HI); [apply elem_of_cons; by left|done..]. }
  assert (child c' n = Some x) as Hcn.
  { rewrite subtree_app (cross_subtree _ _ _ _ _ (al_cross _ _ _ _ _ _ _ Hal)) in Hx.
    cbn in Hx. by apply bind_Some in Hx as (? & ? & [= ->]). }
  assert (blocks [Hold h; Hold ht] = []) as Hbl.
  { unfold blocks. cbn. by rewrite Hn Hnt. }
  eexists (_ :: _ :: _), _, _. split; [|split; [|split; [|apply Hk]]].
  - eapply (shared_link_delete h ht d0 dt c c' x n freed ρ s t b bs g HI); try done; apply Hal.
  - right. split; [done|]. exists (Some None), (free_disk_blocks s), fr'. split_and!; [done..|].
    pose proof (shared_held [Hold h; Hold ht] ρ s t HI) as Hh. by rewrite Hbl app_nil_r in Hh.
  - unfold few. etrans; [|apply Nat.le_max_l]. etrans; [|exact Hfew].
    rewrite !blocks_cons blocks_fresh -list_fmap_compose list_fmap_id. cbn. by rewrite length_app.
  - by rewrite -list_fmap_compose list_fmap_id.
Qed.
End cwp.
