(* ===== verification/FsCrab.v ===== *)
(** * Hand-over-hand locking

    [traverse_fs] among other threads.  The lock of a node is taken while the
    parent is locked, so the node is in the tree at that moment; a directory with
    entries then stays in the tree while it is locked for reading, and a leaf ends
    the traversal.  A request that fails on its way is answered where it fails. *)

From S2P Require Import Prelude CStd Request FsTypes FsMonad FileSystem FsTree FsSpec FsTraverse FsStored FsFace FsTable FsShared FsLocks FsLink FsAtomic.

Section crab.
Context {D M : Type} {HD : Disk D} {HDL : DiskLaws D} {SM : SharedMutex M} {SML : SharedMutexLaws M}.
Abbreviation state := (fs_state D M).
Abbreviation tok := (tok D).
Abbreviation hold := (hold D).
Context (req : Request).
Abbreviation cwp := (cwp (M := M) req).

(** ** Loops that read *)

Lemma cwp_reads {A B} (p : prog A) (P : A → Prop) (k : A → prog B) (κ : list tok) q Q :
  cwp p κ q (λ a κ' q', κ' = κ ∧ q' = q ∧ P a) → (∀ a, P a → cwp (k a) κ q Q) →
  cwp (p ≫= k) κ q Q.
Proof.
  intros Hp Hk. apply cwp_bind. eapply cwp_mono; [exact Hp|].
  intros a κ' q' (-> & -> & HP). by apply Hk.
Qed.

Lemma cwp_for {C St R} (κ : list tok) q (cs : list C) (s0 : St) body
    (Inv : nat → St → Prop) (Q : ctl St R → list tok → status → Prop) :
  Inv 0%nat s0 →
  (∀ i c s, cs !! i = Some c → Inv i s →
     cwp (body (Z.of_nat i) s) κ q (λ r κ' q',
       match r with
       | Next s' => κ' = κ ∧ q' = q ∧ Inv (S i) s'
       | Break r => Q (Break r) κ' q'
       end)) →
  (∀ s, Inv (length cs) s → Q (Next s) κ q) →
  cwp (for_each (seqZ 0 (Z.of_nat (length cs))) s0 body) κ q Q.
Proof.
  intros Hinit Hbody Hend. unfold seqZ. rewrite Nat2Z.id.
  enough (∀ n k s, (k + n)%nat = length cs → Inv k s →
    cwp (for_each ((λ i : nat, Z.add (Z.of_nat i) 0) <$> seq k n) s body) κ q Q)
    as Hgen by by eapply (Hgen _ 0%nat).
  induction n as [|n IH]; intros k s Hk Hinv.
  - apply Hend. by rewrite -Hk Nat.add_0_r.
  - destruct (lookup_lt_is_Some_2 cs k) as [c Hc]; [lia|]. cbn [seq fmap list_fmap for_each].
    rewrite Z.add_0_r. apply cwp_bind. eapply cwp_mono; [by eapply Hbody|].
    intros [s'|r] κ' q'; [|done]. intros (-> & -> & Hinv'). apply IH; [lia|done].
Qed.

Lemma cwp_block_at {B} blocks i b (k : Z → prog B) (κ : list tok) q Q :
  blocks !! Z.to_nat i = Some b → cwp (k b) κ q Q → cwp (block_at blocks i ≫= k) κ q Q.
Proof. apply cwp_get_some. Qed.

Lemma cwp_set_block {B} blocks i v (k : list Z → prog B) (κ : list tok) q Q :
  is_Some (blocks !! Z.to_nat i) → cwp (k (<[Z.to_nat i := v]> blocks)) κ q Q →
  cwp (set_block blocks i v ≫= k) κ q Q.
Proof. intros [b Hb] Hk. unfold set_block. by rewrite Hb. Qed.

(** A block of direntries of a directory whose lock is held. *)
Lemma cwp_read_chunk {B} h d b o chunks i ck slots (k : list fs_direntry → prog B) (κ : list tok) q Q :
  Hold h ∈ κ → h_node h = Live d (Dir b o chunks) → chunks !! i = Some (ck, slots) →
  cwp (k (read_as (list fs_direntry) d ck)) κ q Q → cwp (read_direntries ck ≫= k) κ q Q.
Proof.
  intros Hh Hn Hi Hk. apply cwp_bind. eapply cwp_read_live; [done..| |exact Hk]. cbn.
  apply elem_of_cons. right. by eapply (list_elem_of_fmap_2 fst _ (ck, slots)), list_elem_of_lookup_2.
Qed.

Lemma cwp_find_entry {B} h d b o chunks name (k : option Z → prog B) (κ : list tok) q Q :
  Hold h ∈ κ → h_node h = Live d (Dir b o chunks) → sound d (Dir b o chunks) → ¬ has_char NUL name →
  cwp (k (root_block <$> child (Dir b o chunks) name)) κ q Q →
  cwp (find_entry (read_as fs_inode d b) name ≫= k) κ q Q.
Proof.
  intros Hh Hn Hs Hname Hk. destruct (sound_dir _ _ _ _ Hs) as [Hd Hnd].
  eapply (cwp_reads _ (λ r, r = root_block <$> child (Dir b o chunks) name)); [|by intros a ->].
  unfold find_entry. rewrite (dir_at_size _ _ _ _ Hd).
  eapply cwp_reads with (P := λ r, match r with
    | Break b' => Some b' | Next _ => None end = root_block <$> child (Dir b o chunks) name).
  2: { intros [?|b'] Hb'; cbn; by rewrite -Hb'. }
  apply (cwp_for _ _ chunks tt _ (λ i _, name ∉ (chunk_entries (take i chunks)).*1)).
  - apply not_elem_of_nil.
  - intros i [b' slots] [] Hi Hni.
    destruct (dir_at_block _ _ _ _ _ _ Hd Hi) as (Hblk & Hv & Hch).
    eapply cwp_block_at; [exact Hblk|]. eapply cwp_read_chunk; [done..|].
    pose proof (find_index_spec name _ _ 0 Hname Hch) as Hf. cbn [fst snd] in *.
    destruct (find_index _ _ 0) as [[j e]|].
    + destruct Hf as (m & c & _ & _ & Hm & -> & _). do 2 (split; [done|]).
      rewrite child_Dir (find_child_elem name _ c); [done..|].
      apply elem_of_chunk_entries. exists b', slots. split; by eapply list_elem_of_lookup_2.
    + do 2 (split; [done|]). rewrite (chunk_names _ _ _ _ Hi) fmap_app elem_of_app. tauto.
  - intros [] Hni. rewrite firstn_all in Hni. do 2 (split; [done|]).
    rewrite child_Dir. by apply find_child_None in Hni as ->.
Qed.

(** ** The traversal *)

Context (T : lock_mode) (user : string) (full : Path).
Context (Hfull : Forall (λ n, ¬ has_char NUL n) full) (Huser : ¬ has_char NUL user).
(** A request that cannot reach its node fails. *)
Context (Hfail : ∀ t fr, walk user t full true = None →
  spec_request req (mk_fsys t fr) = (None, mk_fsys t fr)).

(** The lock of the current node, and the pointer to the previous one. *)
Definition cur_hold (cur : lockref) (p : Path) (d : D) (c : tree) : hold :=
  mk_hold cur Shared user p (Live d c) None.
Definition prev_toks (prev : option lockref) : list tok :=
  match prev with Some l => [Ptr l] | None => [] end.

Lemma holdless_prev prev : holdless (prev_toks prev).
Proof.
  destruct prev as [l|]; [|apply holdless_nil]. apply holdless_cons; [done|apply holdless_nil].
Qed.

Lemma cwp_drop_opt {B} prev (k : prog B) (κ κ0 : list tok) q Q :
  κ ≡ₚ prev_toks prev ++ κ0 → (∀ κ', κ' ≡ₚ κ0 → cwp k κ' q Q) → cwp (drop_opt prev;; k) κ q Q.
Proof.
  intros HP Hk. destruct prev as [l|]; cbn [prev_toks app drop_opt] in *.
  - eapply cwp_drop; [exact HP|]. by apply Hk.
  - by apply Hk.
Qed.

(** Giving up: everything is released. *)
Lemma cwp_fail cur p d c prev (Q : option inode_lock_info → list tok → status → Prop) :
  Q None [] (Answered None) →
  cwp (unlock Shared cur;; drop_opt prev;; drop_ptr cur;; mret None)
    (Hold (cur_hold cur p d c) :: prev_toks prev) (Answered None) Q.
Proof.
  intros HQ. eapply (cwp_unlock req (cur_hold cur p d c)); [done..|].
  eapply cwp_drop_opt; [|intros κ' HP; eapply cwp_drop; [exact HP|exact HQ]].
  apply Permutation_cons_append.
Qed.

(** The same from a node that stays in the tree, where the way ends. *)
Lemma cwp_fail_here cur p path d c prev (Q : option inode_lock_info → list tok → status → Prop) :
  full = p ++ path → is_leaf c = false ∨ root_block c = 0 →
  (∀ c', face_of c' = face_of c → walk user c' path (first_of p true) = None) →
  Q None [] (Answered None) →
  cwp (unlock Shared cur;; drop_opt prev;; drop_ptr cur;; mret None)
    (Hold (cur_hold cur p d c) :: prev_toks prev) Pending Q.
Proof.
  intros Hp Hpin Hend HQ. apply cwp_answer with (r := None); [|by apply cwp_fail].
  intros ρ s t HI fr. apply Hfail.
  destruct (shared_pinned _ _ _ HI (cur_hold cur p d c) d c) as (c' & Hc & Hf & _);
    [apply elem_of_cons; by left|done| |].
  { unfold pinned. destruct Hpin as [->| ->]; by rewrite ?orb_true_r. }
  rewrite Hp walk_cross. cbn in Hc. rewrite Hc. cbn. by apply Hend.
Qed.

Lemma walk_end c name path first :
  (is_dir c = false ∨ (negb first && negb (String.eqb user (tree_owner c))) = true ∨
   child c name = None) →
  ∀ c', face_of c' = face_of c → walk user c' (name :: path) first = None.
Proof.
  intros Hc c' Hf. cbn. destruct c' as [|b o chunks] eqn:Hc'; [done|].
  rewrite -Hc' in Hf. destruct Hc as [Hd|[Ho|Hn]].
  - by rewrite -(face_dir _ _ Hf) Hc' in Hd.
  - rewrite -(face_owner _ _ Hf) Hc' in Ho. cbn in Ho. by rewrite Ho.
  - rewrite -Hc' (face_child_None c c') //. by case_match.
Qed.

(** A leaf in the middle of the path: the request has been answered. *)
Lemma cwp_loop_leaf name path p d c cur prev first (Q : option inode_lock_info → list tok → status → Prop) :
  ¬ has_char NUL name → sound d c → is_leaf c = true → Q None [] (Answered None) →
  cwp (traverse_loop T user (name :: path) first (read_as fs_inode d (root_block c)) cur prev)
    (Hold (cur_hold cur p d c) :: prev_toks prev) (Answered None) Q.
Proof.
  intros Hname Hs Hleaf HQ. cbn [traverse_loop]. rewrite (sound_is_file _ _ Hs).
  destruct c as [b o data|b o chunks] eqn:Hc; cbn [is_dir negb]; [by apply cwp_fail|].
  case_match; [by apply cwp_fail|].
  eapply (cwp_find_entry (cur_hold cur p d (Dir b o chunks))); [apply elem_of_cons; by left|done..|].
  rewrite leaf_child //. cbn. by apply cwp_fail.
Qed.

Context (Q : option inode_lock_info → list tok → status → Prop).
Context (Hnone : Q None [] (Answered None)).
Context (Hsome : ∀ d t c l, sound d c → cross user t full true = Some c →
  walk user t full true = Some c → ∃ q, settles req t Pending q ∧
  Q (Some (mk_info (read_as fs_inode d (root_block c)) l (root_block c)))
    [Hold (mk_hold l T user full (Live d c) None)] q).

(** The last lock. *)
Lemma cwp_last_lock name p d c cc cur l κ' :
  full = p ++ [name] → sound d c → child c name = Some cc →
  negb (first_of p true) && negb (String.eqb user (tree_owner c)) = false →
  κ' ≡ₚ [Hold (set_want (Some (name, l)) (cur_hold cur p d c))] →
  cwp (lock T l;;
       unlock Shared cur;;
       inode ← read_inode (root_block cc);
       if negb (is_owner user inode) then
         unlock T l;; drop_ptr cur;; drop_ptr l;; mret None
       else
         drop_ptr cur;; mret (Some (mk_info inode l (root_block cc))))
    κ' Pending Q.
Proof using All.
  intros Hp Hs Hc Hown HP.
  eapply (cwp_lock_child req T _ d c name cc l); [exact HP|apply holdless_nil|done..|].
  cbn. intros d1 t1 c1 Hs1 Hcross Hr. rewrite -Hp in Hcross |- *.
  assert (walk user t1 full true = if String.eqb user (tree_owner c1) then Some c1 else None) as Hw.
  { rewrite -(app_nil_r full) walk_cross Hcross. cbn. rewrite Hp. by destruct p. }
  set (h1 := mk_hold l T user full _ None).
  assert (∀ q, (if String.eqb user (tree_owner c1)
      then Q (Some (mk_info (read_as fs_inode d1 (root_block c1)) l (root_block c1))) [Hold h1] q
      else q = Answered None) →
    cwp (unlock Shared cur;;
       inode ← read_inode (root_block cc);
       if negb (is_owner user inode) then
         unlock T l;; drop_ptr cur;; drop_ptr l;; mret None
       else drop_ptr cur;; mret (Some (mk_info inode l (root_block cc))))
     [Hold h1; Hold (set_want None (cur_hold cur p d c))] q Q) as Hrest.
  { intros q Hq. eapply (cwp_unlock req (set_want None (cur_hold cur p d c)));
      [apply Permutation_swap|done..|]. rewrite -Hr.
    eapply (cwp_read_inode req h1); [apply Permutation_swap|done|].
    rewrite (sound_owner _ _ _ Hs1) //. destruct (String.eqb user (tree_owner c1)); cbn [negb].
    - eapply cwp_drop; [apply Permutation_swap|exact Hq].
    - subst q. eapply (cwp_unlock req h1); [done..|].
      eapply cwp_drop; [apply Permutation_swap|]. eapply cwp_drop; [done|]. exact Hnone. }
  destruct (String.eqb user (tree_owner c1)).
  - destruct (Hsome d1 t1 c1 l) as (q & Hset & HQ); [done..|]. exists q. split; [done|]. by apply Hrest.
  - exists (Answered None). split; [|by apply Hrest]. right. split; [done|].
    exists None. split; [done|]. intros fr. by apply Hfail.
Qed.

Lemma cwp_loop path : ∀ name p d c cur prev,
  full = p ++ name :: path → sound d c → is_leaf c = false ∨ root_block c = 0 →
  cwp (traverse_loop T user (name :: path) (first_of p true) (read_as fs_inode d (root_block c)) cur prev)
    (Hold (cur_hold cur p d c) :: prev_toks prev) Pending Q.
Proof using All.
  induction path as [|name' path IH]; intros name p d c cur prev Hp Hs Hpin.
  all: assert (¬ has_char NUL name) as Hname
    by (pose proof Hfull as Hf; rewrite Hp in Hf; apply Forall_app in Hf as [_ Hf];
        by apply Forall_cons in Hf as [? _]).
  all: cbn [traverse_loop]; rewrite (sound_is_file _ _ Hs);
    destruct c as [b o data|b o chunks] eqn:Hc; cbn [is_dir negb];
    [by eapply cwp_fail_here; [exact Hp|exact Hpin|apply walk_end; by left|]|].
  all: rewrite (sound_owner _ _ _ Hs) // andb_comm;
    destruct (negb (first_of p true) && negb (String.eqb user (tree_owner (Dir b o chunks)))) eqn:Hown;
    [by eapply cwp_fail_here; [exact Hp|exact Hpin|apply walk_end; right; by left|]|].
  all: cbn [root_block]; eapply (cwp_find_entry (cur_hold cur p d (Dir b o chunks))); [apply elem_of_cons; by left|done..|].
  all: destruct (child (Dir b o chunks) name) as [cc|] eqn:Hcc; cbn [fmap option_fmap option_map];
    [|by eapply cwp_fail_here; [exact Hp|exact Hpin|apply walk_end; right; by right|]].
  all: eapply (cwp_get_child req (cur_hold cur p d (Dir b o chunks))); [done..|]; intros l;
    eapply cwp_drop_opt; [apply Permutation_cons_append|]; intros κ' HP.
  - by eapply cwp_last_lock.
  - eapply (cwp_lock_child req Shared _ d (Dir b o chunks) name cc l); [exact HP|apply holdless_nil|done..|].
    cbn [h_user h_path set_want cur_hold]. intros d1 t1 c1 Hs1 Hcross Hr.
    assert (full = (p ++ [name]) ++ name' :: path) as Hp' by by rewrite -app_assoc.
    assert (first_of (p ++ [name]) true = false) as Hfst by by destruct p.
    assert (∀ q, cwp (traverse_loop T user (name' :: path) false (read_as fs_inode d1 (root_block c1))
        l (Some cur)) (Hold (cur_hold l (p ++ [name]) d1 c1) :: prev_toks (Some cur)) q Q →
      cwp (unlock Shared cur;;
           inode ← read_inode (root_block cc);
           traverse_loop T user (name' :: path) false inode l (Some cur))
        [Hold (cur_hold l (p ++ [name]) d1 c1); Hold (set_want None (cur_hold cur p d (Dir b o chunks)))]
        q Q) as Hrest.
    { intros q Hq. eapply (cwp_unlock req (set_want None (cur_hold cur p d (Dir b o chunks))));
        [apply Permutation_swap|done..|]. rewrite -Hr.
      eapply (cwp_read_inode req (cur_hold l (p ++ [name]) d1 c1));
        [apply Permutation_swap|done|exact Hq]. }
    destruct (is_leaf c1) eqn:Hleaf.
    + exists (Answered None). split.
      * right. split; [done|]. exists None. split; [done|]. intros fr. apply Hfail.
        rewrite Hp' walk_cross Hcross. cbn [mbind option_bind]. apply (walk_end c1); [|done].
        right. right. by apply leaf_child.
      * apply Hrest. apply cwp_loop_leaf; [|done..].
        pose proof Hfull as Hf. rewrite Hp' in Hf. apply Forall_app in Hf as [_ Hf].
        by apply Forall_cons in Hf as [? _].
    + exists Pending. split; [by left|]. apply Hrest. rewrite -Hfst. apply IH; [done..|by left].
Qed.

Lemma cwp_traverse : cwp (traverse_fs T full user) [] Pending Q.
Proof using All.
  unfold traverse_fs. apply cwp_get_root. intros l.
  assert (full = [] ∨ ∃ name path, full = name :: path) as [Hf|(name & path & Hf)]
    by (destruct full; eauto); rewrite Hf.
  - pose proof Hsome as HS. rewrite Hf in HS. eapply (cwp_lock_root req T user); [done|apply holdless_nil|]. intros d t Hs Hr Hdir.
    destruct (HS d t t l) as (q & Hset & HQ); [done..|]. exists q. split; [done|].
    rewrite -Hr. eapply (cwp_read_inode req (mk_hold l T user [] (Live d t) None)); [done..|].
    exact HQ.
  - eapply (cwp_lock_root req Shared user); [done|apply holdless_nil|]. intros d t Hs Hr Hdir.
    exists Pending. split; [by left|]. rewrite -{1}Hr.
    eapply (cwp_read_inode req (cur_hold l [] d t)); [done..|].
    apply (cwp_loop path name [] d t l None); [exact Hf|done|by right].
Qed.
End crab.
