(* ===== verification/FsAtomicFile.v ===== *)
(** * Reading and writing files among other threads *)

From S2P Require Import Prelude CStd Request FsTypes FsMonad FileSystem FsTree FsSpec FsTraverse FsStored FsCorrect FsFace FsTable FsShared FsLocks FsLink FsAtomic FsCrab.

(** A handler is right among other threads: from any state it can be started in, it
    ends with everything released and its request answered by what it returns.  A
    request that fails before the first step is answered when it is started. *)
Definition handled {D M : Type} {HD : Disk D} {SM : SharedMutex M} (req : Request)
    (p : prog out_block) : Prop :=
  ∀ (d : D) t, sound d t → is_dir t = true → root_block t = 0 →
  ∃ q, settles req t Pending q ∧
    cwp (D := D) (M := M) req p [] q (λ r κ q', κ = [] ∧ q' = Answered r).

Section release.
Context {D M : Type} {HD : Disk D} {HDL : DiskLaws D} {SM : SharedMutex M} {SML : SharedMutexLaws M}.
Abbreviation tok := (tok D).
Abbreviation hold := (hold D).
Context (req : Request).
Abbreviation cwp := (cwp (D := D) (M := M) req).
Abbreviation handled := (handled (D := D) (M := M)).

Definition done_with (r : out_block) (κ : list tok) (q : status) : Prop :=
  κ = [] ∧ q = Answered r.

Lemma cwp_release (h : hold) info r :
  lock_ptr info = h_lock h → h_want h = None → (∀ c, h_node h ≠ Binned c) →
  cwp (release (h_mode h) info r) [Hold h] (Answered r) done_with.
Proof.
  intros Hl Hw Hn. unfold release. rewrite Hl. eapply cwp_unlock; [done..|].
  by eapply cwp_drop.
Qed.

(** The owner of a node reached along a path stays its owner. *)
Lemma walk_at user t p c c' :
  first_of p true || String.eqb user (tree_owner c) = true → face_of c' = face_of c →
  cross user t p true = Some c' → walk user t p true = Some c'.
Proof.
  intros Ho Hf Hc. rewrite -(app_nil_r p) walk_cross Hc. cbn. by rewrite (face_owner _ _ Hf) Ho.
Qed.

(** An answer without effect that the node under the lock decides. *)
Lemma settled_at (h : hold) d0 c κ r :
  Hold h ∈ κ → h_node h = Live d0 c → pinned h c = true →
  first_of (h_path h) true || String.eqb (h_user h) (tree_owner c) = true →
  (∀ t c' fr, walk (h_user h) t (h_path h) true = Some c' → face_of c' = face_of c →
     spec_request req (mk_fsys t fr) = (r, mk_fsys t fr)) →
  settled (M := M) req κ r.
Proof.
  intros Hh Hn Hp Ho Hspec ρ s t HI fr.
  destruct (shared_pinned _ _ _ HI h d0 c) as (c' & Hc & Hf & _);
    [apply elem_of_app; by left|done..|].
  apply (Hspec t c'); [|done]. by eapply walk_at.
Qed.

Lemma cwp_release_settled (h : hold) info r :
  lock_ptr info = h_lock h → h_want h = None → (∀ c, h_node h ≠ Binned c) →
  settled (M := M) req [Hold h] r →
  cwp (release (h_mode h) info r) [Hold h] Pending done_with.
Proof.
  intros Hl Hw Hn Hs. eapply cwp_answer; [exact Hs|]. by apply cwp_release.
Qed.

Lemma handled_now p r :
  (∀ (d : D) t fr, sound d t → is_dir t = true → spec_request req (mk_fsys t fr) = (r, mk_fsys t fr)) →
  p = mret r → handled req p.
Proof.
  intros Hr -> d t Hs Hd Hroot. exists (Answered r). split; [|done]. right. split; [done|].
  exists r. split; [done|]. intros fr. by apply (Hr d).
Qed.

(** Whoever reached a node along a path may use it. *)
Lemma walk_here user t p c :
  cross user t p true = Some c → walk user t p true = Some c →
  first_of p true || String.eqb user (tree_owner c) = true.
Proof.
  intros Hc. rewrite -{1}(app_nil_r p) walk_cross Hc. cbn. by destruct (_ || _).
Qed.

(** The handlers: a traversal, then the node. *)
Lemma handled_traverse T path user (k : option inode_lock_info → prog out_block) :
  Forall (λ n, ¬ has_char NUL n) path → ¬ has_char NUL user →
  (∀ t fr, walk user t path true = None →
     spec_request req (mk_fsys t fr) = (None, mk_fsys t fr)) →
  k None = mret None →
  (∀ d t c l, sound d c → cross user t path true = Some c → walk user t path true = Some c →
     ∃ q, settles req t Pending q ∧
     cwp (k (Some (mk_info (read_as fs_inode d (root_block c)) l (root_block c))))
       [Hold (mk_hold l T user path (Live d c) None)] q done_with) →
  cwp (traverse_fs T path user ≫= k) [] Pending done_with.
Proof.
  intros Hp Hu Hfail Hnone Hsome. apply cwp_bind.
  apply (cwp_traverse req T user path); [done..| |].
  - by rewrite Hnone.
  - intros d t c l Hs Hc Hw. by apply Hsome.
Qed.
End release.

(** ** [execute_READBLOCK] *)

Section file.
Context {D M : Type} {HD : Disk D} {HDL : DiskLaws D} {SM : SharedMutex M} {SML : SharedMutexLaws M}.
Abbreviation tok := (tok D).
Abbreviation hold := (hold D).
Abbreviation handled := (handled (D := D) (M := M)).

Lemma sound_file_length (d : D) b o data :
  sound d (File b o data) → (length data ≤ n_blocks)%nat ∧
  i_size (read_as fs_inode d b) = Z.of_nat (length data) ∧
  inode_is (read_as fs_inode d b) type_file o data.*1.
Proof.
  intros Hs. destruct (all_nodes_here _ _ (sound_stored _ _ Hs)) as [Hi _].
  destruct (inode_is_size _ _ _ _ _ (sound_root_valid _ _ Hs) Hi) as [Hlen Hsize].
  by rewrite length_fmap in Hlen, Hsize.
Qed.

Lemma read_too_far (d : D) t user path block :
  sound d t → FS_MAXFILEBLOCKS ≤ block → spec_read user path block t = None.
Proof.
  intros Hs Hmax. unfold spec_read. destruct (walk user t path true) as [[b o data|]|] eqn:Hw; [|done..].
  apply walk_subtree in Hw. pose proof (sound_subtree _ _ _ _ Hs Hw) as Hc.
  destruct (sound_file_length _ _ _ _ Hc) as [Hlen _]. unfold FS_MAXFILEBLOCKS in Hmax.
  by rewrite lookup_ge_None_2; [|lia].
Qed.

Lemma execute_READBLOCK_handled (rq : FS_READBLOCK) :
  request_ok (Req_READBLOCK rq) → handled (Req_READBLOCK rq) (execute_READBLOCK rq).
Proof.
  intros ([[Hu _] _] & Hp & Hb). cbn in Hu, Hp, Hb. unfold execute_READBLOCK.
  case_decide as Hnil.
  { apply (handled_now _ _ None); [|done]. intros d t fr _ Hd. cbn. rewrite Hnil.
    unfold spec_read. cbn. by destruct t. }
  destruct (Z.leb_spec FS_MAXFILEBLOCKS (rd_block rq)) as [Hmax|Hmax].
  { apply (handled_now _ _ None); [|done]. intros d t fr Hs Hd. cbn. by rewrite (read_too_far d). }
  intros d t _ _ _. exists Pending. split; [by left|].
  apply handled_traverse; [by apply path_no_nul|done| |done|].
  { intros t' fr Hw. cbn. unfold spec_read. by rewrite Hw. }
  clear d t. intros d t c l Hs Hc Hw.
  exists (Answered (spec_read (rd_username rq) (rd_path rq) (rd_block rq) t)).
  split; [right; split; [done|]; by eexists|].
  unfold spec_read. rewrite Hw. cbn [inode]. rewrite (sound_is_dir _ _ Hs).
  set (h := mk_hold l Shared _ _ _ None). set (info := mk_info _ l _).
  destruct c as [b o data|b o chunks]; cbn [is_dir]; [|by apply (cwp_release _ h)].
  destruct (sound_file_length _ _ _ _ Hs) as (Hlen & Hsize & Hi).
  cbn [root_block] in *. rewrite Hsize.
  destruct (Z.leb_spec (Z.of_nat (length data)) (rd_block rq)) as [Hge|Hlt].
  { rewrite lookup_ge_None_2; [|lia]. by apply (cwp_release _ h). }
  destruct (lookup_lt_is_Some_2 data (Z.to_nat (rd_block rq))) as [[db bs] Hdb]; [lia|].
  assert (data.*1 !! Z.to_nat (rd_block rq) = Some db) as Hdb1 by by rewrite list_lookup_fmap Hdb.
  rewrite Hdb. eapply cwp_block_at; [by eapply inode_is_block|].
  eapply (cwp_read_live _ h); [apply elem_of_cons; by left|done| |].
  { cbn. apply elem_of_cons. right. by eapply list_elem_of_lookup_2. }
  assert (disk_read d db = bs) as ->.
  { destruct (all_nodes_here _ _ (sound_stored _ _ Hs)) as [_ Hdata].
    rewrite Forall_lookup in Hdata. by apply (Hdata (Z.to_nat (rd_block rq)) (db, bs)). }
  by apply (cwp_release _ h).
Qed.

(** ** [execute_WRITEBLOCK] *)

Lemma write_settled user path block bs t c' c o b data fr :
  walk user t path true = Some c' → face_of c' = face_of c → c = File b o data →
  Z.of_nat (length data) < block ∨ block = Z.of_nat (length data) ∧ fr = [] →
  spec_write user path block bs (mk_fsys t fr) = (None, mk_fsys t fr).
Proof.
  intros Hw Hf -> Hb. apply eq_sym, face_is_leaf in Hf as <-; [|done]. unfold spec_write. rewrite Hw.
  rewrite (proj2 (Z.ltb_ge _ _)); [|lia]. destruct Hb as [Hb|[-> ->]].
  - rewrite (proj2 (Z.eqb_neq _ _)); [done|lia].
  - by case_match.
Qed.

Lemma write_no_file user path block bs t c' fr :
  walk user t path true = Some c' → is_dir c' = true →
  spec_write user path block bs (mk_fsys t fr) = (None, mk_fsys t fr).
Proof. intros Hw Hd. unfold spec_write. rewrite Hw. by destruct c'. Qed.

Lemma write_too_far (d : D) t user path block bs fr :
  sound d t → FS_MAXFILEBLOCKS ≤ block →
  spec_write user path block bs (mk_fsys t fr) = (None, mk_fsys t fr).
Proof.
  intros Hs Hmax. unfold spec_write. destruct (walk user t path true) as [[b o data|]|] eqn:Hw; [|done..].
  apply walk_subtree in Hw. pose proof (sound_subtree _ _ _ _ Hs Hw) as Hc.
  destruct (sound_file_length _ _ _ _ Hc) as [Hlen _].
  rewrite (proj2 (Z.ltb_ge _ FS_MAXFILEBLOCKS)) // andb_false_r. unfold FS_MAXFILEBLOCKS in Hmax.
  by rewrite (proj2 (Z.ltb_ge _ _)); [|lia].
Qed.

Lemma shape_File b o data : shape (File b o data).
Proof. constructor; [done|]. by intros n c ?%not_elem_of_nil. Qed.

(** Writing again what a block holds. *)
Lemma disk_write_again (d : D) nb bs b bs' x :
  valid_block nb → valid_block b → valid_block x → length bs = n_block → length bs' = n_block →
  disk_read d nb = bs →
  disk_read (disk_write d b bs') x = disk_read (disk_write (disk_write d nb bs) b bs') x.
Proof.
  intros Hnb Hb Hx Hl Hl' Heq. rewrite !disk_read_insert //. repeat case_decide; by subst.
Qed.

Lemma appended_typed (d : D) b o data nb :
  let i := read_as fs_inode d b in
  sound d (File b o data) → valid_block nb → (length data < n_blocks)%nat →
  inode_typed (with_blocks i (to_uint32 (i_size i + 1)) (<[Z.to_nat (i_size i) := nb]> (i_blocks i))).
Proof.
  intros i Hs Hv Hlen. destruct (sound_file_length _ _ _ _ Hs) as (_ & _ & Hi).
  destruct (inode_append d b type_file o data.*1 nb) as [Ht _]; [|done..| |exact Ht].
  - apply (sound_root_valid _ _ Hs).
  - by rewrite length_fmap.
Qed.

(** The disk at the write of an inode, when the fresh block has been written. *)
Lemma append_change (d : D) b o data nb bs :
  let i := read_as fs_inode d b in
  let i' := with_blocks i (to_uint32 (i_size i + 1)) (<[Z.to_nat (i_size i) := nb]> (i_blocks i)) in
  sound d (File b o data) → valid_block nb → nb ∉ used (File b o data) →
  (length data < n_blocks)%nat → length bs = n_block → disk_read d nb = bs →
  node_change (File b o data) (disk_write d b (encode i')) (append_data nb bs).
Proof.
  intros i i' Hs Hv Hnb Hlen Hl Hbs. split; [|apply shape_File|done..].
  pose proof (sound_root_valid _ _ Hs) as Hvb. cbn [root_block] in Hvb.
  assert (b ∉ data.*1) as Hb.
  { pose proof (sound_NoDup _ _ Hs) as Hnd. cbn in Hnd. by apply NoDup_cons in Hnd as [? _]. }
  assert (length (encode i') = n_block) as Hle by by apply length_encode, (appended_typed d b o data).
  apply (stored_frame (disk_write (disk_write d nb bs) b (encode i'))).
  - exact (stored_append_data d b o data nb bs (sound_stored _ _ Hs) (sound_valid _ _ Hs)
      Hv Hnb Hlen Hl Hb).
  - intros x Hx. cbn in Hx. rewrite fmap_app in Hx.
    assert (valid_block x) as Hvx.
    { pose proof (sound_valid _ _ Hs) as Hvs. cbn in Hvs. apply Forall_cons in Hvs as [_ Hvs].
      rewrite Forall_forall in Hvs.
      apply elem_of_cons in Hx as [->|[Hx|Hx%list_elem_of_singleton]%elem_of_app]; [done| |by subst x].
      by apply Hvs. }
    by apply disk_write_again.
Qed.

(** The holder of a file for writing. *)
Definition file_hold (m : lock_mode) (l : lockref) (user : string) (path : Path) (d : D)
    b o data : hold := mk_hold l m user path (Live d (File b o data)) None.

Lemma overwrite_handled (rq : FS_WRITEBLOCK) bs d b o data l :
  let req := Req_WRITEBLOCK rq in
  let h := file_hold Upgradable l (wr_username rq) (wr_path rq) d b o data in
  wr_data rq = Some bs → length bs = n_block → 0 ≤ wr_block rq →
  sound d (File b o data) → wr_block rq < Z.of_nat (length data) →
  first_of (wr_path rq) true || String.eqb (wr_username rq) o = true →
  cwp (M := M) req
    (upgrade l;;
     b' ← block_at (i_blocks (read_as fs_inode d b)) (wr_block rq);
     bs' ← get_some NullPointer (wr_data rq);
     disk_writeblock b' bs';;
     release Exclusive (mk_info (read_as fs_inode d b) l b) (Some None))
    [Hold h] Pending done_with.
Proof.
  intros req h Hdata Hlbs Hb0 Hs Hlt Ho. destruct (sound_file_length _ _ _ _ Hs) as (_ & _ & Hi).
  destruct (lookup_lt_is_Some_2 data (Z.to_nat (wr_block rq))) as [[db old] Hdb]; [lia|].
  assert (data.*1 !! Z.to_nat (wr_block rq) = Some db) as Hdb1 by by rewrite list_lookup_fmap Hdb.
  assert (db ∈ used (File b o data)) as Hdbu.
  { cbn. apply elem_of_cons. right. by eapply list_elem_of_lookup_2. }
  eapply (cwp_upgrade req h); [done|apply holdless_nil|done..|].
  eapply cwp_block_at; [by eapply inode_is_block|]. rewrite Hdata. eapply cwp_get_some; [done|].
  apply (cwp_link_keep req (set_mode Exclusive h) d (File b o data) [] db bs (Some None)); [done..| |].
  2: { intros d' c'. by apply (cwp_release req (set_node (Live d' c') (set_mode Exclusive h))). }
  intros d1 t1 c1 [Hs1 Hc1 Hf1 _ _ _ _ _ _]. apply eq_sym, face_is_leaf in Hf1 as <-; [|done].
  exists (set_data (Z.to_nat (wr_block rq)) bs).
  split_and!; [split; [|apply shape_File|done..]|done| |].
  - apply stored_set_data with (old := old); [apply Hs1|apply Hs1|apply Hs1|done|done].
  - cbn. by rewrite set_data_blocks app_nil_r.
  - intros fr. cbn. rewrite Hdata. unfold spec_write. cbn in Hc1.
    rewrite (walk_at _ _ _ (File b o data) (File b o data)) //.
    by rewrite (proj2 (Z.ltb_lt _ _)).
Qed.

Lemma append_handled (rq : FS_WRITEBLOCK) bs d b o data l nb bs0 :
  let req := Req_WRITEBLOCK rq in
  let h := file_hold Upgradable l (wr_username rq) (wr_path rq) d b o data in
  let i := read_as fs_inode d b in
  let blocks := <[Z.to_nat (i_size i) := nb]> (i_blocks i) in
  let i' := with_blocks i (to_uint32 (i_size i + 1)) blocks in
  wr_data rq = Some bs → length bs = n_block → wr_block rq < FS_MAXFILEBLOCKS → valid_block nb →
  sound d (File b o data) → wr_block rq = Z.of_nat (length data) →
  first_of (wr_path rq) true || String.eqb (wr_username rq) o = true →
  cwp (M := M) req
    (disk_writeblock nb bs;;
     upgrade l;;
     write_inode b i';;
     release Exclusive (mk_info i l b) (Some None))
    [Fresh nb bs0; Hold h] Pending done_with.
Proof.
  intros req h i blocks i' Hdata Hlbs Hmax Hvnb Hs Heq Ho.
  destruct (sound_file_length _ _ _ _ Hs) as (Hlen & Hsize & Hi).
  pose proof (sound_root_valid _ _ Hs) as Hvb. cbn [root_block] in Hvb.
  assert (length data < n_blocks)%nat as Hlt by (unfold FS_MAXFILEBLOCKS in Hmax; lia).
  eapply cwp_write_fresh; [done..|].
  eapply (cwp_upgrade req h); [apply Permutation_swap| |done..|].
  { apply holdless_cons; [done|apply holdless_nil]. }
  change (write_inode b i') with (disk_writeblock b (encode i')).
  apply (cwp_link_keep req (set_mode Exclusive h) d (File b o data) [(nb, bs)] b (encode i') (Some None)); [done..| | | |].
  - apply elem_of_cons. by left.
  - by apply length_encode, (appended_typed d b o data).
  - intros d1 t1 c1 [Hs1 Hc1 Hf1 Hd1 Hfresh Hv Hu _ _]. apply eq_sym, face_is_leaf in Hf1 as <-; [|done].
    apply Forall_cons in Hfresh as [Hfresh _]. apply Forall_cons in Hv as [Hv _].
    cbn in Hfresh, Hv, Hc1.
    assert (nb ∉ used (File b o data)) as Hnb.
    { intros Hin. apply (Hu nb); [by apply list_elem_of_singleton|].
      eapply subtree_used; [by eapply cross_subtree|done]. }
    assert (read_as fs_inode d1 b = i) as Hri by (apply read_as_agree, Hd1; cbn; apply elem_of_cons; by left).
    exists (append_data nb bs). split_and!; [| |cbn; by rewrite fmap_app|].
    + pose proof (append_change d1 b o data nb bs) as Hch. cbv zeta in Hch. rewrite Hri in Hch.
      by apply Hch.
    + done.
    + intros fr. cbn. rewrite Hdata. unfold spec_write.
      rewrite (walk_at _ _ _ (File b o data) (File b o data)) //.
      rewrite (proj2 (Z.ltb_ge _ _)); [|cbn; lia].
      by rewrite Heq Z.eqb_refl -Heq (proj2 (Z.ltb_lt _ _) Hmax).
  - intros d' c'. by apply (cwp_release req (set_node (Live d' c') (set_mode Exclusive h))).
Qed.

Lemma execute_WRITEBLOCK_handled (rq : FS_WRITEBLOCK) bs :
  request_ok (Req_WRITEBLOCK rq) → wr_data rq = Some bs → length bs = n_block →
  handled (Req_WRITEBLOCK rq) (execute_WRITEBLOCK rq).
Proof.
  intros ([[Hu _] _] & Hp & Hb) Hdata Hlbs. cbn in Hu, Hp, Hb. unfold execute_WRITEBLOCK.
  case_decide as Hnil.
  { apply (handled_now _ _ None); [|done]. intros d t fr _ Hd. cbn. rewrite Hnil.
    unfold spec_write. cbn. by destruct t. }
  destruct (Z.leb_spec FS_MAXFILEBLOCKS (wr_block rq)) as [Hmax|Hmax].
  { apply (handled_now _ _ None); [|done]. intros d t fr Hs Hd. by apply (write_too_far d). }
  intros d t _ _ _. exists Pending. split; [by left|].
  apply handled_traverse; [by apply path_no_nul|done| |done|].
  { intros t' fr Hw. cbn. unfold spec_write. by rewrite Hw. }
  clear d t. intros d t c l Hs Hc Hw. exists Pending. split; [by left|].
  pose proof (walk_here _ _ _ _ Hc Hw) as Ho.
  cbn [inode lock_ptr info_block]. rewrite (sound_is_dir _ _ Hs).
  set (h := mk_hold l Upgradable _ _ _ None). set (info := mk_info _ l _).
  destruct c as [b o data|b o chunks]; cbn [is_dir].
  2: { apply (cwp_release_settled _ h); [done..|].
       apply (settled_at _ h d (Dir b o chunks)); [apply elem_of_cons; by left|done..|].
       intros t' c' fr Hw' Hf'. eapply write_no_file; [exact Hw'|]. by rewrite (face_dir _ _ Hf'). }
  destruct (sound_file_length _ _ _ _ Hs) as (Hlen & Hsize & Hi). cbn [root_block tree_owner] in *.
  rewrite Hsize. destruct (Z.ltb_spec (wr_block rq) (Z.of_nat (length data))) as [Hlt|Hge].
  { eapply overwrite_handled; [done..|lia|done|done|done]. }
  destruct (Z.eqb_spec (wr_block rq) (Z.of_nat (length data))) as [Heq|Hne].
  2: { apply (cwp_release_settled _ h); [done..|].
       apply (settled_at _ h d (File b o data)); [apply elem_of_cons; by left|done..|].
       intros t' c' fr Hw' Hf'. eapply write_settled; [exact Hw'|exact Hf'|done|left; lia]. }
  apply cwp_pop; [exact (Nat.lt_0_succ _)| |].
  - intros nb bs0 Hvnb _. destruct (read_as_typed fs_inode d b (sound_root_valid _ _ Hs)) as (_ & _ & Hib & _).
    assert (length data < n_blocks)%nat as Hlt by (unfold FS_MAXFILEBLOCKS in Hmax; lia).
    rewrite -Hsize. eapply cwp_set_block; [apply lookup_lt_is_Some; rewrite Hib Hsize; lia|].
    eapply cwp_block_at.
    { cbn [i_blocks with_blocks]. rewrite Heq Hsize. apply list_lookup_insert_eq. rewrite Hib. lia. }
    rewrite Hdata. eapply cwp_get_some; [done|].
    by apply (append_handled rq bs d b o data l nb bs0).
  - intros ρ s t' HI Hfr. exists (Answered None). split; [|by apply (cwp_release _ h)].
    eapply no_space_answers; [exact HI|done|].
    destruct (shared_pinned _ _ _ HI h d (File b o data)) as (c' & Hc' & Hf & _);
      [apply elem_of_cons; by left|done..|].
    cbn. eapply write_settled; [by apply (walk_at _ _ _ (File b o data))|exact Hf|done|].
    by right.
Qed.
End file.
