(* ===== verification/FsAtomicCreate.v ===== *)
(** * Creating files and directories among other threads *)

From S2P Require Import Prelude CStd Request FsTypes FsMonad FileSystem FsTree FsSpec FsTraverse FsStored FsCreate FsFace FsTable FsShared FsLocks FsLink FsAtomic FsCrab FsAtomicFile.

(** ** Directories with the same entries *)

Lemma face_dir_inv c b o chunks :
  face_of c = face_of (Dir b o chunks) →
  ∃ chunks', c = Dir b o chunks' ∧ chunk_face <$> chunks' = chunk_face <$> chunks.
Proof. destruct c as [|b' o' chunks']; [done|]. intros [= -> -> Hf]. by exists chunks'. Qed.

Lemma first_free_slot_face (slots slots' : list slot) :
  slot_face <$> slots = slot_face <$> slots' → first_free_slot slots = first_free_slot slots'.
Proof.
  revert slots'. induction slots as [|s slots IH]; intros [|s' slots']; [done..|].
  cbn. intros [= Hs Hl]. by destruct s, s'; [rewrite (IH _ Hl)|..].
Qed.

Lemma first_free_face (chunks chunks' : list chunk) :
  chunk_face <$> chunks = chunk_face <$> chunks' → first_free chunks = first_free chunks'.
Proof.
  revert chunks'. induction chunks as [|[b slots] chunks IH]; intros [|[b' slots'] chunks']; [done..|].
  cbn. intros [= _ Hs Hl]. by rewrite (first_free_slot_face _ _ Hs) (IH _ Hl).
Qed.

(** A directory with one more entry. *)
Record one_more_entry (b : Z) (o : string) (chunks chunks' : list chunk) (e : string * tree) : Prop := {
  om_entries : chunk_entries chunks' ≡ₚ e :: chunk_entries chunks;
  om_full : Forall (λ c, omap id c.2 ≠ []) chunks → Forall (λ c, omap id c.2 ≠ []) chunks' }.

Section entry.
Context (b : Z) (o : string) (chunks chunks' : list chunk) (name : string) (c : tree).
Context (Hsh : shape (Dir b o chunks)) (Hnone : child (Dir b o chunks) name = None).
Context (Hom : one_more_entry b o chunks chunks' (name, c)).

Lemma one_more_child n y : child (Dir b o chunks) n = Some y → child (Dir b o chunks') n = Some y.
Proof using Hom Hnone Hsh.
  intros Hy. pose proof Hsh as (Hnd & _ & _)%shape_Dir. pose proof Hnone as Hno.
  rewrite child_Dir in Hno. apply find_child_None in Hno. rewrite child_Dir in Hy.
  rewrite child_Dir (find_child_perm _ ((name, c) :: chunk_entries chunks)).
  - rewrite find_child_cons. case_decide as Heq; [|done]. subst n.
    by apply find_child_None in Hno as Hno'; rewrite Hno' in Hy.
  - by apply NoDup_cons.
  - symmetry. apply Hom.
Qed.

Lemma one_more_shape : shape c → shape (Dir b o chunks').
Proof using Hom Hnone Hsh.
  intros Hc. eapply (shape_add b o chunks chunks' (name, c)); [done..|apply Hom|].
  apply Hom. by apply shape_Dir in Hsh as (_ & ? & _).
Qed.
End entry.

Lemma fill_one_more b o chunks k j e :
  first_free chunks = Some (k, j) → one_more_entry b o chunks (put_slot k j (Some e) chunks) e ∧
  (put_slot k j (Some e) chunks).*1 = chunks.*1.
Proof.
  intros Hff. destruct (fill_chunks_spec e chunks (put_slot k j (Some e) chunks)) as (He & Hb & Hf).
  { by rewrite fill_chunks_first Hff. }
  by split.
Qed.

Lemma new_chunk_one_more b o chunks db e : one_more_entry b o chunks (chunks ++ [new_chunk db e]) e.
Proof.
  split.
  - rewrite new_chunk_entries. symmetry. apply Permutation_cons_append.
  - intros Hf. apply Forall_app. by repeat constructor.
Qed.

(** ** Creations without effect *)

Lemma create_nothing user path ty parent name t fr c c' :
  path = parent ++ [name] → walk user t parent true = Some c' → face_of c' = face_of c →
  is_dir c = false ∨ child c name ≠ None ∨ fr = [] ∨
  (∃ b o chunks, c = Dir b o chunks ∧ first_free chunks = None ∧
     (Z.of_nat (length chunks) = FS_MAXFILEBLOCKS ∨ (length fr ≤ 1)%nat)) →
  spec_create user path ty (mk_fsys t fr) = (None, mk_fsys t fr).
Proof.
  intros Hpath Hw Hf Hcase. destruct c' as [b o data|b o chunks'] eqn:Hc'.
  { unfold spec_create. rewrite Hpath last_snoc removelast_last Hw. done. }
  rewrite (spec_create_child (mk_fsys t fr) _ _ _ _ _ b o chunks' Hpath Hw). cbn [free].
  destruct (child (Dir b o chunks') name) eqn:Hch; [by destruct fr|].
  destruct fr as [|nb fr]; [done|].
  destruct Hcase as [Hd|[Hn|[?|(b1 & o1 & chunks & -> & Hff & Hlen)]]]; [| |done|].
  - by rewrite -(face_dir _ _ Hf) in Hd.
  - destruct Hn. by apply (face_child_None _ c) in Hch.
  - cbn in Hf. injection Hf as _ _ Hf.
    rewrite (first_free_face _ _ Hf) Hff. destruct fr as [|db fr]; [done|].
    destruct Hlen as [Hlen|Hlen]; [|cbn in Hlen; lia].
    apply (f_equal length) in Hf. rewrite !length_fmap in Hf. by rewrite Hf Hlen Z.eqb_refl.
Qed.

Lemma create_no_path user path ty parent name t fr :
  path = parent ++ [name] → walk user t parent true = None →
  spec_create user path ty (mk_fsys t fr) = (None, mk_fsys t fr).
Proof. intros -> Hw. unfold spec_create. by rewrite last_snoc removelast_last Hw. Qed.

Lemma create_no_block user path ty t :
  spec_create user path ty (mk_fsys t []) = (None, mk_fsys t []).
Proof.
  unfold spec_create. destruct (last path); [|done]. destruct (walk _ _ _ _) as [[|]|]; [done| |done].
  by destruct (child _ _).
Qed.

(** ** What the last write stores *)

Section change.
Context {D M : Type} {HD : Disk D} {HDL : DiskLaws D} {SM : SharedMutex M} {SML : SharedMutexLaws M}.

(** Two disks that read the same. *)
Definition same_disk (d d' : D) : Prop := ∀ x, valid_block x → disk_read d x = disk_read d' x.

Lemma same_disk_again (d d' : D) nb bs :
  same_disk d d' → valid_block nb → length bs = n_block → disk_read d nb = bs →
  same_disk d (disk_write d' nb bs).
Proof.
  intros Hd Hnb Hl Heq x Hx. rewrite disk_read_insert //. case_decide; [by subst|by apply Hd].
Qed.

Lemma stored_again (d d' : D) b bs c :
  same_disk d d' → valid_block b → length bs = n_block → Forall valid_block (used c) →
  stored (disk_write d' b bs) c → stored (disk_write d b bs) c.
Proof.
  intros Hd Hb Hl Hv Hst. apply (stored_frame _ _ _ Hst). intros x Hx.
  rewrite Forall_forall in Hv. rewrite !disk_read_insert //; [|by apply Hv..].
  case_decide; [done|by apply Hd, Hv].
Qed.

Lemma direntries_length (d : D) ck j e :
  valid_block ck → direntry_typed e →
  length (encode (<[j := e]> (read_as (list fs_direntry) d ck))) = n_block.
Proof.
  intros Hv He. apply length_encode. destruct (read_as_typed (list fs_direntry) d ck Hv) as [Hl Hes].
  split; [by rewrite length_insert|by apply Forall_insert].
Qed.

Context (d : D) (b : Z) (o : string) (chunks : list chunk) (name : string) (nb : Z) (i : fs_inode).
Context (e : fs_direntry) (ty : byte) (user : string).
Context (Hs : sound d (Dir b o chunks)) (Hnone : child (Dir b o chunks) name = None).
Context (Hv : valid_block nb) (Hnb : nb ∉ used (Dir b o chunks)) (Hi : new_inode_ok i ty user).
Context (Hread : disk_read d nb = encode i).
Context (Hety : direntry_typed e) (He : entry_is e (Some (name, new_node ty nb user))).
Abbreviation entry := (name, new_node ty nb user).

Lemma one_more_used chunks' dbs :
  one_more_entry b o chunks chunks' entry → chunks'.*1 = chunks.*1 ++ dbs →
  used (Dir b o chunks') ≡ₚ used (Dir b o chunks) ++ nb :: dbs.
Proof using Type.
  intros [Hp _] Hb. rewrite !used_Dir Hb. unfold entries_used. rewrite Hp. cbn.
  rewrite used_new_node. solve_Permutation.
Qed.

Lemma one_more_change d' chunks' dbs :
  one_more_entry b o chunks chunks' entry → chunks'.*1 = chunks.*1 ++ dbs →
  stored d' (Dir b o chunks') →
  node_change (Dir b o chunks) d' (set_chunks chunks') ∧
  (∀ n y, child (Dir b o chunks) n = Some y → child (set_chunks chunks' (Dir b o chunks)) n = Some y) ∧
  used (set_chunks chunks' (Dir b o chunks)) ≡ₚ used (Dir b o chunks) ++ nb :: dbs.
Proof using Hs Hnone.
  intros Hom Hb Hst. pose proof (sound_shape _ _ Hs) as Hsh. cbn [set_chunks]. split_and!.
  - split; [done| |done..]. eapply one_more_shape; [exact Hsh|exact Hnone|exact Hom|].
    apply shape_new_node.
  - intros n y. by eapply one_more_child.
  - by apply one_more_used.
Qed.

Lemma fill_change k j ck slots :
  first_free chunks = Some (k, j) → chunks !! k = Some (ck, slots) → slots !! j = Some None →
  stored (disk_write d ck (encode (<[j := e]> (read_as (list fs_direntry) d ck))))
    (Dir b o (put_slot k j (Some entry) chunks)).
Proof using All.
  intros Hff Hk Hj. destruct (fill_one_more b o chunks k j entry Hff) as [Hom Hb].
  destruct (dir_at_block _ _ _ _ _ _ (proj1 (sound_dir _ _ _ _ Hs)) Hk) as (_ & Hvck & _).
  cbn [fst] in Hvck. apply (stored_again _ (disk_write d nb (encode i))).
  - apply same_disk_again; [done|exact Hv|by apply length_encode, Hi|exact Hread].
  - exact Hvck.
  - by apply direntries_length.
  - rewrite (one_more_used _ []) //; [|by rewrite app_nil_r].
    apply Forall_app. split; [apply (sound_valid _ _ Hs)|]. repeat (apply Forall_cons; split; [done|]). apply Forall_nil_2.
  - by eapply stored_fill.
Qed.

Lemma add_chunk_change db :
  let di := read_as fs_inode d b in
  let di' := with_blocks di (to_uint32 (i_size di + 1)) (<[Z.to_nat (i_size di) := db]> (i_blocks di)) in
  (length chunks < n_blocks)%nat → valid_block db → db ∉ used (Dir b o chunks) → db ≠ nb →
  disk_read d db = encode (e :: replicate (n_direntries - 1) zero_direntry) →
  inode_typed di' ∧
  stored (disk_write d b (encode di')) (Dir b o (chunks ++ [new_chunk db entry])).
Proof using All.
  intros di di' Hlen Hvdb Hdb Hne Hrdb. pose proof (sound_root_valid _ _ Hs) as Hvb. cbn [root_block] in Hvb.
  assert (inode_typed di') as Hty.
  { destruct (all_nodes_here _ _ (sound_stored _ _ Hs)) as [Hin _].
    destruct (inode_append d b type_dir o chunks.*1 db) as [Ht _]; [done..| |exact Ht].
    by rewrite length_fmap. }
  split; [exact Hty|].
  apply (stored_again _ (disk_write (disk_write d db
    (encode (e :: replicate (n_direntries - 1) zero_direntry))) nb (encode i))).
  - apply same_disk_again; [|exact Hv|by apply length_encode, Hi|exact Hread].
    apply same_disk_again; [done|exact Hvdb|by apply length_encode, new_direntries_typed|exact Hrdb].
  - exact Hvb.
  - by apply length_encode.
  - rewrite (one_more_used _ [db]); [|apply new_chunk_one_more|by rewrite fmap_app].
    apply Forall_app. split; [apply (sound_valid _ _ Hs)|]. repeat (apply Forall_cons; split; [done|]). apply Forall_nil_2.
  - by apply stored_add_chunk.
Qed.
End change.

(** ** [execute_CREATE] *)

Section create.
Context {D M : Type} {HD : Disk D} {HDL : DiskLaws D} {SM : SharedMutex M} {SML : SharedMutexLaws M}.
Abbreviation tok := (tok D).
Abbreviation hold := (hold D).
Abbreviation handled := (handled (D := D) (M := M)).
Context (rq : FS_CREATE).
Abbreviation cwp := (cwp (D := D) (M := M) (Req_CREATE rq)).

Lemma cwp_strcpy {B} dst src (k : bytes → prog B) κ q Q :
  size src < Z.of_nat (length dst) → ¬ has_char NUL src →
  (∀ a, length a = length dst → c_str a = src → cwp (k a) κ q Q) →
  cwp (get_strcpy dst src ≫= k) κ q Q.
Proof.
  intros Hsz Hn Hk. destruct (strcpy_fits _ _ Hsz) as [a Ha].
  unfold get_strcpy. rewrite cut_nul_id //. eapply cwp_get_some; [exact Ha|].
  apply Hk; [by eapply strcpy_length|by eapply strcpy_c_str].
Qed.

(** A second block, or the first one goes back to the list. *)
Lemma cwp_pop_or_push {B} nb bs0 (k : option Z → prog B) (κ κ0 : list tok) q Q :
  κ ≡ₚ Fresh nb bs0 :: κ0 → (S (length (blocks κ0)) < held_max)%nat →
  (∀ b bs, valid_block b → cwp (k (Some b)) (Fresh b bs :: Fresh nb bs0 :: κ0) q Q) →
  (∀ ρ (s : fs_state D M) t, shared (Fresh nb bs0 :: κ0 ++ ρ) s t → free_disk_blocks s = [] → ∃ q',
     answers (Req_CREATE rq) (blocks ρ) t q t q' ∧ cwp (k None) κ0 q' Q) →
  cwp (with_free_list (λ l,
     match l with
     | [] => (None, nb :: l)
     | b :: l' => (Some b, l')
     end) ≫= k) κ q Q.
Proof.
  intros HP Hfew Hsome Hnone. eapply cwp_perm; [exact HP|]. apply cwp_free. intros ρ s t HI.
  destruct (free_disk_blocks s) as [|b fr] eqn:Hfr; cbn [fst snd].
  - destruct (Hnone ρ s t HI Hfr) as (q' & Hans & HQ). exists κ0, q'.
    split; [apply (shared_give [(nb, bs0)]); [exact HI|by rewrite Hfr]|]. split; [exact Hans|].
    split; [|exact HQ]. apply few_less. rewrite blocks_cons length_app. cbn [tok_blocks length]. lia.
  - exists (Fresh b (disk_read (disk s) b) :: Fresh nb bs0 :: κ0), q.
    split; [by apply shared_take|]. split; [by left|].
    split; [unfold few; rewrite !blocks_cons; cbn [tok_blocks app length]; lia|]. apply Hsome.
    apply (shared_free_block _ _ _ b HI). rewrite Hfr. apply elem_of_cons. by left.
Qed.

(** *** With the parent directory locked *)

Context (parent : Path) (name : string) (junk : fs_inode).
Context (Hpath : cr_path rq = parent ++ [name]) (Hname : ¬ has_char NUL name).
Context (Hsz : size name ≤ FS_MAXFILENAME).
Context (d : D) (l : lockref) (b : Z) (o : string) (chunks : list chunk).
Context (Hs : sound d (Dir b o chunks)).
Context (Ho : first_of parent true || String.eqb (cr_username rq) o = true).
Abbreviation parent_hold m := (mk_hold l m (cr_username rq) parent (Live d (Dir b o chunks)) None).
Abbreviation info := (mk_info (read_as fs_inode d b) l b).

Lemma cwp_scan κ q spot0 :
  Hold (parent_hold Upgradable) ∈ κ → next_free_spot_block spot0 = -1 →
  cwp (scan_loop (read_as fs_inode d b) name spot0) κ q (λ r κ' q', κ' = κ ∧ q' = q ∧
    match r with
    | Break _ => name ∈ (chunk_entries chunks).*1
    | Next spot => (name ∉ (chunk_entries chunks).*1) ∧ spot_is d chunks (first_free chunks) spot
    end).
Proof using Hs Hname HDL SML.
  intros Hh Hspot. destruct (sound_dir _ _ _ _ Hs) as [Hd _]. unfold scan_loop.
  rewrite (dir_at_size _ _ _ _ Hd).
  apply (cwp_for _ _ _ chunks _ _ (λ i spot, (name ∉ (chunk_entries (take i chunks)).*1) ∧
    spot_is d chunks (first_free (take i chunks)) spot)).
  - split; [apply not_elem_of_nil|done].
  - intros i [cb slots] spot Hi [Hn Hsp].
    destruct (dir_at_block _ _ _ _ _ _ Hd Hi) as (Hblk & _).
    eapply cwp_block_at; [exact Hblk|]. eapply cwp_read_chunk; [exact Hh|done|exact Hi|].
    pose proof (scan_block _ _ _ _ _ _ _ _ _ Hd Hname Hi Hn Hsp) as Hb. cbv zeta in Hb.
    cbn [fst]. by destruct (scan_entries _ _ _ _ _ _).
  - intros spot [Hn Hsp]. rewrite firstn_all in Hn, Hsp. done.
Qed.

Lemma create_settled c κ :
  Hold (mk_hold l Upgradable (cr_username rq) parent (Live d c) None) ∈ κ →
  tree_owner c = o →
  is_dir c = false ∨ child c name ≠ None ∨
  (∃ b o chunks, c = Dir b o chunks ∧ first_free chunks = None ∧
     Z.of_nat (length chunks) = FS_MAXFILEBLOCKS) →
  settled (M := M) (Req_CREATE rq) κ None.
Proof using Hpath Ho.
  intros Hh Hc Hcase. apply (settled_at _ _ d c _ _ Hh); [done|done|by rewrite Hc|].
  intros t c' fr Hw Hf. cbn [spec_request]. eapply create_nothing; [exact Hpath|exact Hw|exact Hf|].
  destruct Hcase as [?|[?|(b' & o' & chunks' & ?)]]; [by left|right; by left|].
  do 3 right. exists b', o', chunks'. tauto.
Qed.

(** The write that adds the entry, for the blocks [nb :: dbs]. *)
Abbreviation new_entry nb := (name, new_node (cr_type rq) nb (cr_username rq)).

Lemma create_link fs nb dbs blk bs κ :
  κ ≡ₚ Hold (parent_hold Exclusive) :: fresh_toks fs → fs.*1 = nb :: dbs →
  blk ∈ b :: chunks.*1 → length bs = n_block → child (Dir b o chunks) name = None →
  (∀ d1 t1 chunks1, at_link (parent_hold Exclusive) d (Dir b o chunks) fs d1 t1 (Dir b o chunks1) →
     chunk_face <$> chunks1 = chunk_face <$> chunks → child (Dir b o chunks1) name = None →
     ∃ chunks', one_more_entry b o chunks1 chunks' (new_entry nb) ∧ chunks'.*1 = chunks1.*1 ++ dbs ∧
       stored (disk_write d1 blk bs) (Dir b o chunks') ∧
       ∀ fr, spec_create (cr_username rq) (cr_path rq) (cr_type rq) (mk_fsys t1 (nb :: dbs ++ fr)) =
         (Some None, mk_fsys (update t1 parent (set_chunks chunks')) fr)) →
  cwp (disk_writeblock blk bs;; release Exclusive info (Some None)) κ Pending done_with.
Proof using Hs Ho HDL SML.
  intros HP Hfs Hblk Hlen Hnone Hk.
  apply (cwp_link_keep _ (parent_hold Exclusive) d (Dir b o chunks) fs blk bs (Some None));
    [exact HP|done|done|done|exact Hblk|exact Hlen| |].
  2: { intros d' c'. by apply (cwp_release _ (set_node (Live d' c') (parent_hold Exclusive))). }
  intros d1 t1 c1 Hal. destruct (face_dir_inv _ _ _ _ (al_face _ _ _ _ _ _ _ Hal)) as (chunks1 & -> & Hf1).
  assert (child (Dir b o chunks1) name = None) as Hnone1.
  { apply (face_child_None (Dir b o chunks)); [|done]. symmetry. apply Hal. }
  destruct (Hk _ _ _ Hal Hf1 Hnone1) as (chunks' & Hom & Hb & Hst & Hspec).
  exists (set_chunks chunks').
  destruct (one_more_change d1 b o chunks1 name nb (cr_type rq) (cr_username rq)
    (al_sound _ _ _ _ _ _ _ Hal) Hnone1 _ chunks' dbs Hom Hb Hst) as (Hch & Hkeep & Hu).
  split_and!; [exact Hch|exact Hkeep|by rewrite Hfs|]. rewrite Hfs. exact Hspec.
Qed.

Lemma at_link_walk fs d1 t1 chunks1 :
  at_link (parent_hold Exclusive) d (Dir b o chunks) fs d1 t1 (Dir b o chunks1) →
  walk (cr_username rq) t1 parent true = Some (Dir b o chunks1).
Proof using Ho.
  intros Hal. apply (walk_at _ _ _ (Dir b o chunks)); [exact Ho|apply Hal|apply Hal].
Qed.

Lemma at_link_fresh fs d1 t1 chunks1 nb bs :
  at_link (parent_hold Exclusive) d (Dir b o chunks) fs d1 t1 (Dir b o chunks1) → (nb, bs) ∈ fs →
  disk_read d1 nb = bs ∧ valid_block nb ∧ (nb ∉ used (Dir b o chunks1)) ∧ nb ≠ 0.
Proof using Type.
  intros [_ Hc _ _ Hfr Hv Hu _ Hz] Hin. cbn [h_user h_path] in Hc.
  pose proof (list_elem_of_fmap_2 fst _ _ Hin) as Hin1.
  rewrite Forall_forall in Hfr. rewrite Forall_forall in Hv. split_and!.
  - exact (Hfr _ Hin).
  - exact (Hv _ Hin1).
  - intros Hx. apply (Hu _ Hin1). eapply subtree_used; [by eapply cross_subtree|exact Hx].
  - intros ->. exact (Hu _ Hin1 Hz).
Qed.

Lemma spot_entry k j ck slots :
  chunks !! k = Some (ck, slots) → slots !! j = Some None →
  ck ∈ b :: chunks.*1 ∧ valid_block ck ∧
  ∃ e, read_as (list fs_direntry) d ck !! j = Some e ∧ direntry_typed e.
Proof using Hs HDL.
  intros Hk Hj.
  destruct (dir_at_block _ _ _ _ _ _ (proj1 (sound_dir _ _ _ _ Hs)) Hk) as (_ & Hvck & Hch).
  cbn [fst] in Hvck. split_and!; [|done|].
  - apply elem_of_cons. right. by eapply (list_elem_of_fmap_2 fst _ (ck, slots)), list_elem_of_lookup_2.
  - destruct (Forall2_lookup_r _ _ _ _ _ Hch Hj) as (e & He & _). exists e. split; [done|].
    destruct (read_as_typed (list fs_direntry) d ck Hvck) as [_ Hes].
    rewrite Forall_lookup in Hes. by eapply Hes.
Qed.

Lemma fill_handled nb bs0 owner k j ck slots :
  let new_inode := mk_inode (cr_type rq) owner 0 (i_blocks junk) in
  let spot := mk_spot ck (Z.of_nat j) (read_as (list fs_direntry) d ck) in
  valid_block nb → nb ≠ 0 → child (Dir b o chunks) name = None →
  first_free chunks = Some (k, j) → chunks !! k = Some (ck, slots) → slots !! j = Some None →
  new_inode_ok new_inode (cr_type rq) (cr_username rq) →
  cwp
    (let j := Z.to_nat (next_free_spot_arr_index spot) in
     entry ← get_some OutOfBounds (next_free_spot_direntries spot !! j);
     name ← get_strcpy (d_name entry) name;
     let direntries := <[j := mk_direntry name nb]> (next_free_spot_direntries spot) in
     write_inode nb new_inode;;
     upgrade l;;
     write_direntries (next_free_spot_block spot) direntries;;
     release Exclusive info (Some None))
    [Fresh nb bs0; Hold (parent_hold Upgradable)] Pending done_with.
Proof using All.
  intros new_inode spot Hvnb Hnz Hnone Hff Hk Hj Hi. subst spot.
  cbn [next_free_spot_arr_index next_free_spot_direntries next_free_spot_block]. rewrite Nat2Z.id.
  destruct (spot_entry _ _ _ _ Hk Hj) as (Hck & Hvck & e & He & Hety).
  eapply cwp_get_some; [exact He|].
  apply cwp_strcpy; [destruct Hety as [-> _]; unfold FS_MAXFILENAME in *; lia|done|].
  intros nm Hlnm Hnm.
  destruct (new_direntry e name nm (cr_type rq) nb (cr_username rq)) as [Hety' He']; [done..|].
  change (write_inode nb new_inode) with (disk_writeblock nb (encode new_inode)).
  eapply cwp_write_fresh; [reflexivity|apply length_encode, Hi|].
  eapply (cwp_upgrade _ (parent_hold Upgradable)); [apply Permutation_swap| |done|done|].
  { apply holdless_cons; [done|apply holdless_nil]. }
  apply (create_link [(nb, encode new_inode)] nb []); [reflexivity|reflexivity|exact Hck| |exact Hnone|].
  { by apply direntries_length. }
  intros d1 t1 chunks1 Hal Hf1 Hnone1.
  exists (put_slot k j (Some (new_entry nb)) chunks1).
  rewrite -(first_free_face _ _ Hf1) in Hff.
  destruct (at_link_fresh _ _ _ _ nb (encode new_inode) Hal) as (Hr & _ & Hnb & _);
    [apply elem_of_cons; by left|].
  destruct (fill_one_more b o chunks1 k j (new_entry nb) Hff) as [Hom Hb].
  split; [exact Hom|]. split; [by rewrite Hb app_nil_r|]. split.
  - destruct (first_free_lookup _ _ _ Hff) as (ck1 & slots1 & Hk1 & Hj1).
    destruct (face_chunk b o chunks1 b o chunks _ _ _ (al_face _ _ _ _ _ _ _ Hal) Hk1) as (sl & Hk' & _).
    rewrite Hk in Hk'. injection Hk' as <- _.
    rewrite -(read_as_agree (list fs_direntry) d d1 ck).
    + by eapply (fill_change d1 b o chunks1 name nb new_inode); [apply Hal|..].
    + by apply Hal.
  - intros fr. cbn [app]. rewrite (spec_create_child (mk_fsys t1 (nb :: fr)) _ _ _ _ _ _ _ _ Hpath (at_link_walk _ _ _ _ Hal)).
    cbn [free]. by rewrite Hnone1 Hff.
Qed.

Lemma add_chunk_link nb db nm i :
  let e := mk_direntry nm nb in
  let es := e :: replicate (n_direntries - 1) zero_direntry in
  let di := read_as fs_inode d b in
  let di' := with_blocks di (to_uint32 (i_size di + 1)) (<[Z.to_nat (i_size di) := db]> (i_blocks di)) in
  child (Dir b o chunks) name = None → first_free chunks = None → (length chunks < n_blocks)%nat →
  new_inode_ok i (cr_type rq) (cr_username rq) → valid_block db →
  direntry_typed e → entry_is e (Some (new_entry nb)) →
  cwp (write_inode b di';; release Exclusive info (Some None))
    [Hold (parent_hold Exclusive); Fresh nb (encode i); Fresh db (encode es)] Pending done_with.
Proof using All.
  intros e es di di' Hnone Hff Hlen Hi Hvdb Hety He.
  change (write_inode b di') with (disk_writeblock b (encode di')).
  apply (create_link [(nb, encode i); (db, encode es)] nb [db]);
    [reflexivity|reflexivity|apply elem_of_cons; by left| |exact Hnone|].
  { pose proof (sound_root_valid _ _ Hs) as Hvb. cbn [root_block] in Hvb. apply length_encode.
    destruct (all_nodes_here _ _ (sound_stored _ _ Hs)) as [Hin _].
    destruct (inode_append d b type_dir o chunks.*1 db) as [Ht _]; [done..| |exact Ht].
    by rewrite length_fmap. }
  intros d1 t1 chunks1 Hal Hf1 Hnone1. exists (chunks1 ++ [new_chunk db (new_entry nb)]).
  rewrite -(first_free_face _ _ Hf1) in Hff.
  assert (length chunks1 = length chunks) as Hl.
  { apply (f_equal length) in Hf1. by rewrite !length_fmap in Hf1. }
  destruct (at_link_fresh _ _ _ _ nb (encode i) Hal) as (Hr & Hvnb & Hnb & _);
    [apply elem_of_cons; by left|].
  destruct (at_link_fresh _ _ _ _ db (encode es) Hal) as (Hrdb & _ & Hdb & _);
    [apply elem_of_cons; right; apply elem_of_cons; by left|].
  assert (db ≠ nb) as Hne.
  { pose proof (al_NoDup _ _ _ _ _ _ _ Hal) as Hnd. apply NoDup_cons in Hnd as [Hnd _].
    intros ->. apply Hnd, elem_of_cons. by left. }
  split; [apply new_chunk_one_more|]. split; [by rewrite fmap_app|]. split.
  - assert (read_as fs_inode d1 b = di) as Hri.
    { apply read_as_agree, Hal, elem_of_cons. by left. }
    pose proof (add_chunk_change d1 b o chunks1 name nb i e (cr_type rq) (cr_username rq)
      (al_sound _ _ _ _ _ _ _ Hal) Hnone1 Hvnb Hnb Hi Hr Hety He db) as Hst. cbv zeta in Hst.
    rewrite Hri Hl in Hst. apply (Hst Hlen Hvdb Hdb Hne Hrdb).
  - intros fr. cbn [app].
    rewrite (spec_create_child (mk_fsys t1 (nb :: db :: fr)) _ _ _ _ _ _ _ _ Hpath (at_link_walk _ _ _ _ Hal)).
    cbn [free]. rewrite Hnone1 Hff Hl (proj2 (Z.eqb_neq _ _)); [done|].
    unfold FS_MAXFILEBLOCKS. lia.
Qed.

Lemma create_no_second nb bs0 ρ (s : fs_state D M) t :
  child (Dir b o chunks) name = None → first_free chunks = None →
  shared (Fresh nb bs0 :: [Hold (parent_hold Upgradable)] ++ ρ) s t → free_disk_blocks s = [] →
  answers (Req_CREATE rq) (blocks ρ) t Pending t (Answered None).
Proof using Hpath Ho HDL SML.
  intros Hnone Hff HI Hfr.
  eapply (no_space_answers _ [Fresh nb bs0; Hold (parent_hold Upgradable)]); [exact HI|exact Hfr|].
  destruct (shared_pinned _ _ _ HI (parent_hold Upgradable) d (Dir b o chunks)) as (c' & Hc' & Hf & _);
    [apply elem_of_cons; right; apply elem_of_cons; by left|done..|].
  cbn [spec_request]. eapply create_nothing; [exact Hpath|by apply (walk_at _ _ _ (Dir b o chunks))|exact Hf|].
  do 3 right. exists b, o, chunks. split_and!; [done..|]. right. by apply Nat.leb_le.
Qed.

Lemma add_chunk_handled nb bs0 owner :
  let di := read_as fs_inode d b in
  let new_inode := mk_inode (cr_type rq) owner 0 (i_blocks junk) in
  valid_block nb → nb ≠ 0 → child (Dir b o chunks) name = None → first_free chunks = None →
  new_inode_ok new_inode (cr_type rq) (cr_username rq) →
  cwp
    (if i_size di =? FS_MAXFILEBLOCKS then
       with_free_list (λ l, (tt, nb :: l));;
       release Upgradable info None
     else
       front2 ← with_free_list (λ l,
         match l with
         | [] => (None, nb :: l)
         | b :: l' => (Some b, l')
         end);
       match front2 with
       | None => release Upgradable info None
       | Some new_direntries_block =>
           name ← get_strcpy (d_name zero_direntry) name;
           write_direntries new_direntries_block
             (mk_direntry name nb :: replicate (n_direntries - 1) zero_direntry);;
           write_inode nb new_inode;;
           blocks ← set_block (i_blocks di) (i_size di) new_direntries_block;
           upgrade l;;
           write_inode b (with_blocks di (to_uint32 (i_size di + 1)) blocks);;
           release Exclusive info (Some None)
       end)
    [Fresh nb bs0; Hold (parent_hold Upgradable)] Pending done_with.
Proof using All.
  intros di new_inode Hvnb Hnz Hnone Hff Hi.
  pose proof (sound_root_valid _ _ Hs) as Hvb. cbn [root_block] in Hvb.
  destruct (all_nodes_here _ _ (sound_stored _ _ Hs)) as [Hdi _].
  destruct (inode_is_size _ _ _ _ _ Hvb Hdi) as [Hlen Hsize]. rewrite length_fmap in Hlen Hsize.
  subst di. rewrite Hsize.
  destruct (Z.eqb_spec (Z.of_nat (length chunks)) FS_MAXFILEBLOCKS) as [Hmax|Hmax].
  { apply (cwp_give _ [(nb, bs0)] _ _ _ [Hold (parent_hold Upgradable)]); [reflexivity| |].
    - intros fr. cbn. apply Permutation_cons_append.
    - apply (cwp_release_settled _ (parent_hold Upgradable)); [done..|].
      apply (create_settled (Dir b o chunks)); [apply elem_of_cons; by left|done|].
      right. right. by exists b, o, chunks. }
  eapply cwp_pop_or_push; [reflexivity|by apply Nat.ltb_lt| |].
  2: { intros ρ s t HI Hfr. exists (Answered None). split; [|by apply (cwp_release _ (parent_hold Upgradable))].
       by eapply create_no_second. }
  intros db bs1 Hvdb.
  apply cwp_strcpy; [cbn; unfold FS_MAXFILENAME in *; lia|done|]. intros nm Hlnm Hnm.
  destruct (new_direntry zero_direntry name nm (cr_type rq) nb (cr_username rq))
    as [Hety He]; [split; [done|unfold u32; cbn; lia]|done..|].
  set (es := mk_direntry nm nb :: _).
  change (write_direntries db es) with (disk_writeblock db (encode es)).
  eapply cwp_write_fresh; [reflexivity|by apply length_encode, new_direntries_typed|].
  change (write_inode nb new_inode) with (disk_writeblock nb (encode new_inode)).
  eapply cwp_write_fresh; [apply Permutation_swap|apply length_encode, Hi|].
  destruct (read_as_typed fs_inode d b Hvb) as (_ & _ & Hib & _).
  assert (length chunks < n_blocks)%nat as Hlt by (unfold FS_MAXFILEBLOCKS in Hmax; lia).
  eapply cwp_set_block; [apply lookup_lt_is_Some; rewrite Hib; lia|].
  set (fs := [Fresh nb (encode new_inode); Fresh db (encode es)] : list tok).
  apply (cwp_upgrade _ (parent_hold Upgradable) _ _ fs).
  - symmetry. exact (Permutation_cons_append fs _).
  - apply holdless_cons; [done|apply holdless_cons; [done|apply holdless_nil]].
  - done.
  - done.
  - rewrite -Hsize. by apply add_chunk_link.
Qed.
End create.

Section execute.
Context {D M : Type} {HD : Disk D} {HDL : DiskLaws D} {SM : SharedMutex M} {SML : SharedMutexLaws M}.
Abbreviation handled := (handled (D := D) (M := M)).

Lemma create_at_parent (junk : fs_inode) (rq : FS_CREATE) parent name (d : D) (t c : tree) l :
  let info := mk_info (read_as fs_inode d (root_block c)) l (root_block c) in
  inode_typed junk → request_ok (Req_CREATE rq) → cr_path rq = parent ++ [name] →
  ¬ has_char NUL name → size name ≤ FS_MAXFILENAME → sound d c →
  cross (cr_username rq) t parent true = Some c → walk (cr_username rq) t parent true = Some c →
  cwp (M := M) (Req_CREATE rq)
    (if Ascii.eqb (i_type (inode info)) type_file then release Upgradable info None
     else
       scan ← scan_loop (inode info) name (mk_spot (-1) (-1) []);
       match scan with
       | Break _ => release Upgradable info None
       | Next spot =>
           front ← with_free_list pop_front;
           match front with
           | None => release Upgradable info None
           | Some nb =>
               owner ← get_strcpy (i_owner junk) (cr_username rq);
               let new_inode := mk_inode (cr_type rq) owner 0 (i_blocks junk) in
               if next_free_spot_block spot =? -1 then
                 if i_size (inode info) =? FS_MAXFILEBLOCKS then
                   with_free_list (λ l, (tt, nb :: l));;
                   release Upgradable info None
                 else
                   front2 ← with_free_list (λ l,
                     match l with
                     | [] => (None, nb :: l)
                     | b :: l' => (Some b, l')
                     end);
                   match front2 with
                   | None => release Upgradable info None
                   | Some db =>
                       nm ← get_strcpy (d_name zero_direntry) name;
                       write_direntries db
                         (mk_direntry nm nb :: replicate (n_direntries - 1) zero_direntry);;
                       write_inode nb new_inode;;
                       blocks ← set_block (i_blocks (inode info)) (i_size (inode info)) db;
                       upgrade (lock_ptr info);;
                       write_inode (info_block info)
                         (with_blocks (inode info) (to_uint32 (i_size (inode info) + 1)) blocks);;
                       release Exclusive info (Some None)
                   end
               else
                 let j := Z.to_nat (next_free_spot_arr_index spot) in
                 entry ← get_some OutOfBounds (next_free_spot_direntries spot !! j);
                 nm ← get_strcpy (d_name entry) name;
                 let direntries :=
                   <[j := mk_direntry nm nb]> (next_free_spot_direntries spot) in
                 write_inode nb new_inode;;
                 upgrade (lock_ptr info);;
                 write_direntries (next_free_spot_block spot) direntries;;
                 release Exclusive info (Some None)
           end
       end)
    [Hold (mk_hold l Upgradable (cr_username rq) parent (Live d c) None)] Pending done_with.
Proof.
  intros info Hjunk ([[Hu _] Husz] & _ & Hty) Hpath Hname Hsz Hs Hc Hw. cbn in Hu, Husz, Hty.
  pose proof (walk_here _ _ _ _ Hc Hw) as Ho. subst info. cbn [inode lock_ptr info_block].
  rewrite (sound_is_file _ _ Hs). set (h := mk_hold l Upgradable _ _ _ None).
  destruct c as [b o data|b o chunks]; cbn [is_dir negb root_block tree_owner] in *.
  { apply (cwp_release_settled _ h); [done..|].
    eapply (create_settled rq parent name Hpath d l o Ho (File b o data)); [apply elem_of_cons; by left|done|by left]. }
  apply cwp_bind. eapply cwp_mono; [eapply (cwp_scan rq parent name Hname d l b o chunks Hs); [apply elem_of_cons; by left|done]|].
  intros scan κ' q' (-> & -> & Hscan). destruct scan as [spot|[]].
  2: { apply (cwp_release_settled _ h); [done..|].
       eapply (create_settled rq parent name Hpath d l o Ho (Dir b o chunks)); [apply elem_of_cons; by left|done|].
       right. left. intros Hch. by apply find_child_None in Hch. }
  destruct Hscan as [Hnin Hspot].
  assert (child (Dir b o chunks) name = None) as Hnone by by apply find_child_None.
  apply cwp_pop; [exact (Nat.lt_0_succ _)| |].
  2: { intros ρ s t' HI Hfr. exists (Answered None). split; [|by apply (cwp_release _ h)].
       eapply (no_space_answers _ [Hold h]); [exact HI|exact Hfr|]. apply create_no_block. }
  intros nb bs0 Hvnb Hnz.
  apply cwp_strcpy; [destruct Hjunk as (-> & _); unfold FS_MAXUSERNAME in Husz; lia|done|].
  intros owner Hlo Howner. pose proof (new_inode_typed junk _ owner _ Hjunk Hlo Howner Hty) as Hnew.
  destruct (first_free chunks) as [[k j]|] eqn:Hff.
  - destruct Hspot as (ck & slots & Hk & Hj & ->). cbn [next_free_spot_block].
    rewrite (proj2 (Z.eqb_neq ck (-1))).
    { by apply (fill_handled rq parent name junk Hpath Hname Hsz d l b o chunks Hs Ho nb bs0 owner k j ck slots). }
    destruct (spot_entry d b o chunks Hs _ _ _ _ Hk Hj) as (_ & Hvck & _). destruct Hvck. lia.
  - cbn in Hspot. rewrite Hspot. cbn [Z.eqb].
    by apply (add_chunk_handled rq parent name junk Hpath Hname Hsz d l b o chunks Hs Ho nb bs0 owner).
Qed.

Lemma execute_CREATE_handled (junk : fs_inode) (rq : FS_CREATE) :
  inode_typed junk → request_ok (Req_CREATE rq) →
  handled (Req_CREATE rq) (execute_CREATE junk rq).
Proof.
  intros Hjunk Hok. pose proof Hok as ([[Hu _] _] & Hp & _). cbn in Hu, Hp. unfold execute_CREATE.
  destruct (last_snoc_cases (cr_path rq)) as [Hnil|(parent & name & Hpath & Hrem & Hlast)].
  { rewrite Hnil. apply (handled_now _ _ None); [|done]. intros d t fr _ _. cbn. unfold spec_create.
    by rewrite Hnil. }
  case_decide as Hne; [rewrite Hpath in Hne; by destruct parent|].
  destruct (path_ok_parts _ _ _ Hp Hpath) as (Hparent & Hname & Hsz).
  rewrite Hrem Hlast. change (default "" (Some name)) with name.
  intros d t _ _ _. exists Pending. split; [by left|].
  apply (cwp_peek _ (λ l, bool_decide (l = []))). intros ρ s t' HI.
  destruct (bool_decide (free_disk_blocks s = [])) eqn:Hfr; reflect_bools.
  { exists (Answered None). split; [|done].
    eapply (no_space_answers _ []); [exact HI|exact Hfr|]. apply create_no_block. }
  exists Pending. split; [by left|]. clear HI Hfr s ρ t' d t.
  apply handled_traverse; [done|done| |done|].
  { intros t fr Hw. cbn. by eapply create_no_path. }
  intros d t c l Hs Hc Hw. exists Pending. split; [by left|].
  by apply (create_at_parent junk rq parent name d t c l).
Qed.
End execute.
