(* ===== verification/FsAtomicDelete.v ===== *)
(** * Deleting files and directories among other threads *)

From S2P Require Import Prelude CStd Request FsTypes FsMonad FileSystem FsTree FsSpec FsTraverse FsStored FsCreate FsDelete FsFace FsTable FsShared FsLocks FsLink FsAtomic FsCrab FsAtomicFile FsAtomicCreate.

(** ** Deletions without effect *)

Lemma delete_nothing user path t fr parent name :
  path = parent ++ [name] →
  (∀ b o chunks c, walk user t parent true = Some (Dir b o chunks) →
     child (Dir b o chunks) name = Some c → removable user c = false) →
  spec_delete user path (mk_fsys t fr) = (None, mk_fsys t fr).
Proof.
  intros -> Hno. unfold spec_delete. rewrite last_snoc removelast_last.
  destruct (walk user t parent true) as [[|b o chunks]|]; [done| |done].
  destruct (child (Dir b o chunks) name) as [c|] eqn:Hc; [|done]. by rewrite (Hno b o chunks c).
Qed.

Lemma removable_leaf user c : removable user c = true → is_leaf c = true.
Proof. unfold removable. destruct c as [|b o [|]]; [done..|]. by rewrite andb_false_r. Qed.

Lemma data_blocks_node c : is_leaf c = true → node_blocks c = root_block c :: data_blocks c.
Proof. by destruct c as [|b o [|]]. Qed.

(** ** The directory without the entry *)

Section entry.
Context (b : Z) (o : string) (chunks chunks' : list chunk) (name : string) (c : tree) (freed : list Z).
Context (Hsh : shape (Dir b o chunks)) (Hin : (name, c) ∈ chunk_entries chunks).
Context (Hrem : remove_entry name chunks = (chunks', freed)).

Lemma one_less_entries :
  chunk_entries chunks ≡ₚ (name, c) :: chunk_entries chunks' ∧ chunks.*1 ≡ₚ chunks'.*1 ++ freed ∧
  shape (Dir b o chunks').
Proof using All.
  pose proof Hsh as (Hnd & Hne & _)%shape_Dir.
  destruct (remove_entry_spec _ _ _ _ _ Hnd Hne Hin Hrem) as (He & Hb & Hf).
  split_and!; [done..|]. by eapply shape_remove.
Qed.

Lemma one_less_child n y :
  n ≠ name → child (Dir b o chunks) n = Some y → child (Dir b o chunks') n = Some y.
Proof using All.
  intros Hne Hy. destruct one_less_entries as (He & _ & _). rewrite !child_Dir in Hy |- *.
  rewrite -Hy. pose proof Hsh as (Hnd & _)%shape_Dir.
  rewrite -(find_child_perm n _ _ Hnd He) find_child_cons. by case_decide.
Qed.

Lemma one_less_used :
  is_leaf c = true → used (Dir b o chunks') ++ node_blocks c ++ freed ≡ₚ used (Dir b o chunks).
Proof using All.
  intros Hc. destruct one_less_entries as (He & Hb & _). rewrite !used_Dir Hb.
  unfold entries_used. rewrite He. cbn.
  assert (used c = node_blocks c) as ->; [|solve_Permutation].
  by destruct c as [|b' o' [|]].
Qed.
End entry.

Lemma unused_face j (slots slots' : list slot) :
  slot_face <$> slots = slot_face <$> slots' →
  forallb slot_unused (<[j := None]> slots) = forallb slot_unused (<[j := None]> slots').
Proof.
  assert (∀ l : list slot, forallb slot_unused l = forallb (λ f, bool_decide (f = None)) (slot_face <$> l)) as Hf.
  { induction l as [|[e|] l IH]; cbn; [done|done|exact IH]. }
  intros Heq. by rewrite !Hf !list_fmap_insert Heq.
Qed.

(** ** With the parent directory locked *)

Section delete.
Context {D M : Type} {HD : Disk D} {HDL : DiskLaws D} {SM : SharedMutex M} {SML : SharedMutexLaws M}.
Abbreviation tok := (tok D).
Abbreviation hold := (hold D).
Context (rq : FS_DELETE).
Abbreviation cwp := (cwp (D := D) (M := M) (Req_DELETE rq)).
Context (parent : Path) (name : string).
Context (Hpath : de_path rq = parent ++ [name]) (Hname : ¬ has_char NUL name).
Context (d : D) (l : lockref) (b : Z) (o : string) (chunks : list chunk).
Context (Hs : sound d (Dir b o chunks)).
Context (Ho : first_of parent true || String.eqb (de_username rq) o = true).
Abbreviation parent_hold m := (mk_hold l m (de_username rq) parent (Live d (Dir b o chunks)) None).
Abbreviation target_hold tl d1 x :=
  (mk_hold tl Upgradable (de_username rq) (parent ++ [name]) (Live d1 x) None).
Abbreviation info := (mk_info (read_as fs_inode d b) l b).

Lemma delete_settled c κ :
  Hold (mk_hold l Upgradable (de_username rq) parent (Live d c) None) ∈ κ → tree_owner c = o →
  child c name = None → settled (M := M) (Req_DELETE rq) κ None.
Proof using Hpath Ho.
  intros Hh Hc Hno. apply (settled_at _ _ d c _ _ Hh); [done|done|by rewrite Hc|].
  intros t c' fr Hw Hf. cbn [spec_request]. eapply delete_nothing; [exact Hpath|].
  intros b' o' chunks' x Hw' Hx. rewrite Hw in Hw'. injection Hw' as ->.
  by rewrite (face_child_None c) in Hx.
Qed.

(** The target cannot be removed: the answer when it is locked. *)
Lemma delete_kept t x :
  cross (de_username rq) t (parent ++ [name]) true = Some x →
  removable (de_username rq) x = false → settles (Req_DELETE rq) t Pending (Answered None).
Proof using Hpath.
  intros Hx Hr. right. split; [done|]. exists None. split; [done|]. intros fr.
  cbn [spec_request]. eapply delete_nothing; [exact Hpath|]. intros b' o' chunks' x' Hw Hx'.
  rewrite cross_snoc in Hx. apply bind_Some in Hx as (c & Hc & Hx).
  destruct (negb (first_of parent true) && _) eqn:Hown; [done|].
  rewrite -negb_orb in Hown. apply negb_false_iff in Hown. rewrite (walk_at _ _ _ c c) // in Hw.
  injection Hw as ->. congruence.
Qed.

Lemma found_child k j ck slots c :
  chunks !! k = Some (ck, slots) → slots !! j = Some (Some (name, c)) →
  child (Dir b o chunks) name = Some c.
Proof using Hs HDL.
  intros Hk Hj. destruct (sound_dir _ _ _ _ Hs) as [_ Hnd]. rewrite child_Dir.
  apply find_child_elem; [done|]. apply elem_of_chunk_entries. exists ck, slots.
  split; by eapply list_elem_of_lookup_2.
Qed.

(** The search, and the locks at the match: the target is then known, and with it
    whether the request fails. *)
Definition target_found (f : found_spot) (κ : list tok) (q : status) : Prop :=
  ∃ k j ck slots c d1 x tl,
    chunks !! k = Some (ck, slots) ∧ slots !! j = Some (Some (name, c)) ∧
    root_block c = root_block x ∧ sound d1 x ∧
    f = mk_found (Z.of_nat k) ck j (read_as (list fs_direntry) d ck) (root_block x)
          (read_as fs_inode d1 (root_block x)) tl ∧
    κ = [Hold (target_hold tl d1 x); Hold (parent_hold Exclusive)] ∧
    q = if removable (de_username rq) x then Pending else Answered None.

Lemma cwp_find_target :
  cwp (find_target info name) [Hold (parent_hold Upgradable)] Pending (λ r κ q,
    match r with
    | Next _ => κ = [Hold (parent_hold Upgradable)] ∧ q = Pending ∧ child (Dir b o chunks) name = None
    | Break f => target_found f κ q
    end).
Proof using All.
  destruct (sound_dir _ _ _ _ Hs) as [Hd Hnd]. unfold find_target. cbn [inode lock_ptr].
  rewrite (dir_at_size _ _ _ _ Hd).
  apply (cwp_for _ _ _ chunks tt _ (λ i _, name ∉ (chunk_entries (take i chunks)).*1)).
  - apply not_elem_of_nil.
  - intros i [ck slots] [] Hi Hn.
    destruct (dir_at_block _ _ _ _ _ _ Hd Hi) as (Hblk & Hv & Hch).
    eapply cwp_block_at; [exact Hblk|].
    eapply cwp_read_chunk; [apply elem_of_cons; by left|done|exact Hi|].
    pose proof (find_index_spec name _ _ 0 Hname Hch) as Hf. cbn [fst snd] in *.
    destruct (find_index _ _ 0) as [[j e]|].
    2: { do 2 (split; [done|]). rewrite (chunk_names _ _ _ _ Hi) fmap_app elem_of_app. tauto. }
    destruct Hf as (k & c & -> & He & Hk & -> & _).
    eapply (cwp_get_child _ (parent_hold Upgradable)); [done|done|done|by eapply found_child|]. intros tl.
    eapply (cwp_upgrade _ (set_want (Some (name, tl)) (parent_hold Upgradable)));
      [done|apply holdless_nil|done|done|].
    eapply (cwp_lock_child _ Upgradable _ d (Dir b o chunks) name c tl);
      [done|apply holdless_nil|done|done|by eapply found_child| |].
    { cbn. by rewrite -negb_orb Ho. }
    intros d1 t1 x Hs1 Hcross Hr. cbn [h_user h_path set_want set_mode] in Hcross.
    exists (if removable (de_username rq) x then Pending else Answered None). split.
    + destruct (removable _ x) eqn:Hrem; [by left|]. by eapply delete_kept.
    + rewrite -Hr. eapply (cwp_read_inode _ (target_hold tl d1 x)); [done|done|].
      exists i, k, ck, slots, c, d1, x, tl. by split_and!.
  - intros [] Hn. rewrite firstn_all in Hn. do 2 (split; [done|]). by apply find_child_None.
Qed.

(** What is freed fits the bound. *)
Lemma leaf_blocks_few (d1 : D) x (freed : list Z) :
  sound d1 x → is_leaf x = true → (length freed ≤ 1)%nat →
  (length (node_blocks x) + length freed ≤ held_max)%nat.
Proof using HDL.
  intros Hx Hleaf Hf. unfold held_max. destruct x as [b' o' data|b' o' [|]]; [|cbn [node_blocks]|done].
  - destruct (sound_file_length _ _ _ _ Hx) as [Hl _]. cbn [node_blocks length].
    rewrite length_fmap. lia.
  - cbn [length fmap list_fmap]. lia.
Qed.

(** The write that removes the entry. *)
Lemma delete_link {B} tl d1 x (freed : list Z) blk bs (k : unit → prog B) Q :
  sound d1 x → (length freed ≤ 1)%nat →
  blk ∈ b :: chunks.*1 → length bs = n_block → removable (de_username rq) x = true →
  (∀ d2 chunks1, sound d2 (Dir b o chunks1) → (∀ y, y ∈ b :: chunks.*1 → disk_read d2 y = disk_read d y) →
     chunk_face <$> chunks = chunk_face <$> chunks1 → child (Dir b o chunks1) name = Some x →
     ∃ chunks', remove_entry name chunks1 = (chunks', freed) ∧
       stored (disk_write d2 blk bs) (Dir b o chunks')) →
  (∀ d' c' fs, fs.*1 = freed →
     cwp (k tt) (Hold (set_node (Live d' c') (parent_hold Exclusive))
       :: Hold (set_node (Binned x) (target_hold tl d1 x)) :: fresh_toks fs) (Answered (Some None)) Q) →
  cwp (disk_writeblock blk bs ≫= k)
    [Hold (target_hold tl d1 x); Hold (parent_hold Exclusive)] Pending Q.
Proof using Hpath Ho HDL SML.
  intros Hx1 Hfr Hblk Hlen Hrem Hch Hk. pose proof (removable_leaf _ _ Hrem) as Hleaf.
  apply (cwp_link_delete _ (parent_hold Exclusive) (target_hold tl d1 x) d d1 (Dir b o chunks) x name
    freed blk bs); [apply Permutation_swap|done..|by eapply leaf_blocks_few|done|done| |exact Hk].
  intros d2 t2 c2 Hal Hx. destruct (face_dir_inv _ _ _ _ (al_face _ _ _ _ _ _ _ Hal)) as (chunks1 & -> & Hf1).
  pose proof (al_sound _ _ _ _ _ _ _ Hal) as Hs2. pose proof (al_cross _ _ _ _ _ _ _ Hal) as Hc2.
  cbn [h_user h_path] in Hc2, Hx |- *.
  assert (child (Dir b o chunks1) name = Some x) as Hcx.
  { rewrite subtree_app (cross_subtree _ _ _ _ _ Hc2) in Hx. cbn [mbind option_bind] in Hx.
    cbn [subtree] in Hx. by apply bind_Some in Hx as (? & ? & [= ->]). }
  destruct (Hch d2 chunks1 Hs2 (al_disk _ _ _ _ _ _ _ Hal) (eq_sym Hf1) Hcx) as (chunks' & Hre & Hst).
  pose proof (sound_shape _ _ Hs2) as Hsh. pose proof Hcx as Hin.
  rewrite child_Dir in Hin. apply find_child_Some in Hin.
  exists (set_chunks chunks'). cbn [set_chunks]. split_and!.
  - split; [done| |done..]. by eapply one_less_entries.
  - intros n' y Hne Hy. by eapply one_less_child.
  - by eapply one_less_used.
  - intros fr. eexists. cbn [spec_request]. unfold spec_delete.
    rewrite Hpath last_snoc removelast_last.
    rewrite (walk_at _ _ _ (Dir b o chunks) (Dir b o chunks1)) //; [|apply Hal].
    by rewrite Hcx Hrem Hre.
Qed.

(** *** After the link *)

Lemma finish_handled d' c' tl d1 x :
  sound d1 x → is_leaf x = true →
  let target_inode := read_as fs_inode d1 (root_block x) in
  cwp
    (unlock Exclusive l;;
     upgrade tl;;
     erase_lock (root_block x);;
     data ← (if Ascii.eqb (i_type target_inode) type_file
             then blocks_upto (i_blocks target_inode) (seqZ 0 (i_size target_inode))
             else mret []);
     with_free_list (λ l, (tt, l ++ data ++ [root_block x]));;
     unlock Exclusive tl;;
     drop_ptr tl;;
     drop_ptr l;;
     mret (Some None))
    [Hold (set_node (Live d' c') (parent_hold Exclusive));
     Hold (set_node (Binned x) (target_hold tl d1 x))] (Answered (Some None)) done_with.
Proof using HDL SML.
  intros Hx Hleaf target_inode. unfold target_inode. rewrite (data_blocks_eq d1 x Hx).
  eapply (cwp_unlock _ (set_node (Live d' c') (parent_hold Exclusive))); [done..|].
  set (ht := set_node (Binned x) (target_hold tl d1 x)).
  eapply (cwp_upgrade _ ht _ _ [Ptr l]); [apply Permutation_swap| |done|done|].
  { apply holdless_cons; [done|apply holdless_nil]. }
  eapply (cwp_erase _ (set_mode Exclusive ht) x); [done|done|done|]. intros fs Hfs.
  apply cwp_mret.
  eapply (cwp_give _ fs _ _ _ [Hold (set_node Gone (set_mode Exclusive ht)); Ptr l]); [done| |].
  { intros fr. cbn [snd]. rewrite Hfs data_blocks_node //. apply Permutation_app_head.
    symmetry. apply Permutation_cons_append. }
  eapply (cwp_unlock _ (set_node Gone (set_mode Exclusive ht))); [done..|].
  eapply (cwp_drop _ tl); [done|]. eapply (cwp_drop _ l); done.
Qed.

Lemma abandon_handled f tl d1 x :
  target_lock_ptr f = tl →
  cwp (abandon_delete info f) [Hold (target_hold tl d1 x); Hold (parent_hold Exclusive)]
    (Answered None) done_with.
Proof using HDL SML.
  intros <-. unfold abandon_delete. cbn [lock_ptr].
  eapply (cwp_unlock _ (target_hold (target_lock_ptr f) d1 x)); [done..|].
  eapply (cwp_unlock _ (parent_hold Exclusive)); [apply Permutation_swap|done..|].
  eapply (cwp_drop _ (target_lock_ptr f)); [apply Permutation_swap|]. eapply (cwp_drop _ l); done.
Qed.

(** *** The two ways to remove the entry *)

Section found.
Context (k j : nat) (ck : Z) (slots : list slot) (c x : tree) (d1 : D) (tl : lockref).
Context (Hk : chunks !! k = Some (ck, slots)) (Hj : slots !! j = Some (Some (name, c))).
Context (Hr : root_block c = root_block x) (Hx1 : sound d1 x).
Context (Hrem : removable (de_username rq) x = true).
Abbreviation es := (read_as (list fs_direntry) d ck).
Abbreviation target := (target_hold tl d1 x).

(** The entry is still where it was found. *)
Lemma entry_at_link d2 chunks1 :
  sound d2 (Dir b o chunks1) → chunk_face <$> chunks = chunk_face <$> chunks1 →
  child (Dir b o chunks1) name = Some x →
  ∃ slots1, chunks1 !! k = Some (ck, slots1) ∧ slots1 !! j = Some (Some (name, x)) ∧
    NoDup (chunk_entries chunks1).*1 ∧
    forallb slot_unused (<[j := None]> slots1) =
    forallb (λ e, (d_inode_block e =? 0) || (d_inode_block e =? root_block x)) es.
Proof using Hs Hk Hj Hr HDL.
  intros Hs2 Hf Hx. destruct (sound_dir _ _ _ _ Hs2) as [_ Hnd].
  destruct (face_chunk b o chunks b o chunks1 k ck slots) as (slots1 & Hk1 & Hsf);
    [cbn; by rewrite Hf|done|].
  destruct (face_slot _ _ _ _ Hsf Hj) as (s1 & Hj1 & Hs1).
  destruct s1 as [[n y]|]; [|done]. cbn in Hs1. injection Hs1 as <- Hy.
  assert (child (Dir b o chunks1) name = Some y) as Hy'.
  { rewrite child_Dir. apply find_child_elem; [done|]. apply elem_of_chunk_entries. exists ck, slots1.
    split; by eapply list_elem_of_lookup_2. }
  assert (y = x) as -> by congruence. exists slots1. split_and!; [done..|].
  rewrite -(unused_face j _ _ Hsf) -Hr. symmetry. destruct (sound_dir _ _ _ _ Hs) as [Hd Hnd0].
  destruct (dir_at_block _ _ _ _ _ _ Hd Hk) as (_ & _ & Hch).
  eapply (others_unused chunks k j ck slots es name c b o);
    [by eapply sound_NoDup|done|done|done|exact Hch].
Qed.

Lemma remove_chunk_handled :
  forallb (λ e, (d_inode_block e =? 0) || (d_inode_block e =? root_block x)) es = true →
  cwp
    (blocks ← shift_blocks (i_blocks (read_as fs_inode d b)) (Z.of_nat k) (i_size (read_as fs_inode d b));
     write_inode b (with_blocks (read_as fs_inode d b) (to_uint32 (i_size (read_as fs_inode d b) - 1)) blocks);;
     with_free_list (λ l, (tt, l ++ [ck])))
    [Hold target; Hold (parent_hold Exclusive)] Pending (λ _ κ q, ∃ d' c',
      κ = [Hold (set_node (Live d' c') (parent_hold Exclusive)); Hold (set_node (Binned x) target)] ∧
      q = Answered (Some None)).
Proof using Hpath Hs Ho Hk Hj Hr Hx1 Hrem HDL SML.
  intros Hall. destruct (sound_dir _ _ _ _ Hs) as [Hdir _].
  pose proof (sound_root_valid _ _ Hs) as Hvb. cbn [root_block] in Hvb.
  destruct (all_nodes_here _ _ (sound_stored _ _ Hs)) as [Hi _].
  destruct (inode_is_size _ _ _ _ _ Hvb Hi) as [Hl Hsize]. rewrite length_fmap in Hl Hsize.
  pose proof (read_as_typed fs_inode d b Hvb) as Hty. pose proof Hty as (_ & _ & Hib & Hu32).
  apply lookup_lt_Some in Hk as Hklt. rewrite Hsize.
  destruct (shift_blocks_eq (i_blocks (read_as fs_inode d b)) k (length chunks))
    as (blocks & -> & Hlb & Hub & Htb); [exact Hklt|rewrite Hib; exact Hl|exact Hl|].
  apply cwp_mret. set (di' := with_blocks _ _ _).
  change (write_inode b di') with (disk_writeblock b (encode di')).
  eapply (delete_link tl d1 x [ck] b (encode di')); [exact Hx1|done|apply elem_of_cons; by left| |exact Hrem| |].
  { apply length_encode, with_blocks_typed; [exact Hty| |congruence|by apply Hub].
    rewrite to_uint32_id; unfold u32; lia. }
  - intros d2 chunks1 Hs2 Hsame Hf Hcx.
    destruct (entry_at_link _ _ Hs2 Hf Hcx) as (slots1 & Hk1 & Hj1 & Hnd1 & Hun).
    exists (delete k chunks1). split; [by rewrite (remove_entry_at _ _ _ _ _ _ _ Hnd1 Hk1 Hj1) Hun Hall|].
    assert (length chunks1 = length chunks) as Hlc.
    { apply (f_equal length) in Hf. by rewrite !length_fmap in Hf. }
    assert (read_as fs_inode d2 b = read_as fs_inode d b) as Hri.
    { apply read_as_agree, Hsame, elem_of_cons. by left. }
    pose proof (stored_remove_chunk d2 b o chunks1 k blocks Hs2) as Hst. cbv zeta in Hst.
    rewrite Hri Hlc Hsize in Hst. apply Hst; [exact Hklt|congruence|by apply Hub|exact Htb].
  - intros d' c' fs Hfs. eapply (cwp_give _ fs _ _ _ [_; _]); [|by intros fr; cbn; rewrite Hfs|].
    + apply (Permutation_app_comm [_; _] (fresh_toks fs)).
    + by exists d', c'.
Qed.

Lemma clear_slot_handled :
  forallb (λ e, (d_inode_block e =? 0) || (d_inode_block e =? root_block x)) es = false →
  cwp
    (write_direntries ck (alter (λ e, mk_direntry (d_name e) 0) j es))
    [Hold target; Hold (parent_hold Exclusive)] Pending (λ _ κ q, ∃ d' c',
      κ = [Hold (set_node (Live d' c') (parent_hold Exclusive)); Hold (set_node (Binned x) target)] ∧
      q = Answered (Some None)).
Proof using Hpath Hs Ho Hk Hj Hr Hx1 Hrem HDL SML.
  intros Hall. destruct (dir_at_block _ _ _ _ _ _ (proj1 (sound_dir _ _ _ _ Hs)) Hk) as (_ & Hvck & _).
  cbn [fst] in Hvck. set (es' := alter _ j es).
  assert (ck ∈ b :: chunks.*1) as Hck.
  { apply elem_of_cons. right. by eapply (list_elem_of_fmap_2 fst _ (ck, slots)), list_elem_of_lookup_2. }
  change (write_direntries ck es') with (disk_writeblock ck (encode es') ≫= mret).
  eapply (delete_link tl d1 x [] ck (encode es')); [exact Hx1|cbn; lia|exact Hck| |exact Hrem| |].
  { apply length_encode. destruct (read_as_typed (list fs_direntry) d ck Hvck) as [Hl Hes].
    split; [by rewrite length_alter|]. apply Forall_alter; [exact Hes|].
    intros e _ [He _]. split; [exact He|unfold u32; cbn; lia]. }
  - intros d2 chunks1 Hs2 Hsame Hf Hcx.
    destruct (entry_at_link _ _ Hs2 Hf Hcx) as (slots1 & Hk1 & Hj1 & Hnd1 & Hun).
    exists (put_slot k j None chunks1).
    split; [by rewrite (remove_entry_at _ _ _ _ _ _ _ Hnd1 Hk1 Hj1) Hun Hall|].
    pose proof (stored_clear_slot d2 b o chunks1 k j ck slots1 Hs2 Hk1) as Hst. cbv zeta in Hst.
    rewrite (read_as_agree (list fs_direntry) d d2 ck) in Hst; [|by apply Hsame].
    apply Hst. by eapply lookup_lt_Some.
  - intros d' c' fs Hfs. apply fmap_nil_inv in Hfs as ->. by exists d', c'.
Qed.
End found.
End delete.

(** ** [execute_DELETE] *)

Section execute.
Context {D M : Type} {HD : Disk D} {HDL : DiskLaws D} {SM : SharedMutex M} {SML : SharedMutexLaws M}.
Abbreviation handled := (handled (D := D) (M := M)).

Lemma delete_found (rq : FS_DELETE) parent name (d : D) l b o chunks f κ q :
  let info := mk_info (read_as fs_inode d b) l b in
  de_path rq = parent ++ [name] → ¬ has_char NUL (de_username rq) → sound d (Dir b o chunks) →
  first_of parent true || String.eqb (de_username rq) o = true →
  target_found rq parent name d l b o chunks f κ q →
  cwp (M := M) (Req_DELETE rq)
    (if negb (is_owner (de_username rq) (target_inode f)) then abandon_delete info f
     else if Ascii.eqb (i_type (target_inode f)) type_dir && (0 <? i_size (target_inode f)) then
       abandon_delete info f
     else
       (if forallb (λ e, (d_inode_block e =? 0) || (d_inode_block e =? target_block f))
             (found_spot_direntries f) then
          blocks ← shift_blocks (i_blocks (inode info)) (direntries_index_in_parent f)
                     (i_size (inode info));
          write_inode b (with_blocks (inode info) (to_uint32 (i_size (inode info) - 1)) blocks);;
          with_free_list (λ l, (tt, l ++ [found_spot_direntries_block f]))
        else
          write_direntries (found_spot_direntries_block f)
            (alter (λ e, mk_direntry (d_name e) 0) (found_spot_direntries_index f)
               (found_spot_direntries f)));;
       unlock Exclusive l;;
       upgrade (target_lock_ptr f);;
       erase_lock (target_block f);;
       data ← (if Ascii.eqb (i_type (target_inode f)) type_file
               then blocks_upto (i_blocks (target_inode f)) (seqZ 0 (i_size (target_inode f)))
               else mret []);
       with_free_list (λ l, (tt, l ++ data ++ [target_block f]));;
       unlock Exclusive (target_lock_ptr f);;
       drop_ptr (target_lock_ptr f);;
       drop_ptr l;;
       mret (Some None))
    κ q done_with.
Proof.
  intros info Hpath Hu Hs Ho (k & j & ck & slots & c & d1 & x & tl & Hk & Hj & Hr & Hx & -> & -> & ->).
  cbn [target_inode target_block found_spot_direntries found_spot_direntries_block inode
    found_spot_direntries_index direntries_index_in_parent target_lock_ptr info].
  pose proof (removable_code d1 (de_username rq) x Hx) as Hcode.
  rewrite (sound_owner _ _ _ Hx) // (sound_is_dir _ _ Hx).
  destruct (String.eqb (de_username rq) (tree_owner x)); cbn [andb negb] in Hcode |- *.
  2: { rewrite Hcode. by apply abandon_handled. }
  destruct (is_dir x && (0 <? i_size (read_as fs_inode d1 (root_block x)))); cbn [negb] in Hcode |- *.
  { rewrite Hcode. by apply abandon_handled. }
  rewrite Hcode. apply cwp_bind.
  eapply cwp_mono.
  - destruct (forallb _ (read_as (list fs_direntry) d ck)) eqn:Hall.
    + by apply (remove_chunk_handled rq parent name Hpath d l b o chunks Hs Ho k j ck slots c x d1 tl).
    + by apply (clear_slot_handled rq parent name Hpath d l b o chunks Hs Ho k j ck slots c x d1 tl).
  - intros u κ' q' (d' & c' & -> & ->). apply finish_handled; [exact Hx|by eapply removable_leaf].
Qed.

Lemma execute_DELETE_handled (rq : FS_DELETE) :
  request_ok (Req_DELETE rq) → handled (Req_DELETE rq) (execute_DELETE rq).
Proof.
  intros ([[Hu _] _] & Hp & _). cbn in Hu, Hp. unfold execute_DELETE.
  destruct (last_snoc_cases (de_path rq)) as [Hnil|(parent & name & Hpath & Hrem & Hlast)].
  { rewrite Hnil. apply (handled_now _ _ None); [|done]. intros d t fr _ _. cbn. unfold spec_delete.
    by rewrite Hnil. }
  case_decide as Hne; [rewrite Hpath in Hne; by destruct parent|].
  destruct (path_ok_parts _ _ _ Hp Hpath) as (Hparent & Hname & _).
  rewrite Hrem Hlast. change (default "" (Some name)) with name.
  intros d t _ _ _. exists Pending. split; [by left|].
  apply (cwp_peek _ (λ l, Z.of_nat (length l) =? 4095)). intros ρ s t' HI.
  destruct (Z.eqb_spec (Z.of_nat (length (free_disk_blocks s))) 4095) as [Hfull|_].
  { exists (Answered None). split; [|done]. eapply (settles_answers _ []); [exact HI|].
    right. split; [done|]. exists None. split; [done|]. intros fr. apply spec_delete_root; [apply HI|].
    pose proof (Permutation_length (sh_blocks _ _ _ HI)) as Hl. cbn [contents].
    rewrite !length_app length_seqZ in Hl. unfold FS_DISKSIZE in Hl. lia. }
  exists Pending. split; [by left|]. clear HI s ρ t' d t.
  apply handled_traverse; [done|done| |done|].
  { intros t fr Hw. cbn. eapply delete_nothing; [exact Hpath|]. intros ? ? ? ?. by rewrite Hw. }
  intros d t c l Hs Hc Hw. exists Pending. split; [by left|].
  pose proof (walk_here _ _ _ _ Hc Hw) as Ho. cbn [inode lock_ptr info_block].
  rewrite (sound_is_file _ _ Hs). set (h := mk_hold l Upgradable _ _ _ None).
  assert (child c name = None →
    cwp (M := M) (Req_DELETE rq) (release Upgradable (mk_info (read_as fs_inode d (root_block c)) l
      (root_block c)) None) [Hold h] Pending done_with) as Hnone.
  { intros Hch. apply (cwp_release_settled _ h); [done..|].
    apply (delete_settled rq parent name Hpath d l (tree_owner c) Ho c); [apply elem_of_cons; by left|done..]. }
  destruct c as [b o data|b o chunks]; cbn [is_dir negb root_block tree_owner] in *.
  { case_match; by apply Hnone. }
  destruct (sound_dir _ _ _ _ Hs) as [Hdir Hnd]. rewrite (dir_at_size _ _ _ _ Hdir).
  destruct (Z.eqb_spec (Z.of_nat (length chunks)) 0) as [Hzero|_].
  { apply Hnone. by destruct chunks. }
  apply cwp_bind. eapply cwp_mono; [by apply (cwp_find_target rq parent name Hpath Hname d l b o chunks Hs Ho)|].
  intros r κ q Hr. destruct r as [[]|f].
  { destruct Hr as (-> & -> & Hch). by apply Hnone. }
  rewrite -(dir_at_size _ _ _ _ Hdir). by apply (delete_found rq parent name d l b o chunks).
Qed.
End execute.
