(* ===== verification/FsPool.v ===== *)
(** * The server's threads together

    The machine of all requests that are being handled: a request is handed to a
    new thread, a thread performs the next effect of its handler, a handler that
    has ended returns.  Any thread may make the next step.  Beside it the machine
    in which each request takes effect at once, some time between its call and its
    return, as [spec_request] says. *)

From S2P Require Import Prelude CStd Request FsTypes FsMonad FileSystem FsTree FsSpec FsLogic FsTraverse FsStored FsCorrect FsServer FsFace FsTable FsShared FsLocks FsLink FsAtomic FsAtomicFile FsAtomicCreate FsAtomicDelete.

(** ** Runs of a machine and the events one sees *)

Section runs.
Context {S E : Type} (step : S → option E → S → Prop).

Inductive runs (s : S) : list E → S → Prop :=
  | runs_nil : runs s [] s
  | runs_step tr s1 ev s2 : runs s tr s1 → step s1 ev s2 → runs s (tr ++ option_list ev) s2.

Lemma runs_trans s1 tr1 s2 tr2 s3 : runs s1 tr1 s2 → runs s2 tr2 s3 → runs s1 (tr1 ++ tr2) s3.
Proof.
  intros H1 H2. induction H2 as [|tr s' ev s3 _ IH Hs]; [by rewrite app_nil_r|].
  rewrite app_assoc. by eapply runs_step.
Qed.

Lemma runs_one s1 ev s2 : step s1 ev s2 → runs s1 (option_list ev) s2.
Proof. intros Hs. by apply (runs_step _ [] s1), Hs; constructor. Qed.
End runs.

(** Every step is matched by steps with the same events. *)
Lemma runs_simulated {S1 S2 E} (step1 : S1 → option E → S1 → Prop) (step2 : S2 → option E → S2 → Prop)
    (R : S1 → S2 → Prop) :
  (∀ s1 ev s1' s2, R s1 s2 → step1 s1 ev s1' → ∃ s2', runs step2 s2 (option_list ev) s2' ∧ R s1' s2') →
  ∀ s1 tr s1' s2, R s1 s2 → runs step1 s1 tr s1' → ∃ s2', runs step2 s2 tr s2' ∧ R s1' s2'.
Proof.
  intros Hsim s1 tr s1' s2 HR Hr. induction Hr as [|tr s ev s' _ IH Hs].
  { exists s2. split; [constructor|done]. }
  destruct IH as (s2' & Hr2 & HR2). destruct (Hsim _ _ _ _ HR2 Hs) as (s2'' & Hr3 & HR3).
  exists s2''. split; [by eapply runs_trans|done].
Qed.

Inductive event :=
  | Called (i : nat) (req : Request)
  | Returned (i : nat) (req : Request) (r : out_block).

(** ** The machine of atomic requests *)

Record atom := mk_atom { a_tree : tree; a_calls : gmap nat (Request * status) }.

(** Of the blocks that are not in the tree some may be in the hands of the other
    requests, [held_max] for each at most; a request that is alone finds all of
    them free. *)
Inductive atomic : atom → option event → atom → Prop :=
  | atomic_call i req t A :
      A !! i = None → atomic (mk_atom t A) (Some (Called i req)) (mk_atom t (<[i := (req, Pending)]> A))
  | atomic_effect i req r t t' A fr fr' held :
      A !! i = Some (req, Pending) → spec_request req (mk_fsys t fr) = (r, mk_fsys t' fr') →
      used t ++ fr ++ held ≡ₚ seqZ 0 FS_DISKSIZE →
      (length held ≤ held_max * base.size (delete i A))%nat →
      atomic (mk_atom t A) None (mk_atom t' (<[i := (req, Answered r)]> A))
  | atomic_return i req r t A :
      A !! i = Some (req, Answered r) →
      atomic (mk_atom t A) (Some (Returned i req r)) (mk_atom t (delete i A)).

(** Answers are answers of the specification. *)
Definition answered_ok (A : atom) : Prop :=
  ∀ i req r, a_calls A !! i = Some (req, Answered r) → ∃ s s', spec_request req s = (r, s').

Lemma runs_answered A tr A' : answered_ok A → runs atomic A tr A' → answered_ok A'.
Proof.
  intros HA Hr. induction Hr as [|tr A1 ev A2 _ IH Hs]; [done|].
  destruct Hs as [i req t C _|i req r t t' C fr fr' held _ Hspec _ _|i req r t C _];
    intros j req' r' Hj; cbn in Hj.
  - apply lookup_insert_Some in Hj as [[_ ?]|[_ Hj]]; [done|by eapply IH].
  - apply lookup_insert_Some in Hj as [[_ Heq]|[_ Hj]]; [|by eapply IH].
    injection Heq as <- <-. by eexists _, _.
  - apply lookup_delete_Some in Hj as [_ Hj]. by eapply IH.
Qed.

(** ** The machine of threads *)

Section pool.
Context {D M : Type} {HD : Disk D} {HDL : DiskLaws D} {SM : SharedMutex M} {SML : SharedMutexLaws M}.
Abbreviation state := (fs_state D M).
Abbreviation tok := (tok D).

(** The next effect of a program; a program that has ended has none. *)
Definition advance {A} (p : prog A) (s : state) : outcome (prog A * state) :=
  match p with
  | Ret _ => Wait
  | Do e k =>
      match exec e s with
      | Done (x, s') => Done (k x, s')
      | Wait => Wait
      | Crash f => Crash f
      end
  end.

Record pool := mk_pool { p_state : state; p_threads : gmap nat (Request * prog out_block) }.

Inductive step : pool → option event → pool → Prop :=
  | step_call i junk req s T :
      T !! i = None → call_ok (junk, req) →
      step (mk_pool s T) (Some (Called i req)) (mk_pool s (<[i := (req, execute_request junk req)]> T))
  | step_thread i req p p' s s' T :
      T !! i = Some (req, p) → advance p s = Done (p', s') →
      step (mk_pool s T) None (mk_pool s' (<[i := (req, p')]> T))
  | step_return i req r s T :
      T !! i = Some (req, Ret r) → step (mk_pool s T) (Some (Returned i req r)) (mk_pool s (delete i T)).

Lemma execute_request_handled junk req :
  call_ok (junk, req) → handled (D := D) (M := M) req (execute_request junk req).
Proof.
  intros (Hjunk & Hreq & Hpay). cbn in Hjunk, Hreq, Hpay. destruct req as [r|r|r|r].
  - by apply execute_READBLOCK_handled.
  - destruct (payload_data _ Hpay) as (bs & Hbs & Hl). by eapply execute_WRITEBLOCK_handled.
  - by apply execute_CREATE_handled.
  - by apply execute_DELETE_handled.
Qed.

(** ** What the threads own together *)

(** A thread, with its tokens and what has become of its request. *)
Record ghost := mk_ghost {
  g_req : Request;
  g_prog : prog out_block;
  g_toks : list tok;
  g_status : status }.

Definition all_toks (G : gmap nat ghost) : list tok := concat (g_toks <$> (map_to_list G).*2).

Lemma all_toks_insert G i g : G !! i = None → all_toks (<[i := g]> G) ≡ₚ g_toks g ++ all_toks G.
Proof. intros Hi. unfold all_toks. by rewrite map_to_list_insert. Qed.

Lemma all_toks_delete G i g : G !! i = Some g → all_toks G ≡ₚ g_toks g ++ all_toks (delete i G).
Proof. intros Hi. unfold all_toks. by rewrite -{1}(map_to_list_delete _ _ _ Hi). Qed.

Lemma all_toks_update G i g : all_toks (<[i := g]> G) ≡ₚ g_toks g ++ all_toks (delete i G).
Proof. rewrite -insert_delete_eq. apply all_toks_insert, lookup_delete_eq. Qed.

Lemma elem_of_all_toks G k : k ∈ all_toks G ↔ ∃ i g, G !! i = Some g ∧ k ∈ g_toks g.
Proof.
  unfold all_toks. rewrite elem_of_concat. split.
  - intros (l & Hk & (g & -> & (x & -> & Hx)%list_elem_of_fmap)%list_elem_of_fmap).
    destruct x as [i g]. apply elem_of_map_to_list in Hx. by exists i, g.
  - intros (i & g & Hi & Hk). exists (g_toks g). split; [done|].
    apply list_elem_of_fmap_2, (list_elem_of_fmap_2 snd _ (i, g)). by apply elem_of_map_to_list.
Qed.

(** ** The simulation *)

Definition calls_of (G : gmap nat ghost) : gmap nat (Request * status) :=
  (λ g, (g_req g, g_status g)) <$> G.
Definition threads_of (G : gmap nat ghost) : gmap nat (Request * prog out_block) :=
  (λ g, (g_req g, g_prog g)) <$> G.

Definition thread_ok (g : ghost) : Prop :=
  cwp (M := M) (g_req g) (g_prog g) (g_toks g) (g_status g) done_with ∧
  (length (blocks (g_toks g)) ≤ held_max)%nat.

Record matches (G : gmap nat ghost) (P : pool) (A : atom) : Prop := {
  mt_threads : p_threads P = threads_of G;
  mt_calls : a_calls A = calls_of G;
  mt_shared : shared (all_toks G) (p_state P) (a_tree A);
  mt_ok i g : G !! i = Some g → thread_ok g }.

Definition sim (P : pool) (A : atom) : Prop := ∃ G, matches G P A.

Lemma matches_shared G P A i g :
  matches G P A → G !! i = Some g →
  shared (g_toks g ++ all_toks (delete i G)) (p_state P) (a_tree A).
Proof.
  intros HG Hi. eapply shared_perm; [by apply all_toks_delete|]. apply HG.
Qed.

Lemma matches_update G s T t C i g g' s' t' :
  matches G (mk_pool s T) (mk_atom t C) → g_req g' = g_req g → G !! i = Some g → thread_ok g' →
  shared (g_toks g' ++ all_toks (delete i G)) s' t' →
  matches (<[i := g']> G) (mk_pool s' (<[i := (g_req g, g_prog g')]> T))
    (mk_atom t' (<[i := (g_req g, g_status g')]> C)).
Proof.
  intros [HT HC HS Hok] Hr Hi Hg HS'. cbn in *. split; cbn.
  - by rewrite /threads_of fmap_insert Hr HT.
  - by rewrite /calls_of fmap_insert Hr HC.
  - eapply shared_perm; [|exact HS']. symmetry. apply all_toks_update.
  - intros j x [[-> <-]|[_ Hj]]%lookup_insert_Some; [done|by eapply Hok].
Qed.

(** The blocks in the hands of some threads. *)
Lemma blocks_all_toks G :
  (∀ i g, G !! i = Some g → thread_ok g) → (length (blocks (all_toks G)) ≤ held_max * base.size G)%nat.
Proof.
  induction G as [|i g G Hi IH] using map_ind; intros Hok.
  { unfold all_toks. by rewrite map_to_list_empty. }
  rewrite all_toks_insert // blocks_app length_app map_size_insert_None //.
  destruct (Hok i g) as [_ Hg]; [apply lookup_insert_eq|].
  assert (length (blocks (all_toks G)) ≤ held_max * base.size G)%nat; [|lia].
  apply IH. intros j x Hj. apply (Hok j). rewrite lookup_insert_ne //. congruence.
Qed.

Lemma calls_held G P A i :
  matches G P A →
  (length (blocks (all_toks (delete i G))) ≤ held_max * base.size (delete i (a_calls A)))%nat.
Proof.
  intros HG. rewrite (mt_calls _ _ _ HG) /calls_of -fmap_delete map_size_fmap.
  apply blocks_all_toks. intros j g [_ Hj]%lookup_delete_Some. by eapply (mt_ok _ _ _ HG).
Qed.

(** What happens to a request at a step, in the machine of atomic requests. *)
Lemma answers_runs req C i t q t' q' held :
  C !! i = Some (req, q) → (length held ≤ held_max * base.size (delete i C))%nat →
  answers req held t q t' q' →
  runs atomic (mk_atom t C) [] (mk_atom t' (<[i := (req, q')]> C)).
Proof.
  intros Hi Hal [[-> ->]|(-> & r & fr & fr' & -> & Hspec & Hheld)].
  - rewrite insert_id //. constructor.
  - apply (runs_one _ _ None). by eapply atomic_effect.
Qed.

(** The next effect of a thread. *)
Lemma matches_advance G P A i g X (e : fsE X) (k : X → prog out_block) :
  matches G P A → G !! i = Some g → g_prog g = Do e k →
  access e (g_toks g) ∧
  match exec e (p_state P) with
  | Done (x, s') => ∃ κ' q' t',
      runs atomic A [] (mk_atom t' (<[i := (g_req g, q')]> (a_calls A))) ∧
      matches (<[i := mk_ghost (g_req g) (k x) κ' q']> G)
        (mk_pool s' (<[i := (g_req g, k x)]> (p_threads P)))
        (mk_atom t' (<[i := (g_req g, q')]> (a_calls A)))
  | Wait => blocked (g_toks g) (all_toks (delete i G))
  | Crash _ => False
  end.
Proof.
  intros HG Hi Hp. pose proof (mt_ok _ _ _ HG _ _ Hi) as Hok. unfold thread_ok in Hok.
  rewrite Hp in Hok. destruct Hok as [[Hacc Hok] Hmax]. split; [exact Hacc|].
  specialize (Hok _ _ _ (matches_shared _ _ _ _ _ HG Hi)).
  destruct (exec e (p_state P)) as [[x s']| |]; [|done..].
  destruct Hok as (κ' & t' & q' & HI & Hans & Hfew & Hcwp). exists κ', q', t'.
  pose proof (calls_held _ _ _ i HG) as Hheld.
  destruct P as [s T], A as [t C]. pose proof (mt_calls _ _ _ HG) as HC. cbn in HC. subst C. split.
  - eapply answers_runs; [|exact Hheld|exact Hans].
    unfold calls_of. by rewrite lookup_fmap Hi.
  - apply (matches_update G s T t _ i g (mk_ghost (g_req g) (k x) κ' q')); [done..| |done].
    split; [done|]. unfold few in Hfew. cbn [g_toks]. lia.
Qed.

Lemma matches_thread G P A i req p :
  matches G P A → p_threads P !! i = Some (req, p) →
  ∃ g, G !! i = Some g ∧ g_req g = req ∧ g_prog g = p.
Proof.
  intros HG Hi. rewrite (mt_threads _ _ _ HG) lookup_fmap in Hi.
  apply fmap_Some in Hi as (g & Hg & [= -> ->]). by exists g.
Qed.

Lemma matches_none G P A i : matches G P A → p_threads P !! i = None ↔ G !! i = None.
Proof. intros HG. by rewrite (mt_threads _ _ _ HG) lookup_fmap fmap_None. Qed.

Lemma matches_insert G s T t C i g :
  matches G (mk_pool s T) (mk_atom t C) → G !! i = None → g_toks g = [] → thread_ok g →
  matches (<[i := g]> G) (mk_pool s (<[i := (g_req g, g_prog g)]> T))
    (mk_atom t (<[i := (g_req g, g_status g)]> C)).
Proof.
  intros [HT HC HS Hok] Hi Hk Hg. cbn in *. split; cbn.
  - by rewrite /threads_of fmap_insert HT.
  - by rewrite /calls_of fmap_insert HC.
  - eapply shared_perm; [|exact HS]. rewrite all_toks_insert // Hk. done.
  - intros j x [[-> <-]|[_ Hj]]%lookup_insert_Some; [done|by eapply Hok].
Qed.

Lemma sim_call P A i junk req :
  sim P A → p_threads P !! i = None → call_ok (junk, req) →
  ∃ A', runs atomic A [Called i req] A' ∧
    sim (mk_pool (p_state P) (<[i := (req, execute_request junk req)]> (p_threads P))) A'.
Proof.
  intros [G HG] Hi Hok. apply (matches_none _ _ _ _ HG) in Hi as HGi.
  pose proof (mt_shared _ _ _ HG) as HI.
  destruct (execute_request_handled junk req Hok (disk (p_state P)) (a_tree A)) as (q & Hset & Hcwp);
    [by apply (shared_sound _ _ _ HI)|apply HI|apply HI|].
  destruct P as [s T], A as [t C]. cbn in *.
  exists (mk_atom t (<[i := (req, q)]> C)). split.
  - pose proof (mt_calls _ _ _ HG) as HCG. cbn in HCG.
    assert (C !! i = None) as HC by by rewrite HCG lookup_fmap HGi.
    apply (runs_trans _ _ [Called i req] (mk_atom t (<[i := (req, Pending)]> C)) []).
    { apply (runs_one _ _ (Some _)). by constructor. }
    rewrite -(insert_insert_eq C i (req, q) (req, Pending)).
    eapply (answers_runs _ _ _ _ _ _ _ (blocks (all_toks G))); [by rewrite lookup_insert_eq| |].
    + rewrite delete_insert_id //. pose proof (calls_held _ _ _ i HG) as Hheld.
      by rewrite (delete_id G i HGi) /= (delete_id C i HC) in Hheld.
    + by apply (settles_answers _ [] (all_toks G) s).
  - exists (<[i := mk_ghost req (execute_request junk req) [] q]> G).
    apply (matches_insert G s T t C i (mk_ghost req (execute_request junk req) [] q)); [done..|].
    split; [exact Hcwp|exact (Nat.le_0_l _)].
Qed.

Lemma sim_thread P A i req p p' s' :
  sim P A → p_threads P !! i = Some (req, p) → advance p (p_state P) = Done (p', s') →
  ∃ A', runs atomic A [] A' ∧ sim (mk_pool s' (<[i := (req, p')]> (p_threads P))) A'.
Proof.
  intros [G HG] Hi Hadv. destruct (matches_thread _ _ _ _ _ _ HG Hi) as (g & HGi & <- & Hp).
  destruct p as [r|X e k]; [done|]. cbn in Hadv.
  destruct (matches_advance _ _ _ _ _ _ _ _ HG HGi Hp) as [_ Hstep].
  destruct (exec e (p_state P)) as [[x s1]| |]; [|done..]. injection Hadv as <- <-.
  destruct Hstep as (κ' & q' & t' & Hr & HG'). eexists. split; [exact Hr|]. by eexists.
Qed.

Lemma sim_return P A i req r :
  sim P A → p_threads P !! i = Some (req, Ret r) →
  ∃ A', runs atomic A [Returned i req r] A' ∧ sim (mk_pool (p_state P) (delete i (p_threads P))) A'.
Proof.
  intros [G HG] Hi. destruct (matches_thread _ _ _ _ _ _ HG Hi) as (g & HGi & Hr & Hp).
  pose proof (mt_ok _ _ _ HG _ _ HGi) as Hok. unfold thread_ok in Hok. rewrite Hp in Hok.
  destruct Hok as [[Hk Hq] _]. destruct P as [s T], A as [t C]. cbn in *.
  exists (mk_atom t (delete i C)). split.
  - apply (runs_one _ _ (Some _)). apply (atomic_return i req).
    pose proof (mt_calls _ _ _ HG) as HC. cbn in HC. subst C. unfold calls_of.
    by rewrite lookup_fmap HGi /= Hr Hq.
  - exists (delete i G). destruct HG as [HT HC HS Hok']. cbn in *. split; cbn.
    + by rewrite /threads_of fmap_delete HT.
    + by rewrite /calls_of fmap_delete HC.
    + eapply shared_perm; [|exact HS]. rewrite (all_toks_delete _ _ _ HGi) Hk. done.
    + intros j x [_ Hj]%lookup_delete_Some. by eapply Hok'.
Qed.

Lemma sim_step P ev P' A :
  sim P A → step P ev P' → ∃ A', runs atomic A (option_list ev) A' ∧ sim P' A'.
Proof.
  intros HS Hs. destruct Hs as [i junk req s T Hi Hok|i req p p' s s' T Hi Hadv|i req r s T Hi].
  - by apply (sim_call (mk_pool s T)).
  - by apply (sim_thread (mk_pool s T) A i req p).
  - by apply (sim_return (mk_pool s T) A i req).
Qed.
End pool.
