(* ===== verification/FsConcurrent.v ===== *)
(** * What clients see of the threads of the server *)

From S2P Require Import Prelude CStd Request FsTypes FsMonad FileSystem FsTree FsSpec FsLogic FsTraverse FsStored FsCorrect FsExample FsServer FsFace FsTable FsShared FsLocks FsLink FsAtomic FsAtomicFile FsPool.

Section concurrent.
Context {D M : Type} {HD : Disk D} {HDL : DiskLaws D} {SM : SharedMutex M} {SML : SharedMutexLaws M}.
Abbreviation state := (fs_state D M).
Abbreviation pool := (pool (D := D) (M := M)).
Abbreviation step := (step (D := D) (M := M)).
Abbreviation sim := (sim (D := D) (M := M)).

(** ** Between requests *)

(** The invariant of the server when no request is handled is the one of the
    threads when they own nothing. *)
Lemma fs_inv_shared t (s : state) : fs_inv t s ↔ shared [] s t.
Proof.
  split.
  - intros [Hst (Hsh & Hd & Hr & Hu) [_ Hout _ _ Hstale Hinj]]. split; [done..| | |].
    + by rewrite app_nil_r.
    + by intros k ?%not_elem_of_nil.
    + split; [|done|done|done]. intros l n m. by rewrite Hout.
  - intros [Hst Hsh Hd Hr Hu _ [Hl Hdead Hb Hi]]. rewrite app_nil_r in Hu. split; [done|done|].
    assert (∀ l, mutexes (locks s) !! l = None) as Hnone.
    { intros l. destruct (mutexes (locks s) !! l) as [[n m]|] eqn:Hm; [|done].
      destruct (Hl _ _ _ Hm) as (-> & ? & _). done. }
    split; [|by intros|..]; [by intros ???|by intros ????|by intros|done|done].
Qed.

Lemma sim_start t (s : state) : fs_inv t s → sim (mk_pool s ∅) (mk_atom t ∅).
Proof.
  intros Hinv%fs_inv_shared. exists ∅. split; cbn; [by rewrite /threads_of fmap_empty|by rewrite /calls_of fmap_empty| |done].
  unfold all_toks. by rewrite map_to_list_empty.
Qed.

(** A state of the server that runs from [s] lead to. *)
Definition reachable (s : state) (tr : list event) (P : pool) : Prop := runs step (mk_pool s ∅) tr P.

Lemma reachable_sim t s tr P :
  fs_inv t s → reachable s tr P → ∃ A, runs atomic (mk_atom t ∅) tr A ∧ sim P A.
Proof.
  intros Hinv Hr. eapply (runs_simulated step atomic sim); [|by apply sim_start|exact Hr].
  intros P1 ev P2 A HS Hs. by eapply sim_step.
Qed.

Lemma sim_quiet P A :
  sim P A → p_threads P = ∅ → a_calls A = ∅ ∧ fs_inv (a_tree A) (p_state P).
Proof.
  intros [G HG] HT. rewrite (mt_threads _ _ _ HG) in HT. apply fmap_empty_inv in HT as ->.
  split; [rewrite (mt_calls _ _ _ HG); apply fmap_empty|]. apply fs_inv_shared.
  pose proof (mt_shared _ _ _ HG) as HI. unfold all_toks in HI. by rewrite map_to_list_empty in HI.
Qed.

(** ** Waiting *)

(** The depth of the node whose lock is held, readers after writers. *)
Definition tok_rank (k : tok D) : nat :=
  match k with
  | Hold h => S (2 * length (h_path h) + match h_mode h with Shared => 1 | _ => 0 end)
  | _ => 0
  end.

Lemma blocked_rank κ ρ k :
  blocked κ ρ → k ∈ κ → ∃ k', k' ∈ ρ ∧ (∀ h, k = Hold h → (tok_rank k < tok_rank k')%nat) ∧
    (0 < tok_rank k')%nat.
Proof.
  intros [(d & Hd & h' & Hh' & Hp)|(d & Hd & h' & Hh' & Hp & Hm)] Hk; exists (Hold h'); split_and!;
    try done; try (cbn; lia); intros h ->; specialize (Hd h Hk); cbn; rewrite Hp.
  - destruct (h_mode h), (h_mode h'); lia.
  - destruct Hd as [-> ->]. rewrite Hm. lia.
Qed.

Lemma blocked_someone κ ρ : blocked κ ρ → ∃ k', k' ∈ ρ ∧ (0 < tok_rank k')%nat.
Proof.
  intros [(d & _ & h' & Hh' & _)|(d & _ & h' & Hh' & _)]; exists (Hold h'); by split; [|cbn; lia].
Qed.

(** A thread that does not wait: one that holds the deepest lock. *)
Lemma someone_runs G P A i0 g0 :
  matches G P A → G !! i0 = Some g0 →
  ∃ i g, G !! i = Some g ∧ ¬ blocked (g_toks g) (all_toks (delete i G)).
Proof.
  intros HG Hi0. assert (∀ i k, k ∈ all_toks (delete i G) → k ∈ all_toks G) as Hsub.
  { intros i k (j & g & [_ Hj]%lookup_delete_Some & Hk)%elem_of_all_toks.
    apply elem_of_all_toks. by exists j, g. }
  destruct (all_toks G) as [|k0 R] eqn:HR.
  { exists i0, g0. split; [done|]. intros (k & Hk & _)%blocked_someone.
    apply Hsub in Hk. by apply not_elem_of_nil in Hk. }
  rewrite -HR in Hsub. destruct (greatest_elem tok_rank (all_toks G) k0) as (k & Hk & Hmax).
  { rewrite HR. apply elem_of_cons. by left. }
  apply elem_of_all_toks in Hk as (i & g & Hi & Hkg). exists i, g. split; [done|].
  intros (k' & Hk' & Hlt & Hpos)%(blocked_rank _ _ k); [|done].
  pose proof (Hmax _ (Hsub _ _ Hk')). destruct k as [l|l|h|b bs]; try (cbn in *; lia).
  specialize (Hlt h eq_refl). lia.
Qed.

(** Steps that hand out no new request. *)
Definition serves (P P' : pool) : Prop :=
  ∃ ev, step P ev P' ∧ ∀ i req, ev ≠ Some (Called i req).

Lemma sim_progress P A : sim P A → p_threads P ≠ ∅ → ∃ P', serves P P'.
Proof.
  intros [G HG] HT. destruct (map_choose G) as (i0 & g0 & Hi0).
  { intros ->. apply HT. rewrite (mt_threads _ _ _ HG). apply fmap_empty. }
  destruct (someone_runs _ _ _ _ _ HG Hi0) as (i & g & Hi & Hnb).
  assert (p_threads P !! i = Some (g_req g, g_prog g)) as HTi.
  { by rewrite (mt_threads _ _ _ HG) lookup_fmap Hi. }
  destruct (g_prog g) as [r|X e k] eqn:Hp.
  - destruct P as [s T]. eexists _, (Some (Returned i (g_req g) r)). split; [by eapply step_return|done].
  - destruct (matches_advance _ _ _ _ _ _ _ _ HG Hi Hp) as [_ Hstep].
    destruct P as [s T]. cbn in *. destruct (exec e s) as [[x s']| |] eqn:He; [|done..].
    eexists _, None. split; [|done]. eapply step_thread; [done|]. cbn. by rewrite He.
Qed.

Lemma sim_thread_status P A i req r :
  sim P A → p_threads P !! i = Some (req, Ret r) → a_calls A !! i = Some (req, Answered r).
Proof.
  intros [G HG] Hi. destruct (matches_thread _ _ _ _ _ _ HG Hi) as (g & HGi & <- & Hp).
  destruct (mt_ok _ _ _ HG _ _ HGi) as [Hok _]. rewrite Hp in Hok. destruct Hok as [_ Hq].
  by rewrite (mt_calls _ _ _ HG) lookup_fmap HGi /= Hq.
Qed.

Lemma sim_no_fault P A i req p f :
  sim P A → p_threads P !! i = Some (req, p) → advance p (p_state P) ≠ Crash f.
Proof.
  intros [G HG] Hi. destruct (matches_thread _ _ _ _ _ _ HG Hi) as (g & HGi & _ & Hp).
  destruct p as [r|X e k]; [done|].
  destruct (matches_advance _ _ _ _ _ _ _ _ HG HGi Hp) as [_ Hstep]. cbn.
  by destruct (exec e (p_state P)) as [[x s']| |].
Qed.

(** ** Accesses to the disk *)

(** The block a thread is about to access, and whether to write it. *)
Definition next_access {A} (p : prog A) : option (Z * bool) :=
  match p with
  | Ret _ => None
  | Do e _ => match e with DiskRead b => Some (b, false) | DiskWrite b _ => Some (b, true) | _ => None end
  end.

Lemma writes_reads (k : tok D) b : b ∈ tok_writes k → b ∈ tok_reads k.
Proof.
  destruct k as [l|l|h|b' bs]; cbn; [done..| |done]. by destruct (h_mode h), (h_node h); intros ?%not_elem_of_nil || auto.
Qed.

Lemma sim_access G P A i g b w :
  matches G P A → G !! i = Some g → next_access (g_prog g) = Some (b, w) →
  ∃ k, k ∈ g_toks g ∧ if w then b ∈ tok_writes k else b ∈ tok_reads k.
Proof.
  intros HG Hi Hacc. destruct (g_prog g) as [r|X e k] eqn:Hp; [done|].
  destruct (matches_advance _ _ _ _ _ _ _ _ HG Hi Hp) as [He _].
  destruct e; try done; cbn in Hacc; injection Hacc as -> <-; exact He.
Qed.

Lemma shared_no_race R R' (s : state) t k k' b :
  shared (R ++ R') s t → k ∈ R → k' ∈ R' → b ∈ tok_writes k → b ∉ tok_reads k'.
Proof.
  intros HI Hk Hk' Hw. apply elem_of_Permutation in Hk as [R1 HR].
  rewrite HR in HI. cbn in HI. assert (k' ∈ R1 ++ R') as Hin by (apply elem_of_app; by right).
  destruct k as [l|l|h|b' bs]; cbn in Hw; [by apply not_elem_of_nil in Hw..| |].
  - destruct (h_mode h) eqn:Hm; [by apply not_elem_of_nil in Hw..|].
    destruct (h_node h) as [d c| |] eqn:Hn; [|by apply not_elem_of_nil in Hw..].
    by eapply shared_alone.
  - apply list_elem_of_singleton in Hw as ->. by eapply shared_fresh_alone.
Qed.

Lemma sim_no_race P A i1 i2 req1 req2 p1 p2 b w :
  sim P A → i1 ≠ i2 → p_threads P !! i1 = Some (req1, p1) → p_threads P !! i2 = Some (req2, p2) →
  next_access p1 = Some (b, true) → next_access p2 ≠ Some (b, w).
Proof.
  intros [G HG] Hne H1 H2 Ha1 Ha2.
  destruct (matches_thread _ _ _ _ _ _ HG H1) as (g1 & HG1 & _ & <-).
  destruct (matches_thread _ _ _ _ _ _ HG H2) as (g2 & HG2 & _ & <-).
  destruct (sim_access _ _ _ _ _ _ _ HG HG1 Ha1) as (k1 & Hk1 & Hw1).
  destruct (sim_access _ _ _ _ _ _ _ HG HG2 Ha2) as (k2 & Hk2 & Hw2).
  apply (shared_no_race _ _ _ _ k1 k2 b (matches_shared _ _ _ _ _ HG HG1)); [done| |done|].
  - apply elem_of_all_toks. exists i2, g2. by rewrite lookup_delete_ne.
  - destruct w; [by apply writes_reads|done].
Qed.

(** ** Every thread ends *)

Definition next_of {A} (p' p : prog A) : Prop :=
  match p with
  | Ret _ => False
  | Do e k => ∃ x, p' = k x
  end.

Lemma next_of_acc {A} (p : prog A) : Acc next_of p.
Proof. induction p as [a|X e k IH]; constructor; intros p'; cbn; [done|]. intros (x & ->). apply IH. Qed.

Lemma advance_next {A} (p p' : prog A) (s s' : state) : advance p s = Done (p', s') → next_of p' p.
Proof.
  destruct p as [a|X e k]; cbn; [done|]. destruct (exec e s) as [[x s1]| |]; [|done..].
  intros [= <- _]. by exists x.
Qed.

(** One of the threads makes a step, or is gone. *)
Inductive moved (T' T : gmap nat (Request * prog out_block)) : Prop :=
  | moved_next i req p p' : T !! i = Some (req, p) → next_of p' p → T' = <[i := (req, p')]> T → moved T' T
  | moved_gone i x : T !! i = Some x → T' = delete i T → moved T' T.

Lemma moved_none i T T' : T !! i = None → moved T' T → T' !! i = None.
Proof.
  intros Hi [j req p p' Hj _ ->|j x Hj ->].
  - rewrite lookup_insert_ne //. congruence.
  - rewrite lookup_delete_ne //. congruence.
Qed.

Lemma moved_insert_acc T :
  Acc moved T → ∀ p, Acc next_of p → ∀ i req, T !! i = None → Acc moved (<[i := (req, p)]> T).
Proof.
  intros HT. induction HT as [T HT IHT]. intros p Hp. induction Hp as [p Hp IHp].
  intros i req Hi. constructor. intros T' [j req' q q' Hj Hq ->|j x Hj ->].
  - destruct (decide (j = i)) as [->|Hne].
    + rewrite lookup_insert_eq in Hj. injection Hj as <- <-. rewrite insert_insert_eq. by apply IHp.
    + rewrite lookup_insert_ne in Hj; [|by intros ->]. rewrite insert_insert_ne; [|exact Hne].
      assert (moved (<[j := (req', q')]> T) T) as Hm by by eapply moved_next.
      apply IHT; [exact Hm|by constructor|by eapply moved_none].
  - destruct (decide (j = i)) as [->|Hne].
    + rewrite delete_insert_id; [|exact Hi]. by constructor.
    + rewrite lookup_insert_ne in Hj; [|by intros ->]. rewrite delete_insert_ne; [|exact Hne].
      assert (moved (delete j T) T) as Hm by by eapply moved_gone.
      apply IHT; [exact Hm|by constructor|by eapply moved_none].
Qed.

Lemma moved_acc T : Acc moved T.
Proof.
  induction T as [|i [req p] T Hi IH] using map_ind.
  - constructor. intros T' [? ? ? ? Hj|? ? Hj]; by rewrite lookup_empty in Hj.
  - apply moved_insert_acc; [done|apply next_of_acc|done].
Qed.

Lemma serves_moved P P' : serves P P' → moved (p_threads P') (p_threads P).
Proof.
  intros (ev & Hs & Hev). destruct Hs as [i junk req s T|i req p p' s s' T Hi Hadv|i req r s T Hi].
  - by destruct (Hev i req).
  - eapply moved_next; [exact Hi|by eapply advance_next|done].
  - by eapply moved_gone.
Qed.

Lemma serves_acc P : Acc (λ P' P, serves P P') P.
Proof.
  enough (∀ T, Acc moved T → ∀ P, p_threads P = T → Acc (λ P' P, serves P P') P) as Hgen.
  { by eapply Hgen; [apply moved_acc|]. }
  intros T HT. induction HT as [T _ IH]. intros P' <-. constructor. intros P'' Hs.
  by eapply IH; [apply serves_moved|].
Qed.

Lemma serves_reachable s tr P P' : reachable s tr P → rtc serves P P' → ∃ tr', reachable s tr' P'.
Proof.
  intros Hr Hs. revert tr Hr. induction Hs as [P|P P1 P2 (ev & Hs & _) _ IH]; intros tr Hr; [by exists tr|].
  eapply IH. by eapply runs_step.
Qed.

(** One handler run to its end while the other threads wait. *)
Lemma runs_alone i req (p : prog out_block) s r s' T :
  run p s = Done (r, s') → T !! i = None →
  runs step (mk_pool s (<[i := (req, p)]> T)) [Returned i req r] (mk_pool s' T).
Proof.
  revert s. induction p as [a|X e k IH]; intros s; cbn; intros Hrun Hi.
  - injection Hrun as <- <-. apply (runs_one _ _ (Some _)). rewrite -{2}(delete_insert_id T i (req, Ret a)) //.
    apply step_return. by rewrite lookup_insert_eq.
  - destruct (exec e s) as [[x s1]| |] eqn:He; [|done..].
    apply (runs_trans _ _ [] (mk_pool s1 (<[i := (req, k x)]> T)) [_]); [|by apply IH].
    apply (runs_one _ _ None). rewrite -(insert_insert_eq T i (req, k x) (req, Do e k)).
    apply (step_thread i req (Do e k)); [by rewrite lookup_insert_eq|]. cbn. by rewrite He.
Qed.
End concurrent.

Section theorems.
Context {D M : Type} {HD : Disk D} {HDL : DiskLaws D} {SM : SharedMutex M} {SML : SharedMutexLaws M}.
Abbreviation state := (fs_state D M).
Abbreviation pool := (pool (D := D) (M := M)).

(** C2: the requests of any number of threads, interleaved in any way, are
    answered as if each had taken effect at once between its call and its return;
    when no request is handled the disk stores the resulting tree and no lock is
    left. *)
Theorem requests_atomic t (s : state) tr (P : pool) :
  fs_inv t s → reachable s tr P →
  ∃ A, runs atomic (mk_atom t ∅) tr A ∧
    (p_threads P = ∅ → a_calls A = ∅ ∧ fs_inv (a_tree A) (p_state P)).
Proof.
  intros Hinv Hr. destruct (reachable_sim _ _ _ _ Hinv Hr) as (A & HA & HS).
  exists A. split; [exact HA|]. by apply sim_quiet.
Qed.

(** C3: no thread ever fails an assertion, accesses a block or an array out of
    bounds, follows an expired pointer to a lock, or destroys or unlocks a lock it
    should not, whatever the other threads do. *)
Theorem threads_never_fault t (s : state) tr (P : pool) i req p f :
  fs_inv t s → reachable s tr P → p_threads P !! i = Some (req, p) →
  advance p (p_state P) ≠ Crash f.
Proof.
  intros Hinv Hr Hi. destruct (reachable_sim _ _ _ _ Hinv Hr) as (A & _ & HS).
  by eapply sim_no_fault.
Qed.

(** C4: two threads are never about to access the same block of the disk when
    one of them is to write it. *)
Theorem no_disk_races t (s : state) tr (P : pool) i1 i2 req1 req2 p1 p2 b w :
  fs_inv t s → reachable s tr P → i1 ≠ i2 →
  p_threads P !! i1 = Some (req1, p1) → p_threads P !! i2 = Some (req2, p2) →
  next_access p1 = Some (b, true) → next_access p2 ≠ Some (b, w).
Proof.
  intros Hinv Hr. destruct (reachable_sim _ _ _ _ Hinv Hr) as (A & _ & HS).
  by eapply sim_no_race.
Qed.

(** C5: while a request is being handled, some thread can make a step: the
    handlers never wait for each other in a circle. *)
Theorem no_deadlock t (s : state) tr (P : pool) :
  fs_inv t s → reachable s tr P → p_threads P ≠ ∅ → ∃ P', serves P P'.
Proof.
  intros Hinv Hr. destruct (reachable_sim _ _ _ _ Hinv Hr) as (A & _ & HS).
  by eapply sim_progress.
Qed.

(** C6: when no new request is handed out, every schedule is finite, and it can
    only end when all requests have returned and the server is consistent. *)
Theorem requests_return t (s : state) tr (P : pool) :
  fs_inv t s → reachable s tr P →
  Acc (λ P' P, serves P P') P ∧
  ∀ P', rtc serves P P' → (∀ P'', ¬ serves P' P'') →
    p_threads P' = ∅ ∧ ∃ t', fs_inv t' (p_state P').
Proof.
  intros Hinv Hr. split; [apply serves_acc|]. intros P' Hs Hend.
  destruct (serves_reachable _ _ _ _ Hr Hs) as (tr' & Hr').
  destruct (reachable_sim _ _ _ _ Hinv Hr') as (A & _ & HS).
  destruct (decide (p_threads P' = ∅)) as [HT|HT].
  - split; [exact HT|]. exists (a_tree A). by apply sim_quiet.
  - destruct (sim_progress _ _ HS HT) as (P'' & HP). by destruct (Hend P'').
Qed.
End theorems.

(** ** Two clients at once *)

(** Some steps of one thread. *)
Fixpoint advance_n {D M A} `{Disk D, SharedMutex M} (n : nat) (p : prog A) (s : fs_state D M)
    : prog A * fs_state D M :=
  match n with
  | O => (p, s)
  | S n =>
      match advance p s with
      | Done (p', s') => advance_n n p' s'
      | _ => (p, s)
      end
  end.

Lemma runs_advance_n {D M} `{Disk D, SharedMutex M} n i req (p : prog out_block) (s : fs_state D M) T :
  runs step (mk_pool s (<[i := (req, p)]> T)) []
    (mk_pool (advance_n n p s).2 (<[i := (req, (advance_n n p s).1)]> T)).
Proof.
  revert p s. induction n as [|n IH]; intros p s; cbn [advance_n]; [constructor|].
  destruct (advance p s) as [[p' s']| |] eqn:Hadv; [|constructor..].
  apply (runs_trans _ _ [] (mk_pool s' (<[i := (req, p')]> T)) []); [|apply IH].
  apply (runs_one _ _ None). rewrite -(insert_insert_eq T i (req, p') (req, p)).
  apply (step_thread i req p); [by rewrite lookup_insert_eq|exact Hadv].
Qed.

Definition ex_alice : Request := Req_CREATE ex_mkdir.
Definition ex_bob : Request := Req_CREATE (mk_CREATE "bob" ["mail"] type_dir).

Definition ex_pool : pool (D := mem_disk) (M := holders) :=
  mk_pool blank_state
    (<[0%nat := (ex_alice, execute_request ex_junk ex_alice)]>
       (<[1%nat := (ex_bob, execute_request ex_junk ex_bob)]> ∅)).

Lemma ex_alice_ok : call_ok (ex_junk, ex_alice).
Proof. split; [exact ex_junk_typed|split; cbn [snd]; by_decide]. Qed.

Lemma ex_bob_ok : call_ok (ex_junk, ex_bob).
Proof. split; [exact ex_junk_typed|split; cbn [snd]; by_decide]. Qed.

Lemma ex_pool_reachable : reachable blank_state [Called 1 ex_bob; Called 0 ex_alice] ex_pool.
Proof.
  apply (runs_step _ _ [Called 1 ex_bob]
    (mk_pool blank_state (<[1%nat := (ex_bob, execute_request ex_junk ex_bob)]> ∅)) (Some (Called 0 ex_alice))).
  - apply (runs_one _ _ (Some (Called 1 ex_bob))). by apply step_call; [|exact ex_bob_ok].
  - by apply step_call; [|exact ex_alice_ok].
Qed.

(** Both run to their ends. *)
Lemma ex_pool_returns : ∃ r0 r1 s,
  reachable blank_state [Called 1 ex_bob; Called 0 ex_alice; Returned 0 ex_alice r0; Returned 1 ex_bob r1]
    (mk_pool (D := mem_disk) (M := holders) s ∅).
Proof.
  destruct (execute_request_run ex_junk ex_alice blank_tree blank_state blank_inv)
    as (r0 & t0 & s0 & Hrun0 & _ & Hinv0 & _); [apply ex_alice_ok..|].
  destruct (execute_request_run ex_junk ex_bob t0 s0 Hinv0)
    as (r1 & t1 & s1 & Hrun1 & _ & _ & _); [apply ex_bob_ok..|].
  exists r0, r1, s1. apply (runs_trans _ _ _ _ [_; _] _ ex_pool_reachable).
  apply (runs_trans _ _ [Returned 0 ex_alice r0]
    (mk_pool s0 (<[1%nat := (ex_bob, execute_request ex_junk ex_bob)]> ∅)) [_]).
  - by apply runs_alone.
  - by apply runs_alone.
Qed.

(** The thread of the first client after some steps: about to write. *)
Definition ex_halfway : prog out_block * fs_state mem_disk holders :=
  advance_n 6 (execute_request ex_junk ex_alice) blank_state.

Lemma ex_halfway_reachable :
  reachable blank_state [Called 1 ex_bob; Called 0 ex_alice]
    (mk_pool ex_halfway.2 (<[0%nat := (ex_alice, ex_halfway.1)]>
       (<[1%nat := (ex_bob, execute_request ex_junk ex_bob)]> ∅))).
Proof.
  rewrite -(app_nil_r [Called 1 ex_bob; Called 0 ex_alice]).
  apply (runs_trans _ _ _ _ _ _ ex_pool_reachable). apply runs_advance_n.
Qed.

Lemma requests_atomic_witness : ∃ r0 r1 A,
  runs atomic (mk_atom blank_tree ∅)
    [Called 1 ex_bob; Called 0 ex_alice; Returned 0 ex_alice r0; Returned 1 ex_bob r1] A ∧
  a_calls A = ∅.
Proof.
  destruct ex_pool_returns as (r0 & r1 & s & Hr).
  destruct (requests_atomic blank_tree blank_state _ _ blank_inv Hr) as (A & HA & Hend).
  exists r0, r1, A. split; [exact HA|]. exact (proj1 (Hend eq_refl)).
Defined.

Lemma threads_never_fault_witness :
  advance (execute_request ex_junk ex_bob) ex_halfway.2 ≠ Crash LockMisuse.
Proof.
  refine (threads_never_fault blank_tree blank_state _ _ 1%nat ex_bob _ LockMisuse
    blank_inv ex_halfway_reachable _).
  reflexivity.
Defined.

Lemma no_disk_races_witness :
  next_access ex_halfway.1 = Some (2, true) ∧
  next_access (execute_request ex_junk ex_bob) ≠ Some (2, false).
Proof.
  assert (next_access ex_halfway.1 = Some (2, true)) as Hw by (vm_compute; reflexivity).
  split; [exact Hw|].
  refine (no_disk_races blank_tree blank_state _ _ 0%nat 1%nat ex_alice ex_bob _ _ 2 false
    blank_inv ex_halfway_reachable _ _ _ Hw).
  - discriminate.
  - apply lookup_insert_eq.
  - reflexivity.
Defined.

Lemma no_deadlock_witness : ∃ P', serves ex_pool P'.
Proof.
  refine (no_deadlock blank_tree blank_state _ _ blank_inv ex_pool_reachable _).
  intros Heq. apply (f_equal (lookup 1%nat)) in Heq. discriminate Heq.
Defined.

Lemma requests_return_witness : Acc (λ P' P, serves P P') ex_pool.
Proof.
  destruct (requests_return blank_tree blank_state _ _ blank_inv ex_pool_reachable) as [Hacc _].
  exact Hacc.
Defined.
