(* ===== verification/Networking.v ===== *)
(** * One connection ([handle_connection] of [src/networking.cpp])

    The header is read byte by byte into a buffer of [MAX_HEADER_SIZE] + 1 bytes,
    parsed, completed with the payload of a write, executed and answered.  The
    socket is an interface: [recv] is the operating system's. *)

From S2P Require Import Prelude CStd Request Parsing FsTypes FsMonad FileSystem FsTree FsSpec FsLogic FsTraverse FsStored FsCorrect FsExample FsCreate FsDelete FsServer.

(** ** The socket *)

(** [recv(fd, buf, n, flags)]: [None] is -1, otherwise the bytes received, none
    at the end of the stream; the flag is [MSG_WAITALL]. *)
Class Socket (K : Type) := { recv : Z → bool → K → option bytes * K }.

Class SocketLaws (K : Type) `{Socket K} := {
  recv_length n w k bs k' :
    0 ≤ n → recv n w k = (Some bs, k') → Z.of_nat (length bs) ≤ n }.

(** A peer that has sent some bytes and closed its side. *)
#[export] Instance stream_socket : Socket bytes :=
  {| recv n w l := (Some (take (Z.to_nat n) l), drop (Z.to_nat n) l) |}.

#[export] Instance stream_socket_laws : SocketLaws bytes.
Proof.
  split. cbn. intros n w l bs l' Hn [= <- _]. rewrite length_take. lia.
Qed.

(** ** Reading the header *)

Definition zero_msg : bytes := replicate (Z.to_nat (MAX_HEADER_SIZE + 1)) NUL.

(** The bytes [recv] writes at [msg + i]. *)
Definition store_at (msg : bytes) (i : Z) (bs : bytes) : option bytes :=
  if i + Z.of_nat (length bs) <=? Z.of_nat (length msg)
  then Some (list_inserts (Z.to_nat i) bs msg) else None.

(** The loop [do ... while (rval > 0 && msg[recvd - 1])]; [None] is the return of
    -1 after [close].  [fuel] bounds the number of iterations. *)
Fixpoint read_header {K} `{Socket K} (fuel : nat) (msg : bytes) (recvd : Z) (k : K)
    : outcome (option bytes * K) :=
  match fuel with
  | O => Crash OutOfFuel
  | S fuel' =>
      let '(r, k') := recv 1 false k in
      match r with
      | None => Done (None, k')
      | Some bs =>
          match store_at msg recvd bs with
          | None => Crash BufferOverflow
          | Some msg' =>
              let rval := Z.of_nat (length bs) in
              let recvd' := recvd + rval in
              if MAX_HEADER_SIZE <? recvd' then Done (None, k')
              else if 0 <? rval then
                match msg' !! Z.to_nat (recvd' - 1) with
                | None => Crash OutOfBounds
                | Some c =>
                    if Ascii.eqb c NUL then Done (Some msg', k')
                    else read_header fuel' msg' recvd' k'
                end
              else Done (Some msg', k')
          end
      end
  end.

(** Every iteration but the last receives one byte. *)
Definition header_fuel : nat := 159.

(** ** The connection *)

Definition with_data (r : FS_WRITEBLOCK) (data : option bytes) : FS_WRITEBLOCK :=
  mk_WRITEBLOCK (wr_username r) (wr_path r) (wr_block r) data.

(** [std::make_shared<std::array>()] is zeroed; [recv] fills the front of it. *)
Definition fill_block (bs : bytes) : bytes :=
  bs ++ replicate (n_block - length bs) NUL.

(** The payload of a write, after the header. *)
Definition receive_payload {K} `{Socket K} (parsed : Request) (k : K) : option Request * K :=
  match parsed with
  | Req_WRITEBLOCK w =>
      let '(r, k') := recv FS_BLOCKSIZE true k in
      match r with
      | None => (None, k')
      | Some bs => (Some (Req_WRITEBLOCK (with_data w (Some (fill_block bs)))), k')
      end
  | _ => (Some parsed, k)
  end.

(** What is sent for a request that was handled. *)
Definition replies (parsed : Request) (handled : option bytes) : option (list bytes) :=
  let header := to_bytes (request_string parsed) ++ [NUL] in
  match parsed with
  | Req_READBLOCK _ =>
      match handled with
      | Some block => Some [header; block]
      | None => None
      end
  | _ => Some [header]
  end.

(** What a connection knows before it calls [execute_request]: it has been closed,
    with the value returned, or it has a request. *)
Inductive received :=
  | Closed (ret : Z)
  | Received (parsed : Request).

Definition receive_request {K} `{Socket K} (k : K) : outcome (received * K) :=
  match read_header header_fuel zero_msg 0 k with
  | Wait => Wait
  | Crash f => Crash f
  | Done (None, k) => Done (Closed (-1), k)
  | Done (Some msg, k) =>
      match parse_request (c_str msg) with
      | Throws e => Crash (Uncaught e)
      | Returns None => Done (Closed 0, k)
      | Returns (Some parsed) =>
          match receive_payload parsed k with
          | (None, k) => Done (Closed (-1), k)
          | (Some parsed, k) => Done (Received parsed, k)
          end
      end
  end.

(** The messages sent after it. *)
Definition respond (parsed : Request) (r : out_block) : outcome (list bytes) :=
  match r with
  | None => Done []
  | Some handled =>
      match replies parsed handled with
      | Some sent => Done sent
      | None => Crash NullPointer
      end
  end.

(** The value returned, the messages sent, the socket and the server's state
    after the connection; an exception that leaves the function ends the process. *)
Definition handle_connection {K D M} `{Socket K, Disk D, SharedMutex M} (junk : fs_inode)
    (k : K) (s : fs_state D M) : outcome (Z * list bytes * K * fs_state D M) :=
  match receive_request k with
  | Wait => Wait
  | Crash f => Crash f
  | Done (Closed ret, k) => Done (ret, [], k, s)
  | Done (Received parsed, k) =>
      match run (execute_request junk parsed) s with
      | Wait => Wait
      | Crash f => Crash f
      | Done (r, s') =>
          match respond parsed r with
          | Wait => Wait
          | Crash f => Crash f
          | Done sent => Done (0, sent, k, s')
          end
      end
  end.

(** ** The header buffer *)

Section header.
Context {K : Type} `{SocketLaws K}.

(** The buffer during the loop: [recvd] bytes were received, the rest is zero. *)
Definition header_inv (msg : bytes) (recvd : Z) : Prop :=
  0 ≤ recvd ≤ MAX_HEADER_SIZE ∧ Z.of_nat (length msg) = MAX_HEADER_SIZE + 1 ∧
  ∀ i, recvd ≤ Z.of_nat i ≤ MAX_HEADER_SIZE → msg !! i = Some NUL.

Lemma header_inv_zero : header_inv zero_msg 0.
Proof.
  split; [done|]. split; [done|]. intros i Hi. apply lookup_replicate.
  split; [done|]. unfold MAX_HEADER_SIZE in *. cbn in *. lia.
Qed.

Lemma store_at_inv msg recvd bs :
  header_inv msg recvd → Z.of_nat (length bs) ≤ 1 →
  ∃ msg', store_at msg recvd bs = Some msg' ∧
    Z.of_nat (length msg') = MAX_HEADER_SIZE + 1 ∧
    (recvd + Z.of_nat (length bs) ≤ MAX_HEADER_SIZE →
     header_inv msg' (recvd + Z.of_nat (length bs))).
Proof.
  intros ((Hlo & Hhi) & Hl & Hz) Hbs. unfold store_at. rewrite (proj2 (Z.leb_le _ _)); [|lia].
  eexists. split; [done|]. rewrite length_inserts. split; [done|]. intros Hr.
  split; [lia|]. rewrite length_inserts. split; [done|]. intros i Hi.
  rewrite list_lookup_inserts_ge; [apply Hz; lia|lia].
Qed.

Lemma read_header_spec fuel : ∀ msg recvd (k : K),
  header_inv msg recvd → MAX_HEADER_SIZE + 1 ≤ recvd + Z.of_nat fuel →
  ∃ r k', read_header fuel msg recvd k = Done (r, k') ∧
    ∀ msg', r = Some msg' → ∃ n, header_inv msg' n.
Proof.
  induction fuel as [|fuel IH]; intros msg recvd k Hinv Hfuel.
  { destruct Hinv as ((_ & Hhi) & _). lia. }
  cbn [read_header]. destruct (recv 1 false k) as [[bs|] k'] eqn:Hr; [|by eexists _, _].
  apply recv_length in Hr; [|lia].
  destruct (store_at_inv msg recvd bs Hinv Hr) as (msg' & -> & Hl & Hinv').
  destruct (Z.ltb_spec MAX_HEADER_SIZE (recvd + Z.of_nat (length bs))) as [|Hle]; [by eexists _, _|].
  specialize (Hinv' Hle).
  destruct (Z.ltb_spec 0 (Z.of_nat (length bs))) as [Hpos|].
  - destruct (lookup_lt_is_Some_2 msg' (Z.to_nat (recvd + Z.of_nat (length bs) - 1))) as [c Hc].
    { destruct Hinv' as ((Hlo & _) & _). lia. }
    rewrite Hc. destruct (Ascii.eqb c NUL).
    + eexists _, _. split; [done|]. intros ? [= <-]. by eexists.
    + apply IH; [done|lia].
  - eexists _, _. split; [done|]. intros ? [= <-]. by eexists.
Qed.
End header.

(** ** A connection and the server's state *)

Lemma fill_block_length bs : Z.of_nat (length bs) ≤ FS_BLOCKSIZE → length (fill_block bs) = n_block.
Proof.
  unfold fill_block, FS_BLOCKSIZE. intros Hl. rewrite length_app length_replicate. lia.
Qed.

Lemma receive_payload_ok {K} `{SocketLaws K} parsed (k : K) r k' :
  request_ok parsed → receive_payload parsed k = (Some r, k') →
  request_ok r ∧ payload_ok r.
Proof.
  intros Hok. destruct parsed as [q|w|q|q]; cbn; try (intros [= <- <-]; by split).
  destruct (recv FS_BLOCKSIZE true k) as [[bs|] k2] eqn:Hr; intros [= <- <-].
  split; [exact Hok|]. apply fill_block_length. by apply recv_length in Hr.
Qed.

Lemma replies_some parsed res s s' :
  spec_request parsed s = (Some res, s') → is_Some (replies parsed res).
Proof.
  destruct parsed as [q|q|q|q]; intros Hs; cbn in *; [|by eexists..].
  injection Hs as Hs _. destruct res as [b|]; [by eexists|].
  by apply read_not_empty in Hs.
Qed.

Lemma receive_request_spec {K} `{SocketLaws K} (k : K) :
  (∃ ret k', receive_request k = Done (Closed ret, k')) ∨
  (∃ parsed k', receive_request k = Done (Received parsed, k') ∧
     request_ok parsed ∧ payload_ok parsed) ∨
  (receive_request k = Crash (Uncaught out_of_range) ∧
   ∃ msg k', read_header header_fuel zero_msg 0 k = Done (Some msg, k') ∧
     tokens_throw (split (c_str msg) SPACE)).
Proof.
  unfold receive_request.
  destruct (read_header_spec header_fuel zero_msg 0 k header_inv_zero ltac:(done))
    as (r & k1 & -> & _).
  destruct r as [msg|]; [|left; by eexists _, _].
  destruct (parse_request (c_str msg)) as [[parsed|]|e] eqn:Hp; [|left; by eexists _, _|].
  2: { do 2 right. apply parse_throws_iff in Hp as [-> Ht]. split; [done|]. by exists msg, k1. }
  apply parse_request_sound in Hp.
  destruct (receive_payload parsed k1) as [[req|] k2] eqn:Hpay; [|left; by eexists _, _].
  apply receive_payload_ok in Hpay as [Hreq Hpl]; [|done]. right. left. by exists req, k2.
Qed.

(** What the client gets for the result of the request. *)
Definition answer (r : Request) (res : out_block) : list bytes :=
  match res with
  | None => []
  | Some handled => default [] (replies r handled)
  end.

Lemma respond_spec parsed r s s' :
  spec_request parsed s = (r, s') → respond parsed r = Done (answer parsed r).
Proof.
  intros Hs. destruct r as [handled|]; [|done]. cbn.
  by destruct (replies_some _ _ _ _ Hs) as [sent ->].
Qed.

Section connection.
Context {K D M : Type} `{SocketLaws K, DiskLaws D, SharedMutexLaws M}.

(** Whatever a client sends, a connection keeps the server's state
    consistent and answers or closes; it never overruns the header buffer, never
    dereferences a null pointer, never trips an assertion and never blocks on a
    lock.  The one exception is a header on which the parser throws: the exception
    leaves the thread's function and ends the server. *)
Theorem connection_safe junk (k : K) t (s : fs_state D M) :
  fs_inv t s → inode_typed junk →
  (∃ ret sent k' t' s', handle_connection junk k s = Done (ret, sent, k', s') ∧ fs_inv t' s') ∨
  (handle_connection junk k s = Crash (Uncaught out_of_range) ∧
   ∃ msg k', read_header header_fuel zero_msg 0 k = Done (Some msg, k') ∧
     tokens_throw (split (c_str msg) SPACE)).
Proof.
  intros Hinv Hjunk. unfold handle_connection.
  destruct (receive_request_spec k) as [(ret & k' & ->)|[(parsed & k' & -> & Hreq & Hpl)|[-> Hthrow]]].
  - left. by eexists _, _, _, t, s.
  - left. destruct (execute_request_run junk parsed t s Hinv Hreq Hpl Hjunk) as
      (res & t' & s' & -> & Hspec & Hinv' & _).
    rewrite (respond_spec _ _ _ _ Hspec). by eexists _, _, _, t', s'.
  - by right.
Qed.
End connection.

(** ** A client that sends a well-formed request *)

(** The bytes of a request: its text, a NUL, and the payload of a write. *)
Definition wire (r : Request) : bytes :=
  to_bytes (request_string r) ++
  NUL :: match r with Req_WRITEBLOCK w => default [] (wr_data w) | _ => [] end.

Lemma insert_next (pre : bytes) c n :
  <[length pre := c]> (pre ++ replicate (S n) NUL) = (pre ++ [c]) ++ replicate n NUL.
Proof.
  rewrite insert_app_r_alt; [|done]. rewrite Nat.sub_diag -app_assoc. done.
Qed.

Lemma read_header_stream fuel : ∀ (pre todo rest : bytes),
  (length todo < fuel)%nat → NUL ∉ todo →
  Z.of_nat (length pre + length todo) + 1 ≤ MAX_HEADER_SIZE →
  read_header fuel (pre ++ replicate (159 - length pre) NUL) (Z.of_nat (length pre))
    (todo ++ NUL :: rest) =
  Done (Some ((pre ++ todo) ++ replicate (159 - length (pre ++ todo)) NUL), rest).
Proof.
  induction fuel as [|fuel IH]; intros pre todo rest Hfuel Hn Hmax; [lia|].
  unfold MAX_HEADER_SIZE, FS_MAXUSERNAME, FS_MAXPATHNAME in Hmax.
  assert (∃ c rest', todo ++ NUL :: rest = c :: rest' ∧
    (c = NUL ∧ todo = [] ∧ rest' = rest ∨
     c ≠ NUL ∧ ∃ todo', todo = c :: todo' ∧ rest' = todo' ++ NUL :: rest))
    as (c & rest' & -> & Hc).
  { destruct todo as [|c todo]; [by exists NUL, rest; auto|].
    exists c, (todo ++ NUL :: rest). split; [done|]. right. apply not_elem_of_cons in Hn as [Hn _].
    split; [done|]. by exists todo. }
  cbn [read_header recv stream_socket]. change (take (Z.to_nat 1) (c :: rest')) with [c].
  change (drop (Z.to_nat 1) (c :: rest')) with (drop 0 rest'). rewrite drop_0.
  unfold store_at. rewrite length_app length_replicate. cbn [length].
  rewrite (proj2 (Z.leb_le _ _)); [|lia].
  rewrite Nat2Z.id. cbn [list_inserts].
  replace (159 - length pre)%nat with (S (158 - length pre)) by lia. rewrite insert_next.
  rewrite (proj2 (Z.ltb_ge MAX_HEADER_SIZE _)); [|unfold MAX_HEADER_SIZE, FS_MAXUSERNAME, FS_MAXPATHNAME; lia].
  cbn [Z.ltb Z.compare Z.of_nat]. change (0 <? Z.of_nat 1) with true. cbv iota.
  replace (Z.to_nat (Z.of_nat (length pre) + Z.of_nat 1 - 1)) with (length pre) by lia.
  rewrite lookup_app_l; [|rewrite length_app; cbn; lia].
  rewrite list_lookup_middle //.
  destruct Hc as [(-> & -> & ->)|(Hcn & todo' & -> & ->)].
  - cbn [Ascii.eqb]. rewrite app_nil_r. do 3 f_equal.
    replace (159 - length pre)%nat with (S (158 - length pre)) by lia.
    rewrite -app_assoc. done.
  - rewrite (proj2 (Ascii.eqb_neq _ _) Hcn).
    apply not_elem_of_cons in Hn as [_ Hn]. cbn [length] in Hfuel, Hmax.
    replace (158 - length pre)%nat with (159 - length (pre ++ [c]))%nat
      by (rewrite length_app; cbn [length]; lia).
    replace (Z.of_nat (length pre) + Z.of_nat 1) with (Z.of_nat (length (pre ++ [c])))
      by (rewrite length_app; cbn [length]; lia).
    rewrite IH; [|lia|done|].
    + by replace ((pre ++ [c]) ++ todo') with (pre ++ c :: todo') by by rewrite -app_assoc.
    + rewrite length_app. cbn [length]. unfold MAX_HEADER_SIZE, FS_MAXUSERNAME, FS_MAXPATHNAME. lia.
Qed.

Lemma request_string_word r : request_ok r → ¬ has_char NUL (request_string r).
Proof.
  intros Hr. rewrite request_string_join. apply join_no_nul; [done|].
  eapply Forall_impl; [by apply request_tokens_ok|]. by intros ? [? _].
Qed.

Lemma read_header_wire r rest :
  request_ok r →
  ∃ msg, read_header header_fuel zero_msg 0 (to_bytes (request_string r) ++ NUL :: rest)
      = Done (Some msg, rest) ∧ c_str msg = request_string r.
Proof.
  intros Hr. pose proof (request_string_size r Hr) as Hsz. pose proof (request_string_word r Hr) as Hw.
  unfold size in Hsz. rewrite -length_to_bytes in Hsz.
  pose proof (read_header_stream header_fuel [] (to_bytes (request_string r)) rest) as Hh.
  cbn [app length] in Hh. change (replicate (159 - 0) NUL) with zero_msg in Hh.
  rewrite Hh; [|unfold MAX_HEADER_SIZE, FS_MAXUSERNAME, FS_MAXPATHNAME in Hsz; unfold header_fuel; lia
               |exact Hw|exact Hsz].
  eexists. split; [done|].
  replace (159 - length (to_bytes (request_string r)))%nat
    with (S (158 - length (to_bytes (request_string r)))).
  - by apply c_str_app.
  - unfold MAX_HEADER_SIZE, FS_MAXUSERNAME, FS_MAXPATHNAME in Hsz. lia.
Qed.

Lemma receive_payload_wire r :
  payload_ok r →
  receive_payload (header_of r)
    (match r with Req_WRITEBLOCK w => default [] (wr_data w) | _ => [] end : bytes) = (Some r, []).
Proof.
  destruct r as [q|w|q|q]; [done| |done..]. intros Hp.
  destruct (payload_data _ Hp) as (bs & Hbs & Hl). destruct w as [u p b d]. cbn in *. subst d.
  cbn. change (Z.to_nat FS_BLOCKSIZE) with 512%nat. rewrite -Hl firstn_all drop_all.
  unfold with_data, fill_block. cbn. by rewrite Hl Nat.sub_diag app_nil_r.
Qed.

Section client.
Context {D M : Type} `{DiskLaws D, SharedMutexLaws M}.

(** C15: a client that sends a well-formed request, with its payload, gets the
    answer the specification gives, unless its path is the root: the request back,
    for a read followed by the block, or nothing if the request failed; and the
    server's state is the one of the specification.  A deletion of the root gets no
    answer and changes nothing; another request on the root, as it is printed, ends
    the server. *)
Theorem connection_answers junk r t (s : fs_state D M) :
  fs_inv t s → inode_typed junk → request_ok r → payload_ok r →
  (req_path r ≠ [] →
   ∃ res t' s', handle_connection junk (wire r) s = Done (0, answer r res, [], s') ∧
     spec_request r (abs t s) = (res, abs t' s') ∧ fs_inv t' s') ∧
  (req_path r = [] →
   handle_connection junk (wire r) s =
     if is_delete r then Done (0, [], [], s) else Crash (Uncaught out_of_range)).
Proof.
  intros Hinv Hjunk Hr Hp. unfold handle_connection, receive_request, wire.
  destruct (read_header_wire r (match r with Req_WRITEBLOCK w => default [] (wr_data w) | _ => [] end) Hr)
    as (msg & -> & ->). split; intros Hpath.
  - rewrite parse_printed // receive_payload_wire //.
    destruct (execute_request_run junk r t s Hinv Hr Hp Hjunk) as (res & t' & s' & -> & Hspec & Hinv' & _).
    exists res, t', s'. split; [|by split]. by rewrite (respond_spec _ _ _ _ Hspec).
  - rewrite parse_printed_root //. by destruct r.
Qed.
End client.

Lemma connection_safe_witness :
  handle_connection ex_junk (to_bytes "FS_DELETE u  " ++ [NUL]) blank_state
  = Crash (Uncaught out_of_range).
Proof.
  destruct (connection_safe ex_junk (to_bytes "FS_DELETE u  " ++ [NUL]) blank_tree blank_state)
    as [(ret & sent & k' & t' & s' & Hrun & _)|[Hcrash _]].
  - exact blank_inv.
  - exact ex_junk_typed.
  - exfalso. vm_compute in Hrun. discriminate Hrun.
  - exact Hcrash.
Defined.

Lemma connection_answers_witness :
  ∃ res s', handle_connection ex_junk (wire (Req_WRITEBLOCK ex_write)) ex_state
    = Done (0, answer (Req_WRITEBLOCK ex_write) res, [], s').
Proof.
  destruct (connection_answers ex_junk (Req_WRITEBLOCK ex_write) ex_tree ex_state) as [Hanswers _].
  - exact ex_inv.
  - exact ex_junk_typed.
  - by_decide.
  - reflexivity.
  - destruct Hanswers as (res & t' & s' & Hrun & _); [discriminate|]. exists res, s'. exact Hrun.
Defined.
