(* ===== verification/Listen.v ===== *)
(** * The listening socket ([src/networking.cpp], [main] of [src/fs_server.cpp])

    [server_connect] binds a socket to the port asked for, [get_port_number] asks
    the operating system for the port it got.  The calls of the operating system
    are an interface; [perror] is not modelled. *)

From S2P Require Import Prelude CStd.

(** ** The operating system *)

(** The fields of [struct sockaddr_in], the port in network byte order. *)
Record sockaddr_in := mk_sockaddr { sin_family : Z; s_addr : Z; sin_port : Z }.

(** The constants of the headers, and the calls as the server makes them: [socket(AF_INET, SOCK_STREAM, IPPROTO_IP)];
    [setsockopt] of [SO_REUSEADDR] to a value; [bind]; [getsockname]; [listen].
    Each returns an [int], -1 if it fails. *)
Class Sockets (O : Type) := {
  AF_INET : Z;
  INADDR_ANY : Z;
  os_socket : O → Z * O;
  os_setsockopt : Z → Z → O → Z * O;
  os_bind : Z → sockaddr_in → O → Z * O;
  os_getsockname : Z → O → Z * sockaddr_in;
  os_listen : Z → Z → O → Z * O;
  htons : Z → Z;
  ntohs : Z → Z }.

(** A bound socket has a port, the one asked for unless that is 0. *)
Class SocketsLaws (O : Type) `{Sockets O} := {
  ntohs_htons p : 0 ≤ p < 2 ^ 16 → ntohs (htons p) = p;
  bound_port fd a o o' r a' :
    os_bind fd a o = (r, o') → r ≠ -1 → os_getsockname fd o' = (0, a') →
    0 < ntohs (sin_port a') < 2 ^ 16 ∧
    (ntohs (sin_port a) ≠ 0 → ntohs (sin_port a') = ntohs (sin_port a));
  getsockname_result fd (o : O) : (os_getsockname fd o).1 = 0 ∨ (os_getsockname fd o).1 = -1 }.

(** ** The functions *)

(** The conversion of [int] to the [uint16_t] of [htons]. *)
Definition to_uint16 (v : Z) : Z := v mod 2 ^ 16.

Section listen.
Context {O : Type} `{Sockets O}.

Definition get_port_number (sockfd : Z) (o : O) : Z :=
  let '(r, addr) := os_getsockname sockfd o in
  if r =? -1 then -1 else ntohs (sin_port addr).

(** It returns 0 always. *)
Definition make_server_sockaddr (port : Z) : Z * sockaddr_in :=
  (0, mk_sockaddr AF_INET INADDR_ANY (htons (to_uint16 port))).

Definition server_connect (port : Z) (o : O) : Z * O :=
  let '(sockfd, o) := os_socket o in
  if sockfd =? -1 then (-1, o) else
  let '(r, o) := os_setsockopt sockfd 1 o in
  if r =? -1 then (-1, o) else
  let '(r, addr) := make_server_sockaddr port in
  if r =? -1 then (-1, o) else
  let '(r, o) := os_bind sockfd addr o in
  if r =? -1 then (-1, o) else (sockfd, o).

(** The port [main] asks for: [atoi] of its only argument, or 0 for any. *)
Definition main_port (argv : list string) : option Z :=
  match argv with
  | [_; arg] => atoi arg
  | _ => Some 0
  end.

(** [bound] is the port of a socket that was to be bound to [port]: a port, the one
    asked for modulo 2^16 unless that is 0. *)
Definition port_bound (port bound : Z) : Prop :=
  0 < bound < 2 ^ 16 ∧ (to_uint16 port ≠ 0 → bound = to_uint16 port).

Lemma get_port_number_spec (sockfd : Z) (o : O) :
  get_port_number sockfd o =
    if (os_getsockname sockfd o).1 =? -1 then -1 else ntohs (sin_port (os_getsockname sockfd o).2).
Proof. unfold get_port_number. by destruct (os_getsockname sockfd o). Qed.

Lemma server_connect_port `{!SocketsLaws O} port (o o' : O) sockfd :
  server_connect port o = (sockfd, o') → sockfd ≠ -1 →
  (os_getsockname sockfd o').1 ≠ -1 → port_bound port (ntohs (sin_port (os_getsockname sockfd o').2)).
Proof.
  unfold server_connect. cbn [make_server_sockaddr].
  destruct (os_socket o) as [fd o1]. destruct (fd =? -1); [by intros [= <- _]|].
  destruct (os_setsockopt fd 1 o1) as [r1 o2]. destruct (r1 =? -1); [by intros [= <- _]|].
  change (0 =? -1) with false. cbv iota.
  destruct (os_bind fd _ o2) as [r o3] eqn:Hbind. destruct (Z.eqb_spec r (-1)); intros [= <- <-] Hfd Hn; [done|].
  destruct (getsockname_result fd o3) as [Hr|?]; [|done].
  destruct (os_getsockname fd o3) as [r' a'] eqn:Hname. cbn in Hr |- *. subst r'.
  destruct (bound_port _ _ _ _ _ _ Hbind ltac:(done) Hname) as [Hpos Hport]. split; [done|].
  cbn [sin_port] in Hport. rewrite ntohs_htons in Hport; [done|apply Z.mod_pos_bound; lia].
Qed.
End listen.

(** ** An operating system with one socket *)

Definition swap16 (p : Z) : Z := (p mod 256) * 256 + p / 256.

(** The address the socket is bound to; an unused port is 8000. *)
#[export] Instance one_socket : Sockets sockaddr_in := {|
  AF_INET := 2;
  INADDR_ANY := 0;
  os_socket o := (3, o);
  os_setsockopt _ _ o := (0, o);
  os_bind _ a o :=
    if (0 <=? swap16 (sin_port a)) && (swap16 (sin_port a) <? 2 ^ 16) then
      (0, if swap16 (sin_port a) =? 0 then mk_sockaddr (sin_family a) (s_addr a) (swap16 8000) else a)
    else (-1, o);
  os_getsockname _ o :=
    if (0 <? swap16 (sin_port o)) && (swap16 (sin_port o) <? 2 ^ 16) then (0, o) else (-1, o);
  os_listen _ _ o := (0, o);
  htons := swap16;
  ntohs := swap16 |}.

Lemma swap16_bytes q r : 0 ≤ q < 256 → 0 ≤ r < 256 → swap16 (256 * r + q) = 256 * q + r.
Proof.
  intros Hq Hr. unfold swap16.
  rewrite -(Z.mod_unique_pos (256 * r + q) 256 r q) // -(Z.div_unique_pos (256 * r + q) 256 r q) //. lia.
Qed.

Lemma swap16_swap16 p : 0 ≤ p < 2 ^ 16 → swap16 (swap16 p) = p.
Proof.
  intros Hp. assert (0 ≤ p mod 256 < 256) by (apply Z.mod_pos_bound; lia).
  assert (0 ≤ p / 256 < 256) by (split; [apply Z.div_pos|apply Z.div_lt_upper_bound]; lia).
  rewrite (Z.div_mod p 256); [|lia]. by rewrite !swap16_bytes.
Qed.

#[export] Instance one_socket_laws : SocketsLaws sockaddr_in.
Proof.
  split; cbn [os_bind os_getsockname htons ntohs one_socket].
  - exact swap16_swap16.
  - intros _ a o o' r a' Hb Hr Hn.
    destruct ((0 <=? swap16 (sin_port a)) && (swap16 (sin_port a) <? 2 ^ 16));
      injection Hb as <- <-; [|done].
    destruct (Z.eqb_spec (swap16 (sin_port a)) 0) as [Hz|Hz].
    + rewrite Hz. split; [|done]. vm_compute in Hn. injection Hn as <-. done.
    + destruct (0 <? _) eqn:H0; [|done]. destruct (_ <? 2 ^ 16) eqn:H1; [|done].
      injection Hn as <-. apply Z.ltb_lt in H0, H1. done.
  - intros _ o. destruct (_ && _); [by left|by right].
Qed.
