(* ===== verification/Server.v ===== *)
(** * The server ([main] of [src/fs_server.cpp], [server_listen] of [src/networking.cpp])

    [main] binds a socket, builds the free list with [fs_init], prints the port and
    then accepts connections; each gets a thread of its own, which runs [handle_connection]: it reads a request
    from its socket, executes it beside the other threads, and answers. *)

From S2P Require Import Prelude CStd Request Parsing FsTypes FsMonad FileSystem FsTree FsSpec FsLogic FsTraverse FsStored FsCorrect FsExample FsServer FsInit FsFace FsTable FsShared FsLocks FsLink FsAtomic FsAtomicFile FsPool FsConcurrent Networking Listen.

(** ** The machine *)

(** The thread of a connection: reading from its socket, or handling a request. *)
Inductive conn (K : Type) :=
  | Reading (k : K)
  | Handling (parsed : Request) (p : prog out_block).
Arguments Reading {K} k.
Arguments Handling {K} parsed p.

(** What clients see: the request that has been read, the messages sent for it. *)
Inductive server_event :=
  | Asked (i : nat) (parsed : Request)
  | Sent (i : nat) (msgs : list bytes).

Section server.
Context {K D M : Type} {SK : Socket K} {SKL : SocketLaws K}.
Context {HD : Disk D} {HDL : DiskLaws D} {SM : SharedMutex M} {SML : SharedMutexLaws M}.
Abbreviation state := (fs_state D M).

Record server := mk_server { sv_state : state; sv_conns : gmap nat (conn K) }.

(** An [accept] that fails changes nothing and is left out; threads are detached,
    so a thread that has ended is gone. *)
Inductive server_step : server → option server_event → server → Prop :=
  | server_accept i k s C :
      C !! i = None → server_step (mk_server s C) None (mk_server s (<[i := Reading k]> C))
  | server_receive i k junk parsed k' s C :
      C !! i = Some (Reading k) → inode_typed junk → receive_request k = Done (Received parsed, k') →
      server_step (mk_server s C) (Some (Asked i parsed))
        (mk_server s (<[i := Handling parsed (execute_request junk parsed)]> C))
  | server_close i k ret k' s C :
      C !! i = Some (Reading k) → receive_request k = Done (Closed ret, k') →
      server_step (mk_server s C) None (mk_server s (delete i C))
  | server_execute i parsed p p' s s' C :
      C !! i = Some (Handling parsed p) → advance p s = Done (p', s') →
      server_step (mk_server s C) None (mk_server s' (<[i := Handling parsed p']> C))
  | server_respond i parsed r msgs s C :
      C !! i = Some (Handling parsed (Ret r)) → respond parsed r = Done msgs →
      server_step (mk_server s C) (Some (Sent i msgs)) (mk_server s (delete i C)).

(** What ends the process: a fault, or an uncaught exception, of any thread. *)
Definition server_crashes (S : server) (f : fault) : Prop :=
  ∃ i c, sv_conns S !! i = Some c ∧
  match c with
  | Reading k => receive_request k = Crash f
  | Handling parsed p =>
      advance p (sv_state S) = Crash f ∨ ∃ r, p = Ret r ∧ respond parsed r = Crash f
  end.

(** How far [main] gets: it returns, or accepts connections for ever, after it has
    printed the port. *)
Inductive main_result :=
  | Exits (ret : Z)
  | Listening (printed : Z) (S0 : server).

(** [server_listen], up to its loop. *)
Definition server_listen {O} `{Sockets O} (sockfd : Z) (o : O) (s : state) : server * O :=
  let '(_, o) := os_listen sockfd (-1) o in (mk_server s ∅, o).

(** [print_port] takes an [unsigned int]. *)
Definition main {O} `{Sockets O} (argv : list string) (o : O) (s : state)
    : outcome (main_result * O) :=
  match main_port argv with
  | None => Crash UndefinedArgument
  | Some port =>
      let '(sockfd, o) := server_connect port o in
      if sockfd =? -1 then Done (Exits (-1), o)
      else
        let port := get_port_number sockfd o in
        match run fs_init s with
        | Wait => Wait
        | Crash f => Crash f
        | Done (_, s) =>
            let '(S0, o) := server_listen sockfd o s in Done (Listening (to_uint32 port) S0, o)
        end
  end.

(** ** Its requests, among the threads of the pool *)

Definition handling (c : conn K) : option (Request * prog out_block) :=
  match c with Handling parsed p => Some (parsed, p) | Reading _ => None end.

Definition server_pool (S : server) : pool := mk_pool (sv_state S) (omap handling (sv_conns S)).

(** The events of a request in those of the server. *)
Definition wire_event (e : event) : server_event :=
  match e with
  | Called i req => Asked i req
  | Returned i req r => Sent i (answer req r)
  end.

Lemma wire_option (ev : option event) : option_list (wire_event <$> ev) = wire_event <$> option_list ev.
Proof. by destruct ev. Qed.

Lemma handling_Some i (C : gmap nat (conn K)) c : C !! i = Some c → omap handling C !! i = handling c.
Proof. intros Hi. by rewrite lookup_omap Hi. Qed.

(** A step of the server is a step of the pool, or none. *)
Lemma server_step_pool S ev S' A :
  server_step S ev S' → sim (server_pool S) A → answered_ok A →
  server_pool S' = server_pool S ∧ ev = None ∨
  ∃ ev', step (server_pool S) ev' (server_pool S') ∧ ev = wire_event <$> ev'.
Proof.
  intros Hs HS HA. destruct Hs as [i k s C Hi|i k junk parsed k' s C Hi Hjunk Hrec|i k ret k' s C Hi Hrec
    |i parsed p p' s s' C Hi Hadv|i parsed r msgs s C Hi Hresp]; unfold server_pool in *; cbn in *.
  - left. split; [|done]. f_equal. rewrite omap_insert_None // delete_id // lookup_omap Hi. done.
  - right. exists (Some (Called i parsed)). split; [|done].
    rewrite (omap_insert_Some _ _ _ _ (parsed, execute_request junk parsed)) //.
    apply step_call; [by rewrite (handling_Some _ _ _ Hi)|].
    destruct (receive_request_spec k) as [(? & ? & Heq)|[(? & ? & Heq & Hr & Hp)|[Heq _]]];
      rewrite Hrec in Heq; [done| |done]. by injection Heq as <- <-.
  - left. split; [|done]. f_equal. rewrite omap_delete delete_id // (handling_Some _ _ _ Hi). done.
  - right. exists None. split; [|done]. rewrite (omap_insert_Some _ _ _ _ (parsed, p')) //.
    eapply step_thread; [|exact Hadv]. by rewrite (handling_Some _ _ _ Hi).
  - right. exists (Some (Returned i parsed r)). split.
    + rewrite omap_delete. apply step_return. by rewrite (handling_Some _ _ _ Hi).
    + destruct (HA i parsed r) as (s1 & s2 & Hspec).
      { apply (sim_thread_status _ _ _ _ _ HS). cbn. by rewrite (handling_Some _ _ _ Hi). }
      rewrite (respond_spec _ _ _ _ Hspec) in Hresp. by injection Hresp as <-.
Qed.

Lemma server_sim t (s : state) tr S :
  fs_inv t s → runs server_step (mk_server s ∅) tr S →
  ∃ tr' A, runs atomic (mk_atom t ∅) tr' A ∧ tr = wire_event <$> tr' ∧ sim (server_pool S) A ∧ answered_ok A.
Proof.
  intros Hinv Hr. induction Hr as [|tr S1 ev S2 _ (tr' & A & HA & -> & HS & Hok) Hs].
  { exists [], (mk_atom t ∅). split_and!; [constructor|done| |done].
    unfold server_pool. cbn. rewrite omap_empty. by apply sim_start. }
  destruct (server_step_pool _ _ _ _ Hs HS Hok) as [[HP ->]|(ev' & Hstep & ->)].
  { exists tr', A. rewrite HP app_nil_r. done. }
  destruct (sim_step _ _ _ _ HS Hstep) as (A' & HA' & HS').
  exists (tr' ++ option_list ev'), A'. split_and!.
  - by eapply runs_trans.
  - by rewrite fmap_app wire_option.
  - exact HS'.
  - by eapply runs_answered.
Qed.

Lemma server_fault S A f :
  sim (server_pool S) A → answered_ok A → server_crashes S f → f = Uncaught out_of_range.
Proof.
  intros HS HA (i & c & Hi & Hc). destruct c as [k|parsed p].
  - destruct (receive_request_spec k) as [(? & ? & Heq)|[(? & ? & Heq & _)|[Heq _]]];
      rewrite Hc in Heq; [done|done|by injection Heq].
  - assert (p_threads (server_pool S) !! i = Some (parsed, p)) as HT.
    { cbn. by rewrite (handling_Some _ _ _ Hi). }
    destruct Hc as [Hadv|(r & -> & Hresp)].
    + by destruct (sim_no_fault _ _ _ _ _ f HS HT).
    + destruct (HA i parsed r) as (s1 & s2 & Hspec); [by apply (sim_thread_status _ _ _ _ _ HS)|].
      by rewrite (respond_spec _ _ _ _ Hspec) in Hresp.
Qed.
End server.

Section theorems.
Context {K D M : Type} {SK : Socket K} {SKL : SocketLaws K}.
Context {HD : Disk D} {HDL : DiskLaws D} {SM : SharedMutex M} {SML : SharedMutexLaws M}.
Context {O : Type} {SO : Sockets O} {SOL : SocketsLaws O}.

(** What is printed once a socket for [port] has been made: the port the operating
    system says it is bound to; or -1, as an unsigned number, if it does not say. *)
Definition port_printed (port : Z) (o : O) (printed : Z) : Prop :=
  let '(sockfd, o1) := server_connect port o in
  sockfd ≠ -1 ∧
  let '(r, addr) := os_getsockname sockfd o1 in
  if r =? -1 then printed = 2 ^ 32 - 1
  else printed = ntohs (sin_port addr) ∧ port_bound port printed.

Lemma main_starts argv port (o : O) t (s : fs_state D M) :
  main_port argv = Some port →
  formatted (disk s) t → free_disk_blocks s = [] → live (locks s) ∅ →
  (server_connect port o).1 = -1 ∧ (∃ o', main (K := K) argv o s = Done (Exits (-1), o')) ∨
  ∃ printed s0 o', main (K := K) argv o s = Done (Listening printed (mk_server s0 ∅), o') ∧
    port_printed port o printed ∧ fs_inv t s0.
Proof using HDL SML SOL.
  intros Hport Hf Hfree HL. unfold main. rewrite Hport.
  destruct (server_connect port o) as [sockfd o1] eqn:Hc.
  destruct (Z.eqb_spec sockfd (-1)) as [->|Hfd]; [left; by eauto|right].
  destruct (fs_init_run t s Hf Hfree HL) as (s0 & -> & _ & Hinv).
  unfold server_listen. destruct (os_listen sockfd (-1) o1) as [r o2].
  eexists _, s0, o2. split; [done|]. split; [|done].
  unfold port_printed. rewrite Hc get_port_number_spec. split; [done|].
  pose proof (server_connect_port _ _ _ _ Hc Hfd) as Hb.
  destruct (os_getsockname sockfd o1) as [r' addr]. cbn in Hb |- *.
  destruct (Z.eqb_spec r' (-1)) as [|Hr']; [done|]. specialize (Hb Hr').
  unfold to_uint32. rewrite Z.mod_small; [done|]. destruct Hb as [Hb _]. lia.
Qed.

End theorems.

(** ** A client *)

(** A connection that has sent a request, before the thread reads it. *)
Lemma ex_server_run (s : fs_state mem_disk holders) :
  runs server_step (mk_server s ∅) [Asked 0 ex_alice]
    (mk_server s (<[0%nat := Handling (K := bytes) ex_alice (execute_request ex_junk ex_alice)]> ∅)).
Proof.
  apply (runs_step _ _ [] (mk_server s (<[0%nat := Reading (wire ex_alice)]> ∅)) (Some (Asked 0 ex_alice))).
  - apply (runs_one _ _ None). by apply server_accept.
  - rewrite -(insert_insert_eq ∅ 0%nat (Handling _ _) (Reading (wire ex_alice))).
    apply (server_receive 0 (wire ex_alice) ex_junk ex_alice []);
      [by rewrite lookup_insert_eq|exact ex_junk_typed|].
    vm_compute. reflexivity.
Qed.

Definition no_address : sockaddr_in := mk_sockaddr 0 0 0.

Lemma ex_main_conns (s : fs_state mem_disk holders) printed S0 o' :
  main (K := bytes) ["server"; "8000"] no_address s = Done (Listening printed S0, o') →
  sv_conns S0 = ∅.
Proof.
  unfold main. change (main_port _) with (Some 8000). cbv iota.
  destruct (server_connect 8000 no_address) as [sockfd o1]. destruct (sockfd =? -1); [done|].
  destruct (run fs_init s) as [[u s']| |]; [intros [= _ <- _]|..]; done.
Qed.

