(* ===== verification/ThreadTypes.v ===== *)
(** * The data of the thread library

    managed_uc.h, cpu.h, mutex.h, cv.h and thread.h: the objects the library
    shares between CPUs, as one record [lib], and the accesses its code makes to
    them ([libop]).  A [managed_uc] is known by its address, which is never used
    twice; a [unique_ptr] is an address or null, so that a moved-from or swapped
    pointer is seen as null, and dereferencing null, an element of an empty deque
    or an object that does not exist is undefined behaviour ([None]). *)

From S2P Require Import Prelude CStd.

(** ** Objects *)

(** Address of a [managed_uc]; also names the thread that runs on it and the
    [shared_thread_info] allocated with it. *)
Abbreviation ctx := nat (only parsing).
Abbreviation cpu_id := nat (only parsing).
Abbreviation mutex_id := nat (only parsing).
Abbreviation cv_id := nat (only parsing).

(** [std::unique_ptr<managed_uc>] and a deque of them. *)
Abbreviation unique_ptr := (option ctx) (only parsing).
Abbreviation deque := (list (option ctx)) (only parsing).

(** managed_uc.h; the [ucontext_t] and the stack belong to the machine
    (ThreadMachine). *)
Record managed_uc := mk_managed_uc { id : Z }.

(** thread.h *)
Record shared_thread_info := mk_info { join_waiting_queue : deque; alive : bool }.

(** mutex.h *)
Record mutex := mk_mutex { waiting_queue : deque; owner : Z; free : bool }.

(** [mutex::mutex] *)
Definition new_mutex : mutex := mk_mutex [] 0 true.

(** cv.h: a condition variable is its queue. *)
Record cv := mk_cv { cv_waiting_queue : deque }.
Definition new_cv : cv := mk_cv [].

(** cpu.h: the members the library adds to [cpu].  The two pointers are behind a
    [shared_ptr] that no other object shares. *)
Record cpu := mk_cpu {
  my_goldfish : managed_uc;
  last_context : unique_ptr;
  to_kill : unique_ptr;
  is_idle : bool;
  cpu_num : Z }.

(** The static members of the classes and the objects on the heap.  A mutex or
    a condition variable that is not in the map has just been constructed. *)
Record lib := mk_lib {
  max_id : Z;
  next_ctx : ctx;
  contexts : gmap ctx managed_uc;
  cpu_vec : list cpu_id;
  ready_queue : deque;
  cpus : gmap cpu_id cpu;
  mutexes : gmap mutex_id mutex;
  cvs : gmap cv_id cv;
  infos : gmap ctx shared_thread_info }.

#[export] Instance managed_uc_eq_dec : EqDecision managed_uc.
Proof. solve_decision. Defined.
#[export] Instance mutex_eq_dec : EqDecision mutex.
Proof. solve_decision. Defined.
#[export] Instance cpu_eq_dec : EqDecision cpu.
Proof. solve_decision. Defined.

(** The state before any constructor has run; ids start at 1, 0 is reserved. *)
Definition lib_init : lib := mk_lib 1 0 ∅ [] [] ∅ ∅ ∅ ∅.

(** ** Reading and writing fields *)

Definition mutex_of (m : mutex_id) (d : lib) : mutex := default new_mutex (mutexes d !! m).
Definition cv_of (v : cv_id) (d : lib) : cv := default new_cv (cvs d !! v).

Definition with_ready (q : deque) (d : lib) : lib :=
  mk_lib (max_id d) (next_ctx d) (contexts d) (cpu_vec d) q (cpus d) (mutexes d)
    (cvs d) (infos d).
Definition with_mutex (m : mutex_id) (mu : mutex) (d : lib) : lib :=
  mk_lib (max_id d) (next_ctx d) (contexts d) (cpu_vec d) (ready_queue d) (cpus d)
    (<[m := mu]> (mutexes d)) (cvs d) (infos d).
Definition with_cv (v : cv_id) (cv : cv) (d : lib) : lib :=
  mk_lib (max_id d) (next_ctx d) (contexts d) (cpu_vec d) (ready_queue d) (cpus d)
    (mutexes d) (<[v := cv]> (cvs d)) (infos d).
Definition with_info (i : ctx) (si : shared_thread_info) (d : lib) : lib :=
  mk_lib (max_id d) (next_ctx d) (contexts d) (cpu_vec d) (ready_queue d) (cpus d)
    (mutexes d) (cvs d) (<[i := si]> (infos d)).
Definition with_cpu (c : cpu_id) (cp : cpu) (d : lib) : lib :=
  mk_lib (max_id d) (next_ctx d) (contexts d) (cpu_vec d) (ready_queue d)
    (<[c := cp]> (cpus d)) (mutexes d) (cvs d) (infos d).
Definition with_contexts (cs : gmap ctx managed_uc) (d : lib) : lib :=
  mk_lib (max_id d) (next_ctx d) cs (cpu_vec d) (ready_queue d) (cpus d) (mutexes d)
    (cvs d) (infos d).

(** The deque a function is passed by reference. *)
Inductive queue_ref :=
  | QReady
  | QMutex (m : mutex_id)
  | QCv (v : cv_id)
  | QJoin (i : ctx).

#[export] Instance queue_ref_eq_dec : EqDecision queue_ref.
Proof. solve_decision. Defined.

Definition get_queue (q : queue_ref) (d : lib) : option deque :=
  match q with
  | QReady => Some (ready_queue d)
  | QMutex m => Some (waiting_queue (mutex_of m d))
  | QCv v => Some (cv_waiting_queue (cv_of v d))
  | QJoin i => join_waiting_queue <$> infos d !! i
  end.

Definition set_queue (q : queue_ref) (l : deque) (d : lib) : lib :=
  match q with
  | QReady => with_ready l d
  | QMutex m => with_mutex m (mk_mutex l (owner (mutex_of m d)) (free (mutex_of m d))) d
  | QCv v => with_cv v (mk_cv l) d
  | QJoin i => match infos d !! i with
               | Some si => with_info i (mk_info l (alive si)) d
               | None => d
               end
  end.

(** ** Accesses *)

(** An access to shared objects: [None] is undefined behaviour. *)
Definition libop (R : Set) : Type := lib → option (R * lib).

Definition reads {R : Set} (f : lib → option R) : libop R :=
  λ d, (λ r, (r, d)) <$> f d.
Definition writes (f : lib → option lib) : libop unit :=
  λ d, (λ d', (tt, d')) <$> f d.

Definition set_last (l : unique_ptr) (cp : cpu) : cpu :=
  mk_cpu (my_goldfish cp) l (to_kill cp) (is_idle cp) (cpu_num cp).
Definition set_kill (l : unique_ptr) (cp : cpu) : cpu :=
  mk_cpu (my_goldfish cp) (last_context cp) l (is_idle cp) (cpu_num cp).
Definition set_idle (b : bool) (cp : cpu) : cpu :=
  mk_cpu (my_goldfish cp) (last_context cp) (to_kill cp) b (cpu_num cp).

(** [*(c->last_context)] *)
Definition read_last (c : cpu_id) : libop unique_ptr :=
  reads (λ d, last_context <$> cpus d !! c).

(** [&( *c->last_context)->uc]: the pointer is dereferenced. *)
Definition deref_last (c : cpu_id) : libop ctx :=
  reads (λ d, cpus d !! c ≫= last_context).

(** [( *c->last_context)->id] *)
Definition last_id (c : cpu_id) : libop Z :=
  reads (λ d, k ← cpus d !! c ≫= last_context; id <$> contexts d !! k).

Definition read_idle (c : cpu_id) : libop bool := reads (λ d, is_idle <$> cpus d !! c).
Definition write_idle (b : bool) (c : cpu_id) : libop unit :=
  writes (λ d, cp ← cpus d !! c; Some (with_cpu c (set_idle b cp) d)).

(** [q.push_back(std::move( *(c->last_context)))] *)
Definition push_back_last (q : queue_ref) (c : cpu_id) : libop unit :=
  writes (λ d,
    cp ← cpus d !! c;
    l ← get_queue q d;
    Some (with_cpu c (set_last None cp) (set_queue q (l ++ [last_context cp]) d))).

(** [c->last_context->swap(ready_queue.front())] *)
Definition swap_last_ready_front (c : cpu_id) : libop unit :=
  writes (λ d,
    cp ← cpus d !! c;
    match ready_queue d with
    | [] => None
    | x :: l => Some (with_cpu c (set_last x cp) (with_ready (last_context cp :: l) d))
    end).

Definition queue_empty (q : queue_ref) : libop bool :=
  reads (λ d, (λ l, bool_decide (l = [])) <$> get_queue q d).
Definition queue_size (q : queue_ref) : libop nat := reads (λ d, length <$> get_queue q d).

(** [q.front()] and [q.back()], which an empty deque does not have. *)
Definition queue_front (q : queue_ref) : libop unique_ptr :=
  reads (λ d, get_queue q d ≫= head).
(** [&q.back()->uc] *)
Definition deref_back (q : queue_ref) : libop ctx :=
  reads (λ d, l ← get_queue q d; x ← last l; x).

(** [q.pop_front()]; the element is destroyed with it. *)
Definition pop_front (q : queue_ref) : libop unique_ptr :=
  λ d, l ← get_queue q d;
       match l with
       | [] => None
       | x :: l => Some (x, set_queue q l d)
       end.

(** [q.front().release()] *)
Definition release_front (q : queue_ref) : libop unique_ptr :=
  λ d, l ← get_queue q d;
       match l with
       | [] => None
       | x :: l => Some (x, set_queue q (None :: l) d)
       end.

Definition push_back (q : queue_ref) (x : unique_ptr) : libop unit :=
  writes (λ d, l ← get_queue q d; Some (set_queue q (l ++ [x]) d)).

(** Element [n] of the queue, moved to the back of the ready queue. *)
Definition move_nth_to_ready (q : queue_ref) (n : nat) : libop unit :=
  writes (λ d,
    l ← get_queue q d;
    x ← l !! n;
    let d := set_queue q (<[n := None]> l) d in
    Some (with_ready (ready_queue d ++ [x]) d)).

Definition clear (q : queue_ref) : libop deque :=
  λ d, l ← get_queue q d; Some (l, set_queue q [] d).

(** [managed_uc::managed_uc]: the id is taken from an [unsigned int] counter,
    which wraps around. *)
Definition next_id (d : lib) : Z * lib :=
  (max_id d,
   mk_lib (to_uint32 (max_id d + 1)) (S (next_ctx d)) (contexts d) (cpu_vec d)
     (ready_queue d) (cpus d) (mutexes d) (cvs d) (infos d)).

(** [std::make_unique<managed_uc>()] *)
Definition make_context : libop ctx :=
  λ d, let k := next_ctx d in
       let '(i, d) := next_id d in
       Some (k, with_contexts (<[k := mk_managed_uc i]> (contexts d)) d).

(** [delete] of a [managed_uc]: it must exist. *)
Definition delete_context (k : ctx) : libop unit :=
  writes (λ d, _ ← contexts d !! k; Some (with_contexts (delete k (contexts d)) d)).

(** [make_shared<shared_thread_info>()] and [info->alive = true] *)
Definition make_info (k : ctx) : libop unit :=
  writes (λ d, Some (with_info k (mk_info [] true) d)).
Definition read_alive (i : ctx) : libop bool := reads (λ d, alive <$> infos d !! i).
Definition clear_alive (i : ctx) : libop unit :=
  writes (λ d, si ← infos d !! i; Some (with_info i (mk_info (join_waiting_queue si) false) d)).

(** The members of a mutex. *)
Definition read_free (m : mutex_id) : libop bool := reads (λ d, Some (free (mutex_of m d))).
Definition read_owner (m : mutex_id) : libop Z := reads (λ d, Some (owner (mutex_of m d))).
Definition write_free (m : mutex_id) (b : bool) : libop unit :=
  writes (λ d, let mu := mutex_of m d in
               Some (with_mutex m (mk_mutex (waiting_queue mu) (owner mu) b) d)).
Definition write_owner (m : mutex_id) (o : Z) : libop unit :=
  writes (λ d, let mu := mutex_of m d in
               Some (with_mutex m (mk_mutex (waiting_queue mu) o (free mu)) d)).

(** [to_kill.swap(last_context)] *)
Definition swap_kill_last (c : cpu_id) : libop unit :=
  writes (λ d, cp ← cpus d !! c;
               Some (with_cpu c (set_last (to_kill cp) (set_kill (last_context cp) cp)) d)).

(** The pointer [*(c->to_kill)] set to null; what it owned is the result. *)
Definition reset_kill (c : cpu_id) : libop unique_ptr :=
  λ d, cp ← cpus d !! c; Some (to_kill cp, with_cpu c (set_kill None cp) d).

(** The members of a new [cpu]: its goldfish, and the pointers, which are null. *)
Definition construct_cpu (c : cpu_id) : libop unit :=
  writes (λ d,
    let '(i, d) := next_id d in
    Some (with_cpu c (mk_cpu (mk_managed_uc i) None None false 0) d)).

(** [cpu_num = cpu_vec.size(); cpu_vec.push_back(this)] *)
Definition register_cpu (c : cpu_id) : libop unit :=
  writes (λ d,
    cp ← cpus d !! c;
    let d := with_cpu c (mk_cpu (my_goldfish cp) (last_context cp) (to_kill cp)
                           (is_idle cp) (Z.of_nat (length (cpu_vec d)))) d in
    Some (mk_lib (max_id d) (next_ctx d) (contexts d) (cpu_vec d ++ [c])
            (ready_queue d) (cpus d) (mutexes d) (cvs d) (infos d))).

(** [c->last_context->swap(x)]; what [last_context] held is the result. *)
Definition swap_last (c : cpu_id) (x : unique_ptr) : libop unique_ptr :=
  λ d, cp ← cpus d !! c; Some (last_context cp, with_cpu c (set_last x cp) d).

Definition read_cpu_vec : libop (list cpu_id) := reads (λ d, Some (cpu_vec d)).
