(* ===== verification/ThreadMonad.v ===== *)
(** * Programs of the thread library

    The code of the thread library is written as trees of the actions it performs
    on its CPU: accesses to the shared objects, the guard, the interrupts,
    [makecontext], [swapcontext] and [setcontext].  Nothing is said here of their
    meaning: ThreadMachine runs several CPUs, each on a program of its own, one
    action at a time.  The rest of a program is what [swapcontext] saves. *)

From Stdlib Require Import FunctionalExtensionality.
From S2P Require Import Prelude ThreadTypes.

(** ** Actions *)

(** The exceptions of the library. *)
Inductive exception :=
  | RuntimeError (what : string)
  | BadAlloc.

#[export] Instance exception_eq_dec : EqDecision exception.
Proof. solve_decision. Defined.

(** The context a [ucontext_t *] points into: a thread's or a CPU's goldfish. *)
Inductive uc_ref :=
  | Goldfish (c : cpu_id)
  | Uc (k : ctx).

#[export] Instance uc_ref_eq_dec : EqDecision uc_ref.
Proof. solve_decision. Defined.
#[export] Instance uc_ref_countable : Countable uc_ref.
Proof.
  refine (inj_countable'
    (λ u, match u with Goldfish c => inl c | Uc k => inr k end)
    (λ s, match s with inl c => Goldfish c | inr k => Uc k end) _).
  by intros [].
Defined.

(** What [makecontext] is given to run: [watch_suspend], or [wrapped_function]
    with the [shared_thread_info] of its thread. *)
Inductive entry :=
  | EWatchSuspend
  | EWrapped (i : ctx).

(** The operations of the library a thread may call, with their objects. *)
Inductive op :=
  | OCreate
  | OJoin (i : ctx)
  | OYield
  | OLock (m : mutex_id)
  | OUnlock (m : mutex_id)
  | OWait (v : cv_id) (m : mutex_id)
  | OSignal (v : cv_id)
  | OBroadcast (v : cv_id).

(** How they come back to their caller. *)
Inductive reply :=
  | RDone
  | RCreated (i : ctx)
  | RRaised (e : exception).

#[export] Instance op_eq_dec : EqDecision op.
Proof. solve_decision. Defined.
#[export] Instance reply_eq_dec : EqDecision reply.
Proof. solve_decision. Defined.

(** What a thread sees of the library. *)
Inductive event :=
  | ECall (o : op)
  | EReturn (o : op) (r : reply)
  | EFinish.

#[export] Instance event_eq_dec : EqDecision event.
Proof. solve_decision. Defined.

Inductive act : Set → Type :=
  | Self : act cpu_id
  | InterruptDisable : act unit
  | InterruptEnable : act unit
  | InterruptEnableSuspend : act unit
  | AssertInterruptsDisabled : act unit
  | InterruptSend (c : cpu_id) : act unit
  | GuardExchange (b : bool) : act bool
  | GuardStore (b : bool) : act unit
  | GuardLoad : act bool
  | Assert (b : bool) : act unit
  | Lib {R : Set} (f : libop R) : act R
  | Delete (k : ctx) : act unit
  | Alloc : act bool
  | MakeContext (u : uc_ref) (e : entry) : act unit
  | SwapContext (save load : uc_ref) : act unit
  | SetContext (load : uc_ref) : act unit
  | Func : act unit
  | Note (e : event) : act unit.

(** ** Programs *)

(** [Spin a p] is [while (a) ;] followed by [p]; [Forever p] is
    [while (true) { p }]. *)
Inductive prog (A : Type) : Type :=
  | Ret (a : A)
  | Throw (e : exception)
  | Act {R : Set} (a : act R) (k : R → prog A)
  | Spin (a : act bool) (p : prog A)
  | Forever (p : prog unit).
Arguments Ret {A}.
Arguments Throw {A}.
Arguments Act {A R}.
Arguments Spin {A}.
Arguments Forever {A}.

Fixpoint bind {A B} (p : prog A) (f : A → prog B) : prog B :=
  match p with
  | Ret a => f a
  | Throw e => Throw e
  | Act a k => Act a (λ r, bind (k r) f)
  | Spin a p => Spin a (bind p f)
  | Forever p => Forever p
  end.

(** [try { p } catch (e) { h e }]; the conditions of loops do not throw. *)
Fixpoint try_catch {A} (p : prog A) (h : exception → prog A) : prog A :=
  match p with
  | Ret a => Ret a
  | Throw e => h e
  | Act a k => Act a (λ r, try_catch (k r) h)
  | Spin a p => Spin a (try_catch p h)
  | Forever p => Forever p
  end.

Declare Scope thread_scope.
Delimit Scope thread_scope with thread.
Notation "x ← p ; q" := (bind p (λ x, q))
  (at level 20, p at level 100, q at level 200, only parsing) : thread_scope.
Notation "p ;; q" := (bind p (λ _, q))
  (at level 100, q at level 200, only parsing) : thread_scope.

Definition do {R : Set} (a : act R) : prog R := Act a Ret.
Definition lib_do {R : Set} (f : libop R) : prog R := do (Lib f).
Coercion lib_do : libop >-> prog.

(** The destructor of a [unique_ptr]. *)
Definition destroy (x : unique_ptr) : prog unit :=
  match x with
  | Some k => do (Delete k)
  | None => Ret tt
  end.

Definition is_null (x : unique_ptr) : bool := bool_decide (x = None).

Local Open Scope thread_scope.

(** A loop over a range known when it starts. *)
Fixpoint for_each {A} (l : list A) (f : A → prog unit) : prog unit :=
  match l with
  | [] => Ret tt
  | x :: l => f x ;; for_each l f
  end.

(** ** Laws *)

Lemma bind_assoc {A B C} (p : prog A) (f : A → prog B) (g : B → prog C) :
  bind (bind p f) g = bind p (λ x, bind (f x) g).
Proof.
  revert B C f g. induction p; intros B C f g; cbn; try done.
  - f_equal. apply functional_extensionality. naive_solver.
  - f_equal. naive_solver.
Qed.

Lemma bind_ret_r {A} (p : prog A) : bind p Ret = p.
Proof.
  induction p; cbn; try done; f_equal; [|done]. apply functional_extensionality. naive_solver.
Qed.

(** [handle p f h]: [p] followed by [f], or by [h] if it throws. *)
Fixpoint handle {A B} (p : prog A) (f : A → prog B) (h : exception → prog B) : prog B :=
  match p with
  | Ret a => f a
  | Throw e => h e
  | Act a k => Act a (λ r, handle (k r) f h)
  | Spin a p => Spin a (handle p f h)
  | Forever p => Forever p
  end.

Lemma handle_bind {A B C} (p : prog A) (f : A → prog B) (g : B → prog C) h :
  handle (bind p f) g h = handle p (λ x, handle (f x) g h) h.
Proof.
  revert B C f g h. induction p; intros B C f g h; cbn; try done.
  - f_equal. apply functional_extensionality. naive_solver.
  - f_equal. naive_solver.
Qed.

Lemma bind_handle {A B} (p : prog A) (f : A → prog B) : bind p f = handle p f Throw.
Proof.
  revert B f. induction p; intros B f; cbn; try done; f_equal; [|naive_solver].
  apply functional_extensionality. naive_solver.
Qed.

Lemma bind_try_catch {A B} (p : prog A) h (f : A → prog B) :
  bind (try_catch p h) f = handle p f (λ e, bind (h e) f).
Proof.
  revert B f. induction p; intros B f; cbn; try done.
  - f_equal. apply functional_extensionality. naive_solver.
  - f_equal. naive_solver.
Qed.

Lemma handle_try_catch {A B} (p : prog A) h (f : A → prog B) h' :
  handle (try_catch p h) f h' = handle p f (λ e, handle (h e) f h').
Proof.
  revert B f h'. induction p; intros B f h'; cbn; try done.
  - f_equal. apply functional_extensionality. naive_solver.
  - f_equal. naive_solver.
Qed.

(** Programs that do not throw. *)
Fixpoint nothrow {A} (p : prog A) : Prop :=
  match p with
  | Ret _ => True
  | Throw _ => False
  | Act _ k => ∀ r, nothrow (k r)
  | Spin _ p => nothrow p
  | Forever _ => True
  end.

Lemma handle_nothrow {A B} (p : prog A) (f : A → prog B) h :
  nothrow p → handle p f h = bind p f.
Proof.
  revert B f h. induction p; intros B f h Hp; cbn in *; try done.
  - f_equal. apply functional_extensionality. naive_solver.
  - f_equal. naive_solver.
Qed.

Lemma nothrow_bind {A B} (p : prog A) (f : A → prog B) :
  nothrow p → (∀ x, nothrow (f x)) → nothrow (bind p f).
Proof. revert B f. induction p; intros B f Hp Hf; cbn in *; naive_solver. Qed.

Lemma nothrow_for_each {A} (l : list A) (f : A → prog unit) :
  (∀ x, nothrow (f x)) → nothrow (for_each l f).
Proof. intros Hf. induction l; cbn; [done|]. by apply nothrow_bind. Qed.

Lemma nothrow_destroy x : nothrow (destroy x).
Proof. by destruct x. Qed.
