(* ===== verification/ThreadLib.v ===== *)
(** * The code of the thread library

    cpu.cpp, mutex.cpp, cv.cpp and thread.cpp, function by function and statement
    by statement, as programs of ThreadMonad.  [cpu::self()] is evaluated where
    the code evaluates it: after a [swapcontext] the rest of a function may run on
    another CPU.  Assertions that a [shared_ptr] of the CPU object is not null
    hold in the model by the type of the field. *)

From S2P Require Import Prelude ThreadTypes ThreadMonad.

Local Open Scope thread_scope.

(** ** cpu.cpp *)

Module Cpu.

Definition guard_lock : prog unit :=
  guard_state ← do (GuardExchange true);
  if guard_state then Spin (GuardExchange true) (Ret tt) else Ret tt.

Definition guard_unlock : prog unit := do (GuardStore false).

(** Put the running thread at the back of [queue] and run the next ready thread,
    or the goldfish. *)
Definition swap_self_to_queue (queue : queue_ref) : prog unit :=
  do AssertInterruptsDisabled ;;
  g ← do GuardLoad;
  do (Assert g) ;;
  c ← do Self;
  push_back_last queue c ;;
  c ← do Self;
  l ← read_last c;
  do (Assert (is_null l)) ;;
  e ← queue_empty QReady;
  if negb e then
    c ← do Self;
    swap_last_ready_front c ;;
    x ← pop_front QReady;
    destroy x ;;
    from ← deref_back queue;
    c ← do Self;
    to ← deref_last c;
    do (SwapContext (Uc from) (Uc to))
  else
    from ← deref_back queue;
    c ← do Self;
    do (SwapContext (Uc from) (Goldfish c)).

(** One iteration of the loop of [watch_suspend]. *)
Definition watch_suspend_body : prog unit :=
  do AssertInterruptsDisabled ;;
  g ← do GuardLoad;
  do (Assert g) ;;
  c ← do Self;
  x ← reset_kill c;
  destroy x ;;
  c ← do Self;
  l ← read_last c;
  do (Assert (is_null l)) ;;
  e ← queue_empty QReady;
  if negb e then
    c ← do Self;
    swap_last_ready_front c ;;
    x ← queue_front QReady;
    do (Assert (is_null x)) ;;
    c ← do Self;
    l ← read_last c;
    do (Assert (negb (is_null l))) ;;
    x ← pop_front QReady;
    destroy x ;;
    c ← do Self;
    to ← deref_last c;
    do (SwapContext (Goldfish c) (Uc to))
  else
    c ← do Self;
    write_idle true c ;;
    guard_unlock ;;
    do InterruptEnableSuspend ;;
    do InterruptDisable ;;
    guard_lock.

Definition watch_suspend : prog unit := Forever watch_suspend_body.

(** The loop of [check_ready_and_wake] from an iterator into [cpu_vec]. *)
Fixpoint wake_from (it : list nat) (unhandled_threads : nat) : prog unit :=
  match it, unhandled_threads with
  | [], _ | _, O => Ret tt
  | c :: it, S n =>
      idle ← read_idle c;
      if idle : bool then
        write_idle false c ;;
        do (InterruptSend c) ;;
        wake_from it n
      else wake_from it (S n)
  end.

Definition check_ready_and_wake : prog unit :=
  do AssertInterruptsDisabled ;;
  g ← do GuardLoad;
  do (Assert g) ;;
  unhandled_threads ← queue_size QReady;
  cpus ← read_cpu_vec;
  wake_from cpus unhandled_threads.

(** [add_to_ready_queue] of a context: what is left of the argument is the
    result. *)
Definition add_to_ready_queue (context : unique_ptr) : prog unique_ptr :=
  push_back QReady context ;;
  check_ready_and_wake ;;
  Ret None.

(** [add_to_ready_queue] of a deque. *)
Definition add_all_to_ready_queue (contexts : queue_ref) : prog unit :=
  n ← queue_size contexts;
  for_each (seq 0 n) (λ i, lib_do (move_nth_to_ready contexts i)) ;;
  old ← clear contexts;
  for_each old destroy ;;
  check_ready_and_wake.

(** Preemption: the handler of timer interrupts. *)
Definition timer_interrupt_handler : prog unit :=
  do InterruptDisable ;;
  guard_lock ;;
  c ← do Self;
  idle ← read_idle c;
  (if negb idle : bool then
     c ← do Self;
     l ← read_last c;
     if negb (is_null l) then
       c ← do Self;
       l ← read_last c;
       do (Assert (negb (is_null l))) ;;
       e ← queue_empty QReady;
       if negb e then swap_self_to_queue QReady else Ret tt
     else Ret tt
   else Ret tt) ;;
  guard_unlock ;;
  do InterruptEnable.

(** The handler of inter-processor interrupts. *)
Definition ipi_handler : prog unit := Ret tt.

End Cpu.

(** ** mutex.cpp *)

Module Mutex.
Import Cpu.

Definition lock (m : mutex_id) : prog unit :=
  do InterruptDisable ;;
  guard_lock ;;
  f ← read_free m;
  (if negb f then swap_self_to_queue (QMutex m)
   else lib_do (write_free m false)) ;;
  c ← do Self;
  i ← last_id c;
  write_owner m i ;;
  guard_unlock ;;
  do InterruptEnable.

(** Raise an exception after leaving the critical section. *)
Definition unlock_and_throw {A} (e : exception) : prog A :=
  guard_unlock ;;
  do InterruptEnable ;;
  Throw e.

Definition release_lock (m : mutex_id) : prog unit :=
  f ← read_free m;
  if f : bool then unlock_and_throw (RuntimeError "Attempted to unlock already free lock")
  else
    c ← do Self;
    i ← last_id c;
    o ← read_owner m;
    if negb (i =? o) then
      unlock_and_throw (RuntimeError "Attempted to free other thread's lock")
    else
      write_free m true ;;
      write_owner m 0 ;;
      e ← queue_empty (QMutex m);
      if negb e then
        next_ready_context ← release_front (QMutex m);
        x ← pop_front (QMutex m);
        destroy x ;;
        write_free m false ;;
        next_ready_context ← add_to_ready_queue next_ready_context;
        destroy next_ready_context
      else Ret tt.

Definition unlock (m : mutex_id) : prog unit :=
  do InterruptDisable ;;
  guard_lock ;;
  release_lock m ;;
  guard_unlock ;;
  do InterruptEnable.

End Mutex.

(** ** cv.cpp *)

Module Cv.
Import Cpu.

Definition wait (v : cv_id) (m : mutex_id) : prog unit :=
  do InterruptDisable ;;
  guard_lock ;;
  Mutex.release_lock m ;;
  swap_self_to_queue (QCv v) ;;
  guard_unlock ;;
  do InterruptEnable ;;
  Mutex.lock m.

Definition signal (v : cv_id) : prog unit :=
  do InterruptDisable ;;
  guard_lock ;;
  e ← queue_empty (QCv v);
  (if negb e then
     next_ready_context ← release_front (QCv v);
     x ← pop_front (QCv v);
     destroy x ;;
     next_ready_context ← add_to_ready_queue next_ready_context;
     destroy next_ready_context
   else Ret tt) ;;
  guard_unlock ;;
  do InterruptEnable.

Definition broadcast (v : cv_id) : prog unit :=
  do InterruptDisable ;;
  guard_lock ;;
  add_all_to_ready_queue (QCv v) ;;
  guard_unlock ;;
  do InterruptEnable.

End Cv.

(** ** thread.cpp *)

Module Thread.
Import Cpu.

(** What every thread runs; the calls of [func] are the machine's. *)
Definition wrapped_function (shared_data : ctx) : prog unit :=
  guard_unlock ;;
  do InterruptEnable ;;
  do Func ;;
  do InterruptDisable ;;
  guard_lock ;;
  clear_alive shared_data ;;
  add_all_to_ready_queue (QJoin shared_data) ;;
  c ← do Self;
  x ← reset_kill c;
  destroy x ;;
  c ← do Self;
  swap_kill_last c ;;
  e ← queue_empty QReady;
  if negb e then
    c ← do Self;
    swap_last_ready_front c ;;
    x ← queue_front QReady;
    do (Assert (is_null x)) ;;
    x ← pop_front QReady;
    destroy x ;;
    c ← do Self;
    to ← deref_last c;
    do (SetContext (Uc to))
  else
    c ← do Self;
    do (SetContext (Goldfish c)).

(** An allocation that fails destroys the context made so far and throws. *)
Definition alloc_or_throw (context : unique_ptr) : prog unit :=
  ok ← do Alloc;
  if ok : bool then Ret tt else destroy context ;; Throw BadAlloc.

Definition construct_thread : prog ctx :=
  try_catch
    (alloc_or_throw None ;;
     context ← make_context;
     alloc_or_throw (Some context) ;;
     make_info context ;;
     alloc_or_throw (Some context) ;;
     do (MakeContext (Uc context) (EWrapped context)) ;;
     x ← add_to_ready_queue (Some context);
     do (Assert (is_null x)) ;;
     Ret context)
    (λ e, guard_unlock ;; do InterruptEnable ;; Throw e).

(** The constructor applications call. *)
Definition thread : prog ctx :=
  do InterruptDisable ;;
  guard_lock ;;
  t ← construct_thread;
  guard_unlock ;;
  do InterruptEnable ;;
  Ret t.

(** The constructor used while the guard is held. *)
Definition thread_locked : prog ctx :=
  g ← do GuardLoad;
  do (Assert g) ;;
  do AssertInterruptsDisabled ;;
  construct_thread.

Definition join (info : ctx) : prog unit :=
  do InterruptDisable ;;
  guard_lock ;;
  a ← read_alive info;
  (if a : bool then swap_self_to_queue (QJoin info) else Ret tt) ;;
  guard_unlock ;;
  do InterruptEnable.

Definition yield : prog unit :=
  do InterruptDisable ;;
  guard_lock ;;
  e ← queue_empty QReady;
  (if negb e then swap_self_to_queue QReady else Ret tt) ;;
  guard_unlock ;;
  do InterruptEnable.

End Thread.

(** ** cpu.cpp: the constructor *)

Module Boot.
Import Cpu.

(** [cpu::cpu(func, arg)]: [func] tells whether there is one. *)
Definition cpu_constructor (func : bool) : prog unit :=
  guard_lock ;;
  c ← do Self;
  construct_cpu c ;;
  do (MakeContext (Goldfish c) EWatchSuspend) ;;
  register_cpu c ;;
  if func then
    Thread.thread_locked ;;
    c ← do Self;
    write_idle false c ;;
    to_run ← release_front QReady;
    do (Assert (negb (is_null to_run))) ;;
    x ← pop_front QReady;
    destroy x ;;
    c ← do Self;
    swap_last c to_run ;;
    c ← do Self;
    to ← deref_last c;
    do (SetContext (Uc to))
  else
    write_idle true c ;;
    do (SetContext (Goldfish c)).

End Boot.

(** ** Entry points *)

(** What a context made by [makecontext] starts with. *)
Definition entry_prog (e : entry) : prog unit :=
  match e with
  | EWatchSuspend => Cpu.watch_suspend
  | EWrapped i => Thread.wrapped_function i
  end.

(** A call of the library by a thread. *)
Definition op_prog (o : op) : prog reply :=
  match o with
  | OCreate => t ← Thread.thread; Ret (RCreated t)
  | OJoin i => Thread.join i ;; Ret RDone
  | OYield => Thread.yield ;; Ret RDone
  | OLock m => Mutex.lock m ;; Ret RDone
  | OUnlock m => Mutex.unlock m ;; Ret RDone
  | OWait v m => Cv.wait v m ;; Ret RDone
  | OSignal v => Cv.signal v ;; Ret RDone
  | OBroadcast v => Cv.broadcast v ;; Ret RDone
  end.

(** The call as its caller sees it, exceptions included. *)
Definition call_prog (o : op) : prog unit :=
  r ← try_catch (op_prog o) (λ e, Ret (RRaised e));
  do (Note (EReturn o r)).
