(* ===== verification/ThreadMachine.v ===== *)
(** * The machine the thread library runs on

    Several CPUs, each with the program it is running, the stack it runs on, its
    interrupt flag and whether an inter-processor interrupt is pending, share the
    objects of the library, the guard and the saved contexts.  [step] performs one
    action of one CPU, the delivery of an interrupt, or a move of the client (any
    thread may call any operation of the library, or end); it is the documented
    behaviour of cpu.h and of the [ucontext] functions.  The client is the most
    general one: every interleaving of every program is a sequence of labels.

    The guard is an atomic [bool]; the machine records who set it, and the
    history of each thread, so that theorems can speak of them. *)

From S2P Require Import Prelude ThreadTypes ThreadMonad ThreadLib.


(** The stack a CPU runs on: the one its constructor was called on, or that of a
    [managed_uc]. *)
Inductive stack_ref := SBoot | SUc (u : uc_ref).

#[export] Instance stack_ref_eq_dec : EqDecision stack_ref.
Proof. solve_decision. Defined.

Record hwcpu := mk_hwcpu {
  code : prog unit;
  stack : stack_ref;
  ints : bool;
  ipi : bool }.

Record machine := mk_machine {
  data : lib;
  guard : option cpu_id;
  hws : gmap cpu_id hwcpu;
  ucs : gmap uc_ref (prog unit);
  logs : gmap ctx (list event) }.

(** What stops the machine; none of it may happen. *)
Inductive fault :=
  | AssertionFailed      (** an [assert] of the sources *)
  | UndefinedBehaviour   (** null or dangling pointer, element of an empty deque *)
  | DataRace             (** shared data without the guard, or interrupts enabled *)
  | GuardMisuse          (** unlocked by another CPU, or locked twice by one *)
  | SwitchInvariant      (** a switch without the guard *)
  | DeadContext          (** a switch to or from a context that does not exist *)
  | StackInUse           (** deletion of the stack of a CPU *)
  | FellOff.             (** a context's function returns, or an exception escapes *)

#[export] Instance fault_eq_dec : EqDecision fault.
Proof. solve_decision. Defined.

(** The result of a step. *)
Inductive outcome := Next (s : machine) | Fault (f : fault).

(** What happens next. *)
Inductive label :=
  | LRun (c : cpu_id)             (** one action of CPU [c] *)
  | LOom (c : cpu_id)             (** its allocation fails *)
  | LTimer (c : cpu_id)           (** a timer interrupt *)
  | LIpi (c : cpu_id)             (** the pending inter-processor interrupt *)
  | LCall (c : cpu_id) (o : op)   (** its thread calls the library *)
  | LFinish (c : cpu_id).         (** the function of its thread returns *)

#[export] Instance label_eq_dec : EqDecision label.
Proof. solve_decision. Defined.

(** ** Auxiliary functions *)

Definition with_data (d : lib) (s : machine) : machine :=
  mk_machine d (guard s) (hws s) (ucs s) (logs s).
Definition with_guard (g : option cpu_id) (s : machine) : machine :=
  mk_machine (data s) g (hws s) (ucs s) (logs s).
Definition with_hw (c : cpu_id) (h : hwcpu) (s : machine) : machine :=
  mk_machine (data s) (guard s) (<[c := h]> (hws s)) (ucs s) (logs s).
Definition with_uc (u : uc_ref) (p : prog unit) (s : machine) : machine :=
  mk_machine (data s) (guard s) (hws s) (<[u := p]> (ucs s)) (logs s).
Definition log_event (k : ctx) (e : event) (s : machine) : machine :=
  mk_machine (data s) (guard s) (hws s) (ucs s)
    (<[k := default [] (logs s !! k) ++ [e]]> (logs s)).

Definition set_code (p : prog unit) (h : hwcpu) : hwcpu :=
  mk_hwcpu p (stack h) (ints h) (ipi h).
Definition set_ints (b : bool) (h : hwcpu) : hwcpu :=
  mk_hwcpu (code h) (stack h) b (ipi h).
Definition set_ipi (b : bool) (h : hwcpu) : hwcpu :=
  mk_hwcpu (code h) (stack h) (ints h) b.
Definition set_stack (st : stack_ref) (h : hwcpu) : hwcpu :=
  mk_hwcpu (code h) st (ints h) (ipi h).

(** The thread CPU [h] is running. *)
Definition thread_of (h : hwcpu) : option ctx :=
  match stack h with SUc (Uc k) => Some k | _ => None end.

(** A [managed_uc] that exists. *)
Definition uc_live (u : uc_ref) (d : lib) : bool :=
  match u with
  | Uc k => bool_decide (is_Some (contexts d !! k))
  | Goldfish c => bool_decide (is_Some (cpus d !! c))
  end.

Definition on_stack (u : uc_ref) (s : machine) : bool :=
  bool_decide (map_Exists (λ _ h, stack h = SUc u) (hws s)).

(** CPU [c] may use the data the guard protects. *)
Definition protected (c : cpu_id) (h : hwcpu) (s : machine) : bool :=
  bool_decide (guard s = Some c) && negb (ints h).

(** The CPU goes on with program [p], in state [s]. *)
Definition go (c : cpu_id) (h : hwcpu) (p : prog unit) (s : machine) : option outcome :=
  Some (Next (with_hw c (set_code p h) s)).

(** The CPU leaves its stack for the context [u]. *)
Definition switch_to (c : cpu_id) (h : hwcpu) (u : uc_ref) (s : machine) : option outcome :=
  if negb (protected c h s) then Some (Fault SwitchInvariant)
  else if negb (uc_live u (data s)) then Some (Fault DeadContext)
  else match ucs s !! u with
       | None => Some (Fault DeadContext)
       | Some p => go c (set_stack (SUc u) h) p s
       end.

(** ** One action *)

(** Action [a] of CPU [c], in state [h], whose program goes on with [k]; [None]
    when the CPU has to wait. *)
Definition step_act {R : Set} (c : cpu_id) (h : hwcpu) (oom : bool) (a : act R)
    : (R → prog unit) → machine → option outcome :=
  match a in act R return (R → prog unit) → machine → option outcome with
  | Self => λ k s, go c h (k c) s
  | InterruptDisable => λ k s, go c (set_ints false h) (k tt) s
  | InterruptEnable => λ k s, go c (set_ints true h) (k tt) s
  | InterruptEnableSuspend => λ k s,
      if ipi h then go c (set_ipi false (set_ints true h)) (Cpu.ipi_handler ;; k tt)%thread s
      else None
  | AssertInterruptsDisabled => λ k s,
      if ints h then Some (Fault AssertionFailed) else go c h (k tt) s
  | InterruptSend c' => λ k s,
      match hws s !! c' with
      | None => Some (Fault UndefinedBehaviour)
      | Some _ =>
          (* the other CPU may be this one *)
          let s := with_hw c (set_code (k tt) h) s in
          Some (Next (mk_machine (data s) (guard s) (alter (set_ipi true) c' (hws s))
                        (ucs s) (logs s)))
      end
  | GuardExchange b => λ k s,
      match guard s with
      | Some c' => if decide (c' = c) then Some (Fault GuardMisuse) else go c h (k true) s
      | None => go c h (k false) (if b then with_guard (Some c) s else s)
      end
  | GuardStore b => λ k s,
      if decide (guard s = Some c)
      then go c h (k tt) (if b then s else with_guard None s)
      else Some (Fault GuardMisuse)
  | GuardLoad => λ k s, go c h (k (bool_decide (is_Some (guard s)))) s
  | Assert b => λ k s, if b : bool then go c h (k tt) s else Some (Fault AssertionFailed)
  | Lib f => λ k s,
      if negb (protected c h s) then Some (Fault DataRace)
      else match f (data s) with
           | None => Some (Fault UndefinedBehaviour)
           | Some (r, d) => go c h (k r) (with_data d s)
           end
  | Delete u => λ k s,
      if negb (protected c h s) then Some (Fault DataRace)
      else if on_stack (Uc u) s then Some (Fault StackInUse)
      else match delete_context u (data s) with
           | None => Some (Fault UndefinedBehaviour)
           | Some (_, d) => go c h (k tt) (with_data d s)
           end
  | Alloc => λ k s, go c h (k (negb oom)) s
  | MakeContext u e => λ k s,
      if negb (uc_live u (data s)) then Some (Fault DeadContext)
      else go c h (k tt) (with_uc u (entry_prog e) s)
  | SwapContext u v => λ k s,
      if negb (uc_live u (data s) && bool_decide (stack h = SUc u))
      then Some (Fault DeadContext)
      else switch_to c h v (with_uc u (k tt) s)
  | SetContext u => λ k s, switch_to c h u s
  | Func => λ _ _, None
  | Note e => λ k s,
      go c h (k tt) (match thread_of h with Some u => log_event u e s | None => s end)
  end.

(** One action of CPU [c]. *)
Definition step_cpu (c : cpu_id) (oom : bool) (s : machine) : option outcome :=
  h ← hws s !! c;
  match code h with
  | Ret _ | Throw _ => Some (Fault FellOff)
  | Act a k => step_act c h oom a k s
  | Spin a p => step_act c h oom a (λ b : bool, if b then Spin a p else p) s
  | Forever p => go c h (p ;; Forever p)%thread s
  end.

(** The allocations of the boot succeed. *)
Definition may_fail (h : hwcpu) : bool :=
  match code h, stack h with
  | Act Alloc _, SUc _ => true
  | _, _ => false
  end.

(** What the client of a thread does next. *)
Definition at_func (h : hwcpu) : bool :=
  match code h, stack h with
  | Act Func _, SUc (Uc _) => true
  | _, _ => false
  end.

(** A thread object that exists. *)
Definition callable (o : op) (d : lib) : bool :=
  match o with
  | OJoin i => bool_decide (is_Some (infos d !! i))
  | _ => true
  end.

Definition after_func (p : prog unit) : prog unit :=
  match p with
  | Act a k => match a in act R return (R → prog unit) → prog unit with
               | Func => λ k, k tt
               | _ => λ _, p
               end k
  | _ => p
  end.

Definition step (l : label) (s : machine) : option outcome :=
  match l with
  | LRun c => step_cpu c false s
  | LOom c => h ← hws s !! c; if may_fail h then step_cpu c true s else None
  | LTimer c =>
      h ← hws s !! c;
      if ints h then go c h (Cpu.timer_interrupt_handler ;; code h)%thread s else None
  | LIpi c =>
      h ← hws s !! c;
      if ints h && ipi h
      then go c (set_ipi false h) (Cpu.ipi_handler ;; code h)%thread s
      else None
  | LCall c o =>
      h ← hws s !! c;
      u ← thread_of h;
      if at_func h && callable o (data s)
      then go c h (call_prog o ;; code h)%thread (log_event u (ECall o) s)
      else None
  | LFinish c =>
      h ← hws s !! c;
      u ← thread_of h;
      if at_func h then go c h (after_func (code h)) (log_event u EFinish s) else None
  end.

(** ** Runs *)

(** [cpu::boot]: [n] CPUs, the first of which has the function to run. *)
Definition boot (n : nat) : machine :=
  mk_machine lib_init None
    (list_to_map ((λ c, (c, mk_hwcpu (Boot.cpu_constructor (bool_decide (c = 0%nat)))
                              SBoot false false)) <$> seq 0 n))
    ∅ ∅.

(** Run a schedule; [None] when a label of it is not enabled. *)
Fixpoint run (ls : list label) (s : machine) : option outcome :=
  match ls with
  | [] => Some (Next s)
  | l :: ls => o ← step l s;
               match o with
               | Next s => run ls s
               | Fault f => Some (Fault f)
               end
  end.

(** The states of the runs of [n] CPUs whose steps all satisfy [P]. *)
Inductive reachable (P : machine → label → Prop) (n : nat) : machine → Prop :=
  | reach_boot : reachable P n (boot n)
  | reach_step s l s' :
      reachable P n s → P s l → step l s = Some (Next s') → reachable P n s'.
