(* ===== verification/ThreadInv.v ===== *)
(** * The invariant of the thread library

    What holds of the shared objects whenever the guard is free, and what a CPU
    may assume and must restore.  The proof state of the machine is annotated with
    where each context is ([place]) and which mutexes its thread has; [lib_ok]
    relates the annotations to the objects.  Everything here is a definition or a
    consequence of the definitions; ThreadLogic proves programs against it. *)

From stdpp Require Import fin_sets.
From S2P Require Import Prelude CStd ThreadTypes ThreadMonad ThreadLib ThreadMachine.

(** ** Observations of the shared objects *)

Definition queue_of (q : queue_ref) (d : lib) : deque := default [] (get_queue q d).
Definition last_of (c : cpu_id) (d : lib) : unique_ptr := cpus d !! c ≫= last_context.
Definition kill_of (c : cpu_id) (d : lib) : unique_ptr := cpus d !! c ≫= to_kill.
Definition idle_of (c : cpu_id) (d : lib) : bool :=
  from_option is_idle false (cpus d !! c).

(** The id of the context at address [k]. *)
Definition id_of (k : ctx) : Z := to_uint32 (1 + Z.of_nat k).

(** Fewer contexts have been made than an [unsigned int] counts. *)
Definition no_wrap (d : lib) : Prop := Z.of_nat (next_ctx d) < 2 ^ 32 - 1.

(** ** Annotations *)

(** What a waiting context does when it is resumed: finish [mutex::lock], leave
    [thread::join] knowing that thread [i] has ended, or leave the library. *)
Inductive phase := PLock (m : mutex_id) | PJoin (i : ctx) | PPlain.

(** Where a context is: in a queue, on a CPU, finished and waiting for its stack
    to be freed, being made, or freed. *)
Inductive place :=
  | InQ (q : queue_ref) (φ : phase)
  | Running (c : cpu_id) (φ : phase)
  | ToKill (c : cpu_id)
  | Made
  | Dead.

#[export] Instance phase_eq_dec : EqDecision phase.
Proof. solve_decision. Defined.
#[export] Instance place_eq_dec : EqDecision place.
Proof. solve_decision. Defined.

Record gctx := GCtx { g_place : place; g_holds : gset mutex_id }.
Abbreviation ghost := (gmap ctx gctx).

Definition place_of (g : ghost) (k : ctx) : option place := g_place <$> g !! k.
Definition set_place (k : ctx) (p : place) (g : ghost) : ghost :=
  alter (λ gc, GCtx p (g_holds gc)) k g.
Definition set_holds (k : ctx) (hs : gset mutex_id) (g : ghost) : ghost :=
  alter (λ gc, GCtx (g_place gc) hs) k g.

(** The threads waiting in a mutex resume in [lock], those waiting for a thread in
    [join]; when they are made ready they keep their phase. *)
Definition phase_ok (q : queue_ref) (φ : phase) : Prop :=
  match q with
  | QReady => True
  | QMutex m => φ = PLock m
  | QJoin i => φ = PJoin i
  | QCv _ => φ = PPlain
  end.

Definition phase_of (p : place) : option phase :=
  match p with
  | InQ _ φ | Running _ φ => Some φ
  | Made => Some PPlain
  | ToKill _ | Dead => None
  end.

(** A context whose saved program runs when it is resumed. *)
Definition saved_place (p : place) (φ : phase) : Prop :=
  match p with
  | InQ _ φ' => φ = φ'
  | Made => φ = PPlain
  | _ => False
  end.

(** A context that exists outside its making has an owner. *)
Definition live_place (p : place) : Prop :=
  match p with Made | Dead => False | _ => True end.

(** Thread [k] was given mutex [m] and has not come back from [lock] yet. *)
Definition handed (g : ghost) (k : ctx) (m : mutex_id) : Prop :=
  place_of g k = Some (InQ QReady (PLock m)) ∨
  ∃ c, place_of g k = Some (Running c (PLock m)).

(** Thread [k] was woken from its [join] of thread [i]. *)
Definition joined (g : ghost) (k i : ctx) : Prop :=
  place_of g k = Some (InQ QReady (PJoin i)) ∨
  ∃ c, place_of g k = Some (Running c (PJoin i)).

Definition finished (d : lib) (i : ctx) : Prop :=
  ∃ si, infos d !! i = Some si ∧ alive si = false.

(** ** The parts of the invariant *)

(** Each context is in exactly the place its annotation tells, and exists until
    it is freed. *)
Record loc_ok (d : lib) (g : ghost) : Prop := {
  lo_queue q : ∃ ks, queue_of q d = Some <$> ks ∧ NoDup ks ∧
                     ∀ k, k ∈ ks ↔ ∃ φ, place_of g k = Some (InQ q φ);
  lo_last c k : last_of c d = Some k ↔ ∃ φ, place_of g k = Some (Running c φ);
  lo_kill c k : kill_of c d = Some k ↔ place_of g k = Some (ToKill c);
  lo_live k : is_Some (contexts d !! k) ↔ ∃ p, place_of g k = Some p ∧ live_place p;
  lo_phase k q φ : place_of g k = Some (InQ q φ) → phase_ok q φ }.

Record ids_ok (d : lib) (g : ghost) : Prop := {
  io_next : max_id d = to_uint32 (1 + Z.of_nat (next_ctx d));
  io_id k u : contexts d !! k = Some u → id u = id_of k;
  io_ctx k : is_Some (contexts d !! k) → (k < next_ctx d)%nat;
  io_ghost k : is_Some (g !! k) → (k < next_ctx d)%nat;
  io_info k : is_Some (infos d !! k) → (k < next_ctx d)%nat;
  io_thread k : is_Some (g !! k) → is_Some (infos d !! k) }.

(** A free mutex has no waiter and no owner; a mutex that is handed over has no
    owner yet and goes to one thread; otherwise its owner's thread has it.  Owners
    are among the [N] contexts made so far. *)
Record mutex_ok (N : nat) (g : ghost) (m : mutex_id) (mu : mutex) : Prop := {
  mo_owner : owner mu = 0 ∨ ∃ k, (k < N)%nat ∧ owner mu = id_of k;
  mo_free : free mu = true → waiting_queue mu = [] ∧ owner mu = 0;
  mo_handed k : handed g k m → free mu = false ∧ owner mu = 0;
  mo_unique k k' : handed g k m → handed g k' m → k = k';
  mo_holds k gc : g !! k = Some gc →
                  (m ∈ g_holds gc ↔ free mu = false ∧ owner mu = id_of k) }.

Definition mutexes_ok (d : lib) (g : ghost) : Prop :=
  no_wrap d → ∀ m, mutex_ok (next_ctx d) g m (mutex_of m d).

(** The CPUs other than [own] run what their stack tells. *)
Record cpus_ok (own : option cpu_id) (d : lib) (g : ghost) (stk : gmap cpu_id stack_ref)
    : Prop := {
  co_nodup : NoDup (cpu_vec d);
  co_vec c : c ∈ cpu_vec d ↔ is_Some (cpus d !! c);
  co_dom c : is_Some (cpus d !! c) → is_Some (stk !! c);
  co_stack c st : stk !! c = Some st → own ≠ Some c →
    match st with
    | SBoot => cpus d !! c = None
    | SUc (Goldfish c') => c' = c ∧ is_Some (cpus d !! c) ∧ last_of c d = None
    | SUc (Uc k) => last_of c d = Some k ∧ place_of g k = Some (Running c PPlain)
    end }.

(** While CPUs boot no thread is ready, but the one a booting CPU has made to run
    itself. *)
Definition boot_ready (own : option cpu_id) (d : lib) (stk : gmap cpu_id stack_ref) : Prop :=
  ready_queue d = [] ∨
  ∃ c k, own = Some c ∧ ready_queue d = [Some k] ∧ stk !! c = Some (SUc (Uc k)).

(** Work conservation, for runs in which no thread is created while a CPU has
    still to boot: the idle CPUs are asleep on their goldfish, those of them that
    have been woken are [sig], and while a CPU is idle there are no more ready
    threads than CPUs on their way. *)
Record work_ok (own : option cpu_id) (e : nat) (d : lib) (g : ghost)
    (stk : gmap cpu_id stack_ref) (sig : gset cpu_id) : Prop := {
  wo_idle c : own ≠ Some c → idle_of c d = true → stk !! c = Some (SUc (Goldfish c));
  wo_sig c : own ≠ Some c →
    (c ∈ sig ↔ stk !! c = Some (SUc (Goldfish c)) ∧ idle_of c d = false);
  wo_own c : own = Some c → c ∉ sig;
  wo_ready c : idle_of c d = true → (length (ready_queue d) ≤ base.size sig + e)%nat;
  wo_boot c : stk !! c = Some SBoot →
    boot_ready own d stk ∧ ∀ k k', is_Some (g !! k) → is_Some (g !! k') → k = k';
  wo_main : stk !! 0%nat = Some SBoot → g = ∅ }.

(** What the running CPU knows. *)
Record view := View {
  v_lib : lib;
  v_g : ghost;
  v_stk : gmap cpu_id stack_ref;
  v_sig : gset cpu_id;
  v_gold : gset cpu_id }.

Definition v_with_lib (d : lib) (v : view) : view :=
  View d (v_g v) (v_stk v) (v_sig v) (v_gold v).
Definition v_with_g (g : ghost) (v : view) : view :=
  View (v_lib v) g (v_stk v) (v_sig v) (v_gold v).
Definition v_with_stk (c : cpu_id) (st : stack_ref) (v : view) : view :=
  View (v_lib v) (v_g v) (<[c := st]> (v_stk v)) (v_sig v) (v_gold v).
Definition v_with_sig (sig : gset cpu_id) (v : view) : view :=
  View (v_lib v) (v_g v) (v_stk v) sig (v_gold v).
Definition v_with_gold (gold : gset cpu_id) (v : view) : view :=
  View (v_lib v) (v_g v) (v_stk v) (v_sig v) gold.

Record lib_ok (clean : bool) (own : option cpu_id) (e : nat) (v : view) : Prop := {
  ok_loc : loc_ok (v_lib v) (v_g v);
  ok_ids : ids_ok (v_lib v) (v_g v);
  ok_mutexes : mutexes_ok (v_lib v) (v_g v);
  ok_cpus : cpus_ok own (v_lib v) (v_g v) (v_stk v);
  ok_gold c : is_Some (cpus (v_lib v) !! c) → c ∈ v_gold v;
  ok_work : clean = true → work_ok own e (v_lib v) (v_g v) (v_stk v) (v_sig v);
  ok_joined k i : joined (v_g v) k i → finished (v_lib v) i }.

(** ** Ids *)

Lemma id_of_small k d : (k < next_ctx d)%nat → no_wrap d → id_of k = 1 + Z.of_nat k.
Proof. unfold no_wrap, id_of, to_uint32. intros ??. rewrite Z.mod_small; lia. Qed.

Lemma id_of_inj d k k' :
  (k < next_ctx d)%nat → (k' < next_ctx d)%nat → no_wrap d → id_of k = id_of k' → k = k'.
Proof. intros ???. rewrite !(id_of_small _ d) //. lia. Qed.

Lemma id_of_nonzero d k : (k < next_ctx d)%nat → no_wrap d → id_of k ≠ 0.
Proof. intros ??. rewrite (id_of_small _ d) //. lia. Qed.

(** No mutex is held by two threads. *)
Definition holds_unique (d : lib) (g : ghost) : Prop :=
  no_wrap d → ∀ m k k' gc gc', g !! k = Some gc → g !! k' = Some gc' →
    m ∈ g_holds gc → m ∈ g_holds gc' → k = k'.

Lemma lib_ok_unique clean own e v : lib_ok clean own e v → holds_unique (v_lib v) (v_g v).
Proof.
  intros [_ Hi Hm _ _ _ _] Hnw m k k' gc gc' Hk Hk' Hin Hin'. specialize (Hm Hnw m).
  apply (mo_holds _ _ _ _ Hm _ _ Hk) in Hin as [_ Ho].
  apply (mo_holds _ _ _ _ Hm _ _ Hk') in Hin' as [_ Ho'].
  apply (id_of_inj (v_lib v)); [by eapply io_ghost..|done|congruence].
Qed.

(** ** What a thread knows by itself *)

(** The mutexes a thread has according to its own history. *)
Definition client_step (h : gset mutex_id) (e : event) : gset mutex_id :=
  match e with
  | EReturn (OLock m) RDone | EReturn (OWait _ m) RDone => {[m]} ∪ h
  | ECall (OUnlock m) | ECall (OWait _ m) => h ∖ {[m]}
  | _ => h
  end.
Definition client_holds (log : list event) : gset mutex_id := foldl client_step ∅ log.

(** Its history, threads it knows to have finished, thread objects it knows, and
    whether it knows all CPUs to have booted. *)
Record local := Local {
  l_log : list event;
  l_fins : gset ctx;
  l_known : gset ctx;
  l_boot : bool }.

Record local_ok (d : lib) (stk : gmap cpu_id stack_ref) (loc : local) : Prop := {
  lc_fins i : i ∈ l_fins loc → finished d i;
  lc_known i : i ∈ l_known loc → is_Some (infos d !! i);
  lc_boot c : l_boot loc = true → stk !! c ≠ Some SBoot;
  lc_join i : EReturn (OJoin i) RDone ∈ l_log loc → i ∈ l_fins loc }.

Definition log_ok (loc : local) (hs : gset mutex_id) : Prop :=
  client_holds (l_log loc) ⊆ hs.

(** What an event adds to a history must be known. *)
Definition note_ok (e : event) (hs : gset mutex_id) (loc : local) : Prop :=
  match e with
  | EReturn (OLock m) RDone | EReturn (OWait _ m) RDone => m ∈ hs
  | EReturn (OJoin i) RDone => i ∈ l_fins loc
  | _ => True
  end.

Definition add_event (e : event) (loc : local) : local :=
  Local (l_log loc ++ [e]) (l_fins loc) (l_known loc) (l_boot loc).

(** What a thread learns when the machine lets it call [o]. *)
Definition call_local (clean : bool) (o : op) (loc : local) : local :=
  Local (l_log loc ++ [ECall o]) (l_fins loc)
    (match o with OJoin i => {[i]} ∪ l_known loc | _ => l_known loc end)
    (l_boot loc || (clean && bool_decide (o = OCreate))).

Definition local_ext (loc loc' : local) : Prop :=
  l_log loc' = l_log loc ∧ l_known loc' = l_known loc ∧ l_boot loc' = l_boot loc ∧
  l_fins loc ⊆ l_fins loc'.

(** Thread objects stay, finished threads stay finished, and only the threads of
    [fin] become finished; no number is used again. *)
Definition lib_mono (fin : ctx → Prop) (d d' : lib) : Prop :=
  (∀ i, is_Some (infos d !! i) → is_Some (infos d' !! i)) ∧
  (∀ i, finished d i → finished d' i) ∧
  (∀ i, finished d' i → fin i ∨ finished d i) ∧
  (next_ctx d ≤ next_ctx d')%nat.

(** Who runs on a CPU: a thread with the mutexes it has, the goldfish, which may
    be awake or not, or the constructor. *)
Inductive who :=
  | WUser (k : ctx) (hs : gset mutex_id) (loc : local)
  | WGold (awake : bool)
  | WBoot.

Definition own_ctx (w : who) : option ctx :=
  match w with WUser k _ _ => Some k | _ => None end.

Definition may_finish (w : who) (i : ctx) : Prop :=
  match w with WUser k _ loc => i = k ∧ EFinish ∈ l_log loc | _ => False end.

(** The owner of the guard changes the annotations of its own context only,
    moves the others without changing what they do when they are resumed. *)
Definition evolve (own : option ctx) (g g' : ghost) : Prop :=
  ∀ y, own ≠ Some y →
    match g !! y, g' !! y with
    | None, None => True
    | Some gy, Some gy' => g_holds gy = g_holds gy' ∧
                           phase_of (g_place gy) = phase_of (g_place gy')
    | _, _ => False
    end.

Definition sig_ext (c : cpu_id) (sig sig' : gset cpu_id) : Prop :=
  ∀ c', c' ≠ c → (c' ∈ sig ↔ c' ∈ sig').

(** How many steps a critical section that starts in [d] may take: the loops run
    over the CPUs and over a queue, which are no longer than this. *)
Definition cs_bound (d : lib) : nat := 3 * length (cpu_vec d) + next_ctx d + 200.

(** No queue holds more contexts than have been made. *)
Lemma queue_bound clean own e v q :
  lib_ok clean own e v → (length (queue_of q (v_lib v)) ≤ next_ctx (v_lib v))%nat.
Proof.
  intros [Hl Hi _ _ _ _ _]. destruct (lo_queue _ _ Hl q) as (ks & -> & Hnd & Hks).
  rewrite length_fmap -(length_seq (next_ctx (v_lib v)) 0).
  apply submseteq_length, NoDup_submseteq; [done|]. intros k [φ Hk]%Hks.
  apply elem_of_seq. enough (k < next_ctx (v_lib v))%nat by lia. eapply io_ghost; [done|].
  unfold place_of in Hk. by destruct (v_g v !! k).
Qed.

(** ** Resuming a context *)

Section resume.
Context (clean : bool).

(** Thread [k] may be resumed on CPU [c]. *)
Definition resume_user (c : cpu_id) (k : ctx) (φ : phase) (hs : gset mutex_id)
    (loc : local) (v : view) : Prop :=
  lib_ok clean (Some c) 0 v ∧ v_stk v !! c = Some (SUc (Uc k)) ∧
  v_g v !! k = Some (GCtx (Running c φ) hs) ∧
  local_ok (v_lib v) (v_stk v) loc ∧ log_ok loc hs ∧
  (clean = true → idle_of c (v_lib v) = false).

(** The goldfish of CPU [c] may be resumed. *)
Definition resume_gold (c : cpu_id) (v : view) : Prop :=
  lib_ok clean (Some c) 1 v ∧ v_stk v !! c = Some (SUc (Goldfish c)) ∧
  is_Some (cpus (v_lib v) !! c) ∧ last_of c (v_lib v) = None ∧
  (clean = true → idle_of c (v_lib v) = true → ready_queue (v_lib v) = []).

(** CPU [c] switches to the context [u] with [b] steps left: its own
    annotations are in [v], its stack not yet. *)
Definition load (c : cpu_id) (b : nat) (v : view) (u : uc_ref) : Prop :=
  match u with
  | Uc y =>
      (10 ≤ b)%nat ∧ lib_ok clean (Some c) 0 (v_with_stk c (SUc u) v) ∧
      (∃ φ hs, v_g v !! y = Some (GCtx (Running c φ) hs)) ∧
      (clean = true → idle_of c (v_lib v) = false)
  | Goldfish c' =>
      c' = c ∧ (40 ≤ b)%nat ∧ v_stk v !! c ≠ Some (SUc u) ∧
      resume_gold c (v_with_stk c (SUc u) v)
  end.

(** What CPU [c] knows when it has taken the guard. *)
Definition acquired (c : cpu_id) (w : who) (v : view) : Prop :=
  lib_ok clean None 0 v ∧
  match w with
  | WUser k hs loc =>
      v_stk v !! c = Some (SUc (Uc k)) ∧ v_g v !! k = Some (GCtx (Running c PPlain) hs) ∧
      local_ok (v_lib v) (v_stk v) loc ∧ log_ok loc hs
  | WGold awake =>
      v_stk v !! c = Some (SUc (Goldfish c)) ∧ awake = true ∧
      (clean = true → c ∈ v_sig v)
  | WBoot => v_stk v !! c = Some SBoot
  end.

(** What it must know to give the guard back. *)
Definition released (c : cpu_id) (w w' : who) (v : view) : Prop :=
  lib_ok clean None 0 v ∧
  match w, w' with
  | WUser k _ loc, WUser k' hs loc' =>
      k' = k ∧ v_stk v !! c = Some (SUc (Uc k)) ∧
      v_g v !! k = Some (GCtx (Running c PPlain) hs) ∧
      local_ext loc loc' ∧ local_ok (v_lib v) (v_stk v) loc' ∧ log_ok loc' hs
  | WGold _, WGold awake =>
      v_stk v !! c = Some (SUc (Goldfish c)) ∧ (clean = true → (c ∈ v_sig v ↔ awake = true))
  | _, _ => False
  end.

End resume.
