(* ===== verification/ThreadLogic.v ===== *)
(** * A program logic for the thread library

    [ok n c t p]: program [p] may run on CPU [c] for [n] steps in control state
    [t].  A CPU that holds the guard ([CIn]) knows the shared objects and what is
    left of the bound on its critical section; one that does not ([COut]) knows
    nothing of them, whatever the other CPUs do.  Taking the guard gives
    [acquired], giving it back needs [released], and a switch needs that the
    context resumed may be resumed ([load]) and that the rest of the program saved
    is right whenever it is resumed.  The step index makes the loops of the library
    no more than a recursion on [n]. *)

From stdpp Require Import fin_sets.
From S2P Require Import Prelude CStd ThreadTypes ThreadMonad ThreadLib ThreadMachine ThreadInv.

(** Outside the library a thread may be moved from CPU [c] to any CPU [c']. *)
Definition runs_on (w : who) (c c' : cpu_id) : Prop := own_ctx w = None → c' = c.

Inductive ctl :=
  | CIn (b : nat) (v : view) (w : who)
  | COut (w : who) (i : bool).

Section logic.
Context (clean : bool).

Section rules.
Context (rec : cpu_id → ctl → prog unit → Prop).

(** The switch of a critical section of [w] on CPU [c]. *)
Definition save_and_load (c : cpu_id) (b : nat) (v : view) (w : who) (u u' : uc_ref)
    (p : prog unit) : Prop :=
  uc_live u (v_lib v) = true ∧ v_stk v !! c = Some (SUc u) ∧
  ∃ g sig,
    evolve (own_ctx w) (v_g v) g ∧ sig_ext c (v_sig v) sig ∧
    load clean c b (View (v_lib v) g (v_stk v) sig (v_gold v)) u' ∧
    match u, w with
    | Uc x, WUser x' _ loc =>
        x' = x ∧ ∃ pl φ hs,
          g !! x = Some (GCtx pl hs) ∧ saved_place pl φ ∧ log_ok loc hs ∧
          ∀ c' b' v', (10 ≤ b')%nat → resume_user clean c' x φ hs loc v' →
                      rec c' (CIn b' v' (WUser x hs loc)) p
    | Goldfish c', WGold _ =>
        c' = c ∧ c ∈ v_gold v ∧
        ∀ b' v', (40 ≤ b')%nat → resume_gold clean c v' → rec c (CIn b' v' (WGold true)) p
    | _, _ => False
    end.

(** A switch that saves nothing: from the boot, or from a thread that ended. *)
Definition only_load (c : cpu_id) (b : nat) (v : view) (w : who) (u : uc_ref) : Prop :=
  ∃ g sig,
    evolve (own_ctx w) (v_g v) g ∧ sig_ext c (v_sig v) sig ∧
    load clean c b (View (v_lib v) g (v_stk v) sig (v_gold v)) u ∧
    match w with
    | WUser x _ loc => ∃ pl hs, g !! x = Some (GCtx pl hs) ∧ phase_of pl = None ∧ log_ok loc hs
    | WGold _ => False
    | WBoot => True
    end.

(** The actions of a CPU that holds the guard. *)
Definition in_act (c : cpu_id) (b : nat) (v : view) (w : who) {R : Set} (a : act R)
    : (R → prog unit) → Prop :=
  match a in act R return (R → prog unit) → Prop with
  | Self => λ k, rec c (CIn b v w) (k c)
  | AssertInterruptsDisabled => λ k, rec c (CIn b v w) (k tt)
  | GuardLoad => λ k, rec c (CIn b v w) (k true)
  | Assert x => λ k, x = true ∧ rec c (CIn b v w) (k tt)
  | Alloc => λ k, rec c (CIn b v w) (k true) ∧
                  (v_stk v !! c ≠ Some SBoot → rec c (CIn b v w) (k false))
  | Lib f => λ k, ∃ r d, f (v_lib v) = Some (r, d) ∧
                         lib_mono (may_finish w) (v_lib v) d ∧
                         rec c (CIn b (v_with_lib d v) w) (k r)
  | Delete u => λ k, ∃ d, delete_context u (v_lib v) = Some (tt, d) ∧
                          (∀ c', v_stk v !! c' ≠ Some (SUc (Uc u))) ∧
                          rec c (CIn b (v_with_lib d v) w) (k tt)
  | InterruptSend c' => λ k,
      is_Some (v_stk v !! c') ∧
      (clean = true → v_stk v !! c' = Some (SUc (Goldfish c')) ∧ c' ≠ c ∧ c' ∉ v_sig v) ∧
      rec c (CIn b (v_with_sig ({[c']} ∪ v_sig v) v) w) (k tt)
  | MakeContext u e => λ k,
      uc_live u (v_lib v) = true ∧
      match u with
      | Uc x => e = EWrapped x ∧ v_g v !! x = None ∧
                rec c (CIn b (v_with_g (<[x := GCtx Made ∅]> (v_g v)) v) w) (k tt)
      | Goldfish c' => c' = c ∧ e = EWatchSuspend ∧ v_stk v !! c = Some SBoot ∧
                       rec c (CIn b (v_with_gold ({[c]} ∪ v_gold v) v) w) (k tt)
      end
  | SwapContext u u' => λ k, save_and_load c b v w u u' (k tt)
  | SetContext u => λ _, only_load c b v w u
  | GuardStore x => λ k, x = false ∧
      ∃ g sig w', evolve (own_ctx w) (v_g v) g ∧ sig_ext c (v_sig v) sig ∧
                  released clean c w w' (View (v_lib v) g (v_stk v) sig (v_gold v)) ∧
                  ∀ c', runs_on w' c c' → rec c' (COut w' false) (k tt)
  | _ => λ _, False
  end.

(** The actions of a CPU that does not. *)
Definition out_act (c : cpu_id) (w : who) (i : bool) {R : Set} (a : act R)
    : (R → prog unit) → Prop :=
  match a in act R return (R → prog unit) → Prop with
  | InterruptDisable => λ k, rec c (COut w false) (k tt)
  | InterruptEnable => λ k, (is_Some (own_ctx w) ∨ w = WGold true) ∧ rec c (COut w true) (k tt)
  | InterruptEnableSuspend => λ k, w = WGold false ∧ rec c (COut (WGold true) true) (k tt)
  | GuardExchange x => λ k,
      x = true ∧ i = false ∧ w ≠ WGold false ∧ rec c (COut w false) (k true) ∧
      ∀ v, acquired clean c w v →
           ∃ b, (b ≤ cs_bound (v_lib v))%nat ∧ rec c (CIn b v w) (k false)
  | Func => λ k,
      match w with
      | WUser x hs loc =>
          i = true ∧
          (∀ o, rec c (COut (WUser x hs (call_local clean o loc)) true)
                  (bind (call_prog o) (λ _, Act Func k))) ∧
          rec c (COut (WUser x hs (add_event EFinish loc)) true) (k tt)
      | _ => False
      end
  | Note e => λ k,
      match w with
      | WUser x hs loc => note_ok e hs loc ∧
                          rec c (COut (WUser x hs (add_event e loc)) i) (k tt)
      | _ => False
      end
  | _ => λ _, False
  end.

End rules.

Fixpoint ok (n : nat) (c : cpu_id) (t : ctl) (p : prog unit) {struct n} : Prop :=
  match n with
  | O => True
  | S n =>
      match t, p with
      | CIn (S b) v w, Act a k => in_act (ok n) c b v w a k
      | CIn (S b) v w, Forever p => ok n c (CIn b v w) (bind p (λ _, Forever p))
      | COut w i, Act a k => out_act (ok n) c w i a k
      | COut w i, Spin a p => out_act (ok n) c w i a (λ b : bool, if b then Spin a p else p)
      | COut w i, Forever p => ok n c (COut w i) (bind p (λ _, Forever p))
      | _, _ => False
      end
  end.

(** ** Fewer steps *)

Lemma in_act_mono (r r' : cpu_id → ctl → prog unit → Prop) c b v w {R : Set} (a : act R) k :
  (∀ c t p, r c t p → r' c t p) → in_act r c b v w a k → in_act r' c b v w a k.
Proof.
  intros Hr. destruct a; cbn; try (by eauto); try naive_solver.
  - destruct u; naive_solver.
  - unfold save_and_load. intros (? & ? & g & sig & ? & ? & ? & H).
    split_and!; [done..|]. exists g, sig. split_and!; [done..|].
    destruct save, w; naive_solver.
Qed.

Lemma out_act_mono (r r' : cpu_id → ctl → prog unit → Prop) c w i {R : Set} (a : act R) k :
  (∀ c t p, r c t p → r' c t p) → out_act r c w i a k → out_act r' c w i a k.
Proof.
  intros Hr. destruct a; cbn; try (by eauto); try naive_solver.
  - destruct w; naive_solver.
  - destruct w; naive_solver.
Qed.

Lemma ok_S n c t p : ok (S n) c t p → ok n c t p.
Proof.
  revert c t p. induction n as [|n IH]; [done|]. intros c t p H.
  destruct t as [[|b] v w|w i]; [by destruct p| |]; destruct p; try done.
  - change (in_act (ok (S n)) c b v w a k) in H.
    change (in_act (ok n) c b v w a k). by eapply in_act_mono.
  - change (ok (S n) c (CIn b v w) (bind p (λ _, Forever p))) in H. by apply IH.
  - change (out_act (ok (S n)) c w i a k) in H.
    change (out_act (ok n) c w i a k). by eapply out_act_mono.
  - change (out_act (ok (S n)) c w i a (λ b : bool, if b then Spin a p else p)) in H.
    change (out_act (ok n) c w i a (λ b : bool, if b then Spin a p else p)).
    by eapply out_act_mono.
  - change (ok (S n) c (COut w i) (bind p (λ _, Forever p))) in H. by apply IH.
Qed.

(** ** Rules without the index *)

Lemma ok_in n c b v w {R : Set} (a : act R) k :
  (0 < b)%nat → in_act (ok n) c (pred b) v w a k → ok n c (CIn b v w) (Act a k).
Proof.
  intros Hb H. destruct n as [|n]; [done|]. destruct b as [|b]; [lia|].
  change (in_act (ok n) c b v w a k). eapply in_act_mono; [|exact H]. apply ok_S.
Qed.

Lemma ok_in_forever n c b v w p :
  (0 < b)%nat → (∀ m, (m < n)%nat → ok m c (CIn (pred b) v w) (bind p (λ _, Forever p))) →
  ok n c (CIn b v w) (Forever p).
Proof.
  intros Hb H. destruct n as [|n]; [done|]. destruct b as [|b]; [lia|].
  change (ok n c (CIn b v w) (bind p (λ _, Forever p))). apply H. lia.
Qed.

Lemma ok_out n c w i {R : Set} (a : act R) k :
  out_act (ok n) c w i a k → ok n c (COut w i) (Act a k).
Proof.
  intros H. destruct n as [|n]; [done|].
  change (out_act (ok n) c w i a k). eapply out_act_mono; [|exact H]. apply ok_S.
Qed.

(** The program of a CPU without the guard. *)
Definition ok_at (n : nat) (c : cpu_id) (w : who) (i : bool) (p : prog unit) : Prop :=
  ∀ c', runs_on w c c' → ok n c' (COut w i) p.

Lemma ok_at_S n c w i p : ok_at (S n) c w i p → ok_at n c w i p.
Proof. intros H c' ?. by apply ok_S, H. Qed.

Lemma ok_le n m c t p : (m ≤ n)%nat → ok n c t p → ok m c t p.
Proof. induction 1; [done|]. eauto using ok_S. Qed.

(** Taking the guard: the loop of [guard_lock] ends or goes on. *)
Lemma ok_guard_lock n c w (K : prog unit) :
  w ≠ WGold false →
  (∀ v, acquired clean c w v →
        ∃ b, (b ≤ cs_bound (v_lib v))%nat ∧ ok n c (CIn b v w) K) →
  ok n c (COut w false) (bind Cpu.guard_lock (λ _, K)).
Proof.
  intros Hw H. cbn.
  assert (Hspin : ok n c (COut w false) (Spin (GuardExchange true) K)).
  { revert H. induction n as [|n IH]; [done|]. intros H.
    change (out_act (ok n) c w false (GuardExchange true)
              (λ b : bool, if b then Spin (GuardExchange true) K else K)).
    cbn. split_and!; [done..| |].
    - apply IH. intros v Hv. destruct (H v Hv) as (b & ? & Hb). exists b. split; [done|]. by apply ok_S.
    - intros v Hv. destruct (H v Hv) as (b & ? & Hb). exists b. split; [done|]. by apply ok_S. }
  apply ok_out. cbn. split_and!; [done..|exact Hspin|exact H].
Qed.

End logic.
