(* ===== verification/ThreadSound.v ===== *)
(** * Soundness of the logic of the thread library

    The invariant [inv n s] of the machine: the annotations agree with the saved
    contexts and with the programs of the CPUs, each of which is [ok] for [n]
    steps.  Every step of the machine keeps it, so that no run meets a fault; the
    entry points of contexts, the timer handler and the operations enter as
    hypotheses, which ThreadOps proves. *)

From stdpp Require Import fin_sets.
From S2P Require Import Prelude CStd ThreadTypes ThreadMonad ThreadLib ThreadMachine.
From S2P Require Import ThreadInv ThreadLogic.

Section sound.
Context (clean : bool).

(** A context saved with program [p]. *)
Definition saved (n : nat) (k : ctx) (φ : phase) (hs : gset mutex_id) (loc : local)
    (p : prog unit) : Prop :=
  ∀ c b v, (10 ≤ b)%nat → resume_user clean c k φ hs loc v →
           ok clean n c (CIn b v (WUser k hs loc)) p.

Definition saved_gold (n : nat) (c : cpu_id) (p : prog unit) : Prop :=
  ∀ b v, (40 ≤ b)%nat → resume_gold clean c v → ok clean n c (CIn b v (WGold true)) p.

Definition new_local : local := Local [] ∅ ∅ false.

(** A CPU that does not hold the guard runs [w]. *)
Definition who_at (c : cpu_id) (h : hwcpu) (v : view) (L : gmap ctx local) (w : who) : Prop :=
  (ints h = true → is_Some (own_ctx w) ∨ w = WGold true) ∧
  (clean = true → ipi h = true → w = WGold false) ∧
  match w with
  | WUser k hs loc => stack h = SUc (Uc k) ∧ v_g v !! k = Some (GCtx (Running c PPlain) hs) ∧
                      L !! k = Some loc
  | WGold a => stack h = SUc (Goldfish c) ∧ (clean = true → (c ∈ v_sig v ↔ ipi h || a))
  | WBoot => stack h = SBoot
  end.

(** The CPU that holds it runs [w]. *)
Definition own_at (c : cpu_id) (h : hwcpu) (v : view) (L : gmap ctx local) (w : who)
    : Prop :=
  ints h = false ∧ (clean = true → ipi h = false) ∧
  match w with
  | WUser k _ loc => stack h = SUc (Uc k) ∧ L !! k = Some loc ∧
                     ∃ φ hs, v_g v !! k = Some (GCtx (Running c φ) hs)
  | WGold _ => stack h = SUc (Goldfish c)
  | WBoot => stack h = SBoot
  end.

Record inv_at (n B : nat) (s : machine) (v : view) (L : gmap ctx local) : Prop := {
  iv_lib : v_lib v = data s;
  iv_stk : v_stk v = stack <$> hws s;
  iv_saved k gc φ : v_g v !! k = Some gc → saved_place (g_place gc) φ →
    ∃ p loc, ucs s !! Uc k = Some p ∧ L !! k = Some loc ∧
             saved n k φ (g_holds gc) loc p;
  iv_gold c : c ∈ v_gold v → v_stk v !! c ≠ Some (SUc (Goldfish c)) →
    ∃ p, ucs s !! Goldfish c = Some p ∧ saved_gold n c p;
  iv_dom k : is_Some (L !! k) ↔ is_Some (v_g v !! k);
  iv_local k loc : L !! k = Some loc →
    l_log loc = default [] (logs s !! k) ∧ local_ok (data s) (v_stk v) loc;
  iv_logs k gc loc : v_g v !! k = Some gc → L !! k = Some loc → log_ok loc (g_holds gc);
  iv_nolog k : v_g v !! k = None → logs s !! k = None;
  iv_unique : holds_unique (data s) (v_g v);
  iv_fin i : finished (data s) i → EFinish ∈ default [] (logs s !! i);
  iv_run k c φ hs : v_g v !! k = Some (GCtx (Running c φ) hs) →
    v_stk v !! c = Some (SUc (Uc k));
  iv_out c h : hws s !! c = Some h → guard s ≠ Some c →
    ∃ w, who_at c h v L w ∧ ok_at clean n c w (ints h) (code h);
  iv_in : match guard s with
          | None => lib_ok clean None 0 v
          | Some c => ∃ h b w, (b ≤ B)%nat ∧ hws s !! c = Some h ∧ own_at c h v L w ∧
                               ok clean n c (CIn b v w) (code h)
          end }.

Definition inv (n B : nat) (s : machine) : Prop := ∃ v L, inv_at n B s v L.

(** ** Fewer steps *)

Lemma saved_S n k φ hs loc p : saved (S n) k φ hs loc p → saved n k φ hs loc p.
Proof. intros H c b v ??. by apply ok_S, H. Qed.
Lemma saved_gold_S n c p : saved_gold (S n) c p → saved_gold n c p.
Proof. intros H b v ??. by apply ok_S, H. Qed.

Lemma inv_S n B s v L : inv_at (S n) B s v L → inv_at n B s v L.
Proof.
  intros I. destruct I. split; try done.
  - intros k gc φ ??. edestruct iv_saved0 as (p & loc & ?&?&?); [done..|].
    exists p, loc. split_and!; [done..|]. by apply saved_S.
  - intros c ??. edestruct iv_gold0 as (p & ?&?); [done..|].
    exists p. split; [done|]. by apply saved_gold_S.
  - intros c h ??. edestruct iv_out0 as (w & ?&?); [done..|].
    exists w. split; [done|]. by apply ok_at_S.
  - destruct (guard s); [|done]. destruct iv_in0 as (h & b & w & ?&?&?&?).
    exists h, b, w. split_and!; [done..|]. by apply ok_S.
Qed.

Lemma inv_le n m B s : (m ≤ n)%nat → inv n B s → inv m B s.
Proof.
  induction 1; [done|]. intros (v & L & I). apply IHle. exists v, L. by apply inv_S.
Qed.

(** ** Facts on updates *)

Lemma stack_with_hw c h h' (hs : gmap cpu_id hwcpu) :
  hs !! c = Some h → stack h' = stack h → stack <$> <[c := h']> hs = stack <$> hs.
Proof.
  intros Hc Hst. apply map_eq. intros c'. rewrite !lookup_fmap.
  destruct (decide (c = c')) as [->|Hne]; [by rewrite lookup_insert_eq Hc /= Hst|].
  by rewrite lookup_insert_ne.
Qed.

Lemma finished_mono fin d d' i : lib_mono fin d d' → finished d i → finished d' i.
Proof. intros (_&H&_&_). apply H. Qed.

Lemma local_ok_mono fin d d' stk loc :
  lib_mono fin d d' → local_ok d stk loc → local_ok d' stk loc.
Proof. intros (H1&H2&_&_) []. split; eauto. Qed.

Lemma v_stk_at n B s v L c h :
  inv_at n B s v L → hws s !! c = Some h → v_stk v !! c = Some (stack h).
Proof. intros I Hc. by rewrite (iv_stk _ _ _ _ _ I) lookup_fmap Hc. Qed.

(** ** A CPU without the guard moves *)

Lemma inv_out_move n B s v L c h h' w :
  inv_at (S n) B s v L → hws s !! c = Some h → guard s ≠ Some c →
  stack h' = stack h → who_at c h' v L w →
  ok_at clean n c w (ints h') (code h') →
  inv_at n B (with_hw c h' s) v L.
Proof.
  intros I Hc Hg Hst Hw Hok. apply inv_S in I as I'. destruct I'.
  split; cbn; try done.
  - by rewrite iv_stk0 (stack_with_hw _ h).
  - intros c' h'' Hc' Hg'. destruct (decide (c' = c)) as [->|Hne].
    + rewrite lookup_insert_eq in Hc'. simplify_eq. by exists w.
    + rewrite lookup_insert_ne // in Hc'. by apply iv_out0.
  - destruct (guard s) as [c'|]; [|done]. destruct iv_in0 as (h0 & b & w0 & ?&?&?&?).
    exists h0, b, w0. rewrite lookup_insert_ne; [done|naive_solver].
Qed.

(** Its thread's history grows. *)
Definition local_with_log (loc : local) (loc' : local) (e : event) : Prop :=
  l_log loc' = l_log loc ++ [e].

Lemma inv_out_log n B s v L c h h' k hs loc loc' e :
  inv_at (S n) B s v L → hws s !! c = Some h → guard s ≠ Some c →
  stack h' = stack h → who_at c h v L (WUser k hs loc) → ipi h' = ipi h →
  l_log loc' = l_log loc ++ [e] → local_ok (data s) (v_stk v) loc' → log_ok loc' hs →
  ok_at clean n c (WUser k hs loc') (ints h') (code h') →
  inv_at n B (with_hw c h' (log_event k e s)) v (<[k := loc']> L).
Proof.
  intros I Hc Hg Hst (Hi & Hp & Hs & Hk & HL) Hipi Hlog Hloc Hlo Hok.
  apply inv_S in I as I'. destruct I'.
  assert (l_log loc = default [] (logs s !! k)) as Hlg by apply (iv_local0 _ _ HL).
  split; cbn; try done.
  - by rewrite iv_stk0 (stack_with_hw _ h).
  - intros k' gc φ Hk' Hpl. destruct (decide (k = k')) as [<-|Hne].
    + by simplify_eq.
    + rewrite lookup_insert_ne //. by apply iv_saved0.
  - intros k'. destruct (decide (k = k')) as [<-|Hne].
    + rewrite lookup_insert_eq Hk. split; by eexists.
    + by rewrite lookup_insert_ne.
  - intros k' loc0. destruct (decide (k = k')) as [<-|Hne].
    + rewrite !lookup_insert_eq. intros [= <-]. split; [|done]. cbn. by rewrite -Hlg.
    + rewrite !lookup_insert_ne //. by apply iv_local0.
  - intros k' gc loc0. destruct (decide (k = k')) as [<-|Hne].
    + rewrite lookup_insert_eq. intros ? [= <-]. by simplify_eq.
    + rewrite lookup_insert_ne //. by apply iv_logs0.
  - intros k'. destruct (decide (k = k')) as [<-|Hne].
    + by rewrite Hk.
    + rewrite lookup_insert_ne //. by apply iv_nolog0.
  - intros i Hf. apply iv_fin0 in Hf. destruct (decide (k = i)) as [<-|Hne].
    + rewrite lookup_insert_eq /=. apply elem_of_app. by left.
    + by rewrite lookup_insert_ne.
  - intros c' h'' Hc' Hg'. destruct (decide (c' = c)) as [->|Hne].
    + rewrite lookup_insert_eq in Hc'. simplify_eq. exists (WUser k hs loc'). split; [|done].
      split_and!; [by left| |by rewrite Hst|done|by rewrite lookup_insert_eq].
      rewrite Hipi. intros Hcl Hp'. discriminate (Hp Hcl Hp').
    + rewrite lookup_insert_ne // in Hc'. destruct (iv_out0 _ _ Hc' Hg') as (w & Hw & ?).
      exists w. split; [|done]. destruct Hw as (?&?&Hw). split_and!; [done..|].
      destruct w as [k' hs' loc0| |]; [|done..]. destruct Hw as (?&?&?).
      rewrite lookup_insert_ne; [done|]. intros ->. simplify_eq.
  - destruct (guard s) as [c'|]; [|done]. destruct iv_in0 as (h0 & b & w0 & ?&?&Hw&?).
    exists h0, b, w0. rewrite lookup_insert_ne; [|naive_solver]. split_and!; [done|done| |done].
    destruct Hw as (?&?&Hw). split_and!; [done..|].
    destruct w0 as [k' hs' loc0| |]; [|done..]. destruct Hw as (?&?&φ&hs0&?).
    rewrite lookup_insert_ne; [by eauto|]. intros ->. simplify_eq.
Qed.

(** ** One action of a CPU without the guard *)

Lemma inv_acquire n B s v L c h w (p : prog unit) :
  inv_at (S n) B s v L → hws s !! c = Some h → guard s = None → ints h = false →
  who_at c h v L w → w ≠ WGold false →
  (∀ v, acquired clean c w v →
        ∃ b, (b ≤ cs_bound (v_lib v))%nat ∧ ok clean n c (CIn b v w) p) →
  inv_at n (cs_bound (data s)) (with_hw c (set_code p h) (with_guard (Some c) s)) v L.
Proof.
  intros I Hc Hg Hints Hw Hwg Hok. apply inv_S in I as I'. destruct I'.
  rewrite Hg in iv_in0. pose proof (v_stk_at _ _ _ _ _ _ _ I Hc) as Hst.
  destruct Hw as (_ & Hipi & Hw).
  assert (∃ b, (b ≤ cs_bound (v_lib v))%nat ∧ ok clean n c (CIn b v w) p) as (b & Hle & Hb).
  { apply Hok. split; [done|]. destruct w as [k hs loc|a|].
    - destruct Hw as (Hsk & Hk & HL). rewrite Hst Hsk iv_lib0. split_and!; [done..| |].
      + by apply (iv_local0 k loc).
      + by apply (iv_logs0 k (GCtx (Running c PPlain) hs)).
    - destruct Hw as (Hsk & Hsig), a; [|done]. rewrite Hst Hsk. split_and!; [done..|].
      intros Hcl. apply Hsig; [done|]. by rewrite orb_true_r.
    - by rewrite Hst Hw. }
  split; cbn; try done.
  - by rewrite iv_stk0 (stack_with_hw _ h).
  - intros c' h' Hc' Hg'. rewrite lookup_insert_ne in Hc'; [|naive_solver].
    apply iv_out0; [done|by rewrite Hg].
  - exists (set_code p h), b, w. rewrite lookup_insert_eq -iv_lib0. split_and!; [done..| |done].
    split; [done|]. split.
    { intros Hcl. destruct (ipi h) eqn:Hi; [|by cbn]. by specialize (Hipi Hcl eq_refl). }
    destruct w as [k hs loc|a|]; naive_solver.
Qed.

(** A step goes on, with at most [B] more steps in the critical section. *)
Definition sound_step (n B : nat) (o : outcome) : Prop := ∃ s', o = Next s' ∧ inv n B s'.

(** The same for a CPU that does not hold the guard, but may take it. *)
Definition out_step (n B : nat) (s : machine) (o : outcome) : Prop :=
  ∃ s' B', o = Next s' ∧ inv n B' s' ∧ (guard s ≠ None → B' = B) ∧
           (guard s = None → guard s' ≠ None → (B' ≤ cs_bound (data s))%nat).

Lemma go_sound n B c h p s o :
  go c h p s = Some o → inv n B (with_hw c (set_code p h) s) → sound_step n B o.
Proof. intros [= <-] ?. by eexists. Qed.

Lemma go_out n B c h p s s0 o :
  go c h p s0 = Some o → guard s0 = guard s → inv n B (with_hw c (set_code p h) s0) →
  out_step n B s o.
Proof.
  intros [= <-] Hg ?. eexists _, B. split_and!; [done..|]. intros Hn Hn'. by rewrite /= Hg in Hn'.
Qed.

Lemma client_holds_snoc log e :
  client_holds (log ++ [e]) = client_step (client_holds log) e.
Proof. unfold client_holds. by rewrite foldl_app. Qed.

Lemma log_ok_note loc hs e :
  log_ok loc hs → note_ok e hs loc → log_ok (add_event e loc) hs.
Proof.
  unfold log_ok. intros Hl Hn. change (client_holds (l_log loc ++ [e]) ⊆ hs).
  rewrite client_holds_snoc.
  destruct e as [[]|[] []|]; cbn in *; set_solver.
Qed.

Lemma local_ok_note d stk loc hs e :
  local_ok d stk loc → note_ok e hs loc → local_ok d stk (add_event e loc).
Proof.
  intros [] Hn. split; try done. intros i Hi. cbn in Hi.
  apply elem_of_app in Hi as [Hi|Hi%list_elem_of_singleton]; [by auto|].
  by subst e.
Qed.

Lemma out_act_sound n B s v L c h oom w {R : Set} (a : act R) k o :
  inv_at (S n) B s v L → hws s !! c = Some h → guard s ≠ Some c → who_at c h v L w →
  (∀ c', runs_on w c c' → out_act clean (ok clean n) c' w (ints h) a k) →
  step_act c h oom a k s = Some o → out_step n B s o.
Proof.
  intros I Hc Hg Hw Hok Hstep.
  assert (∀ h' w', stack h' = stack h → who_at c h' v L w' →
            ok_at clean n c w' (ints h') (code h') → inv n B (with_hw c h' s)) as Hmove.
  { intros h' w' ???. exists v, L. by eapply (inv_out_move _ _ _ _ _ _ h). }
  assert (out_act clean (ok clean n) c w (ints h) a k) as Hok1 by by apply Hok.
  destruct a; cbn in Hok1; try done; cbn in Hstep.
  - eapply go_out; [done|done|]. eapply (Hmove _ w); [done| |by intros c' ?; apply Hok].
    destruct Hw as (?&?&?). split_and!; [done|done|]. by destruct w.
  - destruct Hok1 as [Ho _]. eapply go_out; [done|done|].
    eapply (Hmove _ w); [done| |by intros c' ?; apply Hok].
    destruct Hw as (?&?&?). split_and!; [by intros _|done|]. by destruct w.
  - destruct Hok1 as [-> Hok1]. destruct (ipi h) eqn:Hipi; [|done].
    eapply go_out; [done|done|]. eapply (Hmove _ (WGold true)); [done| |].
    + destruct Hw as (?&?&Hs&Hsig). split_and!; [by right|done|done|].
      intros Hcl. cbn. rewrite Hsig // Hipi. done.
    + intros c' Hr. by rewrite (Hr eq_refl).
  - destruct Hok1 as (-> & Hi & Hwg & Hspin & Hacq). destruct (guard s) as [c'|] eqn:Hgs.
    + rewrite decide_False in Hstep; [|by intros ->]. eapply go_out; [done|done|].
      eapply Hmove; [done..|]. cbn. rewrite Hi. intros c2 Hc2.
      by destruct (Hok c2 Hc2) as (_&_&_&?&_).
    + injection Hstep as <-. eexists _, (cs_bound (data s)). split_and!; [done| |done..].
      exists v, L. by eapply inv_acquire.
  - destruct w as [x hs loc| |]; [|done..]. destruct Hok1 as [Hnote _].
    destruct Hw as (Hi & Hp & Hs & Hk & HL). unfold thread_of in Hstep. rewrite Hs in Hstep.
    eapply go_out; [done|done|]. exists v, (<[x := add_event e loc]> L).
    assert (local_ok (data s) (v_stk v) loc) by by eapply (iv_local _ _ _ _ _ I x).
    assert (log_ok loc hs) by by eapply (iv_logs _ _ _ _ _ I _ (GCtx _ hs)).
    eapply (inv_out_log n B s v L c h _ x hs loc); [done..| |done|done| | |].
    + by split.
    + by eapply local_ok_note.
    + by apply log_ok_note.
    + intros c' Hc'. by apply Hok.
Qed.

(** ** A CPU with the guard moves *)

Lemma with_data_id s : with_data (data s) s = s.
Proof. by destruct s. Qed.

Lemma lib_mono_refl fin d : lib_mono fin d d.
Proof. split_and!; eauto. Qed.

Lemma inv_in_move n B s v L c h w b p d :
  inv_at (S n) B s v L → guard s = Some c → hws s !! c = Some h → own_at c h v L w →
  lib_mono (may_finish w) (data s) d →
  ok clean n c (CIn b (v_with_lib d v) w) p →
  inv_at n b (with_hw c (set_code p h) (with_data d s)) (v_with_lib d v) L.
Proof.
  intros I Hg Hc Hown Hmono Hok. apply inv_S in I as I'. destruct I'.
  rewrite Hg in iv_in0. split; cbn; try done.
  - by rewrite iv_stk0 (stack_with_hw _ h).
  - intros k loc HL. destruct (iv_local0 _ _ HL). eauto using local_ok_mono.
  - intros Hnw. apply iv_unique0. destruct Hmono as (_&_&_&Hle). unfold no_wrap in *. lia.
  - intros i Hf. destruct Hmono as (_&_&Hmono&_). apply Hmono in Hf as [Hf|Hf]; [|by auto].
    destruct w as [k hs loc| |]; [|done..]. destruct Hf as [-> Hf].
    destruct Hown as (_&_&_&HL&_). by rewrite -(proj1 (iv_local0 _ _ HL)).
  - intros c' h' Hc' Hg'. rewrite lookup_insert_ne in Hc'; [|naive_solver].
    by apply iv_out0.
  - rewrite Hg. exists (set_code p h), b, w. rewrite lookup_insert_eq.
    split_and!; [done|done| |done]. by destruct w.
Qed.

Lemma inv_in_stay n B s v L c h w b p :
  inv_at (S n) B s v L → guard s = Some c → hws s !! c = Some h → own_at c h v L w →
  ok clean n c (CIn b v w) p → inv n b (with_hw c (set_code p h) s).
Proof.
  intros I Hg Hc Hown Hok. exists v, L.
  assert (v_with_lib (data s) v = v) as Hv.
  { rewrite -(iv_lib _ _ _ _ _ I). by destruct v. }
  pose proof (inv_in_move n B s v L c h w b p (data s) I Hg Hc Hown) as H.
  rewrite Hv with_data_id in H. apply H; [|done]. apply lib_mono_refl.
Qed.

(** *** New annotations *)

Lemma running_stack own e v k c φ :
  lib_ok clean own e v → place_of (v_g v) k = Some (Running c φ) → own ≠ Some c →
  v_stk v !! c = Some (SUc (Uc k)).
Proof.
  intros [Hl _ _ Hs _ _] Hp Ho.
  assert (last_of c (v_lib v) = Some k) as Hlast by (apply Hl; eauto).
  assert (is_Some (cpus (v_lib v) !! c)) as Hc.
  { unfold last_of in Hlast. by destruct (cpus (v_lib v) !! c). }
  destruct (co_dom _ _ _ _ Hs _ Hc) as [st Hst].
  pose proof (co_stack _ _ _ _ Hs _ _ Hst Ho) as H. rewrite Hst.
  destruct st as [|[c'|k']]; [by rewrite H in Hc| |]; naive_solver.
Qed.

Lemma own_not_other n B s v L c h w y c2 φ hs :
  inv_at (S n) B s v L → hws s !! c = Some h → own_at c h v L w →
  v_g v !! y = Some (GCtx (Running c2 φ) hs) → own_ctx w = Some y ↔ c2 = c.
Proof.
  intros I Hc Hown Hy. pose proof (iv_run _ _ _ _ _ I _ _ _ _ Hy) as Hs.
  pose proof (v_stk_at _ _ _ _ _ _ _ I Hc) as Hst.
  destruct Hown as (_&_&Hw). destruct w as [k hs' loc|a|]; cbn; split; intros E; try done.
  - destruct Hw as (?&?&?&?&?). by simplify_eq.
  - destruct Hw as (Hk&_). subst c2. congruence.
  - subst c2. congruence.
  - subst c2. congruence.
Qed.

Lemma evolve_inv v w g y gy' :
  evolve (own_ctx w) (v_g v) g →
  own_ctx w ≠ Some y → g !! y = Some gy' →
  ∃ gy, v_g v !! y = Some gy ∧ g_holds gy = g_holds gy' ∧
        phase_of (g_place gy) = phase_of (g_place gy').
Proof.
  intros He Hy Hgy'. pose proof (He y Hy) as Hey. rewrite Hgy' in Hey.
  destruct (v_g v !! y) as [gy|]; [|done]. eauto.
Qed.

Section evolve.
Context (n B : nat) (s : machine) (v : view) (L : gmap ctx local).
Context (c : cpu_id) (h : hwcpu) (w : who).
Context (I : inv_at (S n) B s v L) (Hg : guard s = Some c) (Hc : hws s !! c = Some h).
Context (Hown : own_at c h v L w).
Context (g : ghost) (stk : gmap cpu_id stack_ref) (sig : gset cpu_id).
Context (own : option cpu_id) (e : nat).
Context (He : evolve (own_ctx w) (v_g v) g) (Hsig : sig_ext c (v_sig v) sig).
Context (Hstk : ∀ c', c' ≠ c → stk !! c' = v_stk v !! c').
Context (Hok : lib_ok clean own e (View (v_lib v) g stk sig (v_gold v))).
Context (Hown' : own = None ∨ own = Some c).

(** The CPU that is not [c] still runs its thread. *)
Lemma evolve_running y c2 φ hs :
  v_g v !! y = Some (GCtx (Running c2 φ) hs) → c2 ≠ c →
  ∃ φ', g !! y = Some (GCtx (Running c2 φ') hs) ∧ φ' = PPlain ∧ φ = PPlain.
Proof.
  intros Hy Hne. pose proof (iv_run _ _ _ _ _ I _ _ _ _ Hy) as Hs.
  assert (own ≠ Some c2) as Ho by naive_solver.
  destruct Hok as [_ _ _ Hcp _ _]. cbn in *. rewrite -(Hstk _ Hne) in Hs.
  destruct (co_stack _ _ _ _ Hcp _ _ Hs Ho) as [_ Hp].
  assert (own_ctx w ≠ Some y) as Hoy by (rewrite (own_not_other _ _ _ _ _ _ _ _ _ _ _ _ I Hc Hown Hy); done).
  pose proof (He y Hoy) as Hey. rewrite Hy in Hey. unfold place_of in Hp.
  destruct (g !! y) as [[pl hs']|]; [|done]. naive_solver.
Qed.

Lemma evolve_saved y gy φ :
  own_ctx w ≠ Some y → g !! y = Some gy → saved_place (g_place gy) φ →
  ∃ p loc, ucs s !! Uc y = Some p ∧ L !! y = Some loc ∧ saved n y φ (g_holds gy) loc p.
Proof.
  intros Hy Hgy Hpl. destruct (evolve_inv _ _ _ _ _ He Hy Hgy) as ([pl hs] & Hgy0 & Hhs & Hph).
  cbn in *. apply inv_S in I as I'. rewrite -Hhs.
  assert (saved_place pl φ) as Hpl0.
  { destruct gy as [pl' hs'].
    destruct pl as [q φ'|c2 φ'|c2| |], pl'; cbn in *; simplify_eq; try done.
    all: destruct (decide (c2 = c)) as [->|Hne];
      [by destruct Hy; apply (own_not_other _ _ _ _ _ _ _ _ _ _ _ _ I Hc Hown Hgy0)
      |destruct (evolve_running _ _ _ _ Hgy0 Hne) as (?&?&?); simplify_eq]. }
  by apply (iv_saved _ _ _ _ _ I' _ (GCtx pl hs)).
Qed.

Lemma evolve_dom k : own_ctx w ≠ Some k → is_Some (g !! k) ↔ is_Some (v_g v !! k).
Proof.
  intros Hk. pose proof (He k Hk) as Hek.
  destruct (v_g v !! k), (g !! k); naive_solver.
Qed.

Lemma evolve_out c2 h2 :
  hws s !! c2 = Some h2 → c2 ≠ c →
  ∃ w2, who_at c2 h2 (View (v_lib v) g stk sig (v_gold v)) L w2 ∧
        (∀ k, own_ctx w2 = Some k → own_ctx w ≠ Some k) ∧
        ok_at clean n c2 w2 (ints h2) (code h2).
Proof.
  intros Hc2 Hne. apply inv_S in I as I'.
  destruct (iv_out _ _ _ _ _ I' _ _ Hc2) as (w2 & (H1 & H2 & Hw2) & Hok2); [naive_solver|].
  exists w2. split; [|split; [|done]].
  - split_and!; [done..|]. destruct w2 as [k hs loc|a|]; [| |done].
    + destruct Hw2 as (?&Hk&?). destruct (evolve_running _ _ _ _ Hk Hne) as (φ&?&->&_).
      by split_and!.
    + destruct Hw2 as (?&Hsg). split; [done|]. intros Hcl.
      by rewrite -(Hsg Hcl) -(Hsig c2 Hne).
  - destruct w2 as [k hs loc|a|]; [|done..]. intros k' [= <-]. destruct Hw2 as (?&Hk&?).
    by rewrite (own_not_other _ _ _ _ _ _ _ _ _ _ _ _ I Hc Hown Hk).
Qed.

Lemma evolve_run k c2 φ hs :
  g !! k = Some (GCtx (Running c2 φ) hs) → c2 ≠ c → stk !! c2 = Some (SUc (Uc k)).
Proof.
  intros Hk Hne. eapply (running_stack _ _ _ _ _ φ Hok); [|naive_solver].
  by unfold place_of; cbn; rewrite Hk.
Qed.

(** The invariant with the new annotations, when what concerns the thread of the
    CPU, its goldfish and its program is right. *)
Lemma inv_evolve B' s' L' :
  data s' = data s → logs s' = logs s → stk = stack <$> hws s' →
  (∀ c', c' ≠ c → hws s' !! c' = hws s !! c') →
  (∀ c', c' ≠ c → guard s' ≠ Some c') →
  (∀ y, own_ctx w ≠ Some y → ucs s' !! Uc y = ucs s !! Uc y ∧ L' !! y = L !! y) →
  (∀ c', c' ≠ c → ucs s' !! Goldfish c' = ucs s !! Goldfish c') →
  stk !! c ≠ Some SBoot →
  (∀ x, own_ctx w = Some x → ∃ gc loc,
     g !! x = Some gc ∧ L' !! x = Some loc ∧ l_log loc = default [] (logs s !! x) ∧
     local_ok (data s) stk loc ∧ log_ok loc (g_holds gc) ∧
     ∀ φ, saved_place (g_place gc) φ →
          ∃ p, ucs s' !! Uc x = Some p ∧ saved n x φ (g_holds gc) loc p) →
  (c ∈ v_gold v → stk !! c ≠ Some (SUc (Goldfish c)) →
     ∃ p, ucs s' !! Goldfish c = Some p ∧ saved_gold n c p) →
  (∀ k φ hs, g !! k = Some (GCtx (Running c φ) hs) → stk !! c = Some (SUc (Uc k))) →
  (let v' := View (v_lib v) g stk sig (v_gold v) in
   match guard s' with
   | None => own = None ∧ e = 0%nat ∧
       ∃ h' w', hws s' !! c = Some h' ∧ who_at c h' v' L' w' ∧
                ok_at clean n c w' (ints h') (code h')
   | Some _ =>
       ∃ h' b w', (b ≤ B')%nat ∧ hws s' !! c = Some h' ∧ own_at c h' v' L' w' ∧
                  ok clean n c (CIn b v' w') (code h')
   end) →
  inv_at n B' s' (View (v_lib v) g stk sig (v_gold v)) L'.
Proof.
  intros Hd Hl Hst Hhw Hgd Hu Hgf Hnb Hown1 Hgold Hrun Hend.
  apply inv_S in I as I'. destruct I'.
  assert (∀ k loc, L !! k = Some loc → local_ok (data s) stk loc) as Hloc.
  { intros k loc Hk. destruct (iv_local0 _ _ Hk) as [_ []]. split; try done.
    intros c' Hb. destruct (decide (c' = c)) as [->|Hne]; [done|]. rewrite Hstk //. by auto. }
  split; cbn; rewrite ?Hd ?Hl; try done.
  - intros k gc φ Hk Hpl. destruct (decide (own_ctx w = Some k)) as [Ho|Ho].
    + destruct (Hown1 _ Ho) as (gc' & loc & ?&?&?&?&?&H). simplify_eq.
      destruct (H _ Hpl) as (p & ?&?). by exists p, loc.
    + destruct (Hu _ Ho) as [-> ->]. by apply evolve_saved.
  - intros c' Hc' Hs. destruct (decide (c' = c)) as [->|Hne]; [by auto|].
    rewrite Hgf //. rewrite Hstk // in Hs. by apply iv_gold0.
  - intros k. destruct (decide (own_ctx w = Some k)) as [Ho|Ho].
    + destruct (Hown1 _ Ho) as (gc' & loc & ->&->&_). split; by eexists.
    + destruct (Hu _ Ho) as [_ ->]. by rewrite evolve_dom.
  - intros k loc HL'. destruct (decide (own_ctx w = Some k)) as [Ho|Ho].
    + destruct (Hown1 _ Ho) as (gc' & loc' & ?&?&?&?&_). by simplify_eq.
    + destruct (Hu _ Ho) as [_ HL]. rewrite HL in HL'. split; [|by eauto].
      by apply iv_local0.
  - intros k gc loc Hk HL'. destruct (decide (own_ctx w = Some k)) as [Ho|Ho].
    + destruct (Hown1 _ Ho) as (gc' & loc' & ?&?&?&?&?&_). by simplify_eq.
    + destruct (Hu _ Ho) as [_ HL]. rewrite HL in HL'.
      destruct (evolve_inv _ _ _ _ _ He Ho Hk) as (gy & ? & <- & ?). by eapply iv_logs0.
  - intros k Hk. apply iv_nolog0. destruct (v_g v !! k) as [gy|] eqn:Ek; [|done].
    destruct (decide (own_ctx w = Some k)) as [Ho|Ho].
    + destruct (Hown1 _ Ho) as (? & ? & ?&_). by simplify_eq.
    + assert (is_Some (g !! k)) as [??] by (apply evolve_dom; [done|by eexists]).
      by simplify_eq.
  - rewrite -iv_lib0. exact (lib_ok_unique _ _ _ _ Hok).
  - intros k c2 φ hs Hk. destruct (decide (c2 = c)) as [->|Hne]; [by eauto|].
    by eapply evolve_run.
  - intros c2 h2 Hc2 Hg2. destruct (decide (c2 = c)) as [->|Hne].
    + destruct (guard s') as [c'|].
      { assert (c' = c) as -> by (destruct (decide (c' = c)); [done|by destruct (Hgd c')]).
        done. }
      destruct Hend as (_&_&h' & w' & ?&?&?). simplify_eq. by exists w'.
    + rewrite Hhw // in Hc2. destruct (evolve_out _ _ Hc2 Hne) as (w2 & Hw2 & Ho2 & Hok2).
      exists w2. split; [|done]. destruct Hw2 as (?&?&Hw2). split_and!; [done..|].
      destruct w2 as [k hs loc| |]; [|done..]. destruct Hw2 as (?&Hk&?).
      split_and!; [done..|].
      assert (own_ctx w ≠ Some k) as Ho by by apply Ho2.
      by destruct (Hu _ Ho) as [_ ->].
  - destruct (guard s') as [c'|].
    + assert (c' = c) as -> by (destruct (decide (c' = c)); [done|by destruct (Hgd c')]).
      done.
    + by destruct Hend as (->&->&_).
Qed.

End evolve.

(** *** Giving the guard back *)

Lemma insert_stack_same v c h (s : machine) p :
  v_stk v = stack <$> hws s → hws s !! c = Some h →
  v_stk v = stack <$> <[c := set_code p h]> (hws s).
Proof. intros -> Hc. by rewrite (stack_with_hw _ h). Qed.

Lemma inv_release n B s v L c h w g sig w' p :
  inv_at (S n) B s v L → guard s = Some c → hws s !! c = Some h → own_at c h v L w →
  evolve (own_ctx w) (v_g v) g → sig_ext c (v_sig v) sig →
  released clean c w w' (View (v_lib v) g (v_stk v) sig (v_gold v)) →
  ok_at clean n c w' false p →
  ∀ B', inv n B' (with_hw c (set_code p h) (with_guard None s)).
Proof.
  intros I Hg Hc Hown He Hsig [Hok Hrel] Hcode B'.
  pose proof Hown as (Hi & Hipi & Hw). pose proof (iv_lib _ _ _ _ _ I) as Hlib.
  set (L' := match w' with WUser k _ loc' => <[k := loc']> L | _ => L end).
  exists (View (v_lib v) g (v_stk v) sig (v_gold v)), L'.
  pose proof (v_stk_at _ _ _ _ _ _ _ I Hc) as Hst.
  assert (v_stk v !! c ≠ Some SBoot) as Hnb.
  { destruct w, w'; try done; cbn in Hrel; [destruct Hrel as (_&->&_)|destruct Hrel as (->&_)]; done. }
  eapply (inv_evolve n B s v L c h w I Hg Hc Hown g (v_stk v) sig None 0); try done.
  - by left.
  - cbn. apply insert_stack_same; [by apply I|done].
  - intros c' ?. cbn. by rewrite lookup_insert_ne.
  - intros y Hy. cbn. split; [done|]. subst L'. destruct w' as [k hs' loc'| |]; [|done..].
    destruct w as [k0 hs0 loc0| |]; [|done..]. destruct Hrel as (->&_).
    rewrite lookup_insert_ne //. by intros ->.
  - intros x Hx. destruct w as [k0 hs0 loc0| |]; [|done..].
    destruct w' as [k hs' loc'| |]; [|done..].
    destruct Hrel as (->&?&Hgk&(Hlog&_)&Hloc&Hlo). cbn in Hx, Hgk. simplify_eq.
    destruct Hw as (_&HL&_). exists (GCtx (Running c PPlain) hs'), loc'.
    split_and!; try done.
    + subst L'. by rewrite lookup_insert_eq.
    + rewrite Hlog. by eapply (iv_local _ _ _ _ _ I).
    + by rewrite -Hlib.
  - apply inv_S in I. by apply (iv_gold _ _ _ _ _ I).
  - intros k φ hs Hk. destruct Hok as [Hl _ _ Hcp _ _]. cbn in *.
    assert (last_of c (v_lib v) = Some k) as Hlast.
    { apply Hl. exists φ. unfold place_of. by rewrite Hk. }
    pose proof (co_stack _ _ _ _ Hcp _ _ Hst) as H. rewrite Hst.
    destruct (stack h) as [|[|]]; naive_solver.
  - cbn. split_and!; [done..|]. exists (set_code p h), w'. rewrite lookup_insert_eq.
    split_and!; [done| |by rewrite /= Hi].
    split; [by rewrite /= Hi|]. split; [intros Hcl; by rewrite /= Hipi|].
    destruct w as [k0 hs0 loc0|a0|], w' as [k hs' loc'|a|]; try done.
    + destruct Hrel as (->&Hsk&?&_). rewrite Hst in Hsk. simplify_eq.
      split_and!; [done..|]. subst L'. by rewrite lookup_insert_eq.
    + destruct Hrel as (Hsk&Hns). rewrite Hst in Hsk. simplify_eq. split; [done|].
      intros Hcl. cbn. rewrite Hipi // (Hns Hcl). by destruct a.
Qed.

(** *** Switching *)

Lemma stack_insert c h st (hs : gmap cpu_id hwcpu) p :
  <[c := st]> (stack <$> hs) = stack <$> <[c := set_code p (set_stack st h)]> hs.
Proof. by rewrite fmap_insert. Qed.

Lemma local_ok_stk d stk c st loc :
  st ≠ SBoot → local_ok d stk loc → local_ok d (<[c := st]> stk) loc.
Proof.
  intros Hst []. split; try done. intros c' Hb.
  destruct (decide (c = c')) as [<-|]; [|rewrite lookup_insert_ne; eauto].
  rewrite lookup_insert_eq. by intros [= ->].
Qed.

Lemma uc_cases u : (∃ c, u = Goldfish c) ∨ ∃ y, u = Uc y.
Proof. destruct u; eauto. Qed.

Section load.
Context (n B : nat) (s s1 : machine) (v : view) (L : gmap ctx local).
Context (c : cpu_id) (h : hwcpu) (w : who).
Context (I : inv_at (S n) B s v L) (Hg : guard s = Some c) (Hc : hws s !! c = Some h).
Context (Hown : own_at c h v L w).
Context (g : ghost) (sig : gset cpu_id) (b : nat) (u : uc_ref).
Context (He : evolve (own_ctx w) (v_g v) g) (Hsig : sig_ext c (v_sig v) sig).
Context (Hload : load clean c b (View (v_lib v) g (v_stk v) sig (v_gold v)) u).
Context (Hd : data s1 = data s) (Hg1 : guard s1 = guard s) (Hh : hws s1 = hws s).
Context (Hl : logs s1 = logs s).
Context (Hu : ∀ y, own_ctx w ≠ Some y → ucs s1 !! Uc y = ucs s !! Uc y).
Context (Hgf : ∀ c', (c' ≠ c ∨ u = Goldfish c) → ucs s1 !! Goldfish c' = ucs s !! Goldfish c').
Context (Ho : ∀ x, own_ctx w = Some x → ∃ gc loc,
  g !! x = Some gc ∧ L !! x = Some loc ∧ log_ok loc (g_holds gc) ∧
  (∀ φ, g_place gc ≠ Running c φ) ∧
  ∀ φ, saved_place (g_place gc) φ →
       ∃ p, ucs s1 !! Uc x = Some p ∧ saved n x φ (g_holds gc) loc p).
Context (Hgd : c ∈ v_gold v → u ≠ Goldfish c →
  ∃ p, ucs s1 !! Goldfish c = Some p ∧ saved_gold n c p).

Lemma load_lib_ok :
  ∃ e, lib_ok clean (Some c) e (View (v_lib v) g (<[c := SUc u]> (v_stk v)) sig (v_gold v)).
Proof.
  destruct u as [c'|y].
  - destruct Hload as (->&_&_&(?&_)). by eexists.
  - destruct Hload as (_&?&_). by eexists.
Qed.

Lemma loaded_saved y φ hs :
  u = Uc y → g !! y = Some (GCtx (Running c φ) hs) →
  ∃ p loc, ucs s1 !! Uc y = Some p ∧ L !! y = Some loc ∧ own_ctx w ≠ Some y ∧
           log_ok loc hs ∧ local_ok (data s) (v_stk v) loc ∧ saved n y φ hs loc p.
Proof.
  intros Eu Hy. destruct load_lib_ok as [e Hok].
  assert (own_ctx w ≠ Some y) as Hoy.
  { intros Hoy. destruct (Ho _ Hoy) as (gc & loc & ?&?&?&Hp&_). simplify_eq.
    by apply (Hp φ). }
  destruct (evolve_inv _ _ _ _ _ He Hoy Hy) as ([pl hs0] & Hy0 & Hhs & Hph). cbn in Hhs, Hph.
  subst hs0. apply inv_S in I as I'. rewrite Hu //.
  assert (saved_place pl φ) as Hpl.
  { destruct pl as [q φ'|c2 φ'|c2| |]; cbn in *; simplify_eq; try done.
    destruct (decide (c2 = c)) as [->|Hne].
    - destruct Hoy. eapply own_not_other; [exact I|exact Hc|exact Hown|exact Hy0|done].
    - edestruct (evolve_running n B s v L c h w I Hc Hown g (<[c:=SUc (Uc y)]> (v_stk v)))
        as (?&?&_); [done..| |done|by right|done|done|naive_solver].
      intros c' ?. by rewrite lookup_insert_ne. }
  destruct (iv_saved _ _ _ _ _ I' _ _ _ Hy0 Hpl) as (p & loc & ?&?&?).
  exists p, loc. split_and!; try done.
  - by apply (iv_logs _ _ _ _ _ I' _ _ _ Hy0).
  - by eapply (iv_local _ _ _ _ _ I').
Qed.

(** The context that is resumed exists, and is right. *)
Lemma load_code :
  uc_live u (data s) = true ∧
  ∃ p w', ucs s1 !! u = Some p ∧
    own_at c (set_code p (set_stack (SUc u) h))
      (View (v_lib v) g (<[c := SUc u]> (v_stk v)) sig (v_gold v)) L w' ∧
    ok clean n c (CIn b (View (v_lib v) g (<[c := SUc u]> (v_stk v)) sig (v_gold v)) w') p.
Proof.
  pose proof Hown as (Hi&Hip&_). pose proof (iv_lib _ _ _ _ _ I) as Hlib.
  pose proof Hload as Hld. destruct (uc_cases u) as [[c' Eu]|[y Eu]]; rewrite Eu in Hld.
  - destruct Hld as (->&Hb&Hns&Hres). rewrite !Eu. pose proof Hres as (Hok&?&Hcp&_). cbn in Hcp.
    split; [rewrite /= -Hlib; by apply bool_decide_eq_true|].
    rewrite Hgf; [|by right]. apply inv_S in I as I'.
    destruct (iv_gold _ _ _ _ _ I' c) as (p & ->&Hp); [by apply Hok|done|].
    exists p, (WGold true). split_and!; [done|by split_and!|by apply Hp].
  - destruct Hld as (Hb&Hok&(φ&hs&Hy)&Hidle). rewrite !Eu. cbn in Hy.
    destruct (loaded_saved _ _ _ Eu Hy) as (p & loc & ?&?&?&?&?&Hs).
    split.
    { rewrite /= -Hlib. apply bool_decide_eq_true, Hok. exists (Running c φ).
      cbn. by rewrite /place_of Hy. }
    exists p, (WUser y hs loc). split_and!; [done| |].
    + split_and!; cbn; [done..|by eauto].
    + apply Hs; [done|]. split_and!; cbn; [done|by rewrite lookup_insert_eq|done| |done|done].
      rewrite Hlib. by apply local_ok_stk.
Qed.

Lemma inv_load :
  ∃ p, ucs s1 !! u = Some p ∧ uc_live u (data s) = true ∧
       inv n b (with_hw c (set_code p (set_stack (SUc u) h)) s1).
Proof.
  destruct load_code as (Hlive & p & w' & Hp & Hown' & Hcode). destruct load_lib_ok as [e Hok].
  exists p. split_and!; [done..|].
  exists (View (v_lib v) g (<[c := SUc u]> (v_stk v)) sig (v_gold v)), L.
  eapply (inv_evolve n B s v L c h w I Hg Hc Hown g _ sig (Some c) e); try done.
  - intros c' ?. by rewrite lookup_insert_ne.
  - by right.
  - cbn. by rewrite (iv_stk _ _ _ _ _ I) Hh -stack_insert.
  - intros c' ?. cbn. by rewrite lookup_insert_ne // Hh.
  - intros c' ?. cbn. rewrite Hg1 Hg. naive_solver.
  - intros y Hy. split; [by apply Hu|done].
  - intros c' ?. apply Hgf. by left.
  - by rewrite lookup_insert_eq.
  - intros x Hx. destruct (Ho _ Hx) as (gc & loc & ?&HL&?&?&Hsv).
    exists gc, loc. destruct (iv_local _ _ _ _ _ I _ _ HL). split_and!; try done.
    by apply local_ok_stk.
  - intros ? Hne. apply Hgd; [done|]. intros ->. by rewrite lookup_insert_eq in Hne.
  - intros k φ hs Hk. destruct Hok as [Hlo _ _ _ _ _]. cbn in *. rewrite lookup_insert_eq.
    assert (last_of c (v_lib v) = Some k) as Hlast.
    { apply Hlo. exists φ. unfold place_of. by rewrite Hk. }
    destruct u as [c'|y].
    + destruct Hload as (->&_&_&(_&_&_&Hn&_)). cbn in Hn. congruence.
    + destruct Hload as (_&_&(φ'&hs'&Hy)&_). cbn in Hy.
      assert (last_of c (v_lib v) = Some y) as Hlast'.
      { apply Hlo. exists φ'. unfold place_of. by rewrite Hy. }
      congruence.
  - cbn. rewrite Hg1 Hg. exists (set_code p (set_stack (SUc u) h)), b, w'.
    by rewrite lookup_insert_eq.
Qed.

End load.

(** *** Making a context, signalling a CPU *)

Section entry.
Context (Hwrapped : ∀ n x, saved n x PPlain ∅ new_local (Thread.wrapped_function x)).
Context (Hwatch : ∀ n c, saved_gold n c Cpu.watch_suspend).

Lemma inv_make_thread n B s v L c h w b x p :
  inv_at (S n) B s v L → guard s = Some c → hws s !! c = Some h → own_at c h v L w →
  v_g v !! x = None →
  ok clean n c (CIn b (v_with_g (<[x := GCtx Made ∅]> (v_g v)) v) w) p →
  inv n b (with_hw c (set_code p h) (with_uc (Uc x) (entry_prog (EWrapped x)) s)).
Proof.
  intros I Hg Hc Hown Hx Hok. apply inv_S in I as I'.
  exists (v_with_g (<[x := GCtx Made ∅]> (v_g v)) v), (<[x := new_local]> L).
  assert (L !! x = None) as HLx.
  { apply eq_None_not_Some. intros Hs. apply (iv_dom _ _ _ _ _ I) in Hs.
    rewrite Hx in Hs. by destruct Hs. }
  assert (logs s !! x = None) as Hlx by by apply (iv_nolog _ _ _ _ _ I).
  assert (∀ y gy, v_g v !! y = Some gy → x ≠ y) as Hne by (intros ???->; simplify_eq).
  assert (∀ y gy, L !! y = Some gy → x ≠ y) as HneL by (intros ???->; simplify_eq).
  destruct I'. rewrite Hg in iv_in0. split; cbn; try done.
  - by apply insert_stack_same.
  - intros k gc φ. destruct (decide (x = k)) as [<-|Hk].
    + rewrite lookup_insert_eq. intros [= <-] ->.
      exists (Thread.wrapped_function x), new_local. by rewrite !lookup_insert_eq.
    + rewrite !lookup_insert_ne //; [apply iv_saved0|by intros [= ]].
  - intros c' ??. rewrite lookup_insert_ne //. by apply iv_gold0.
  - intros k. destruct (decide (x = k)) as [<-|Hk].
    + rewrite !lookup_insert_eq. split; by eexists.
    + by rewrite !lookup_insert_ne.
  - intros k loc. destruct (decide (x = k)) as [<-|Hk].
    + rewrite lookup_insert_eq Hlx. intros [= <-]. split; [done|].
      split; cbn; try done; intros i; set_solver.
    + rewrite lookup_insert_ne //. by apply iv_local0.
  - intros k gc loc. destruct (decide (x = k)) as [<-|Hk].
    + rewrite !lookup_insert_eq. by intros [= <-] [= <-].
    + rewrite !lookup_insert_ne //. by apply iv_logs0.
  - intros k. destruct (decide (x = k)) as [<-|Hk]; [by rewrite lookup_insert_eq|].
    rewrite lookup_insert_ne //. apply iv_nolog0.
  - intros Hnw m k k' gc gc'. rewrite !lookup_insert_Some.
    intros [[<- <-]|[_ ?]] [[<- <-]|[_ ?]]; [done|set_solver..|]. by eapply iv_unique0.
  - intros k c' φ hs. destruct (decide (x = k)) as [<-|Hk].
    + by rewrite lookup_insert_eq.
    + rewrite lookup_insert_ne //. apply iv_run0.
  - intros c' h' Hc' Hg'. rewrite lookup_insert_ne in Hc'; [|naive_solver].
    destruct (iv_out0 _ _ Hc' Hg') as (w' & (?&?&Hw') & ?). exists w'. split; [|done].
    split_and!; [done..|]. destruct w' as [k hs loc| |]; [|done..].
    destruct Hw' as (?&Hk&?). split_and!; [done| |].
    + rewrite lookup_insert_ne //. by eapply Hne.
    + rewrite lookup_insert_ne //. by eapply Hne.
  - rewrite Hg. exists (set_code p h), b, w. rewrite lookup_insert_eq.
    split_and!; [done|done| |done]. destruct Hown as (?&?&Hw). split_and!; [done..|].
    destruct w as [k hs loc| |]; [|done..]. destruct Hw as (?&?&φ&hs0&?). cbn.
    split_and!; [done| |exists φ, hs0]; rewrite lookup_insert_ne //; by eapply Hne.
Qed.

Lemma inv_make_goldfish n B s v L c h w b p :
  inv_at (S n) B s v L → guard s = Some c → hws s !! c = Some h → own_at c h v L w →
  ok clean n c (CIn b (v_with_gold ({[c]} ∪ v_gold v) v) w) p →
  inv n b (with_hw c (set_code p h) (with_uc (Goldfish c) Cpu.watch_suspend s)).
Proof.
  intros I Hg Hc Hown Hok. apply inv_S in I as I'.
  exists (v_with_gold ({[c]} ∪ v_gold v) v), L.
  destruct I'. rewrite Hg in iv_in0. split; cbn; try done.
  - by apply insert_stack_same.
  - intros k gc φ ??. rewrite lookup_insert_ne //. by apply iv_saved0.
  - intros c' Hin ?. destruct (decide (c' = c)) as [->|Hne].
    + exists Cpu.watch_suspend. by rewrite lookup_insert_eq.
    + rewrite lookup_insert_ne; [|naive_solver]. apply iv_gold0; [set_solver|done].
  - intros c' h' Hc' Hg'. rewrite lookup_insert_ne in Hc'; [|naive_solver].
    by apply iv_out0.
  - rewrite Hg. exists (set_code p h), b, w. by rewrite lookup_insert_eq.
Qed.

End entry.

Lemma inv_send n B s v L c h w b c' p :
  inv_at (S n) B s v L → guard s = Some c → hws s !! c = Some h → own_at c h v L w →
  is_Some (v_stk v !! c') →
  (clean = true → v_stk v !! c' = Some (SUc (Goldfish c')) ∧ c' ≠ c ∧ c' ∉ v_sig v) →
  ok clean n c (CIn b (v_with_sig ({[c']} ∪ v_sig v) v) w) p →
  inv n b (mk_machine (data s) (guard s)
           (alter (set_ipi true) c' (<[c := set_code p h]> (hws s))) (ucs s) (logs s)).
Proof.
  intros I Hg Hc Hown Hst Hcl Hok. apply inv_S in I as I'.
  exists (v_with_sig ({[c']} ∪ v_sig v) v), L. pose proof (iv_in _ _ _ _ _ I') as Hin.
  destruct I'. rewrite Hg in Hin iv_in0. split; cbn; try done.
  - rewrite (insert_stack_same v c h s p) //. apply map_eq. intros c2.
    rewrite !lookup_fmap. destruct (decide (c' = c2)) as [->|Hne].
    + rewrite lookup_alter_eq. by destruct (<[c := set_code p h]> (hws s) !! c2).
    + by rewrite lookup_alter_ne.
  - intros c2 h2 Hc2 Hg2. assert (c2 ≠ c) as Hne2 by naive_solver.
    destruct (decide (c' = c2)) as [->|Hne].
    + rewrite lookup_alter_eq lookup_insert_ne // in Hc2.
      destruct (hws s !! c2) as [h0|] eqn:Hc0; simplify_eq/=.
      destruct (iv_out0 _ _ Hc0 Hg2) as (w2 & (Hi2&Hp2&Hw2) & Hok2).
      exists w2. split; [|done]. destruct clean eqn:Ecl.
      * destruct (Hcl eq_refl) as (Hs2 & _ & Hsig2).
        rewrite (v_stk_at _ _ _ _ _ _ _ I Hc0) in Hs2. simplify_eq.
        destruct w2 as [k2 hs2 loc2|a|]; [by destruct Hw2; congruence| |by congruence].
        destruct Hw2 as (?&Hsg). specialize (Hsg eq_refl).
        assert (ipi h0 = false ∧ a = false) as [? ->].
        { destruct (ipi h0), a; try done; destruct Hsig2; by apply Hsg. }
        split_and!; cbn; [done|done|done|]. intros _. set_solver.
      * split; [done|]. rewrite Ecl. split; [done|]. destruct w2 as [k2 hs2 loc2|a|]; [done| |done].
        destruct Hw2 as (?&_). by split.
    + rewrite lookup_alter_ne // lookup_insert_ne // in Hc2.
      destruct (iv_out0 _ _ Hc2 Hg2) as (w2 & (Hi2&Hp2&Hw2) & Hok2).
      exists w2. split; [|done]. split_and!; [done..|].
      destruct w2 as [k2 hs2 loc2|a|]; [done| |done].
      destruct Hw2 as (?&Hsg). split; [done|]. intros Hc'. cbn. rewrite -(Hsg Hc').
      set_solver.
  - rewrite Hg. destruct (decide (c' = c)) as [->|Hne].
    + exists (set_ipi true (set_code p h)), b, w. rewrite lookup_alter_eq lookup_insert_eq.
      split_and!; [done|done| |done]. destruct Hown as (?&?&Hw). split_and!; [done| |by destruct w].
      intros Hc'. by destruct (Hcl Hc') as (_&?&_).
    + exists (set_code p h), b, w. rewrite lookup_alter_ne // lookup_insert_eq.
      split_and!; [done|done| |done]. by destruct w.
Qed.

(** ** One action of the CPU with the guard *)

Section entries.
Context (Hwrapped : ∀ n x, saved n x PPlain ∅ new_local (Thread.wrapped_function x)).
Context (Hwatch : ∀ n c, saved_gold n c Cpu.watch_suspend).
Context (Htimer : ∀ n c w p, is_Some (own_ctx w) ∨ w = WGold true →
  ok_at clean n c w true p →
  ok_at clean n c w true (bind Cpu.timer_interrupt_handler (λ _, p))).

Section in_act.
Context (n B : nat) (s : machine) (v : view) (L : gmap ctx local).
Context (c : cpu_id) (h : hwcpu) (w : who).
Context (I : inv_at (S n) B s v L) (Hg : guard s = Some c) (Hc : hws s !! c = Some h).
Context (Hown : own_at c h v L w).

Lemma own_protected s1 : guard s1 = guard s → protected c h s1 = true.
Proof.
  intros Hg1. unfold protected. rewrite Hg1 Hg bool_decide_eq_true_2 //.
  by destruct Hown as [-> _].
Qed.

Lemma on_stack_false u : (∀ c', v_stk v !! c' ≠ Some (SUc u)) → on_stack u s = false.
Proof.
  intros H. apply bool_decide_eq_false. intros (c' & h' & Hc' & Hs').
  apply (H c'). by rewrite (v_stk_at _ _ _ _ _ _ _ I Hc') Hs'.
Qed.

Lemma delete_context_mono fin u d d' :
  delete_context u d = Some (tt, d') → lib_mono fin d d'.
Proof.
  unfold delete_context, writes. destruct (contexts d !! u); [|done].
  intros [= <-]. unfold lib_mono, finished. cbn. naive_solver.
Qed.

Lemma swap_sound b u u' p o :
  save_and_load clean (ok clean n) c b v w u u' p →
  step_act c h false (SwapContext u u') (λ _, p) s = Some o → sound_step n b o.
Proof.
  intros (Hlive & Hst & g & sig & He & Hsig & Hload & Hsave) Hstep.
  rewrite (v_stk_at _ _ _ _ _ _ _ I Hc) in Hst. rewrite (iv_lib _ _ _ _ _ I) in Hlive.
  cbn in Hstep. simplify_eq.
  rewrite Hlive bool_decide_eq_true_2 // in Hstep. cbn [andb negb] in Hstep.
  destruct (inv_load n B s (with_uc u p s) v L c h w I Hg Hc Hown g sig b u' He Hsig Hload)
    as (p0 & Hp0 & Hlive' & Hinv); try done.
  - intros y Hy. cbn. rewrite lookup_insert_ne //. intros ->.
    destruct w as [k hs loc| |]; [|by destruct Hsave..]. destruct Hsave as (->&_). done.
  - intros c' Hc'. cbn. rewrite lookup_insert_ne //. intros ->.
    destruct w as [|a|]; [by destruct Hsave| |by destruct Hsave].
    destruct Hsave as (->&_). destruct Hc' as [?|Hu']; [done|]. subst u'.
    destruct Hload as (_&_&Hns&_). cbn in Hns.
    by rewrite (v_stk_at _ _ _ _ _ _ _ I Hc) Hst in Hns.
  - intros x Hx. destruct w as [k hs loc| |]; [|done..]. cbn in Hx. simplify_eq.
    destruct u as [|y]; [done|]. destruct Hsave as (->&pl&φ&hs'&Hgx&Hpl&Hlo&Hsv).
    destruct Hown as (_&_&_&HL&_). exists (GCtx pl hs'), loc. split_and!; try done.
    + intros φ' Hpl'. cbn in Hpl'. by subst pl.
    + intros φ' Hpl'. exists p. cbn in Hpl' |- *. rewrite lookup_insert_eq. split; [done|].
      assert (φ' = φ) as -> by (destruct pl; cbn in *; by simplify_eq).
      intros c' b' v' ??. by apply Hsv.
  - intros Hcg Hne. destruct u as [c'|y].
    + destruct w as [|a|]; [done| |done]. destruct Hsave as (->&_&Hsv).
      exists p. cbn. rewrite lookup_insert_eq. split; [done|]. intros b' v' ??. by apply Hsv.
    + apply inv_S in I as I'. cbn. rewrite lookup_insert_ne //.
      apply (iv_gold _ _ _ _ _ I' _ Hcg). by rewrite (v_stk_at _ _ _ _ _ _ _ I Hc) Hst.
  - unfold switch_to in Hstep. rewrite own_protected // in Hstep. cbn in Hstep, Hp0.
    rewrite Hlive' in Hstep. cbn in Hstep. rewrite Hp0 in Hstep. simplify_eq.
    by eapply go_sound.
Qed.

Lemma set_sound b u o :
  only_load clean c b v w u →
  step_act c h false (SetContext u) (λ _, Ret tt) s = Some o → sound_step n b o.
Proof.
  intros (g & sig & He & Hsig & Hload & Hw) Hstep. cbn in Hstep.
  destruct (inv_load n B s s v L c h w I Hg Hc Hown g sig b u He Hsig Hload)
    as (p0 & Hp0 & Hlive' & Hinv); try done.
  - intros x Hx. destruct w as [k hs loc| |]; [|done..]. cbn in Hx. simplify_eq.
    destruct Hw as (pl&hs'&Hgx&Hpl&Hlo). destruct Hown as (_&_&_&HL&_).
    exists (GCtx pl hs'), loc. split_and!; try done.
    + intros φ Hpl'. cbn in Hpl'. by subst pl.
    + intros φ Hpl'. by destruct pl.
  - intros Hcg _. apply inv_S in I as I'. apply (iv_gold _ _ _ _ _ I' _ Hcg).
    rewrite (v_stk_at _ _ _ _ _ _ _ I Hc). destruct Hown as (_&_&Hs).
    destruct w as [k hs loc| |]; [destruct Hs as [-> _]; done|done|by rewrite Hs].
  - unfold switch_to in Hstep. rewrite own_protected // in Hstep. cbn in Hstep.
    rewrite Hlive' in Hstep. cbn in Hstep. rewrite Hp0 in Hstep. by eapply go_sound.
Qed.

Lemma in_act_sound oom b {R : Set} (a : act R) k o :
  in_act clean (ok clean n) c b v w a k → (oom = true → v_stk v !! c ≠ Some SBoot) →
  step_act c h oom a k s = Some o → sound_step n b o.
Proof.
  intros Hok Hoom Hstep. pose proof (iv_lib _ _ _ _ _ I) as Hlib.
  assert (∀ p, ok clean n c (CIn b v w) p → inv n b (with_hw c (set_code p h) s)) as Hstay.
  { intros p Hp. by eapply inv_in_stay. }
  destruct a; cbn in Hok; try done.
  - eapply go_sound; [done|]. by apply Hstay.
  - cbn in Hstep. pose proof Hown as (Hi&_). rewrite Hi in Hstep.
    eapply go_sound; [done|]. by apply Hstay.
  - destruct Hok as (Hst & Hcl & Hok). cbn in Hstep.
    assert (is_Some (hws s !! c0)) as [h0 Hh0].
    { rewrite (iv_stk _ _ _ _ _ I) lookup_fmap in Hst. by apply fmap_is_Some in Hst. }
    rewrite Hh0 in Hstep. injection Hstep as <-. eexists. split; [done|].
    by eapply inv_send.
  - destruct Hok as (-> & g & sig & w' & He & Hsig & Hrel & Hk). cbn in Hstep.
    rewrite decide_True // in Hstep. eapply go_sound; [done|].
    eapply inv_release; try done.
  - cbn in Hstep. eapply go_sound; [done|]. apply Hstay. by rewrite Hg.
  - destruct Hok as [-> Hok]. cbn in Hstep. eapply go_sound; [done|]. by apply Hstay.
  - destruct Hok as (r & d & Hf & Hm & Hok). cbn in Hstep. rewrite own_protected // in Hstep.
    cbn in Hstep. rewrite -Hlib Hf in Hstep. eapply go_sound; [done|].
    eexists _, _. eapply inv_in_move; try done. by rewrite -Hlib.
  - destruct Hok as (d & Hf & Hs & Hok). cbn in Hstep.
    rewrite own_protected // on_stack_false // in Hstep. cbn in Hstep.
    rewrite -Hlib Hf in Hstep. eapply go_sound; [done|].
    eexists _, _. eapply inv_in_move; try done.
    rewrite -Hlib. by eapply delete_context_mono.
  - destruct Hok as [Ht Hf]. cbn in Hstep. eapply go_sound; [done|]. apply Hstay.
    destruct oom; [|done]. by apply Hf, Hoom.
  - destruct Hok as [Hlive Hok]. cbn in Hstep. rewrite -Hlib Hlive in Hstep.
    cbn in Hstep. eapply go_sound; [done|]. destruct u as [c'|x].
    + destruct Hok as (-> & -> & Hst & Hok). by eapply inv_make_goldfish.
    + destruct Hok as (-> & Hx & Hok). by eapply inv_make_thread.
  - eapply swap_sound; [done|]. exact Hstep.
  - eapply set_sound; [done|]. exact Hstep.
Qed.

End in_act.

(** ** Steps *)

(** In a clean run threads create threads only when every CPU has booted. *)
Definition allowed (s : machine) (l : label) : Prop :=
  match l with
  | LCall _ OCreate => clean = true → ∀ c h, hws s !! c = Some h → stack h ≠ SBoot
  | _ => True
  end.

Lemma ok_at_act n c w i {R : Set} (a : act R) k :
  ok_at clean (S n) c w i (Act a k) →
  ∀ c', runs_on w c c' → out_act clean (ok clean n) c' w i a k.
Proof. intros H c' Hc'. exact (H c' Hc'). Qed.

(** The steps the CPU with the guard makes itself. *)
Definition own_step (c : cpu_id) (l : label) : nat :=
  match l with
  | LRun c' | LOom c' => if decide (c' = c) then 1%nat else 0%nat
  | _ => 0%nat
  end.

(** How the bound on the critical section changes: a new one is bounded when it
    begins, and the steps of its CPU use it up. *)
Definition tick (l : label) (s s' : machine) (B B' : nat) : Prop :=
  match guard s with
  | None => guard s' ≠ None → (B' ≤ cs_bound (data s))%nat
  | Some c => (B' + own_step c l ≤ B)%nat
  end.

Definition good_step (n B : nat) (l : label) (s : machine) (o : outcome) : Prop :=
  ∃ s' B', o = Next s' ∧ inv n B' s' ∧ tick l s s' B B'.

Lemma out_good n B l s o :
  (∀ c, guard s = Some c → own_step c l = 0%nat) → out_step n B s o → good_step n B l s o.
Proof.
  intros Hl (s' & B' & -> & Hinv & Hb & Ha). exists s', B'. split_and!; [done..|].
  unfold tick. destruct (guard s) as [c|]; [|by apply Ha].
  rewrite Hb // (Hl c eq_refl). lia.
Qed.

Lemma step_cpu_sound n B s c oom l o :
  inv (S n) B s → (oom = true → ∃ h, hws s !! c = Some h ∧ stack h ≠ SBoot) →
  own_step c l = 1%nat → (∀ c', c' ≠ c → own_step c' l = 0%nat) →
  step_cpu c oom s = Some o → good_step n B l s o.
Proof.
  intros (v & L & I) Hoom Hl Hl' Hstep. unfold step_cpu in Hstep.
  destruct (hws s !! c) as [h|] eqn:Hc; [|done]. cbn in Hstep.
  assert (oom = true → v_stk v !! c ≠ Some SBoot) as Hoom'.
  { intros ->. destruct (Hoom eq_refl) as (h' & ? & ?). simplify_eq.
    rewrite (v_stk_at _ _ _ _ _ _ _ I Hc). by intros [= ?]. }
  destruct (decide (guard s = Some c)) as [Hg|Hg].
  - pose proof (iv_in _ _ _ _ _ I) as Hin. rewrite Hg in Hin.
    destruct Hin as (h' & b & w & Hb & Hc' & Hown & Hok). simplify_eq.
    destruct b as [|b]; [by destruct (code h)|].
    assert (sound_step n b o) as (s' & -> & Hinv).
    { destruct (code h) as [x|e|R a k|a p|p]; try done.
      - by eapply (in_act_sound n B s v L c h w I Hg Hc Hown oom b a k).
      - eapply go_sound; [done|]. eapply inv_in_stay; [done..|]. exact Hok. }
    exists s', b. split_and!; [done..|]. unfold tick. rewrite Hg Hl. lia.
  - apply out_good; [intros c' Hc'; apply Hl'; congruence|].
    destruct (iv_out _ _ _ _ _ I _ _ Hc Hg) as (w & Hw & Hok).
    destruct (code h) as [x|e|R a k|a p|p]; try (by destruct (Hok c ltac:(done))).
    + eapply out_act_sound; [done..| |done]. by apply ok_at_act.
    + eapply (out_act_sound n B s v L c h oom w a (λ b : bool, if b then Spin a p else p));
        [done..| |exact Hstep].
      intros c' Hc'. exact (Hok c' Hc').
    + eapply go_out; [done|done|]. exists v, L. eapply inv_out_move; [done..| |].
      * destruct Hw as (?&?&?). split_and!; [done..|]. by destruct w.
      * intros c' Hc'. exact (Hok c' Hc').
Qed.

(** The thread at its client code. *)
Lemma at_func_inv n B s v L c h x :
  inv_at (S n) B s v L → hws s !! c = Some h → thread_of h = Some x → at_func h = true →
  guard s ≠ Some c ∧ ∃ hs loc k,
    code h = Act Func k ∧ who_at c h v L (WUser x hs loc) ∧
    local_ok (data s) (v_stk v) loc ∧ log_ok loc hs ∧ ints h = true ∧
    ∀ c', out_act clean (ok clean n) c' (WUser x hs loc) true Func k.
Proof.
  intros I Hc Hx Hf. unfold at_func in Hf.
  destruct (code h) as [| |R a k| |] eqn:Ecode; [done..| |done|done].
  assert (stack h = SUc (Uc x)) as Hs.
  { unfold thread_of in Hx. by destruct (stack h) as [|[]]; simplify_eq. }
  destruct a; try done.
  assert (guard s ≠ Some c) as Hg.
  { intros Hg. pose proof (iv_in _ _ _ _ _ I) as Hin. rewrite Hg in Hin.
    destruct Hin as (h' & b & w & _ & Hc' & Hown & Hok). simplify_eq. rewrite Ecode in Hok.
    by destruct b. }
  split; [done|]. destruct (iv_out _ _ _ _ _ I _ _ Hc Hg) as (w & Hw & Hok).
  rewrite Ecode in Hok. pose proof Hw as (_&_&Hw'). rewrite Hs in Hw'.
  destruct w as [x' hs loc|a|]; [|by destruct Hw'|done]. destruct Hw' as ([= ->]&Hk&HL).
  assert (ints h = true) as Hi.
  { by destruct (Hok c ltac:(done)). }
  exists hs, loc, k. split_and!; try done.
  - by eapply (iv_local _ _ _ _ _ I).
  - by apply (iv_logs _ _ _ _ _ I _ _ _ Hk).
  - rewrite -Hi. intros c'. by apply (ok_at_act _ _ _ _ _ _ Hok).
Qed.

Lemma client_step_call h o : client_step h (ECall o) ⊆ h.
Proof. destruct o; cbn; set_solver. Qed.

(** A CPU that may be interrupted does not hold the guard. *)
Lemma ints_out n B s v L c h :
  inv_at n B s v L → hws s !! c = Some h → ints h = true →
  guard s ≠ Some c ∧ ∃ w, who_at c h v L w ∧ ok_at clean n c w true (code h).
Proof.
  intros I Hc Hi. assert (guard s ≠ Some c) as Hg.
  { intros Hg. pose proof (iv_in _ _ _ _ _ I) as Hin. rewrite Hg in Hin.
    destruct Hin as (h' & b & w & _ & Hc' & (Hi'&_) & _). simplify_eq. by rewrite Hi in Hi'. }
  split; [done|]. rewrite -Hi. by apply (iv_out _ _ _ _ _ I).
Qed.

Lemma timer_sound n B s c o :
  inv (S n) B s → step (LTimer c) s = Some o → out_step n B s o.
Proof.
  intros (v & L & I) Hstep. cbn in Hstep. destruct (hws s !! c) as [h|] eqn:Hc; [|done].
  cbn in Hstep. destruct (ints h) eqn:Hi; [|done].
  destruct (ints_out _ _ _ _ _ _ _ I Hc Hi) as (Hg & w & Hw & Hok).
  eapply go_out; [done|done|]. exists v, L. eapply inv_out_move; [done..| |].
  - destruct Hw as (?&?&?). split_and!; [done..|]. by destruct w.
  - rewrite /= Hi. apply Htimer; [by apply Hw|]. intros c' Hc'. by apply ok_S, Hok.
Qed.

Lemma ipi_sound n B s c o :
  inv (S n) B s → step (LIpi c) s = Some o → out_step n B s o.
Proof.
  intros (v & L & I) Hstep. cbn in Hstep. destruct (hws s !! c) as [h|] eqn:Hc; [|done].
  cbn in Hstep. destruct (ints h && ipi h) eqn:Hi; [|done]. apply andb_true_iff in Hi as [Hi Hp].
  destruct (ints_out _ _ _ _ _ _ _ I Hc Hi) as (Hg & w & Hw & Hok).
  eapply go_out; [done|done|]. exists v, L. eapply inv_out_move; [done..| |].
  - destruct Hw as (Hiw&Hpw&Hw). split_and!; [done|done|].
    destruct w as [|a|]; [done| |done]. destruct Hw as (?&Hsig). split; [done|].
    intros Hcl. specialize (Hpw Hcl Hp). simplify_eq. by destruct (Hiw Hi) as [[]|].
  - cbn. rewrite Hi. intros c' Hc'. by apply ok_S, Hok.
Qed.

Lemma call_sound n B s c op o :
  inv (S n) B s → allowed s (LCall c op) → step (LCall c op) s = Some o → out_step n B s o.
Proof.
  intros (v & L & I) Hall Hstep. cbn in Hstep. destruct (hws s !! c) as [h|] eqn:Hc; [|done].
  cbn in Hstep. destruct (thread_of h) as [x|] eqn:Hx; [|done]. cbn in Hstep.
  destruct (at_func h && callable op (data s)) eqn:Hb; [|done].
  apply andb_true_iff in Hb as [Hf Hcall].
  destruct (at_func_inv _ _ _ _ _ _ _ _ I Hc Hx Hf)
    as (Hg & hs & loc & k & Ecode & Hw & Hloc & Hlo & Hi & Hok).
  eapply go_out; [done|done|]. exists v, (<[x := call_local clean op loc]> L).
  eapply (inv_out_log n B s v L c h _ x hs loc _ (ECall op)); try done.
  - destruct Hloc. split; cbn; [done|..].
    + intros i. destruct op; try exact (lc_known i).
      intros [->%elem_of_singleton|?]%elem_of_union; [|by auto].
      by apply bool_decide_eq_true in Hcall.
    + intros c' Hb'. apply orb_true_iff in Hb' as [Hb'|Hb']; [by auto|].
      apply andb_true_iff in Hb' as [Hcl ->%bool_decide_eq_true].
      rewrite (iv_stk _ _ _ _ _ I) lookup_fmap.
      destruct (hws s !! c') as [h'|] eqn:Hc'; [|done]. intros [= Hs'].
      by apply (Hall Hcl _ _ Hc').
    + intros i [Hin|Hin%list_elem_of_singleton]%elem_of_app; [by auto|done].
  - unfold log_ok in *. change (client_holds (l_log loc ++ [ECall op]) ⊆ hs).
    rewrite client_holds_snoc. etransitivity; [apply client_step_call|done].
  - cbn. rewrite Hi Ecode. intros c' _. destruct (Hok c') as (_&Hcalls&_). apply Hcalls.
Qed.

Lemma finish_sound n B s c o :
  inv (S n) B s → step (LFinish c) s = Some o → out_step n B s o.
Proof.
  intros (v & L & I) Hstep. cbn in Hstep. destruct (hws s !! c) as [h|] eqn:Hc; [|done].
  cbn in Hstep. destruct (thread_of h) as [x|] eqn:Hx; [|done]. cbn in Hstep.
  destruct (at_func h) eqn:Hf; [|done].
  destruct (at_func_inv _ _ _ _ _ _ _ _ I Hc Hx Hf)
    as (Hg & hs & loc & k & Ecode & Hw & Hloc & Hlo & Hi & Hok).
  eapply go_out; [done|done|]. exists v, (<[x := add_event EFinish loc]> L).
  eapply (inv_out_log n B s v L c h _ x hs loc _ EFinish); try done.
  - by eapply (local_ok_note _ _ _ hs).
  - by apply log_ok_note.
  - cbn. rewrite Hi Ecode. intros c' _. by destruct (Hok c') as (_&_&?).
Qed.

Lemma own_step_other (c c' : cpu_id) : c' ≠ c → (if decide (c = c') then 1 else 0)%nat = 0%nat.
Proof. intros ?. by rewrite decide_False. Qed.

Lemma step_sound n B s l o :
  inv (S n) B s → allowed s l → step l s = Some o → good_step n B l s o.
Proof.
  intros Hinv Hall Hstep. destruct l as [c|c|c|c|c op|c].
  - apply (step_cpu_sound n B s c false); try done; cbn; [by rewrite decide_True|].
    apply own_step_other.
  - cbn in Hstep. destruct (hws s !! c) as [h|] eqn:Hc; [|done]. cbn in Hstep.
    destruct (may_fail h) eqn:Hm; [|done].
    eapply (step_cpu_sound n B s c true); try done; cbn; [|by rewrite decide_True|apply own_step_other].
    intros _. exists h. split; [done|]. unfold may_fail in Hm. intros E. rewrite E in Hm.
    destruct (code h) as [| |R [] k| |]; done.
  - apply out_good; [done|]. by eapply timer_sound.
  - apply out_good; [done|]. by eapply ipi_sound.
  - apply out_good; [done|]. by eapply call_sound.
  - apply out_good; [done|]. by eapply finish_sound.
Qed.

(** ** Runs *)

Lemma reachable_inv n s :
  (∀ m, ∃ B, inv m B (boot n)) → reachable allowed n s → ∀ m, ∃ B, inv m B s.
Proof.
  intros Hboot. induction 1 as [|s l s' Hr IH Hall Hstep]; [done|]. intros m.
  destruct (IH (S m)) as [B HB].
  destruct (step_sound m B s l _ HB Hall Hstep) as (s2 & B' & [= ->] & ? & _). by exists B'.
Qed.

End entries.

End sound.
