(* ===== verification/ThreadMoves.v ===== *)
(** * Moves of contexts between queues and CPUs

    How the parts of [lib_ok] are kept when a context moves from one place to
    another, as facts on what the library can observe of its objects before and
    after: the code of ThreadLib is not mentioned here. *)

From stdpp Require Import fin_sets.
From S2P Require Import Prelude CStd ThreadTypes ThreadMonad ThreadLib ThreadMachine ThreadInv.

(** ** Annotations *)

Lemma place_of_insert g k k' gc :
  place_of (<[k := gc]> g) k' = if decide (k = k') then Some (g_place gc) else place_of g k'.
Proof.
  unfold place_of. case_decide as E; [subst; by rewrite lookup_insert_eq|].
  by rewrite lookup_insert_ne.
Qed.

Lemma place_of_lookup g k p : place_of g k = Some p → ∃ hs, g !! k = Some (GCtx p hs).
Proof. unfold place_of. destruct (g !! k) as [[? hs]|]; [|done]. intros [= <-]. by exists hs. Qed.

Lemma lookup_place_of g k p hs : g !! k = Some (GCtx p hs) → place_of g k = Some p.
Proof. unfold place_of. by intros ->. Qed.

Lemma evolve_refl own g : evolve own g g.
Proof. intros y _. by destruct (g !! y). Qed.

Lemma evolve_own k g0 g gc : evolve (Some k) g0 g → evolve (Some k) g0 (<[k := gc]> g).
Proof. intros H y Hy. rewrite lookup_insert_ne; [by apply H|congruence]. Qed.

Lemma evolve_insert own g0 g y p p' hs :
  evolve own g0 g → g !! y = Some (GCtx p hs) → phase_of p = phase_of p' →
  evolve own g0 (<[y := GCtx p' hs]> g).
Proof.
  intros H Hy Hp x Hx. specialize (H x Hx). destruct (decide (y = x)) as [<-|Hne].
  - rewrite lookup_insert_eq. rewrite Hy in H. destruct (g0 !! y); [|done]. cbn in *.
    destruct H. split; congruence.
  - by rewrite lookup_insert_ne.
Qed.

Lemma sig_ext_refl c sig : sig_ext c sig sig.
Proof. done. Qed.

Lemma dom_insert_eq (g : ghost) k gc gc0 :
  g !! k = Some gc0 → ∀ k', is_Some (<[k := gc]> g !! k') ↔ is_Some (g !! k').
Proof.
  intros Hk k'. destruct (decide (k = k')) as [<-|Hne].
  - rewrite lookup_insert_eq Hk. split; by eexists.
  - by rewrite lookup_insert_ne.
Qed.

(** ** Where contexts are *)

Lemma elem_of_some_fmap (k : ctx) ks : Some k ∈ (Some <$> ks : list (option ctx)) ↔ k ∈ ks.
Proof.
  rewrite list_elem_of_fmap. split; [by intros (? & [= ->] & ?)|]. intros. by exists k.
Qed.

(** A queue holds the contexts annotated with it. *)
Definition queue_places (l : deque) (q : queue_ref) (g : ghost) : Prop :=
  ∃ ks, l = Some <$> ks ∧ NoDup ks ∧ ∀ k, k ∈ ks ↔ ∃ φ, place_of g k = Some (InQ q φ).

Lemma queue_places_same l q g g' :
  queue_places l q g →
  (∀ k, (∃ φ, place_of g' k = Some (InQ q φ)) ↔ (∃ φ, place_of g k = Some (InQ q φ))) →
  queue_places l q g'.
Proof.
  intros (ks & -> & ? & Hk) Hg. exists ks. split_and!; [done..|]. intros k. by rewrite Hk Hg.
Qed.

Lemma queue_places_push l q g k φ hs :
  queue_places l q g → ¬ (∃ φ, place_of g k = Some (InQ q φ)) →
  queue_places (l ++ [Some k]) q (<[k := GCtx (InQ q φ) hs]> g).
Proof.
  intros (ks & -> & Hnd & Hks) Hk. exists (ks ++ [k]). split_and!.
  - by rewrite fmap_app.
  - apply NoDup_app. split_and!; [done| |by apply NoDup_singleton].
    intros x Hx ->%list_elem_of_singleton. by apply Hk, Hks.
  - intros x. rewrite elem_of_app list_elem_of_singleton place_of_insert Hks.
    case_decide as E; [subst; naive_solver|naive_solver].
Qed.

Lemma queue_places_pop l q g y gc :
  queue_places (Some y :: l) q g → (∀ φ, g_place gc ≠ InQ q φ) →
  queue_places l q (<[y := gc]> g) ∧ ∃ φ, place_of g y = Some (InQ q φ).
Proof.
  intros (ks & Heq & Hnd & Hks) Hgc. destruct ks as [|y' ks]; [done|]. injection Heq as [= <- ->].
  apply NoDup_cons in Hnd as [Hy Hnd]. split.
  - exists ks. split_and!; [done..|]. intros x. rewrite place_of_insert. case_decide as E.
    + subst x. split; [done|]. intros (φ & [= ?]). by destruct (Hgc φ).
    + rewrite -Hks elem_of_cons. naive_solver.
  - apply Hks. by left.
Qed.

Lemma queue_places_front q g x l : queue_places (x :: l) q g → ∃ y, x = Some y.
Proof. intros ([|y ks] & Heq & _); [done|]. injection Heq as [= -> ?]. by exists y. Qed.

Lemma queue_places_nil q g : queue_places [] q g ↔ ∀ k φ, place_of g k ≠ Some (InQ q φ).
Proof.
  split.
  - intros ([|y ks] & Heq & _ & H) k φ Hk; [|done]. assert (k ∈ @nil nat) by (apply H; eauto).
    set_solver.
  - intros H. exists []. split_and!; [done|constructor|]. intros k. split; [set_solver|].
    intros (φ & ?). by destruct (H k φ).
Qed.

Section loc.
Context (d d' : lib) (g : ghost).
Context (L : loc_ok d g).

Lemma loc_place_inj k p p' : place_of g k = Some p → place_of g k = Some p' → p = p'.
Proof. congruence. Qed.

(** The thread of CPU [c] goes to the back of [q]. *)
Lemma loc_enqueue c k φ0 hs q φ :
  g !! k = Some (GCtx (Running c φ0) hs) → phase_ok q φ →
  (∀ q', queue_of q' d' = if decide (q' = q) then queue_of q d ++ [Some k] else queue_of q' d) →
  (∀ c', last_of c' d' = if decide (c' = c) then None else last_of c' d) →
  (∀ c', kill_of c' d' = kill_of c' d) → contexts d' = contexts d →
  loc_ok d' (<[k := GCtx (InQ q φ) hs]> g).
Proof.
  intros Hk Hph Hq Hl Hkl Hct. pose proof (lookup_place_of _ _ _ _ Hk) as Hp. split.
  - intros q'. rewrite Hq. case_decide as E.
    + subst q'. apply queue_places_push; [apply L|naive_solver].
    + eapply queue_places_same; [apply L|]. intros k'. rewrite place_of_insert.
      case_decide; naive_solver.
  - intros c' k'. rewrite Hl place_of_insert. repeat case_decide; subst; cbn.
    + naive_solver.
    + split; [done|]. intros Hk'. apply (lo_last _ _ L) in Hk'.
      assert (last_of c d = Some k) by (apply (lo_last _ _ L); eauto). congruence.
    + split; [|naive_solver]. intros Hk'. apply (lo_last _ _ L) in Hk' as [φ' Hk'].
      congruence.
    + apply L.
  - intros c' k'. rewrite Hkl place_of_insert. case_decide; subst; [|apply L].
    split; [|done]. intros Hk'. apply (lo_kill _ _ L) in Hk'. congruence.
  - intros k'. rewrite Hct (lo_live _ _ L) place_of_insert. case_decide; subst; [|done].
    split; intros _; eexists; by split.
  - intros k' q' φ'. rewrite place_of_insert. case_decide; [|apply L].
    intros [= <- <-]. done.
Qed.

(** CPU [c] takes the front of the ready queue. *)
Lemma loc_take c y φ hs r :
  last_of c d = None → is_Some (cpus d !! c) → queue_of QReady d = Some y :: r →
  g !! y = Some (GCtx (InQ QReady φ) hs) →
  (∀ q', queue_of q' d' = if decide (q' = QReady) then r else queue_of q' d) →
  (∀ c', last_of c' d' = if decide (c' = c) then Some y else last_of c' d) →
  (∀ c', kill_of c' d' = kill_of c' d) → contexts d' = contexts d →
  loc_ok d' (<[y := GCtx (Running c φ) hs]> g).
Proof.
  intros Hlc _ Hr Hy Hq Hl Hkl Hct. pose proof (lookup_place_of _ _ _ _ Hy) as Hp. split.
  - intros q'. rewrite Hq. case_decide as E.
    + subst q'. pose proof (lo_queue _ _ L QReady) as HL. rewrite Hr in HL.
      by eapply queue_places_pop.
    + eapply queue_places_same; [apply L|]. intros k'. rewrite place_of_insert.
      case_decide; naive_solver.
  - intros c' k'. rewrite Hl place_of_insert. repeat case_decide; subst; cbn.
    + naive_solver.
    + split; [by intros [= ?]|]. intros Hk'. apply (lo_last _ _ L) in Hk'. congruence.
    + split; [|naive_solver]. intros Hk'. apply (lo_last _ _ L) in Hk' as [φ' Hk']. congruence.
    + apply L.
  - intros c' k'. rewrite Hkl place_of_insert. case_decide; subst; [|apply L].
    split; [|done]. intros Hk'. apply (lo_kill _ _ L) in Hk'. congruence.
  - intros k'. rewrite Hct (lo_live _ _ L) place_of_insert. case_decide; subst; [|done].
    split; intros _; eexists; by split.
  - intros k' q' φ'. rewrite place_of_insert. case_decide; [done|apply L].
Qed.

(** The front of queue [q] becomes ready. *)
Lemma loc_wake q y φ hs r :
  q ≠ QReady → queue_of q d = Some y :: r → g !! y = Some (GCtx (InQ q φ) hs) →
  (∀ q', queue_of q' d' = if decide (q' = q) then r
                          else if decide (q' = QReady) then queue_of QReady d ++ [Some y]
                          else queue_of q' d) →
  (∀ c', last_of c' d' = last_of c' d) → (∀ c', kill_of c' d' = kill_of c' d) →
  contexts d' = contexts d →
  loc_ok d' (<[y := GCtx (InQ QReady φ) hs]> g).
Proof.
  intros Hqr Hr Hy Hq Hl Hkl Hct. pose proof (lookup_place_of _ _ _ _ Hy) as Hp. split.
  - intros q'. rewrite Hq. repeat case_decide; subst.
    + pose proof (lo_queue _ _ L q) as HL. rewrite Hr in HL.
      eapply queue_places_pop; [done|]. cbn. congruence.
    + apply queue_places_push; [apply L|naive_solver].
    + eapply queue_places_same; [apply L|]. intros k'. rewrite place_of_insert.
      case_decide; naive_solver.
  - intros c' k'. rewrite Hl place_of_insert. case_decide; subst; [|apply L].
    split; [|naive_solver]. intros Hk'. apply (lo_last _ _ L) in Hk' as [φ' Hk']. congruence.
  - intros c' k'. rewrite Hkl place_of_insert. case_decide; subst; [|apply L].
    split; [|done]. intros Hk'. apply (lo_kill _ _ L) in Hk'. congruence.
  - intros k'. rewrite Hct (lo_live _ _ L) place_of_insert. case_decide; subst; [|done].
    split; intros _; eexists; by split.
  - intros k' q' φ'. rewrite place_of_insert. case_decide; [|apply L]. by intros [= <- <-].
Qed.

(** The thread of CPU [c] has ended: its stack is freed later. *)
Lemma loc_kill_last c k φ hs :
  g !! k = Some (GCtx (Running c φ) hs) → kill_of c d = None →
  (∀ q', queue_of q' d' = queue_of q' d) →
  (∀ c', last_of c' d' = if decide (c' = c) then None else last_of c' d) →
  (∀ c', kill_of c' d' = if decide (c' = c) then Some k else kill_of c' d) →
  contexts d' = contexts d →
  loc_ok d' (<[k := GCtx (ToKill c) hs]> g).
Proof.
  intros Hk Hkc Hq Hl Hkl Hct. pose proof (lookup_place_of _ _ _ _ Hk) as Hp. split.
  - intros q'. rewrite Hq. eapply queue_places_same; [apply L|]. intros k'.
    rewrite place_of_insert. case_decide; naive_solver.
  - intros c' k'. rewrite Hl place_of_insert. repeat case_decide; subst; cbn.
    + naive_solver.
    + split; [done|]. intros Hk'. apply (lo_last _ _ L) in Hk'.
      assert (last_of c d = Some k) by (apply (lo_last _ _ L); eauto). congruence.
    + split; [|naive_solver]. intros Hk'. apply (lo_last _ _ L) in Hk' as [φ' Hk'].
      congruence.
    + apply L.
  - intros c' k'. rewrite Hkl place_of_insert. repeat case_decide; subst; cbn.
    + done.
    + split; [by intros [= ?]|]. intros Hk'. apply (lo_kill _ _ L) in Hk'. congruence.
    + split; [|congruence]. intros Hk'. apply (lo_kill _ _ L) in Hk'. congruence.
    + apply L.
  - intros k'. rewrite Hct (lo_live _ _ L) place_of_insert. case_decide; subst; [|done].
    split; intros _; eexists; by split.
  - intros k' q' φ'. rewrite place_of_insert. case_decide; [done|apply L].
Qed.

(** A stack is freed. *)
Lemma loc_free c k hs :
  g !! k = Some (GCtx (ToKill c) hs) →
  (∀ q', queue_of q' d' = queue_of q' d) → (∀ c', last_of c' d' = last_of c' d) →
  (∀ c', kill_of c' d' = if decide (c' = c) then None else kill_of c' d) →
  contexts d' = delete k (contexts d) →
  loc_ok d' (<[k := GCtx Dead hs]> g).
Proof.
  intros Hk Hq Hl Hkl Hct. pose proof (lookup_place_of _ _ _ _ Hk) as Hp. split.
  - intros q'. rewrite Hq. eapply queue_places_same; [apply L|]. intros k'.
    rewrite place_of_insert. case_decide; naive_solver.
  - intros c' k'. rewrite Hl place_of_insert. case_decide; subst; [|apply L].
    split; [|naive_solver]. intros Hk'. apply (lo_last _ _ L) in Hk' as [φ' Hk']. congruence.
  - intros c' k'. rewrite Hkl place_of_insert. repeat case_decide; subst; cbn; try done.
    + split; [done|]. intros Hk'. apply (lo_kill _ _ L) in Hk', Hp. congruence.
    + split; [|done]. intros Hk'. apply (lo_kill _ _ L) in Hk'. congruence.
    + apply L.
  - intros k'. rewrite Hct place_of_insert. case_decide; subst.
    + rewrite lookup_delete_eq. split; [by intros [? ?]|]. intros (p & [= <-] & ?). done.
    + rewrite lookup_delete_ne //. apply L.
  - intros k' q' φ'. rewrite place_of_insert. case_decide; [done|apply L].
Qed.

(** A new thread becomes ready. *)
Lemma loc_new k u :
  g !! k = None → contexts d !! k = None →
  (∀ q', queue_of q' d' = if decide (q' = QReady) then queue_of QReady d ++ [Some k]
                          else queue_of q' d) →
  (∀ c', last_of c' d' = last_of c' d) → (∀ c', kill_of c' d' = kill_of c' d) →
  contexts d' = <[k := u]> (contexts d) →
  loc_ok d' (<[k := GCtx (InQ QReady PPlain) ∅]> g).
Proof.
  intros Hk Hkc Hq Hl Hkl Hct.
  assert (place_of g k = None) as Hp by (unfold place_of; by rewrite Hk). split.
  - intros q'. rewrite Hq. case_decide; subst.
    + apply queue_places_push; [apply L|naive_solver].
    + eapply queue_places_same; [apply L|]. intros k'. rewrite place_of_insert.
      case_decide; naive_solver.
  - intros c' k'. rewrite Hl place_of_insert. case_decide; subst; [|apply L].
    split; [|naive_solver]. intros Hk'. apply (lo_last _ _ L) in Hk' as [φ' Hk']. congruence.
  - intros c' k'. rewrite Hkl place_of_insert. case_decide; subst; [|apply L].
    split; [|done]. intros Hk'. apply (lo_kill _ _ L) in Hk'. congruence.
  - intros k'. rewrite Hct place_of_insert. case_decide; subst.
    + rewrite lookup_insert_eq. split; [intros _; eexists; by split|by eexists].
    + rewrite lookup_insert_ne //. apply L.
  - intros k' q' φ'. rewrite place_of_insert. case_decide; [by intros [= <- <-]|apply L].
Qed.

(** Nothing moves. *)
Lemma loc_same g' :
  (∀ k, place_of g' k = place_of g k) →
  (∀ q', queue_of q' d' = queue_of q' d) → (∀ c', last_of c' d' = last_of c' d) →
  (∀ c', kill_of c' d' = kill_of c' d) → contexts d' = contexts d → loc_ok d' g'.
Proof.
  intros Hp Hq Hl Hkl Hct. split.
  - intros q'. rewrite Hq. eapply queue_places_same; [apply L|]. intros k'. by rewrite Hp.
  - intros c' k'. rewrite Hl Hp. apply L.
  - intros c' k'. rewrite Hkl Hp. apply L.
  - intros k'. rewrite Hct Hp. apply L.
  - intros k' q' φ'. rewrite Hp. apply L.
Qed.

(** The thread of CPU [c] goes on as resumed. *)
Lemma loc_phase c k φ φ' hs hs' :
  g !! k = Some (GCtx (Running c φ) hs) →
  (∀ q', queue_of q' d' = queue_of q' d) → (∀ c', last_of c' d' = last_of c' d) →
  (∀ c', kill_of c' d' = kill_of c' d) → contexts d' = contexts d →
  loc_ok d' (<[k := GCtx (Running c φ') hs']> g).
Proof.
  intros Hk Hq Hl Hkl Hct. pose proof (lookup_place_of _ _ _ _ Hk) as Hp. split.
  - intros q'. rewrite Hq. eapply queue_places_same; [apply L|]. intros k'.
    rewrite place_of_insert. case_decide; naive_solver.
  - intros c' k'. rewrite Hl (lo_last _ _ L) place_of_insert. case_decide; [|done]. subst k'.
    cbn. split; intros [φ2 H2].
    + assert (c' = c) as -> by congruence. by eexists.
    + injection H2 as -> _. by eexists.
  - intros c' k'. rewrite Hkl (lo_kill _ _ L) place_of_insert. case_decide; [|done]. subst.
    split; [|done]. intros Hk2. rewrite Hk2 in Hp. done.
  - intros k'. rewrite Hct (lo_live _ _ L) place_of_insert. case_decide; [|done]. subst.
    split; intros _; by eexists.
  - intros k' q' φ2. rewrite place_of_insert. case_decide; [done|apply L].
Qed.

End loc.

(** ** What moves leave alone *)

Record frame (d d' : lib) : Prop := {
  fr_next : next_ctx d' = next_ctx d;
  fr_max : max_id d' = max_id d;
  fr_ctx : contexts d' = contexts d;
  fr_info i : is_Some (infos d' !! i) ↔ is_Some (infos d !! i);
  fr_vec : cpu_vec d' = cpu_vec d;
  fr_dom c : is_Some (cpus d' !! c) ↔ is_Some (cpus d !! c);
  fr_idle c : idle_of c d' = idle_of c d;
  fr_fin i : finished d i → finished d' i }.

(** The lock bits and owners of the mutexes, whose queues may change. *)
Definition mutex_frame (d d' : lib) : Prop :=
  ∀ m, free (mutex_of m d') = free (mutex_of m d) ∧
       owner (mutex_of m d') = owner (mutex_of m d).

#[export] Instance frame_preorder : PreOrder frame.
Proof.
  split; [by split|]. intros d1 d2 d3 [] []. split; try congruence.
  - intros i. by rewrite fr_info1.
  - intros c. by rewrite fr_dom1.
  - auto.
Qed.

#[export] Instance mutex_frame_preorder : PreOrder mutex_frame.
Proof.
  split; [done|]. intros d1 d2 d3 H1 H2 m. destruct (H1 m), (H2 m). split; congruence.
Qed.

Lemma queue_of_mutex m d : queue_of (QMutex m) d = waiting_queue (mutex_of m d).
Proof. done. Qed.

Lemma boot_ready_user c k φ d g stk :
  loc_ok d g → place_of g k = Some (Running c φ) → stk !! c = Some (SUc (Uc k)) →
  boot_ready (Some c) d stk → ready_queue d = [].
Proof.
  intros Hl Hk Hs [|(c0 & k0 & [= <-] & Hr & Hs0)]; [done|]. rewrite Hs in Hs0. simplify_eq.
  destruct (lo_queue _ _ Hl QReady) as (ks & Heq & _ & Hks).
  change (queue_of QReady d) with (ready_queue d) in Heq. rewrite Hr in Heq.
  destruct ks as [|k1 ks]; [done|]. injection Heq as <- _.
  destruct (proj1 (Hks k0) ltac:(by left)). congruence.
Qed.

Section frame.
Context (d d' : lib) (g g' : ghost).

Lemma ids_frame :
  ids_ok d g → frame d d' → (∀ k, is_Some (g' !! k) → is_Some (g !! k)) → ids_ok d' g'.
Proof.
  intros [] [] Hg. split; rewrite ?fr_next0 ?fr_max0 ?fr_ctx0; try done.
  - intros k ?. by apply io_ghost, Hg.
  - intros k. rewrite fr_info0. apply io_info.
  - intros k ?. by apply fr_info0, io_thread, Hg.
Qed.

Lemma mutexes_frame :
  mutexes_ok d g → frame d d' → mutex_frame d d' →
  (no_wrap d → ∀ m, free (mutex_of m d) = true → queue_of (QMutex m) d = [] →
                    queue_of (QMutex m) d' = []) →
  (∀ k m, handed g' k m → handed g k m) →
  (∀ k gc', g' !! k = Some gc' → ∃ gc, g !! k = Some gc ∧ g_holds gc' = g_holds gc) →
  mutexes_ok d' g'.
Proof.
  intros Hm [] Hmu Hq Hh Hg Hnw m. unfold no_wrap in *. rewrite fr_next0 in Hnw.
  destruct (Hm Hnw m), (Hmu m) as [Hf Ho]. split.
  - by rewrite Ho fr_next0.
  - rewrite Hf Ho. intros Hfr. destruct (mo_free Hfr) as [? ?]. split; [|done].
    by apply Hq.
  - intros k Hk. rewrite Hf Ho. eauto.
  - eauto.
  - intros k gc' Hk. destruct (Hg _ _ Hk) as (gc & ? & ->). rewrite Hf Ho. eauto.
Qed.

Lemma cpus_frame c stk st :
  cpus_ok (Some c) d g stk → frame d d' →
  (∀ c', c' ≠ c → last_of c' d' = last_of c' d) →
  (∀ k c', c' ≠ c → place_of g k = Some (Running c' PPlain) →
           place_of g' k = Some (Running c' PPlain)) →
  cpus_ok (Some c) d' g' (<[c := st]> stk).
Proof.
  intros [] [] Hl Hp. split; rewrite ?fr_vec0; try done.
  - intros c'. rewrite co_vec. by rewrite fr_dom0.
  - intros c' Hc'. rewrite fr_dom0 in Hc'. destruct (decide (c = c')) as [<-|].
    + rewrite lookup_insert_eq. by eexists.
    + rewrite lookup_insert_ne //. by apply co_dom.
  - intros c' st' Hst' Hne. assert (c ≠ c') as Hcc by congruence.
    rewrite lookup_insert_ne // in Hst'. specialize (co_stack _ _ Hst' Hne).
    destruct st' as [|[c2|k]].
    + apply eq_None_not_Some. intros Hs. apply fr_dom0 in Hs. rewrite co_stack in Hs.
      by destruct Hs.
    + rewrite fr_dom0 Hl //.
    + rewrite Hl //. naive_solver.
Qed.

Lemma work_frame c e e' stk st sig :
  work_ok (Some c) e d g stk sig → frame d d' →
  (length (ready_queue d') ≤ length (ready_queue d) + (e' - e))%nat → (e ≤ e')%nat →
  (∀ c', stk !! c' = Some SBoot → boot_ready (Some c) d stk →
         boot_ready (Some c) d' (<[c := st]> stk)) →
  (∀ k, is_Some (g' !! k) → is_Some (g !! k)) → st ≠ SBoot →
  work_ok (Some c) e' d' g' (<[c := st]> stk) sig.
Proof.
  intros [] [] Hlen Hee Hb Hg Hst.
  assert (∀ c' st', <[c := st]> stk !! c' = Some st' → st' = SBoot → stk !! c' = Some SBoot)
    as Hboot.
  { intros c' st'. destruct (decide (c = c')) as [<-|].
    - rewrite lookup_insert_eq. congruence.
    - rewrite lookup_insert_ne //. congruence. }
  split; try done.
  - intros c' Hne. rewrite fr_idle0 lookup_insert_ne; [by apply wo_idle|congruence].
  - intros c' Hne. rewrite fr_idle0 lookup_insert_ne; [by apply wo_sig|congruence].
  - intros c'. rewrite fr_idle0. intros Hi. specialize (wo_ready _ Hi). lia.
  - intros c' Hc'. apply Hboot in Hc'; [|done]. destruct (wo_boot _ Hc') as [??].
    split; [by eapply Hb|]. eauto.
  - intros H0. apply Hboot in H0; [|done]. specialize (wo_main H0). subst g.
    apply map_eq. intros k. rewrite lookup_empty. apply eq_None_not_Some.
    intros [? ?]%Hg. done.
Qed.

End frame.

(** ** Taking and giving back the guard *)

Section guard.
Context (clean : bool).

(** Between its own critical sections a CPU is as the others see it. *)
Lemma lib_ok_acquire c k hs v :
  lib_ok clean None 0 v → v_stk v !! c = Some (SUc (Uc k)) →
  v_g v !! k = Some (GCtx (Running c PPlain) hs) →
  lib_ok clean (Some c) 0 v ∧ (clean = true → idle_of c (v_lib v) = false).
Proof.
  intros [Hl Hi Hm Hc Hg Hw Hj] Hs Hk. split.
  - split; try done.
    + destruct Hc. split; try done. intros c' st ??. by apply co_stack.
    + intros Hcl. destruct (Hw Hcl). split; try done.
      * intros c' ?. by apply wo_idle.
      * intros c' ?. by apply wo_sig.
      * intros c' [= ->] Hin. apply wo_sig in Hin; [|done]. naive_solver congruence.
      * intros c' Hc'. destruct (wo_boot _ Hc') as [[?|(?&?&?&?)] ?]; [|done]. by split; [left|].
  - intros Hcl. destruct (Hw Hcl). destruct (idle_of c (v_lib v)) eqn:E; [|done].
    apply wo_idle in E; [|done]. congruence.
Qed.

Lemma lib_ok_release c k hs v :
  lib_ok clean (Some c) 0 v → v_stk v !! c = Some (SUc (Uc k)) →
  v_g v !! k = Some (GCtx (Running c PPlain) hs) →
  (clean = true → idle_of c (v_lib v) = false) →
  lib_ok clean None 0 v.
Proof.
  intros [Hl Hi Hm Hc Hg Hw Hj] Hs Hk Hidle. pose proof (lookup_place_of _ _ _ _ Hk) as Hp.
  split; try done.
  - destruct Hc. split; try done. intros c' st Hst _.
    destruct (decide (c' = c)) as [->|]; [|apply co_stack; congruence].
    rewrite Hs in Hst. simplify_eq. split; [|done]. apply (lo_last _ _ Hl). eauto.
  - intros Hcl. destruct (Hw Hcl). specialize (Hidle Hcl). split; try done.
    + intros c' _ Hi'. destruct (decide (c' = c)) as [->|]; [congruence|].
      apply wo_idle; congruence.
    + intros c' _. destruct (decide (c' = c)) as [->|]; [|apply wo_sig; congruence].
      split; [intros Hin; by destruct (wo_own c eq_refl)|]. intros [??]. congruence.
    + intros c' Hc'. destruct (wo_boot _ Hc') as [Hr ?]. split; [|done]. left.
      by eapply boot_ready_user.
Qed.

(** The goldfish: awake it was counted among the CPUs on their way. *)
Lemma lib_ok_acquire_gold c v :
  lib_ok clean None 0 v → v_stk v !! c = Some (SUc (Goldfish c)) →
  (clean = true → c ∈ v_sig v) →
  lib_ok clean (Some c) 1 (v_with_sig (v_sig v ∖ {[c]}) v) ∧
  is_Some (cpus (v_lib v) !! c) ∧ last_of c (v_lib v) = None ∧
  (clean = true → idle_of c (v_lib v) = false).
Proof.
  intros [Hl Hi Hm Hc Hg Hw Hj] Hs Hsig.
  pose proof (co_stack _ _ _ _ Hc _ _ Hs ltac:(done)) as (_&?&?). split_and!; try done.
  - split; try done.
    + destruct Hc. split; try done. intros c' st ??. by apply co_stack.
    + intros Hcl. destruct (Hw Hcl). specialize (Hsig Hcl). split; cbn; try done.
      * intros c' ?. by apply wo_idle.
      * intros c' ?. rewrite -wo_sig //. set_solver.
      * intros c' [= ->]. set_solver.
      * intros c' Hi'. specialize (wo_ready _ Hi').
        rewrite size_difference; [|set_solver]. rewrite size_singleton.
        assert (1 ≤ base.size (v_sig v))%nat; [|lia].
        rewrite -(size_singleton (C := gset nat) c). apply subseteq_size. set_solver.
      * intros c' Hc'. destruct (wo_boot _ Hc') as [[?|(?&?&?&?)] ?]; [|done]. by split; [left|].
  - intros Hcl. destruct (Hw Hcl). by apply wo_sig; [|apply Hsig].
Qed.

End guard.
