(* ===== verification/ThreadSteps.v ===== *)
(** * What each access to the shared objects does

    The accesses of ThreadTypes, as seen through the observations of ThreadInv:
    which queue or pointer they change, and that they leave the rest alone
    ([quiet]). *)

From stdpp Require Import fin_sets.
From S2P Require Import Prelude CStd ThreadTypes ThreadMonad ThreadLib ThreadMachine.
From S2P Require Import ThreadInv ThreadMoves.

(** An access that only moves contexts. *)
Record quiet (d d' : lib) : Prop := {
  qt_frame : frame d d';
  qt_mutex : mutex_frame d d';
  qt_mono fin : lib_mono fin d d';
  qt_queue q : is_Some (get_queue q d') ↔ is_Some (get_queue q d) }.

Lemma lib_mono_trans fin d1 d2 d3 : lib_mono fin d1 d2 → lib_mono fin d2 d3 → lib_mono fin d1 d3.
Proof.
  intros (A1&B1&C1&D1) (A2&B2&C2&D2). split_and!; eauto; [|lia].
  intros i Hi. destruct (C2 i Hi); eauto.
Qed.

Lemma lib_mono_infos fin d d' : infos d' = infos d → (next_ctx d ≤ next_ctx d')%nat → lib_mono fin d d'.
Proof. intros H ?. unfold lib_mono, finished. rewrite H. naive_solver. Qed.

#[export] Instance quiet_preorder : PreOrder quiet.
Proof.
  split.
  - intros d. split; try done. intros fin. by apply lib_mono_infos.
  - intros d1 d2 d3 [] []. split; try by etransitivity.
    + intros fin. by eapply lib_mono_trans.
    + intros q. etransitivity; [apply qt_queue1|apply qt_queue0].
Qed.

(** ** The fields *)

Lemma queue_of_get q d l : get_queue q d = Some l → queue_of q d = l.
Proof. unfold queue_of. by intros ->. Qed.

Lemma mutex_of_with m m' mu d :
  mutex_of m (with_mutex m' mu d) = if decide (m = m') then mu else mutex_of m d.
Proof.
  unfold mutex_of. cbn. case_decide; subst; [by rewrite lookup_insert_eq|].
  by rewrite lookup_insert_ne.
Qed.

Lemma get_queue_set q q' l d :
  is_Some (get_queue q d) →
  get_queue q' (set_queue q l d) = if decide (q' = q) then Some l else get_queue q' d.
Proof.
  intros Hq. destruct q, q'; cbn; try (by case_decide); rewrite ?mutex_of_with.
  - repeat case_decide; simplify_eq/=; done.
  - unfold cv_of. cbn. case_decide; simplify_eq/=; [by rewrite lookup_insert_eq|].
    rewrite lookup_insert_ne //. congruence.
  - by destruct (infos d !! i).
  - by destruct (infos d !! i).
  - by destruct (infos d !! i).
  - cbn in Hq. destruct (infos d !! i) eqn:E; [|by destruct Hq]. cbn.
    case_decide; simplify_eq/=; [by rewrite lookup_insert_eq|].
    rewrite lookup_insert_ne //. congruence.
Qed.

Lemma queue_of_set q q' l d :
  is_Some (get_queue q d) →
  queue_of q' (set_queue q l d) = if decide (q' = q) then l else queue_of q' d.
Proof. intros Hq. unfold queue_of. rewrite get_queue_set //. by case_decide. Qed.

Lemma cpus_set_queue q l d : cpus (set_queue q l d) = cpus d.
Proof. destruct q; cbn; try done. by destruct (infos d !! i). Qed.

Lemma last_of_set_queue c q l d : last_of c (set_queue q l d) = last_of c d.
Proof. unfold last_of. by rewrite cpus_set_queue. Qed.
Lemma kill_of_set_queue c q l d : kill_of c (set_queue q l d) = kill_of c d.
Proof. unfold kill_of. by rewrite cpus_set_queue. Qed.

Lemma infos_set_queue q l d i :
  infos (set_queue q l d) !! i =
    match infos d !! i with
    | Some si => Some (if decide (q = QJoin i) then mk_info l (alive si) else si)
    | None => None
    end.
Proof.
  destruct q as [| | |j]; cbn; try (by destruct (infos d !! i)).
  destruct (infos d !! j) as [sj|] eqn:E; cbn.
  - destruct (decide (j = i)) as [->|].
    + rewrite lookup_insert_eq E. by case_decide.
    + rewrite lookup_insert_ne //. destruct (infos d !! i); [|done].
      case_decide; [congruence|done].
  - destruct (infos d !! i) eqn:Ei; [|done]. case_decide; [congruence|done].
Qed.

Lemma quiet_set_queue q l d : is_Some (get_queue q d) → quiet d (set_queue q l d).
Proof.
  intros Hq.
  assert (∀ i, (is_Some (infos (set_queue q l d) !! i) ↔ is_Some (infos d !! i)) ∧
               (finished (set_queue q l d) i ↔ finished d i)) as Hi.
  { intros i. unfold finished. rewrite infos_set_queue. destruct (infos d !! i); [|done].
    split; [split; by eexists|]. case_decide; naive_solver. }
  split.
  - split; try (destruct q; cbn; try done; by destruct (infos d !! i)).
    + apply Hi.
    + intros i. apply Hi.
  - intros m. destruct q; cbn; try done; [|by destruct (infos d !! i)].
    rewrite mutex_of_with. case_decide; by subst.
  - intros fin.
    split_and!; [intros i; rewrite ?(proj1 (Hi i)) ?(proj2 (Hi i)); auto..|].
    destruct q; try done. cbn. by destruct (infos d !! i).
  - intros q'. rewrite get_queue_set //. case_decide; subst; [|done]. split; by eauto.
Qed.

Lemma cpus_with_cpu c c' cp d :
  cpus (with_cpu c cp d) !! c' = if decide (c' = c) then Some cp else cpus d !! c'.
Proof.
  cbn. case_decide; subst; [by rewrite lookup_insert_eq|]. by rewrite lookup_insert_ne.
Qed.

Lemma last_of_with_cpu c c' cp d :
  last_of c' (with_cpu c cp d) = if decide (c' = c) then last_context cp else last_of c' d.
Proof. unfold last_of. rewrite cpus_with_cpu. by case_decide. Qed.
Lemma kill_of_with_cpu c c' cp d :
  kill_of c' (with_cpu c cp d) = if decide (c' = c) then to_kill cp else kill_of c' d.
Proof. unfold kill_of. rewrite cpus_with_cpu. by case_decide. Qed.
Lemma idle_of_with_cpu c c' cp d :
  idle_of c' (with_cpu c cp d) = if decide (c' = c) then is_idle cp else idle_of c' d.
Proof. unfold idle_of. rewrite cpus_with_cpu. by case_decide. Qed.

Lemma quiet_with_cpu c cp cp' d :
  cpus d !! c = Some cp → is_idle cp' = is_idle cp → quiet d (with_cpu c cp' d).
Proof.
  intros Hc Hi. split; [|by split|by intros ?; apply lib_mono_infos|].
  - split; try done.
    + intros c'. rewrite cpus_with_cpu. case_decide; subst; [|done].
      rewrite Hc. split; by eexists.
    + intros c'. rewrite idle_of_with_cpu. case_decide; subst; [|done].
      unfold idle_of. by rewrite Hc.
  - intros q. by destruct q.
Qed.

Lemma queue_of_with_cpu q c cp d : queue_of q (with_cpu c cp d) = queue_of q d.
Proof. by destruct q. Qed.

Lemma last_of_Some c d k :
  last_of c d = Some k → ∃ cp, cpus d !! c = Some cp ∧ last_context cp = Some k.
Proof. unfold last_of. destruct (cpus d !! c) as [cp|]; [|done]. cbn. eauto. Qed.

(** ** The accesses *)

Lemma push_back_last_spec q c k d :
  is_Some (get_queue q d) → last_of c d = Some k →
  ∃ d', push_back_last q c d = Some (tt, d') ∧ quiet d d' ∧
    (∀ q', queue_of q' d' = if decide (q' = q) then queue_of q d ++ [Some k] else queue_of q' d) ∧
    (∀ c', last_of c' d' = if decide (c' = c) then None else last_of c' d) ∧
    (∀ c', kill_of c' d' = kill_of c' d).
Proof.
  intros [l Hl] (cp & Hc & Hk)%last_of_Some. unfold push_back_last, writes.
  rewrite Hc /= Hl /= Hk. eexists. split; [done|]. split_and!.
  - etransitivity; [by apply quiet_set_queue; eexists|].
    eapply quiet_with_cpu; [by rewrite cpus_set_queue|done].
  - intros q'. rewrite queue_of_with_cpu queue_of_set; [|by eexists].
    by rewrite (queue_of_get _ _ _ Hl).
  - intros c'. rewrite last_of_with_cpu last_of_set_queue. done.
  - intros c'. rewrite kill_of_with_cpu kill_of_set_queue. case_decide; subst; [|done].
    unfold kill_of. by rewrite Hc.
Qed.

(** [last_context->swap(front)] followed by the reads and [pop_front]: the state
    between has the old pointer, null, at the front. *)
Lemma swap_last_ready_front_spec c d y r :
  is_Some (cpus d !! c) → last_of c d = None → queue_of QReady d = Some y :: r →
  ∃ d1 d', swap_last_ready_front c d = Some (tt, d1) ∧ (∀ fin, lib_mono fin d d1) ∧
    queue_front QReady d1 = Some (None, d1) ∧ read_last c d1 = Some (Some y, d1) ∧
    pop_front QReady d1 = Some (None, d') ∧ (∀ fin, lib_mono fin d1 d') ∧
    quiet d d' ∧
    (∀ q', queue_of q' d' = if decide (q' = QReady) then r else queue_of q' d) ∧
    (∀ c', last_of c' d' = if decide (c' = c) then Some y else last_of c' d) ∧
    (∀ c', kill_of c' d' = kill_of c' d).
Proof.
  intros [cp Hc] Hl Hr. unfold queue_of in Hr. cbn in Hr.
  assert (last_context cp = None) as Hlc by (unfold last_of in Hl; by rewrite Hc in Hl).
  unfold swap_last_ready_front, writes. rewrite Hc /= Hr /= Hlc.
  eexists _, _. split; [done|]. split; [by intros ?; apply lib_mono_infos|].
  split; [done|]. split.
  { unfold read_last, reads. cbn. by rewrite lookup_insert_eq. }
  split; [done|]. split; [by intros ?; apply lib_mono_infos|]. split_and!.
  - transitivity (with_ready r d).
    + by apply (quiet_set_queue QReady); eexists.
    + by apply (quiet_with_cpu c cp (set_last (Some y) cp) (with_ready r d)).
  - intros q'. by destruct q'.
  - intros c'. unfold last_of. cbn. case_decide; subst; [by rewrite lookup_insert_eq|].
    by rewrite lookup_insert_ne.
  - intros c'. unfold kill_of. cbn. destruct (decide (c' = c)) as [->|].
    + by rewrite lookup_insert_eq Hc.
    + by rewrite lookup_insert_ne.
Qed.

Lemma deref_back_spec q d l k :
  is_Some (get_queue q d) → queue_of q d = l ++ [Some k] → deref_back q d = Some (k, d).
Proof.
  intros [l' Hl] Hq. rewrite (queue_of_get _ _ _ Hl) in Hq. subst l'.
  unfold deref_back, reads. rewrite Hl /=. by rewrite last_snoc.
Qed.

Lemma deref_last_spec c d k : last_of c d = Some k → deref_last c d = Some (k, d).
Proof. unfold last_of, deref_last, reads. by intros ->. Qed.

Lemma read_last_spec c d :
  is_Some (cpus d !! c) → read_last c d = Some (last_of c d, d).
Proof. intros [cp H]. unfold read_last, reads, last_of. by rewrite H. Qed.

Lemma queue_empty_spec q d :
  is_Some (get_queue q d) → queue_empty q d = Some (bool_decide (queue_of q d = []), d).
Proof.
  intros [l Hl]. unfold queue_empty, reads. by rewrite Hl /= (queue_of_get _ _ _ Hl).
Qed.

Lemma queue_size_spec q d :
  is_Some (get_queue q d) → queue_size q d = Some (length (queue_of q d), d).
Proof.
  intros [l Hl]. unfold queue_size, reads. by rewrite Hl /= (queue_of_get _ _ _ Hl).
Qed.

(** The front of a queue is moved out, then its empty place removed. *)
Lemma release_pop_spec q d y r :
  is_Some (get_queue q d) → queue_of q d = Some y :: r →
  ∃ d1 d', release_front q d = Some (Some y, d1) ∧ (∀ fin, lib_mono fin d d1) ∧
    pop_front q d1 = Some (None, d') ∧ (∀ fin, lib_mono fin d1 d') ∧ quiet d d' ∧
    (∀ q', queue_of q' d' = if decide (q' = q) then r else queue_of q' d) ∧
    (∀ c', last_of c' d' = last_of c' d) ∧ (∀ c', kill_of c' d' = kill_of c' d).
Proof.
  intros Hq Hr. pose proof Hq as [l Hl]. rewrite (queue_of_get _ _ _ Hl) in Hr. subst l.
  unfold release_front. rewrite Hl /=.
  pose proof (quiet_set_queue q (None :: r) d Hq) as Q1.
  assert (is_Some (get_queue q (set_queue q (None :: r) d))) as Hq1 by by apply Q1.
  pose proof (quiet_set_queue q r _ Hq1) as Q2.
  eexists _, (set_queue q r (set_queue q (None :: r) d)). split; [done|].
  split; [apply Q1|]. split.
  { unfold pop_front. rewrite get_queue_set // decide_True //. }
  split; [apply Q2|]. split; [by etransitivity|]. split_and!.
  - intros q'. rewrite queue_of_set // queue_of_set //. by case_decide.
  - intros c'. by rewrite !last_of_set_queue.
  - intros c'. by rewrite !kill_of_set_queue.
Qed.

Lemma push_back_spec q x d :
  is_Some (get_queue q d) →
  ∃ d', push_back q x d = Some (tt, d') ∧ quiet d d' ∧
    (∀ q', queue_of q' d' = if decide (q' = q) then queue_of q d ++ [x] else queue_of q' d) ∧
    (∀ c', last_of c' d' = last_of c' d) ∧ (∀ c', kill_of c' d' = kill_of c' d).
Proof.
  intros Hq. pose proof Hq as [l Hl]. unfold push_back, writes. rewrite Hl /=.
  eexists. split; [done|]. split; [by apply quiet_set_queue|]. split_and!.
  - intros q'. rewrite queue_of_set //. by rewrite (queue_of_get _ _ _ Hl).
  - intros c'. by rewrite last_of_set_queue.
  - intros c'. by rewrite kill_of_set_queue.
Qed.

(** Element [n] of a queue other than the ready queue. *)
Lemma move_nth_spec q n x d :
  q ≠ QReady → is_Some (get_queue q d) → queue_of q d !! n = Some x →
  ∃ d', move_nth_to_ready q n d = Some (tt, d') ∧ quiet d d' ∧
    (∀ q', queue_of q' d' = if decide (q' = q) then <[n := None]> (queue_of q d)
                            else if decide (q' = QReady) then queue_of QReady d ++ [x]
                            else queue_of q' d) ∧
    (∀ c', last_of c' d' = last_of c' d) ∧ (∀ c', kill_of c' d' = kill_of c' d).
Proof.
  intros Hr Hq Hx. pose proof Hq as [l Hl]. rewrite (queue_of_get _ _ _ Hl) in Hx.
  unfold move_nth_to_ready, writes. rewrite Hl /= Hx /=.
  set (d1 := set_queue q (<[n := None]> l) d).
  assert (quiet d d1) as Q1 by by apply quiet_set_queue.
  assert (is_Some (get_queue QReady d1)) as Hq1 by by eexists.
  eexists. split; [done|]. split_and!.
  - etransitivity; [done|]. by apply (quiet_set_queue QReady).
  - intros q'. rewrite (queue_of_set QReady) //. unfold d1. rewrite queue_of_set //.
    rewrite (queue_of_get _ _ _ Hl). repeat case_decide; subst; try done.
    change (ready_queue (set_queue q (<[n:=None]> l) d)) with
      (queue_of QReady (set_queue q (<[n:=None]> l) d)).
    rewrite queue_of_set // decide_False //.
  - intros c'. by rewrite (last_of_set_queue c' QReady) last_of_set_queue.
  - intros c'. by rewrite (kill_of_set_queue c' QReady) kill_of_set_queue.
Qed.

Lemma clear_spec q d :
  is_Some (get_queue q d) →
  ∃ d', clear q d = Some (queue_of q d, d') ∧ quiet d d' ∧
    (∀ q', queue_of q' d' = if decide (q' = q) then [] else queue_of q' d) ∧
    (∀ c', last_of c' d' = last_of c' d) ∧ (∀ c', kill_of c' d' = kill_of c' d).
Proof.
  intros Hq. pose proof Hq as [l Hl]. unfold clear. rewrite Hl /= (queue_of_get _ _ _ Hl).
  eexists. split; [done|]. split; [by apply quiet_set_queue|]. split_and!.
  - intros q'. by rewrite queue_of_set.
  - intros c'. by rewrite last_of_set_queue.
  - intros c'. by rewrite kill_of_set_queue.
Qed.

Lemma reset_kill_spec c d :
  is_Some (cpus d !! c) →
  ∃ d', reset_kill c d = Some (kill_of c d, d') ∧ quiet d d' ∧
    (∀ q', queue_of q' d' = queue_of q' d) ∧ (∀ c', last_of c' d' = last_of c' d) ∧
    (∀ c', kill_of c' d' = if decide (c' = c) then None else kill_of c' d).
Proof.
  intros [cp Hc]. unfold reset_kill. rewrite Hc /=. unfold kill_of at 1. rewrite Hc /=.
  eexists. split; [done|]. split; [by eapply quiet_with_cpu|]. split_and!.
  - intros q'. apply queue_of_with_cpu.
  - intros c'. rewrite last_of_with_cpu. case_decide; subst; [|done].
    unfold last_of. by rewrite Hc.
  - intros c'. rewrite kill_of_with_cpu. by case_decide.
Qed.

Lemma swap_kill_last_spec c k d :
  kill_of c d = None → last_of c d = Some k →
  ∃ d', swap_kill_last c d = Some (tt, d') ∧ quiet d d' ∧
    (∀ q', queue_of q' d' = queue_of q' d) ∧
    (∀ c', last_of c' d' = if decide (c' = c) then None else last_of c' d) ∧
    (∀ c', kill_of c' d' = if decide (c' = c) then Some k else kill_of c' d).
Proof.
  intros Hk (cp & Hc & Hl)%last_of_Some. unfold swap_kill_last, writes. rewrite Hc /=.
  unfold kill_of in Hk. rewrite Hc /= in Hk. eexists. split; [done|].
  split; [by eapply quiet_with_cpu|]. split_and!.
  - intros q'. apply queue_of_with_cpu.
  - intros c'. rewrite last_of_with_cpu. cbn. by rewrite Hk.
  - intros c'. rewrite kill_of_with_cpu. cbn. by rewrite Hl.
Qed.

(** A mutex changes, its queue being [waiting_queue mu]. *)
Lemma queue_of_with_mutex q m mu d :
  queue_of q (with_mutex m mu d) = if decide (q = QMutex m) then waiting_queue mu else queue_of q d.
Proof.
  destruct q as [|m'|v|i]; try done.
  change (queue_of (QMutex m') (with_mutex m mu d))
    with (waiting_queue (mutex_of m' (with_mutex m mu d))).
  rewrite mutex_of_with. destruct (decide (m' = m)) as [->|], (decide (_ = _)); by try congruence.
Qed.

Lemma frame_with_mutex m mu d : frame d (with_mutex m mu d).
Proof. by split. Qed.
