(* ===== verification/ThreadReady.v ===== *)
(** * Making threads ready, taking and giving back mutexes

    How [lib_ok] is kept by the critical sections that move threads to the ready
    queue or change a mutex, again as facts on observations. *)

From stdpp Require Import fin_sets.
From S2P Require Import Prelude CStd ThreadTypes ThreadMonad ThreadLib ThreadMachine.
From S2P Require Import ThreadInv ThreadMoves ThreadSteps.

(** ** A queue becomes ready *)

Section ready.
Context (clean : bool) (c : cpu_id) (stk : gmap cpu_id stack_ref) (sig gold : gset cpu_id).
Context (d d' : lib) (g g' : ghost).

Lemma loc_wake_all q :
  loc_ok d g → q ≠ QReady →
  (∀ x, place_of g' x = match place_of g x with
                        | Some (InQ q' φ) => Some (InQ (if decide (q' = q) then QReady else q') φ)
                        | p => p
                        end) →
  (∀ q', queue_of q' d' = if decide (q' = q) then []
                          else if decide (q' = QReady) then queue_of QReady d ++ queue_of q d
                          else queue_of q' d) →
  (∀ c', last_of c' d' = last_of c' d) → (∀ c', kill_of c' d' = kill_of c' d) →
  contexts d' = contexts d → loc_ok d' g'.
Proof.
  intros L Hqr Hp Hq Hl Hk Hct. split.
  - intros q'. rewrite Hq. destruct (decide (q' = q)) as [->|Hne].
    + apply queue_places_nil. intros x φ Hx. rewrite Hp in Hx.
      destruct (place_of g x) as [[q' φ'| | | |]|]; simplify_eq. case_decide; congruence.
    + destruct (decide (q' = QReady)) as [->|Hne'].
      * destruct (lo_queue _ _ L QReady) as (ks1 & -> & Hnd1 & Hks1).
        destruct (lo_queue _ _ L q) as (ks2 & -> & Hnd2 & Hks2).
        exists (ks1 ++ ks2). split_and!.
        -- by rewrite fmap_app.
        -- apply NoDup_app. split_and!; [done| |done]. intros x [φ1 H1]%Hks1 [φ2 H2]%Hks2.
           congruence.
        -- intros x. rewrite elem_of_app Hks1 Hks2 Hp.
           destruct (place_of g x) as [[q' φ'| | | |]|]; [|naive_solver..].
           destruct (decide (q' = q)) as [->|]; split.
           ++ intros _. by exists φ'.
           ++ intros _. right. by exists φ'.
           ++ intros [[φ [= -> ->]]|[φ [= -> ->]]]; [by exists φ|done].
           ++ intros [φ [= -> ->]]. left. by exists φ.
      * eapply queue_places_same; [apply L|]. intros x. rewrite Hp.
        destruct (place_of g x) as [[q2 φ2| | | |]|]; [|naive_solver..].
        case_decide; naive_solver.
  - intros c' x. rewrite Hl (lo_last _ _ L) Hp.
    destruct (place_of g x) as [[q2 φ2| | | |]|]; [|naive_solver..].
    split; intros [? ?]; done.
  - intros c' x. rewrite Hk (lo_kill _ _ L) Hp.
    destruct (place_of g x) as [[q2 φ2| | | |]|]; [|naive_solver..]. done.
  - intros x. rewrite Hct (lo_live _ _ L) Hp.
    destruct (place_of g x) as [[q2 φ2| | | |]|]; [|naive_solver..].
    split; intros (p & [= <-] & ?); by eexists.
  - intros x q' φ. rewrite Hp. destruct (place_of g x) as [[q2 φ2| | | |]|] eqn:E; try done.
    intros [= <- <-]. case_decide; [done|]. by apply (lo_phase _ _ L x).
Qed.

(** The parts of [lib_ok] that a move to the ready queue leaves alone. *)
Lemma lib_ready e e' y :
  lib_ok clean (Some c) e (View d g stk sig gold) → frame d d' →
  loc_ok d' g' → mutexes_ok d' g' → (∀ x i, joined g' x i → finished d' i) →
  (∀ c', last_of c' d' = last_of c' d) →
  (∀ x c', place_of g x = Some (Running c' PPlain) → place_of g' x = Some (Running c' PPlain)) →
  (∀ x, is_Some (g' !! x) → is_Some (g !! x)) →
  stk !! c = Some (SUc (Uc y)) → is_Some (g !! y) →
  (ready_queue d' ≠ ready_queue d → ∃ x, is_Some (g !! x) ∧ x ≠ y) →
  (length (ready_queue d') ≤ length (ready_queue d) + (e' - e))%nat → (e ≤ e')%nat →
  lib_ok clean (Some c) e' (View d' g' stk sig gold).
Proof.
  intros [Hl Hi Hm Hc Hgd Hw Hj] Hf Hl' Hm' Hj' Hlast Hpl Hdm Hst Hy Hx Hlen Hee. cbn in *.
  split; cbn; try done.
  - by eapply ids_frame.
  - rewrite -(insert_id stk c _ Hst). eapply cpus_frame; [done..| |]; intros; eauto.
  - intros c'. rewrite (fr_dom _ _ Hf). apply Hgd.
  - intros Hcl. pose proof (Hw Hcl) as W.
    assert (∀ c', stk !! c' = Some SBoot → ready_queue d' = ready_queue d) as Hb.
    { intros c' Hs. destruct (wo_boot _ _ _ _ _ _ W _ Hs) as [_ Hone].
      destruct (decide (ready_queue d' = ready_queue d)) as [|Hne]; [done|].
      destruct (Hx Hne) as (x & ? & ?). by destruct (Hone x y). }
    rewrite -(insert_id stk c _ Hst). eapply work_frame; try done.
    intros c' Hs. unfold boot_ready. rewrite (Hb _ Hs) insert_id //.
Qed.

End ready.

(** ** Mutexes *)

Section mutex.
Context (d d' : lib) (g g' : ghost) (m : mutex_id) (c : cpu_id) (k : ctx) (hs : gset mutex_id).
Context (Hm : mutexes_ok d g) (Hi : ids_ok d g).
Context (Hf : next_ctx d' = next_ctx d).
Context (Hother : ∀ m', m' ≠ m → mutex_of m' d' = mutex_of m' d).

Lemma ghost_id_inj x x' :
  no_wrap d → is_Some (g !! x) → is_Some (g !! x') → id_of x = id_of x' → x = x'.
Proof. intros ???. apply (id_of_inj d); [by apply (io_ghost _ _ Hi)..|done]. Qed.

Lemma ghost_id_nonzero x : no_wrap d → is_Some (g !! x) → id_of x ≠ 0.
Proof. intros ??. apply (id_of_nonzero d); [by apply (io_ghost _ _ Hi)|done]. Qed.

(** The thread of CPU [c] takes the mutex: it was free, or it was handed over. *)
Lemma mutexes_take φ :
  g !! k = Some (GCtx (Running c φ) hs) →
  (φ = PPlain ∧ free (mutex_of m d) = true ∨ φ = PLock m) →
  (no_wrap d → mutex_of m d' = mk_mutex (waiting_queue (mutex_of m d)) (id_of k) false) →
  g' = <[k := GCtx (Running c PPlain) ({[m]} ∪ hs)]> g →
  mutexes_ok d' g'.
Proof.
  intros Hk Hφ Hmu -> Hnw. assert (no_wrap d) as Hnd by (unfold no_wrap in *; by rewrite -Hf).
  specialize (Hmu Hnd).
  assert (∀ x m', handed (<[k := GCtx (Running c PPlain) ({[m]} ∪ hs)]> g) x m' → k ≠ x ∧
            handed g x m') as Hh.
  { intros x m'. unfold handed. rewrite place_of_insert. case_decide; [|done]. cbn.
    intros [|[? ?]]; done. }
  pose proof (lookup_place_of _ _ _ _ Hk) as Hpk.
  assert (∀ x, k ≠ x → ¬ handed g x m) as Hnh.
  { intros x Hx Hxm. destruct Hφ as [[-> Hfr]| ->].
    - destruct (mo_handed _ _ _ _ (Hm Hnd m) _ Hxm). congruence.
    - apply Hx. apply (mo_unique _ _ _ _ (Hm Hnd m)); [|done]. right. by exists c. }
  assert (∀ x gc, k ≠ x → g !! x = Some gc → m ∉ g_holds gc) as Hnm.
  { intros x gc Hx Hgx Hin. apply (mo_holds _ _ _ _ (Hm Hnd m) _ _ Hgx) in Hin as [Hfr Ho].
    destruct Hφ as [[_ Hfr']| ->]; [congruence|].
    destruct (mo_handed _ _ _ _ (Hm Hnd m) k ltac:(right; by exists c)) as [_ Hz].
    apply (ghost_id_nonzero x); [done|by eexists|]. congruence. }
  intros m'. destruct (decide (m' = m)) as [->|Hne].
  - rewrite Hmu. split; cbn; try done.
    + right. exists k. rewrite Hf. split; [|done]. apply (io_ghost _ _ Hi). by eexists.
    + intros x [Hx Hxm]%Hh. by destruct (Hnh x).
    + intros x x' [Hx Hxm]%Hh. by destruct (Hnh x).
    + intros x gc. destruct (decide (k = x)) as [<-|Hx].
      * rewrite lookup_insert_eq. intros [= <-]. cbn. set_solver.
      * rewrite lookup_insert_ne //. intros Hgx. split; [intros Hin; by destruct (Hnm _ _ Hx Hgx)|].
        intros [_ Hid]. destruct Hx. apply ghost_id_inj; [done|by eexists..|done].
  - rewrite Hother //. destruct (Hm Hnd m'). split; rewrite ?Hf; try done.
    + intros x [_ Hx]%Hh. eauto.
    + intros x x' [_ Hx]%Hh [_ Hx']%Hh. eauto.
    + intros x gc. destruct (decide (k = x)) as [<-|Hx].
      * rewrite lookup_insert_eq. intros [= <-]. cbn. rewrite -(mo_holds _ _ Hk). cbn.
        set_solver.
      * rewrite lookup_insert_ne //. apply mo_holds.
Qed.

(** Its owner releases the mutex, to nobody or to the waiter [y]. *)
Lemma mutexes_release (y : option ctx) q :
  g !! k = Some (GCtx (Running c PPlain) hs) →
  (no_wrap d → owner (mutex_of m d) = id_of k ∧ free (mutex_of m d) = false) →
  mutex_of m d' = mk_mutex q 0 (bool_decide (y = None)) → (y = None → q = []) →
  (∀ y', y = Some y' → y' ≠ k) →
  (∀ x, place_of g' x = if decide (y = Some x) then Some (InQ QReady (PLock m))
                        else place_of g x) →
  (∀ x m', y = Some x → ¬ handed g x m') →
  (∀ x gc', g' !! x = Some gc' → ∃ gc, g !! x = Some gc ∧
     g_holds gc' = if decide (x = k) then g_holds gc ∖ {[m]} else g_holds gc) →
  mutexes_ok d' g'.
Proof.
  intros Hk Hown Hmu Hq Hy Hp Hyh Hh Hnw.
  assert (no_wrap d) as Hnd by (unfold no_wrap in *; by rewrite -Hf).
  destruct (Hown Hnd) as [Ho Hfr].
  assert (∀ x m', handed g' x m' → y = Some x ∧ m' = m ∨ y ≠ Some x ∧ handed g x m') as Hhd.
  { intros x m'. unfold handed. rewrite Hp. case_decide; [|naive_solver].
    intros [[= ->]|[? ?]]; [by left|done]. }
  assert (∀ x, ¬ handed g x m) as Hnh.
  { intros x Hx. destruct (mo_handed _ _ _ _ (Hm Hnd m) _ Hx) as [_ Hz].
    apply (ghost_id_nonzero k); [done|by eexists|]. congruence. }
  assert (∀ x gc, x ≠ k → g !! x = Some gc → m ∉ g_holds gc) as Hnm.
  { intros x gc Hx Hgx Hin. apply (mo_holds _ _ _ _ (Hm Hnd m) _ _ Hgx) in Hin as [_ Ho'].
    apply Hx, ghost_id_inj; [done|by eexists..|congruence]. }
  intros m'. destruct (decide (m' = m)) as [->|Hne].
  - rewrite Hmu. split; cbn.
    + by left.
    + intros Hn%bool_decide_eq_true. by split; [apply Hq|].
    + intros x [[-> _]|[_ Hx]]%Hhd; [|by destruct (Hnh x)].
      by rewrite bool_decide_eq_false_2.
    + intros x x' [[-> _]|[_ Hx]]%Hhd [[? _]|[_ Hx']]%Hhd;
        [congruence|by destruct (Hnh x')|by destruct (Hnh x)..].
    + intros x gc' Hx. destruct (Hh _ _ Hx) as (gc & Hgx & ->). split.
      * case_decide; [set_solver|]. intros Hin. by destruct (Hnm x gc).
      * intros [_ Hz]. exfalso. apply (ghost_id_nonzero x); [done|by eexists|done].
  - rewrite Hother //. destruct (Hm Hnd m'). split; rewrite ?Hf; try done.
    + intros x [[_ ->]|[_ Hx]]%Hhd; [done|]. eauto.
    + intros x x' [[_ ->]|[_ Hx]]%Hhd [[_ ?]|[_ Hx']]%Hhd; [done|done|done|]. eauto.
    + intros x gc' Hx. destruct (Hh _ _ Hx) as (gc & Hgx & ->).
      rewrite -(mo_holds _ _ Hgx). case_decide; set_solver.
Qed.

(** Threads become ready; the mutexes stay. *)
Lemma mutexes_ready :
  (∀ m', free (mutex_of m' d') = free (mutex_of m' d) ∧
         owner (mutex_of m' d') = owner (mutex_of m' d) ∧
         (waiting_queue (mutex_of m' d) = [] → waiting_queue (mutex_of m' d') = [])) →
  (∀ x m', handed g' x m' → handed g x m') →
  (∀ x gc', g' !! x = Some gc' → ∃ gc, g !! x = Some gc ∧ g_holds gc' = g_holds gc) →
  mutexes_ok d' g'.
Proof.
  intros Hmu Hh Hho Hnw m'. assert (no_wrap d) as Hnd by (unfold no_wrap in *; by rewrite -Hf).
  destruct (Hm Hnd m'), (Hmu m') as (E1 & E2 & E3). split; rewrite ?E1 ?E2.
  - by rewrite Hf.
  - intros Hfr. destruct (mo_free Hfr). split; [by apply E3|done].
  - eauto.
  - eauto.
  - intros x gc' Hx. destruct (Hho _ _ Hx) as (gc & ? & ->). eauto.
Qed.

End mutex.
