(* ===== verification/ThreadOps.v ===== *)
(** * The functions of cpu.cpp keep the invariant

    The rules of the actions, with any continuation, and the functions the others
    are made of: the switch ([ok_swap_self_to_queue]) and waking CPUs
    ([ok_check_ready_and_wake]). *)

From stdpp Require Import fin_sets.
From S2P Require Import Prelude CStd ThreadTypes ThreadMonad ThreadLib ThreadMachine.
From S2P Require Import ThreadInv ThreadLogic ThreadSound ThreadMoves ThreadSteps.

(** ** Rules for actions in sequence *)

Section rules.
Context (clean : bool) (n : nat) (c : cpu_id) (b : nat) (v : view) (w : who).

Lemma ok_lib {R : Set} (f : libop R) (K : R → prog unit) r d :
  (0 < b)%nat → f (v_lib v) = Some (r, d) → lib_mono (may_finish w) (v_lib v) d →
  ok clean n c (CIn (pred b) (v_with_lib d v) w) (K r) →
  ok clean n c (CIn b v w) (bind (lib_do f) K).
Proof. intros ????. apply ok_in; [done|]. cbn. eauto. Qed.

(** An access that changes nothing. *)
Lemma ok_read {R : Set} (f : libop R) (K : R → prog unit) r :
  (0 < b)%nat → f (v_lib v) = Some (r, v_lib v) →
  ok clean n c (CIn (pred b) v w) (K r) →
  ok clean n c (CIn b v w) (bind (lib_do f) K).
Proof.
  intros ? Hf Hok. eapply ok_lib; [done|exact Hf|by apply lib_mono_infos|].
  by destruct v.
Qed.

Lemma ok_self (K : nat → prog unit) :
  (0 < b)%nat → ok clean n c (CIn (pred b) v w) (K c) →
  ok clean n c (CIn b v w) (bind (do Self) K).
Proof. intros ??. by apply ok_in. Qed.

Lemma ok_assert_ints (K : unit → prog unit) :
  (0 < b)%nat → ok clean n c (CIn (pred b) v w) (K tt) →
  ok clean n c (CIn b v w) (bind (do AssertInterruptsDisabled) K).
Proof. intros ??. by apply ok_in. Qed.

Lemma ok_guard_load (K : bool → prog unit) :
  (0 < b)%nat → ok clean n c (CIn (pred b) v w) (K true) →
  ok clean n c (CIn b v w) (bind (do GuardLoad) K).
Proof. intros ??. by apply ok_in. Qed.

Lemma ok_assert x (K : unit → prog unit) :
  (0 < b)%nat → x = true → ok clean n c (CIn (pred b) v w) (K tt) →
  ok clean n c (CIn b v w) (bind (do (Assert x)) K).
Proof. intros ???. by apply ok_in. Qed.

Lemma ok_swap u u' (K : unit → prog unit) :
  (0 < b)%nat → save_and_load clean (ok clean n) c (pred b) v w u u' (K tt) →
  ok clean n c (CIn b v w) (bind (do (SwapContext u u')) K).
Proof. intros ??. by apply ok_in. Qed.

Lemma ok_set u (K : unit → prog unit) :
  (0 < b)%nat → only_load clean c (pred b) v w u →
  ok clean n c (CIn b v w) (bind (do (SetContext u)) K).
Proof. intros ??. by apply ok_in. Qed.

(** Leaving the critical section. *)
Lemma ok_guard_unlock g sig w' (K : unit → prog unit) :
  (0 < b)%nat → evolve (own_ctx w) (v_g v) g → sig_ext c (v_sig v) sig →
  released clean c w w' (View (v_lib v) g (v_stk v) sig (v_gold v)) →
  (∀ c', runs_on w' c c' → ok clean n c' (COut w' false) (K tt)) →
  ok clean n c (CIn b v w) (bind Cpu.guard_unlock K).
Proof. intros ?????. apply ok_in; [done|]. split; [done|]. by exists g, sig, w'. Qed.

End rules.

Section out_rules.
Context (clean : bool) (n : nat) (c : cpu_id).

Lemma ok_interrupt_disable w i (K : unit → prog unit) :
  ok clean n c (COut w false) (K tt) → ok clean n c (COut w i) (bind (do InterruptDisable) K).
Proof. intros ?. by apply ok_out. Qed.

Lemma ok_interrupt_enable k hs loc i (K : unit → prog unit) :
  ok clean n c (COut (WUser k hs loc) true) (K tt) →
  ok clean n c (COut (WUser k hs loc) i) (bind (do InterruptEnable) K).
Proof. intros ?. apply ok_out. split; [left; by eexists|done]. Qed.

End out_rules.

(** The program's next statement is brought to the front. *)
Ltac norm := repeat rewrite bind_assoc; cbn [bind negb].

(** ** A thread in its critical section *)

(** CPU [c] runs thread [k]: [g] and [sig] are the annotations as they will be
    when the guard is given back, [e] how many ready threads no CPU has been woken
    for yet. *)
Record user_in (clean : bool) (v : view) (w : who) (c : cpu_id) (k : ctx) (φ : phase)
    (hs : gset mutex_id) (e : nat) (g : ghost) (sig : gset cpu_id) : Prop := {
  ui_own : own_ctx w = Some k;
  ui_evolve : evolve (Some k) (v_g v) g;
  ui_sig : sig_ext c (v_sig v) sig;
  ui_lib : lib_ok clean (Some c) e (View (v_lib v) g (v_stk v) sig (v_gold v));
  ui_stk : v_stk v !! c = Some (SUc (Uc k));
  ui_g : g !! k = Some (GCtx (Running c φ) hs);
  ui_idle : clean = true → idle_of c (v_lib v) = false }.

Section user.
Context (clean : bool).

Lemma user_acquired c k hs loc v :
  acquired clean c (WUser k hs loc) v →
  user_in clean v (WUser k hs loc) c k PPlain hs 0 (v_g v) (v_sig v) ∧
  local_ok (v_lib v) (v_stk v) loc ∧ log_ok loc hs.
Proof.
  intros (Hok & Hs & Hg & Hl & Hlo). split; [|done].
  destruct (lib_ok_acquire clean c k hs v Hok Hs Hg). split; try done.
  - apply evolve_refl.
  - by destruct v.
Qed.

Lemma user_resumed c k φ hs loc v :
  resume_user clean c k φ hs loc v →
  user_in clean v (WUser k hs loc) c k φ hs 0 (v_g v) (v_sig v) ∧
  local_ok (v_lib v) (v_stk v) loc ∧ log_ok loc hs.
Proof.
  intros (Hok & Hs & Hg & Hl & Hlo & Hi). split; [|done]. split; try done.
  - apply evolve_refl.
  - by destruct v.
Qed.

(** Giving the guard back, with what the thread has learnt. *)
Lemma ok_user_unlock n c b v k hs0 hs loc loc' g sig (K : unit → prog unit) :
  (0 < b)%nat →
  user_in clean v (WUser k hs0 loc) c k PPlain hs 0 g sig →
  local_ext loc loc' → local_ok (v_lib v) (v_stk v) loc' → log_ok loc' hs →
  (∀ c', ok clean n c' (COut (WUser k hs loc') false) (K tt)) →
  ok clean n c (CIn b v (WUser k hs0 loc)) (bind Cpu.guard_unlock K).
Proof.
  intros Hb [] ??? HK.
  eapply (ok_guard_unlock _ _ _ _ _ _ g sig (WUser k hs loc')); [done..| |by intros c' _].
  split; [|by split_and!]. by eapply lib_ok_release.
Qed.

Lemma user_last v w c k φ hs e g sig :
  user_in clean v w c k φ hs e g sig → last_of c (v_lib v) = Some k.
Proof.
  intros [_ _ _ [Hl _ _ _ _ _ _] _ Hg _]. apply (lo_last _ _ Hl). exists φ.
  by apply lookup_place_of in Hg.
Qed.

Lemma user_cpu v w c k φ hs e g sig :
  user_in clean v w c k φ hs e g sig → is_Some (cpus (v_lib v) !! c).
Proof.
  intros H%user_last. destruct (last_of_Some _ _ _ H) as (cp & ? & _). by eexists.
Qed.

Lemma view_eta d v g sig :
  View (v_lib (v_with_lib d v)) g (v_stk (v_with_lib d v)) sig (v_gold (v_with_lib d v)) =
  View d g (v_stk v) sig (v_gold v).
Proof. done. Qed.

(** ** Switching *)

Section swap.
Context (v : view) (w : who) (c : cpu_id) (k : ctx) (hs : gset mutex_id) (g : ghost)
  (sig : gset cpu_id).
Context (U : user_in clean v w c k PPlain hs 0 g sig).
Context (q : queue_ref) (φ : phase) (Hq : is_Some (get_queue q (v_lib v))).
Context (Hφ : phase_ok q φ) (Hr : q = QReady → φ = PPlain).
Context (Hm : ∀ m, q = QMutex m → no_wrap (v_lib v) → free (mutex_of m (v_lib v)) = false).

Let g1 : ghost := <[k := GCtx (InQ q φ) hs]> g.

Section enqueued.
Context (d1 : lib) (Hqt : quiet (v_lib v) d1).
Context (Hq1 : ∀ q', queue_of q' d1 =
  if decide (q' = q) then queue_of q (v_lib v) ++ [Some k] else queue_of q' (v_lib v)).
Context (Hl1 : ∀ c', last_of c' d1 = if decide (c' = c) then None else last_of c' (v_lib v)).
Context (Hk1 : ∀ c', kill_of c' d1 = kill_of c' (v_lib v)).

Lemma swap_loc : loc_ok d1 g1.
Proof.
  destruct U as [_ _ _ [Hl _ _ _ _ _ _] _ Hg _]. cbn in Hl.
  eapply loc_enqueue; [exact Hl|exact Hg|done..|]. apply Hqt.
Qed.

Lemma swap_handed x m : handed g1 x m → handed g x m.
Proof.
  unfold handed, g1. rewrite !place_of_insert. case_decide; [|done]. subst x. cbn.
  intros [[= -> ->]|[? ?]]; [|done]. by specialize (Hr eq_refl).
Qed.

Lemma swap_joined x i : joined g1 x i → joined g x i.
Proof.
  unfold joined, g1. rewrite !place_of_insert. case_decide; [|done]. subst x. cbn.
  intros [[= -> ->]|[? ?]]; [|done]. by specialize (Hr eq_refl).
Qed.

Lemma swap_holds x gc' :
  g1 !! x = Some gc' → ∃ gc, g !! x = Some gc ∧ g_holds gc' = g_holds gc.
Proof.
  unfold g1. destruct (decide (k = x)) as [<-|].
  - rewrite lookup_insert_eq. intros [= <-]. eexists. split; [apply U|done].
  - rewrite lookup_insert_ne //. eauto.
Qed.

Lemma swap_dom x : is_Some (g1 !! x) → is_Some (g !! x).
Proof. destruct U as [_ _ _ _ _ Hg _]. by rewrite (dom_insert_eq _ _ _ _ Hg). Qed.

Lemma swap_other_place x c' :
  c' ≠ c → place_of g x = Some (Running c' PPlain) → place_of g1 x = Some (Running c' PPlain).
Proof.
  intros Hne Hx. unfold g1. rewrite place_of_insert. case_decide; [|done]. subst x.
  destruct U as [_ _ _ _ _ Hg _]. apply lookup_place_of in Hg. congruence.
Qed.

(** Nobody is ready: the goldfish runs. *)
Lemma swap_gold st :
  q ≠ QReady → st ≠ SBoot →
  lib_ok clean (Some c) 1 (View d1 g1 (<[c := st]> (v_stk v)) sig (v_gold v)).
Proof.
  intros Hqr Hst. destruct Hqt as [Hf Hmu _ _]. pose proof swap_loc as Hloc.
  pose proof swap_handed. pose proof swap_holds. pose proof swap_dom.
  pose proof swap_other_place.
  destruct U as [_ _ _ [Hl Hi Hmx Hc Hgd Hw Hj] Hst0 Hg _].
  cbn in Hl, Hi, Hmx, Hc, Hgd, Hw. split; cbn [v_lib v_g v_stk v_sig v_gold].
  - done.
  - by eapply ids_frame.
  - eapply mutexes_frame; [done..| |done|done].
    intros Hnw m Hfr Hnil. rewrite Hq1.
    destruct (decide (QMutex m = q)); [|done]. rewrite (Hm m) in Hfr; done.
  - eapply cpus_frame; [done..| |done]. intros c' ?. by rewrite Hl1 decide_False.
  - intros c'. rewrite (fr_dom _ _ Hf). apply Hgd.
  - intros Hcl. eapply work_frame; [by apply Hw|done| |lia| |done|done].
    + change (ready_queue d1) with (queue_of QReady d1). rewrite Hq1 decide_False; [|done].
      cbn. lia.
    + intros c' _ Hnil. left. eapply boot_ready_user in Hnil; [|exact Hl|by eapply lookup_place_of|done].
      change (queue_of QReady d1 = []). by rewrite Hq1 decide_False.
  - intros x i Hx. by eapply (fr_fin _ _ Hf), Hj, swap_joined.
Qed.

(** The front of the ready queue runs. *)
Context (y : ctx) (r : deque) (Hy : queue_of QReady (v_lib v) = Some y :: r).

Lemma swap_front : ∃ φy hsy, g !! y = Some (GCtx (InQ QReady φy) hsy) ∧ y ≠ k.
Proof.
  destruct U as [_ _ _ [Hl _ _ _ _ _ _] _ Hg _]. cbn in Hl.
  destruct (lo_queue _ _ Hl QReady) as (ks & Heq & _ & Hks). rewrite Hy in Heq.
  destruct ks as [|y' ks]; [done|]. injection Heq as [= <- _].
  destruct (proj1 (Hks y) ltac:(by left)) as [φy Hp].
  destruct (place_of_lookup _ _ _ Hp) as [hsy ?]. exists φy, hsy. split; [done|].
  intros ->. congruence.
Qed.

Context (d2 : lib) (Hqt2 : quiet d1 d2).
Context (Hq2 : ∀ q', queue_of q' d2 =
  if decide (q' = QReady) then r ++ (if decide (q = QReady) then [Some k] else [])
  else queue_of q' d1).
Context (Hl2 : ∀ c', last_of c' d2 = if decide (c' = c) then Some y else last_of c' d1).
Context (Hk2 : ∀ c', kill_of c' d2 = kill_of c' d1).

Lemma swap_take φy hsy :
  g !! y = Some (GCtx (InQ QReady φy) hsy) → y ≠ k →
  lib_ok clean (Some c) 0
    (View d2 (<[y := GCtx (Running c φy) hsy]> g1) (<[c := SUc (Uc y)]> (v_stk v)) sig
       (v_gold v)).
Proof.
  intros Hgy Hyk. assert (quiet (v_lib v) d2) as [Hf Hmu _ _] by by etransitivity.
  pose proof swap_loc as Hloc. pose proof swap_handed as Hha. pose proof swap_holds as Hho.
  pose proof swap_dom as Hdm. pose proof swap_other_place as Hop.
  assert (g1 !! y = Some (GCtx (InQ QReady φy) hsy)) as Hgy1.
  { unfold g1. by rewrite lookup_insert_ne. }
  pose proof (lookup_place_of _ _ _ _ Hgy1) as Hpy.
  destruct U as [_ _ _ [Hl Hi Hmx Hc Hgd Hw Hj] Hst0 Hg _].
  cbn in Hl, Hi, Hmx, Hc, Hgd, Hw. split; cbn [v_lib v_g v_stk v_sig v_gold].
  - eapply (loc_take d1 d2 g1 Hloc c y φy hsy (r ++ if decide (q = QReady) then [Some k] else []));
      try done.
    + by rewrite Hl1 decide_True.
    + apply (fr_dom _ _ (qt_frame _ _ Hqt)).
      eapply user_cpu; exact U.
    + rewrite Hq1. repeat case_decide; subst; try done; rewrite Hy ?app_nil_r //.
    + by apply Hqt2.
  - eapply ids_frame; [done..|]. intros x Hx. apply Hdm.
    by apply (dom_insert_eq _ _ _ _ Hgy1) in Hx.
  - eapply mutexes_frame; [done..| | |].
    + intros Hnw m Hfr Hnil. rewrite Hq2. destruct (decide (QMutex m = QReady)); [done|]. rewrite Hq1.
      destruct (decide (QMutex m = q)); [|done].
      rewrite (Hm m) in Hfr; done.
    + intros x m Hx. apply Hha. unfold handed in *. rewrite !(place_of_insert g1) in Hx.
      destruct (decide (y = x)); [|done]. subst x. cbn in Hx. left. rewrite Hpy.
      destruct Hx as [?|[? [= -> ->]]]; [done|]. done.
    + intros x gc'. destruct (decide (y = x)) as [<-|].
      * rewrite lookup_insert_eq. intros [= <-]. eexists. by split.
      * rewrite lookup_insert_ne //. apply Hho.
  - eapply cpus_frame; [done..| |].
    + intros c' ?. by rewrite Hl2 decide_False // Hl1 decide_False.
    + intros x c' Hne Hx. rewrite (place_of_insert g1). specialize (Hop x c' Hne Hx).
      destruct (decide (y = x)); [|done]. subst x. congruence.
  - intros c'. rewrite (fr_dom _ _ Hf). apply Hgd.
  - intros Hcl. eapply work_frame; [by apply Hw|done| |lia| | |done].
    + change (ready_queue d2) with (queue_of QReady d2).
      change (ready_queue (v_lib v)) with (queue_of QReady (v_lib v)).
      rewrite Hq2 Hy. destruct (decide (QReady = QReady)); [|done]. rewrite length_app.
      destruct (decide (q = QReady)); cbn; lia.
    + intros c' _ Hnil. eapply boot_ready_user in Hnil; [|exact Hl|by eapply lookup_place_of|done].
      change (queue_of QReady (v_lib v) = []) in Hnil. congruence.
    + intros x Hx. apply Hdm. by apply (dom_insert_eq _ _ _ _ Hgy1) in Hx.
  - intros x i Hx. apply (fr_fin _ _ Hf), (Hj x), swap_joined. unfold joined in *.
    rewrite !(place_of_insert g1) in Hx. destruct (decide (y = x)); [|done]. subst x.
    cbn in Hx. left. rewrite Hpy. by destruct Hx as [?|[? [= -> ->]]].
Qed.

End enqueued.
End swap.

Lemma ok_swap_self_to_queue n c b v k hs0 hs loc g sig q φ (K : unit → prog unit) :
  (60 ≤ b)%nat → user_in clean v (WUser k hs0 loc) c k PPlain hs 0 g sig →
  is_Some (get_queue q (v_lib v)) → phase_ok q φ →
  (q = QReady → φ = PPlain ∧ queue_of QReady (v_lib v) ≠ []) →
  (∀ m, q = QMutex m → no_wrap (v_lib v) → free (mutex_of m (v_lib v)) = false) →
  log_ok loc hs →
  (∀ c' b' v', (10 ≤ b')%nat → resume_user clean c' k φ hs loc v' →
               ok clean n c' (CIn b' v' (WUser k hs loc)) (K tt)) →
  ok clean n c (CIn b v (WUser k hs0 loc)) (bind (Cpu.swap_self_to_queue q) K).
Proof.
  intros Hb U Hq Hφ Hr Hm Hlo HK. unfold Cpu.swap_self_to_queue.
  assert (q = QReady → φ = PPlain) as Hr1 by naive_solver.
  destruct (push_back_last_spec q c k (v_lib v) Hq (user_last _ _ _ _ _ _ _ _ _ U))
    as (d1 & Hpush & Hqt1 & Hq1 & Hl1 & Hk1).
  norm. apply ok_assert_ints; [lia|]. norm. apply ok_guard_load; [lia|].
  norm. apply ok_assert; [lia|done|]. norm. apply ok_self; [lia|].
  norm. eapply ok_lib; [lia|exact Hpush|apply Hqt1|].
  norm. apply ok_self; [lia|].
  assert (is_Some (cpus d1 !! c)) as Hcp.
  { apply (fr_dom _ _ (qt_frame _ _ Hqt1)). by eapply user_cpu. }
  norm. eapply ok_read; [lia|by apply read_last_spec|].
  norm. apply ok_assert; [lia|by rewrite /= Hl1 decide_True|].
  norm. eapply ok_read; [lia|by apply queue_empty_spec; eexists|].
  assert (uc_live (Uc k) d1 = true) as Hlive.
  { apply bool_decide_eq_true. rewrite (fr_ctx _ _ (qt_frame _ _ Hqt1)).
    destruct U as [_ _ _ [Hl _ _ _ _ _ _] _ Hg _]. apply (lo_live _ _ Hl). cbn.
    exists (Running c PPlain). split; [by eapply lookup_place_of|done]. }
  assert (saved_place (InQ q φ) φ) as Hsv by done.
  destruct (queue_of QReady (v_lib v)) as [|x r] eqn:Eready.
  - (* the goldfish *)
    assert (q ≠ QReady) as Hqr by naive_solver.
    cbn [v_lib v_with_lib].
    assert (queue_of QReady d1 = []) as -> by (rewrite Hq1 decide_False //).
    cbn [bool_decide decide_rel]. rewrite bool_decide_eq_true_2 //. norm.
    eapply ok_read; [lia|eapply deref_back_spec;
      [by apply (qt_queue _ _ Hqt1)|by rewrite /= Hq1 decide_True]|].
    norm. apply ok_self; [lia|]. norm. apply ok_swap; [lia|].
    pose proof (swap_gold _ _ _ _ _ _ _ U q φ Hq Hφ Hr1 Hm d1 Hqt1 Hq1 Hl1 Hk1
                  (SUc (Goldfish c)) Hqr ltac:(done)) as Hok.
    destruct U as [_ He Hsig _ Hst Hg Hi]. split_and!; [done|done|].
    exists (<[k := GCtx (InQ q φ) hs]> g), sig. split_and!.
    + by apply evolve_own.
    + done.
    + split_and!; [done|lia|by rewrite /= Hst|]. split_and!; cbn.
      * done.
      * by rewrite lookup_insert_eq.
      * done.
      * by rewrite Hl1 decide_True.
      * intros Hcl Hid. rewrite (fr_idle _ _ (qt_frame _ _ Hqt1)) Hi // in Hid.
    + done.
    + exists (InQ q φ), φ, hs. rewrite lookup_insert_eq.
      split_and!; [done..|]. intros. by apply HK.
  - (* the next ready thread *)
    destruct (lo_queue _ _ (ok_loc _ _ _ _ (ui_lib _ _ _ _ _ _ _ _ _ _ U)) QReady)
      as (ks & Heq & _ & _).
    change (queue_of QReady (v_lib v) = Some <$> ks) in Heq. rewrite Eready in Heq.
    destruct ks as [|y ks]; [done|]. injection Heq as -> _.
    destruct (swap_front _ _ _ _ _ _ _ U y r Eready) as (φy & hsy & Hgy & Hyk).
    assert (queue_of QReady d1 = Some y :: (r ++ if decide (q = QReady) then [Some k] else []))
      as Ey1.
    { rewrite Hq1. destruct (decide (QReady = q)) as [<-|].
      - rewrite Eready. by destruct (decide (QReady = QReady)).
      - destruct (decide (q = QReady)); [done|]. by rewrite Eready app_nil_r. }
    assert (last_of c d1 = None) as Hl1c by by rewrite Hl1 decide_True.
    destruct (swap_last_ready_front_spec c d1 y _ Hcp Hl1c Ey1)
      as (d1' & d2 & Hsw & Hm1 & Hfr & Hrl & Hpop & Hm2 & Hqt2 & Hq2 & Hl2 & Hk2).
    cbn [v_lib v_with_lib]. rewrite Ey1 bool_decide_eq_false_2 //. norm.
    apply ok_self; [lia|]. norm. eapply ok_lib; [lia|exact Hsw|apply Hm1|].
    norm. eapply ok_lib; [lia|exact Hpop|apply Hm2|]. cbn [destroy]. norm.
    assert (∃ l, queue_of q d2 = l ++ [Some k]) as [l Hback].
    { rewrite Hq2. destruct (decide (q = QReady)) as [->|].
      - destruct (decide (QReady = QReady)); [by eexists|done].
      - rewrite Hq1. destruct (decide (q = q)); [by eexists|done]. }
    eapply ok_read; [lia|eapply deref_back_spec;
      [by apply (qt_queue _ _ Hqt2), (qt_queue _ _ Hqt1)|exact Hback]|].
    norm. apply ok_self; [lia|].
    norm. eapply ok_read; [lia|by apply deref_last_spec; rewrite /= Hl2 decide_True|].
    norm. apply ok_swap; [lia|].
    pose proof (swap_take _ _ _ _ _ _ _ U q φ Hq Hφ Hr1 Hm d1 Hqt1 Hq1 Hl1 Hk1 y r Eready
                  d2 Hqt2 Hq2 Hl2 Hk2 φy hsy Hgy Hyk) as Hok.
    destruct U as [_ He Hsig _ Hst Hg Hi].
    split_and!; [by rewrite /= /uc_live (fr_ctx _ _ (qt_frame _ _ Hqt2))|done|].
    exists (<[y := GCtx (Running c φy) hsy]> (<[k := GCtx (InQ q φ) hs]> g)), sig. split_and!.
    + apply (evolve_insert _ _ _ y (InQ QReady φy)); [by apply evolve_own| |done].
      by rewrite lookup_insert_ne.
    + done.
    + split_and!; [lia|exact Hok|exists φy, hsy; by rewrite /= lookup_insert_eq|].
      intros Hcl. cbn. rewrite (fr_idle _ _ (qt_frame _ _ Hqt2)).
      rewrite (fr_idle _ _ (qt_frame _ _ Hqt1)). by apply Hi.
    + done.
    + exists (InQ q φ), φ, hs. rewrite lookup_insert_ne // lookup_insert_eq.
      split_and!; [done..|]. intros. by apply HK.
Qed.

(** ** Waking CPUs *)

(** What a critical section knows whoever runs it; [st] is the stack the CPU will
    run on when it gives the guard back. *)
Record in_cs (v : view) (w : who) (c : cpu_id) (st : stack_ref) (e : nat) (g : ghost)
    (sig : gset cpu_id) : Prop := {
  cs_evolve : evolve (own_ctx w) (v_g v) g;
  cs_sig : sig_ext c (v_sig v) sig;
  cs_own : is_Some (v_stk v !! c);
  cs_lib : lib_ok clean (Some c) e (View (v_lib v) g (<[c := st]> (v_stk v)) sig (v_gold v));
  cs_idle : clean = true → idle_of c (v_lib v) = false }.

Lemma user_cs v w c k φ hs e g sig :
  user_in clean v w c k φ hs e g sig → in_cs v w c (SUc (Uc k)) e g sig.
Proof.
  intros [Ho He ? ? Hst _ ?]. split; try done.
  - by rewrite Ho.
  - by rewrite insert_id.
Qed.

Lemma user_of_cs v w c k φ hs e g sig :
  in_cs v w c (SUc (Uc k)) e g sig → own_ctx w = Some k → v_stk v !! c = Some (SUc (Uc k)) →
  g !! k = Some (GCtx (Running c φ) hs) → user_in clean v w c k φ hs e g sig.
Proof.
  intros [He ?? Hl ?] Ho Hst ?. rewrite Ho in He. rewrite insert_id // in Hl.
Qed.

(** Only the idle flags have changed. *)
Record idle_only (d d' : lib) : Prop := {
  id_frame : next_ctx d' = next_ctx d ∧ max_id d' = max_id d ∧ contexts d' = contexts d ∧
             cpu_vec d' = cpu_vec d ∧ ready_queue d' = ready_queue d ∧
             mutexes d' = mutexes d ∧ cvs d' = cvs d ∧ infos d' = infos d;
  id_cpus c : ∃ b, cpus d' !! c = set_idle b <$> cpus d !! c }.

#[local] Instance idle_only_preorder : PreOrder idle_only.
Proof.
  split.
  - intros d. split; [done|]. intros c. exists (idle_of c d). unfold idle_of.
    by destruct (cpus d !! c) as [[]|].
  - intros d1 d2 d3 [H1 C1] [H2 C2]. split; [naive_solver congruence|]. intros c.
    destruct (C1 c) as [b1 E1], (C2 c) as [b2 E2]. exists b2. rewrite E2 E1.
    by destruct (cpus d1 !! c).
Qed.

Section idle_only.
Context (d d' : lib) (H : idle_only d d').

Lemma idle_only_dom c : is_Some (cpus d' !! c) ↔ is_Some (cpus d !! c).
Proof. destruct (id_cpus _ _ H c) as [b ->]. by rewrite fmap_is_Some. Qed.
Lemma idle_only_last c : last_of c d' = last_of c d.
Proof.
  unfold last_of. destruct (id_cpus _ _ H c) as [b ->]. by destruct (cpus d !! c).
Qed.
Lemma idle_only_kill c : kill_of c d' = kill_of c d.
Proof.
  unfold kill_of. destruct (id_cpus _ _ H c) as [b ->]. by destruct (cpus d !! c).
Qed.
Lemma idle_only_get q : get_queue q d' = get_queue q d.
Proof.
  destruct (id_frame _ _ H) as (?&?&?&?&Hr&Hm&Hv&Hi). destruct q; cbn.
  - by rewrite Hr.
  - unfold mutex_of. by rewrite Hm.
  - unfold cv_of. by rewrite Hv.
  - by rewrite Hi.
Qed.
Lemma idle_only_queue q : queue_of q d' = queue_of q d.
Proof. unfold queue_of. by rewrite idle_only_get. Qed.
Lemma idle_only_mutex m : mutex_of m d' = mutex_of m d.
Proof. unfold mutex_of. by destruct (id_frame _ _ H) as (?&?&?&?&?&->&?&?). Qed.
Lemma idle_only_infos : infos d' = infos d.
Proof. by destruct (id_frame _ _ H) as (?&?&?&?&?&?&?&->). Qed.

Lemma idle_only_mono fin : lib_mono fin d d'.
Proof. apply lib_mono_infos; [apply idle_only_infos|]. by destruct (id_frame _ _ H) as [-> _]. Qed.

(** All but the accounting of the idle CPUs is as it was. *)
Lemma lib_ok_idle_only c e e' g stk sig sig' gold :
  lib_ok clean (Some c) e (View d g stk sig gold) →
  (clean = true → work_ok (Some c) e' d' g stk sig') →
  lib_ok clean (Some c) e' (View d' g stk sig' gold).
Proof.
  intros [Hl Hi Hm Hc Hg Hw Hj] Hw'. cbn in *.
  destruct (id_frame _ _ H) as (En & Ex & Ec & Ev & _ & _ & _ & Ei). split; cbn; [..|done|].
  - eapply loc_same; [exact Hl|done|intros; apply idle_only_queue|intros; apply idle_only_last
      |intros; apply idle_only_kill|done].
  - destruct Hi. split; rewrite ?En ?Ex ?Ec ?Ei; done.
  - intros Hnw m. rewrite idle_only_mutex En. apply Hm. unfold no_wrap in *. by rewrite -En.
  - destruct Hc. split; rewrite ?Ev; try done.
    + intros c'. by rewrite idle_only_dom.
    + intros c' ?%idle_only_dom. by apply co_dom.
    + intros c' st Hst Hne. specialize (co_stack _ _ Hst Hne).
      destruct st as [|[c2|k]].
      * apply eq_None_not_Some. rewrite idle_only_dom co_stack. by intros [? ?].
      * by rewrite idle_only_dom idle_only_last.
      * by rewrite idle_only_last.
  - intros c'. rewrite idle_only_dom. apply Hg.
  - intros x i Hx. unfold finished. rewrite idle_only_infos. by eapply Hj.
Qed.

End idle_only.

Lemma idle_only_write c b cp d :
  cpus d !! c = Some cp → idle_only d (with_cpu c (set_idle b cp) d).
Proof.
  intros Hc. split; [done|]. intros c'. rewrite cpus_with_cpu. case_decide; subst.
  - exists b. by rewrite Hc.
  - exists (idle_of c' d). unfold idle_of. by destruct (cpus d !! c') as [[]|].
Qed.

(** Waking one idle CPU. *)
Lemma work_ok_wake c c' cp e d g stk sig :
  work_ok (Some c) e d g stk sig → cpus d !! c' = Some cp → idle_of c' d = true →
  idle_of c d = false →
  work_ok (Some c) e (with_cpu c' (set_idle false cp) d) g stk ({[c']} ∪ sig) ∧
  c' ≠ c ∧ stk !! c' = Some (SUc (Goldfish c')) ∧ c' ∉ sig.
Proof.
  intros [] Hc' Hi Hic. assert (c' ≠ c) as Hne by congruence.
  assert (Some c ≠ Some c') as Hne' by congruence.
  pose proof (wo_idle _ Hne' Hi) as Hs.
  assert (c' ∉ sig) as Hns by (intros Hin; apply wo_sig in Hin as [_ ?]; congruence).
  split; [|done]. split; try done.
  - intros c2 ?. rewrite idle_of_with_cpu. case_decide; [done|]. by apply wo_idle.
  - intros c2 ?. rewrite elem_of_union elem_of_singleton idle_of_with_cpu wo_sig //.
    case_decide; subst; naive_solver.
  - intros c2 [= <-]. specialize (wo_own c eq_refl). set_solver.
  - intros c2. rewrite idle_of_with_cpu. case_decide; [done|]. intros Hi2.
    specialize (wo_ready _ Hi2). cbn. rewrite size_union; [|set_solver]. lia.
Qed.

(** The view after some CPUs have been woken. *)
Record woken (v v' : view) : Prop := {
  wk_lib : idle_only (v_lib v) (v_lib v');
  wk_g : v_g v' = v_g v;
  wk_stk : v_stk v' = v_stk v;
  wk_gold : v_gold v' = v_gold v }.

Lemma woken_trans v1 v2 v3 : woken v1 v2 → woken v2 v3 → woken v1 v3.
Proof. intros [] []. split; [by etransitivity|congruence..]. Qed.

Lemma cs_enough v w c st e g sig :
  in_cs v w c st e g sig →
  (clean = true → ∀ c', idle_of c' (v_lib v) = true →
                  (length (ready_queue (v_lib v)) ≤ base.size sig)%nat) →
  in_cs v w c st 0 g sig.
Proof.
  intros [? ? ? [Hl Hi Hm Hc Hg Hw Hj] ?] Hr. split; [done..| |done]. split; try done.
  intros Hcl. destruct (Hw Hcl). split; try done. intros c' Hi'. cbn.
  specialize (Hr Hcl c' Hi'). lia.
Qed.

Lemma ok_wake_from n w c st e N g (K : unit → prog unit) it u b v sig :
  (3 * length it + N ≤ b)%nat → in_cs v w c st e g sig →
  (∀ c', c' ∈ it → is_Some (cpus (v_lib v) !! c')) →
  (clean = true → ∀ c', is_Some (cpus (v_lib v) !! c') → c' ∉ it →
                  idle_of c' (v_lib v) = false) →
  (clean = true → (length (ready_queue (v_lib v)) ≤ base.size sig + u)%nat) →
  (∀ b' v' sig', (N ≤ b')%nat → woken v v' → in_cs v' w c st 0 g sig' →
                 ok clean n c (CIn b' v' w) (K tt)) →
  ok clean n c (CIn b v w) (bind (Cpu.wake_from it u) K).
Proof.
  assert (∀ v u sig b, (N ≤ b)%nat → in_cs v w c st e g sig →
    (clean = true → u = 0%nat ∨ ∀ c', idle_of c' (v_lib v) = false) →
    (clean = true → (length (ready_queue (v_lib v)) ≤ base.size sig + u)%nat) →
    (∀ b' v' sig', (N ≤ b')%nat → woken v v' → in_cs v' w c st 0 g sig' →
                   ok clean n c (CIn b' v' w) (K tt)) →
    ok clean n c (CIn b v w) (K tt)) as Hend.
  { intros v0 u0 sig0 b0 Hb Hcs Hu Hr HK. apply (HK b0 v0 sig0); [done|by split|].
    eapply cs_enough; [done|]. intros Hcl c' Hi'. specialize (Hr Hcl).
    destruct (Hu Hcl) as [->|Hn]; [lia|]. by rewrite Hn in Hi'. }
  revert u b v sig. induction it as [|c' it IH]; intros u b v sig Hb Hcs Hin Hno Hr HK.
  - assert (ok clean n c (CIn b v w) (K tt)) as Hgoal; [|by destruct u].
    eapply (Hend v u sig); [cbn in Hb; lia|done| |done|done].
    intros Hcl. right. intros c'. destruct (cpus (v_lib v) !! c') as [cp|] eqn:E.
    + apply Hno; [done|by eexists|set_solver].
    + unfold idle_of. by rewrite E.
  - destruct u as [|u].
    { eapply (Hend v 0%nat sig); [cbn in Hb; lia|done|by left|done|done]. }
    destruct (Hin c' ltac:(by left)) as [cp Hcp]. cbn in Hb. cbn [Cpu.wake_from].
    norm. eapply ok_read; [lia|by unfold read_idle, reads; rewrite Hcp|].
    assert (idle_of c' (v_lib v) = is_idle cp) as Hi by (unfold idle_of; by rewrite Hcp).
    destruct (is_idle cp) eqn:Eidle.
    + norm. eapply ok_lib; [lia|by unfold write_idle, writes; rewrite Hcp| |].
      { by apply lib_mono_infos. }
      destruct Hcs as [He Hs Hst Hl Hid].
      set (d1 := with_cpu c' (set_idle false cp) (v_lib v)).
      assert (idle_only (v_lib v) d1) as Hio by by apply idle_only_write.
      assert (clean = true → work_ok (Some c) e d1 g (<[c := st]> (v_stk v)) ({[c']} ∪ sig) ∧
        c' ≠ c ∧ <[c := st]> (v_stk v) !! c' = Some (SUc (Goldfish c')) ∧ c' ∉ sig) as Hw.
      { intros Hcl. apply work_ok_wake; [by apply Hl|done|done|by apply Hid]. }
      norm. apply ok_in; [lia|]. split_and!.
      * destruct (decide (c = c')) as [->|Hne]; [done|].
        assert (is_Some (<[c := st]> (v_stk v) !! c')) as Hd
          by by apply (co_dom _ _ _ _ (ok_cpus _ _ _ _ Hl)); eexists.
        by rewrite lookup_insert_ne in Hd.
      * intros Hcl. destruct (Hw Hcl) as (_&Hne&Hst'&?). rewrite lookup_insert_ne // in Hst'.
        split_and!; [done..|]. by rewrite (Hs c' Hne).
      * apply (IH u _ _ ({[c']} ∪ sig)); [cbn; lia| | | | |].
        -- split; cbn; [done| |done| |].
           ++ intros c2 Hc2. rewrite !elem_of_union (Hs c2 Hc2). done.
           ++ eapply lib_ok_idle_only; [exact Hio|exact Hl|]. intros Hcl. by apply Hw.
           ++ intros Hcl. rewrite idle_of_with_cpu. case_decide; [done|]. by apply Hid.
        -- intros c2 Hc2. cbn. apply (idle_only_dom _ _ Hio), Hin. by right.
        -- intros Hcl c2 Hc2 Hn2. cbn. rewrite idle_of_with_cpu. case_decide; [done|].
           apply (idle_only_dom _ _ Hio) in Hc2. apply Hno; [done..|]. set_solver.
        -- intros Hcl. destruct (Hw Hcl) as (_&_&_&?). specialize (Hr Hcl). cbn.
           rewrite size_union; [|set_solver]. rewrite size_singleton. lia.
        -- intros b' v' sig' ? Hwk. apply HK; [done|].
           eapply woken_trans; [|exact Hwk]. by split.
    + eapply IH; [lia|exact Hcs| | |done|done].
      * intros c2 Hc2. apply Hin. by right.
      * intros Hcl c2 Hc2 Hn2. destruct (decide (c2 = c')) as [->|]; [done|].
        apply Hno; [done..|]. set_solver.
Qed.

Lemma ok_check_ready_and_wake n w c st e N g (K : unit → prog unit) b v sig :
  (3 * length (cpu_vec (v_lib v)) + 5 + N ≤ b)%nat → in_cs v w c st e g sig →
  (∀ b' v' sig', (N ≤ b')%nat → woken v v' → in_cs v' w c st 0 g sig' →
                 ok clean n c (CIn b' v' w) (K tt)) →
  ok clean n c (CIn b v w) (bind Cpu.check_ready_and_wake K).
Proof.
  intros Hb Hcs HK. unfold Cpu.check_ready_and_wake.
  norm. apply ok_assert_ints; [lia|]. norm. apply ok_guard_load; [lia|].
  norm. apply ok_assert; [lia|done|].
  norm. eapply ok_read; [lia|by apply queue_size_spec; eexists|].
  norm. eapply ok_read; [lia|done|].
  destruct Hcs as [He Hs Hst Hl Hid]. pose proof (ok_cpus _ _ _ _ Hl) as [_ Hvec _ _].
  eapply (ok_wake_from n w c st e N); [|by split| | | |exact HK].
  - lia.
  - intros c' Hc'. by apply Hvec.
  - intros Hcl c' Hc' Hn. by destruct Hn; apply Hvec.
  - intros Hcl. change (queue_of QReady (v_lib v)) with (ready_queue (v_lib v)). lia.
Qed.

End user.
