(* ===== verification/ThreadCalls.v ===== *)
(** * The operations threads call

    mutex.cpp, cv.cpp and the calls of thread.cpp keep the invariant whoever runs
    them, return with what they promise ([note_ok]) or throw.  The continuation
    [f] is what the caller does next, [h] its handler. *)

From stdpp Require Import fin_sets.
From S2P Require Import Prelude CStd ThreadTypes ThreadMonad ThreadLib ThreadMachine.
From S2P Require Import ThreadInv ThreadLogic ThreadSound ThreadMoves ThreadSteps.
From S2P Require Import ThreadReady ThreadOps.

(** ** Programs that do not throw *)

Create HintDb nothrow.

Lemma nothrow_guard_lock : nothrow Cpu.guard_lock.
Proof. by intros []. Qed.
Lemma nothrow_guard_unlock : nothrow Cpu.guard_unlock.
Proof. done. Qed.
Lemma nothrow_swap q : nothrow (Cpu.swap_self_to_queue q).
Proof.
  unfold Cpu.swap_self_to_queue. repeat (apply nothrow_bind; [done|intros ?]).
  destruct (negb _); repeat (apply nothrow_bind; [done || apply nothrow_destroy|intros ?]); done.
Qed.
Lemma nothrow_wake_from it u : nothrow (Cpu.wake_from it u).
Proof.
  revert u. induction it as [|c it IH]; intros [|u]; try done. cbn.
  intros []; cbn; [|apply IH]. intros []. intros []. apply IH.
Qed.
Lemma nothrow_check : nothrow Cpu.check_ready_and_wake.
Proof. repeat (apply nothrow_bind; [done|intros ?]). apply nothrow_wake_from. Qed.
Lemma nothrow_add x : nothrow (Cpu.add_to_ready_queue x).
Proof.
  apply nothrow_bind; [done|intros _]. by apply nothrow_bind; [apply nothrow_check|].
Qed.
Lemma nothrow_add_all q : nothrow (Cpu.add_all_to_ready_queue q).
Proof.
  apply nothrow_bind; [done|intros n].
  apply nothrow_bind; [by apply nothrow_for_each|intros _].
  apply nothrow_bind; [done|intros l].
  apply nothrow_bind; [apply nothrow_for_each, nothrow_destroy|intros _]. apply nothrow_check.
Qed.
Lemma nothrow_do {R : Set} (a : act R) : nothrow (do a).
Proof. done. Qed.
Lemma nothrow_lib {R : Set} (f : libop R) : nothrow (lib_do f).
Proof. done. Qed.

#[export] Hint Resolve nothrow_guard_lock nothrow_guard_unlock nothrow_swap nothrow_check
  nothrow_add nothrow_add_all nothrow_do nothrow_lib nothrow_destroy : nothrow.

#[local] Opaque Cpu.guard_lock Cpu.guard_unlock Cpu.swap_self_to_queue Cpu.check_ready_and_wake.

(** Bring the next statement of a handled program to the front. *)
Ltac hnorm :=
  repeat first [rewrite handle_nothrow; [|solve [eauto with nothrow]] | rewrite handle_bind].

(** ** Entering and leaving *)

Section calls.
Context (clean : bool) (n : nat).

Lemma ok_critical c w i (F : unit → prog unit) (K : prog unit) :
  w ≠ WGold false → (∀ u, F u = bind Cpu.guard_lock (λ _, K)) →
  (∀ v, acquired clean c w v →
        ∃ b, (b ≤ cs_bound (v_lib v))%nat ∧ ok clean n c (CIn b v w) K) →
  ok clean n c (COut w i) (bind (do InterruptDisable) F).
Proof. intros ? HF ?. apply ok_interrupt_disable. rewrite HF. by apply ok_guard_lock. Qed.

Lemma ok_leave c b v k hs0 hs loc loc' g sig (F f : unit → prog unit) :
  (0 < b)%nat → user_in clean v (WUser k hs0 loc) c k PPlain hs 0 g sig →
  local_ext loc loc' → local_ok (v_lib v) (v_stk v) loc' → log_ok loc' hs →
  (∀ u, F u = bind (do InterruptEnable) f) →
  (∀ c', ok clean n c' (COut (WUser k hs loc') true) (f tt)) →
  ok clean n c (CIn b v (WUser k hs0 loc)) (bind Cpu.guard_unlock F).
Proof.
  intros ????? HF ?. eapply ok_user_unlock; try done. intros c'. rewrite HF.
  by apply ok_interrupt_enable.
Qed.

Lemma local_ext_refl loc : local_ext loc loc.
Proof. by split_and!. Qed.

(** *** Joining the ready queue *)

Lemma ok_add_to_ready_queue w c st e N g y d1 (K : option ctx → prog unit) b v sig :
  (3 * length (cpu_vec (v_lib v)) + 6 + N ≤ b)%nat →
  push_back QReady (Some y) (v_lib v) = Some (tt, d1) → quiet (v_lib v) d1 →
  in_cs clean (v_with_lib d1 v) w c st e g sig →
  (∀ b' v' sig', (N ≤ b')%nat → woken (v_with_lib d1 v) v' → in_cs clean v' w c st 0 g sig' →
                 ok clean n c (CIn b' v' w) (K None)) →
  ok clean n c (CIn b v w) (bind (Cpu.add_to_ready_queue (Some y)) K).
Proof.
  intros Hb Hp Hq Hcs HK. unfold Cpu.add_to_ready_queue.
  norm. eapply ok_lib; [lia|exact Hp|apply Hq|].
  norm. eapply ok_check_ready_and_wake; [|exact Hcs|exact HK].
  cbn. rewrite (fr_vec _ _ (qt_frame _ _ Hq)). lia.
Qed.

#[local] Opaque Cpu.add_to_ready_queue.

(** ** The thread itself *)

(** It goes on after being resumed, or changes which mutexes it has. *)
Lemma user_update v w c k φ hs g sig d' hs' :
  user_in clean v w c k φ hs 0 g sig → frame (v_lib v) d' →
  (∀ q, queue_of q d' = queue_of q (v_lib v)) →
  (∀ c', last_of c' d' = last_of c' (v_lib v)) →
  (∀ c', kill_of c' d' = kill_of c' (v_lib v)) →
  mutexes_ok d' (<[k := GCtx (Running c PPlain) hs']> g) →
  user_in clean (v_with_lib d' v) w c k PPlain hs' 0
    (<[k := GCtx (Running c PPlain) hs']> g) sig.
Proof.
  intros [Ho He Hs Hlib Hst Hg Hi] Hf Hq Hl Hk Hm. pose proof (ok_loc _ _ _ _ Hlib) as Hloc.
  cbn in Hloc. apply lookup_place_of in Hg as Hpk.
  split; cbn; [done|by apply evolve_own|done| |done|by rewrite lookup_insert_eq|].
  - eapply (lib_ready clean c _ _ _ (v_lib v) d' g _ 0 0 k); try done.
    + by eapply (loc_phase _ d'); try done; apply Hf.
    + intros x i Hx. apply (fr_fin _ _ Hf), (ok_joined _ _ _ _ Hlib x i). cbn.
      unfold joined in *. rewrite !place_of_insert in Hx. destruct (decide (k = x)); [|done].
      by destruct Hx as [?|[? ?]].
    + intros x c' Hx. rewrite place_of_insert. case_decide; [|done]. subst x. cbn. congruence.
    + intros x. by rewrite (dom_insert_eq _ _ _ _ Hg).
    + intros Hne. destruct Hne. apply (Hq QReady).
    + specialize (Hq QReady). change (ready_queue d') with (queue_of QReady d'). rewrite Hq.
      cbn. lia.
  - intros Hcl. rewrite (fr_idle _ _ Hf). by apply Hi.
Qed.

(** What the thread knows of itself. *)
Lemma user_id v w c k φ hs g sig :
  user_in clean v w c k φ hs 0 g sig → last_id c (v_lib v) = Some (id_of k, v_lib v).
Proof.
  intros U. pose proof (user_last _ _ _ _ _ _ _ _ _ _ U) as Hl. unfold last_of in Hl.
  destruct U as [_ _ _ [Hloc Hids _ _ _ _ _] _ Hg _]. cbn in *.
  assert (is_Some (contexts (v_lib v) !! k)) as [u Hu].
  { apply (lo_live _ _ Hloc). exists (Running c φ). by split; [eapply lookup_place_of|]. }
  unfold last_id, reads. rewrite Hl. cbn. rewrite Hu. cbn. by rewrite (io_id _ _ Hids _ _ Hu).
Qed.

(** ** A thread makes another one ready *)

Lemma queue_head d g q x r :
  loc_ok d g → queue_of q d = x :: r →
  ∃ y φ hsy, x = Some y ∧ g !! y = Some (GCtx (InQ q φ) hsy) ∧ phase_ok q φ.
Proof.
  intros Hl Hr. destruct (lo_queue _ _ Hl q) as (ks & Heq & _ & Hks). rewrite Hr in Heq.
  destruct ks as [|y ks]; [done|]. injection Heq as -> _.
  destruct (proj1 (Hks y) ltac:(by left)) as [φ Hp].
  destruct (place_of_lookup _ _ _ Hp) as [hsy Hg]. exists y, φ, hsy. split_and!; [done..|].
  by eapply lo_phase.
Qed.

Section wake_front.
Context (v : view) (w : who) (c : cpu_id) (k : ctx) (hs hs' : gset mutex_id) (g : ghost)
  (sig : gset cpu_id).
Context (U : user_in clean v w c k PPlain hs 0 g sig).
Context (q : queue_ref) (Hqr : q ≠ QReady) (Hqj : ∀ i, q ≠ QJoin i).
Context (y : ctx) (r : deque) (φ : phase) (hsy : gset mutex_id).
Context (Hr : queue_of q (v_lib v) = Some y :: r).
Context (Hgy : g !! y = Some (GCtx (InQ q φ) hsy)).

(** The annotations after: [k] may have given up mutexes. *)
Definition waking : ghost :=
  <[y := GCtx (InQ QReady φ) hsy]> (<[k := GCtx (Running c PPlain) hs']> g).

Lemma waking_ne : y ≠ k.
Proof. destruct U as [_ _ _ _ _ Hg _]. intros ->. congruence. Qed.

Lemma waking_place x :
  place_of waking x = if decide (y = x) then Some (InQ QReady φ) else place_of g x.
Proof.
  destruct U as [_ _ _ _ _ Hg _]. apply lookup_place_of in Hg. unfold waking.
  rewrite !place_of_insert. repeat case_decide; subst; done.
Qed.

Lemma waking_holds x gc' :
  waking !! x = Some gc' → ∃ gc, g !! x = Some gc ∧
    g_holds gc' = if decide (x = k) then hs' else g_holds gc.
Proof.
  destruct U as [_ _ _ _ _ Hg _]. pose proof waking_ne. unfold waking.
  rewrite !lookup_insert_Some. intros [[<- <-]|[Hx [[<- <-]|[Hk Hx']]]].
  - eexists. split; [exact Hgy|]. by rewrite decide_False.
  - eexists. split; [exact Hg|]. by rewrite decide_True.
  - eexists. split; [done|]. by rewrite decide_False.
Qed.

Lemma user_wake_front d' :
  frame (v_lib v) d' →
  (∀ q', queue_of q' d' = if decide (q' = q) then r
                          else if decide (q' = QReady)
                               then queue_of QReady (v_lib v) ++ [Some y]
                          else queue_of q' (v_lib v)) →
  (∀ c', last_of c' d' = last_of c' (v_lib v)) →
  (∀ c', kill_of c' d' = kill_of c' (v_lib v)) → mutexes_ok d' waking →
  user_in clean (v_with_lib d' v) w c k PPlain hs' 1 waking sig.
Proof.
  intros Hf Hq Hl Hk Hm. pose proof waking_ne as Hyk. pose proof waking_place as Hwp.
  destruct U as [Ho He Hs Hlib Hst Hg Hi].
  pose proof (ok_loc _ _ _ _ Hlib) as Hloc. cbn in Hloc. apply lookup_place_of in Hgy as Hpy.
  assert (∀ x, is_Some (waking !! x) → is_Some (g !! x)) as Hdm.
  { intros x [gc Hx]. destruct (waking_holds _ _ Hx) as (gc0 & ? & _). by eexists. }
  split; cbn; [done| |done| |done|by rewrite /waking lookup_insert_ne // lookup_insert_eq|].
  - eapply (evolve_insert _ _ _ y (InQ q φ)); [by apply evolve_own| |done].
    by rewrite lookup_insert_ne.
  - assert (loc_ok d' (<[y := GCtx (InQ QReady φ) hsy]> g)) as Hl1.
    { eapply (loc_wake (v_lib v) d' g Hloc q); try done. apply Hf. }
    assert (loc_ok d' waking) as Hl'.
    { eapply (loc_same d' d' _ Hl1); try done. intros x. by rewrite Hwp place_of_insert. }
    eapply (lib_ready clean c _ _ _ (v_lib v) d' g waking 0 1 k); try done.
    + intros x i Hx. apply (fr_fin _ _ Hf).
      pose proof (lo_phase _ _ Hloc y q φ Hpy) as Hφ.
      apply (ok_joined _ _ _ _ Hlib x i). cbn. unfold joined in *. rewrite !Hwp in Hx.
      destruct (decide (y = x)) as [->|]; [|done].
      destruct Hx as [[= ->]|[? ?]]; [|done]. destruct q; try done. by destruct (Hqj i0).
    + intros x c' Hx. rewrite Hwp. case_decide; [|done]. subst x. congruence.
    + intros _. exists y. by split; [eexists|].
    + change (ready_queue d') with (queue_of QReady d').
      change (ready_queue (v_lib v)) with (queue_of QReady (v_lib v)).
      rewrite Hq. destruct (decide (QReady = q)); [by subst|].
      destruct (decide (QReady = QReady)); [|done]. rewrite length_app. cbn. lia.
    + lia.
  - intros Hcl. rewrite (fr_idle _ _ Hf). by apply Hi.
Qed.

(** [add_to_ready_queue] of the front of [q], removed from it in state [d]. *)
Lemma ok_wake_one b d N (K : option ctx → prog unit) :
  (3 * length (cpu_vec (v_lib v)) + 6 + N ≤ b)%nat → frame (v_lib v) d →
  (∀ q', queue_of q' d = if decide (q' = q) then r else queue_of q' (v_lib v)) →
  (∀ c', last_of c' d = last_of c' (v_lib v)) →
  (∀ c', kill_of c' d = kill_of c' (v_lib v)) → mutexes_ok d waking →
  (∀ b' v' sig', (N ≤ b')%nat → user_in clean v' w c k PPlain hs' 0 waking sig' →
     lib_mono (λ _, False) d (v_lib v') → v_stk v' = v_stk v →
     ok clean n c (CIn b' v' w) (K None)) →
  ok clean n c (CIn b (v_with_lib d v) w) (bind (Cpu.add_to_ready_queue (Some y)) K).
Proof.
  intros Hb Hf Hq Hl Hk Hm HK. set (d' := with_ready (ready_queue d ++ [Some y]) d).
  assert (quiet d d') as Hqt by exact (quiet_set_queue QReady _ _ ltac:(by eexists)).
  assert (user_in clean (v_with_lib d' v) w c k PPlain hs' 1 waking sig) as U'.
  { apply user_wake_front; [etransitivity; [exact Hf|apply Hqt]| |done|done|done].
    intros q'. assert (queue_of QReady d = queue_of QReady (v_lib v)) as Er
      by by rewrite Hq decide_False.
    destruct (decide (q' = QReady)) as [->|Hne].
    - rewrite decide_False //. cbn in Er. cbn. by rewrite Er.
    - transitivity (queue_of q' d); [by destruct q'|apply Hq]. }
  eapply ok_add_to_ready_queue; [|reflexivity|exact Hqt|eapply user_cs, U'|].
  { cbn. rewrite (fr_vec _ _ Hf). exact Hb. }
  intros b' v' sig' Hb' [Hw Hwg Hws Hwd] Hcs. cbn in Hws. apply (HK _ _ sig'); [done| | |done].
  - destruct U' as [Ho _ _ _ Hst Hg _]. cbn in Hst. eapply user_of_cs; [done..| |done].
    by rewrite Hws.
  - eapply (lib_mono_trans _ _ d'); [apply Hqt|by apply idle_only_mono].
Qed.

End wake_front.

(** ** mutex::lock *)

Lemma local_ok_infos d d' stk loc :
  infos d' = infos d → local_ok d stk loc → local_ok d' stk loc.
Proof. intros H []. by split; unfold finished in *; rewrite ?H. Qed.

Lemma view_with_lib v : v = v_with_lib (v_lib v) v.
Proof. by destruct v. Qed.

(** The end of [lock], in a state [d] that has the lock bit of [v] set. *)
Lemma ok_lock_end b v d k hs0 hs loc c φ g sig m f :
  (5 ≤ b)%nat → user_in clean v (WUser k hs0 loc) c k φ hs 0 g sig →
  frame (v_lib v) d → (∀ q, queue_of q d = queue_of q (v_lib v)) →
  cpus d = cpus (v_lib v) →
  (∀ m', m' ≠ m → mutex_of m' d = mutex_of m' (v_lib v)) →
  (no_wrap d → free (mutex_of m d) = false) →
  (φ = PPlain ∧ free (mutex_of m (v_lib v)) = true ∨ φ = PLock m) →
  local_ok d (v_stk v) loc → log_ok loc hs →
  (∀ c' hs' loc', m ∈ hs' → local_ext loc loc' →
                  ok clean n c' (COut (WUser k hs' loc') true) (f tt)) →
  ok clean n c (CIn b (v_with_lib d v) (WUser k hs0 loc))
    (bind (do Self) (λ c, bind (lib_do (last_id c)) (λ i, bind (lib_do (write_owner m i))
       (λ _, bind Cpu.guard_unlock (λ _, bind (do InterruptEnable) f))))).
Proof.
  intros Hb U Hf Hq Hc Hmo Hfr Hφ Hloc Hlo HK.
  assert (last_id c d = Some (id_of k, d)) as Hid.
  { pose proof (user_id _ _ _ _ _ _ _ _ U) as H. unfold last_id, reads in *.
    rewrite Hc (fr_ctx _ _ Hf). by destruct (_ : option Z); simplify_eq/=. }
  apply ok_self; [lia|]. eapply ok_read; [lia|exact Hid|].
  eapply ok_lib; [lia|done|by apply lib_mono_infos|]. cbn [v_lib v_with_lib].
  set (d2 := with_mutex m (mk_mutex (waiting_queue (mutex_of m d)) (id_of k)
                             (free (mutex_of m d))) d).
  assert (waiting_queue (mutex_of m d) = waiting_queue (mutex_of m (v_lib v))) as Hwq
    by exact (Hq (QMutex m)).
  assert (frame (v_lib v) d2) as Hf2 by (etransitivity; [exact Hf|apply frame_with_mutex]).
  assert (user_in clean (v_with_lib d2 v) (WUser k hs0 loc) c k PPlain ({[m]} ∪ hs) 0
            (<[k := GCtx (Running c PPlain) ({[m]} ∪ hs)]> g) sig) as U2.
  { eapply user_update; [exact U|exact Hf2| | | |].
    - intros q. unfold d2. rewrite queue_of_with_mutex -(Hq q). by case_decide; subst.
    - intros c'. unfold last_of. cbn. by rewrite Hc.
    - intros c'. unfold kill_of. cbn. by rewrite Hc.
    - destruct U as [_ _ _ [_ Hids Hm _ _ _ _] _ Hg _]. cbn in Hids, Hm.
      eapply (mutexes_take (v_lib v) d2 g _ m c k hs); try done; [apply Hf2| |].
      + intros m' ?. unfold d2. rewrite mutex_of_with decide_False //. by apply Hmo.
      + intros Hnw. unfold d2. rewrite mutex_of_with decide_True // Hwq. f_equal. apply Hfr.
        unfold no_wrap in *. by rewrite (fr_next _ _ Hf). }
  eapply (ok_leave c _ (v_with_lib d2 v)); [lia|exact U2|apply local_ext_refl| | |done|].
  - by eapply local_ok_infos; [|exact Hloc].
  - unfold log_ok in *; set_solver.
  - intros c'. apply HK; [set_solver|apply local_ext_refl].
Qed.

Lemma ok_lock k hs loc i m f h :
  (∀ c' hs' loc', m ∈ hs' → local_ext loc loc' → ok clean n c' (COut (WUser k hs' loc') true) (f tt)) →
  ∀ c, ok clean n c (COut (WUser k hs loc) i) (handle (Mutex.lock m) f h).
Proof.
  intros HK c. unfold Mutex.lock. hnorm. eapply ok_critical; [done| |].
  { intros []. hnorm. reflexivity. }
  intros v Hv. exists 100%nat; split; [unfold cs_bound; lia|].
  destruct (user_acquired _ _ _ _ _ _ Hv) as (U & Hloc & Hlo).
  hnorm. eapply ok_read; [lia|done|].
  destruct (free (mutex_of m (v_lib v))) eqn:Hfree; cbn [negb].
  - hnorm. eapply ok_lib; [lia|done|by apply lib_mono_infos|]. hnorm.
    eapply ok_lock_end; [cbn; lia|exact U|..]; try done.
    + intros q. cbn. rewrite queue_of_with_mutex. by case_decide; subst.
    + intros m' ?. cbn. by rewrite mutex_of_with decide_False.
    + intros _. cbn. by rewrite mutex_of_with decide_True.
    + by left.
    + by eapply local_ok_infos; [|exact Hloc].
  - hnorm. eapply (ok_swap_self_to_queue _ _ _ _ _ _ _ _ _ _ _ (QMutex m) (PLock m));
      [lia|exact U|by eexists|done|done| |done|].
    { by intros ? [= ->]. }
    intros c' b' v' Hb' Hv'. destruct (user_resumed _ _ _ _ _ _ _ Hv') as (U' & Hloc' & Hlo').
    hnorm. rewrite (view_with_lib v'). eapply ok_lock_end; [lia|exact U'|..]; try done.
    + intros Hnw. apply (mo_handed _ _ _ _ (ok_mutexes _ _ _ _ (ui_lib _ _ _ _ _ _ _ _ _ _ U') Hnw m) k).
      right. exists c'. eapply lookup_place_of. apply (ui_g _ _ _ _ _ _ _ _ _ _ U').
    + by right.
Qed.

(** ** mutex::unlock *)

Lemma ok_throw A b v k hs0 hs loc c g sig e (f : A → prog unit) h :
  (0 < b)%nat → user_in clean v (WUser k hs0 loc) c k PPlain hs 0 g sig →
  local_ok (v_lib v) (v_stk v) loc → log_ok loc hs →
  (∀ c' e, ok clean n c' (COut (WUser k hs loc) true) (h e)) →
  ok clean n c (CIn b v (WUser k hs0 loc)) (handle (Mutex.unlock_and_throw e) f h).
Proof.
  intros Hb U Hloc Hlo HK. unfold Mutex.unlock_and_throw. hnorm.
  eapply (ok_leave _ _ _ _ _ _ _ _ _ _ _ (λ _, h e)); [done|exact U|apply local_ext_refl|done|done| |].
  - intros []. by hnorm.
  - intros c'. apply HK.
Qed.

(** The state in which a mutex is free and its queue unchanged. *)
Definition released_lib (m : mutex_id) (d : lib) : lib :=
  let d1 := with_mutex m (mk_mutex (waiting_queue (mutex_of m d)) (owner (mutex_of m d)) true) d in
  with_mutex m (mk_mutex (waiting_queue (mutex_of m d1)) 0 (free (mutex_of m d1))) d1.

Lemma released_mutex m d m' :
  mutex_of m' (released_lib m d) =
    if decide (m' = m) then mk_mutex (waiting_queue (mutex_of m d)) 0 true else mutex_of m' d.
Proof.
  unfold released_lib. rewrite mutex_of_with. case_decide; [|by rewrite mutex_of_with decide_False].
  by rewrite !mutex_of_with !decide_True.
Qed.

Lemma released_queue m d q : queue_of q (released_lib m d) = queue_of q d.
Proof.
  unfold released_lib. rewrite !queue_of_with_mutex. case_decide; [|done]. subst.
  by rewrite mutex_of_with decide_True.
Qed.

(** [release_lock] when the thread owns the mutex. *)
Section release.
Context (v : view) (k : ctx) (hs0 hs : gset mutex_id) (loc : local) (c : cpu_id) (g : ghost)
  (sig : gset cpu_id) (m : mutex_id) (N : nat) (f : unit → prog unit)
  (h : exception → prog unit).
Context (U : user_in clean v (WUser k hs0 loc) c k PPlain hs 0 g sig).
Context (Hfr : free (mutex_of m (v_lib v)) = false).
Context (Ho : owner (mutex_of m (v_lib v)) = id_of k).
Context (HK : ∀ b' v' g' sig', (N ≤ b')%nat →
  user_in clean v' (WUser k hs0 loc) c k PPlain (hs ∖ {[m]}) 0 g' sig' →
  lib_mono (λ _, False) (v_lib v) (v_lib v') → v_stk v' = v_stk v →
  ok clean n c (CIn b' v' (WUser k hs0 loc)) (f tt)).

Lemma ok_release_nobody b :
  (N ≤ b)%nat → queue_of (QMutex m) (v_lib v) = [] →
  ok clean n c (CIn b (v_with_lib (released_lib m (v_lib v)) v) (WUser k hs0 loc)) (f tt).
Proof.
  intros Hb Hnil. eapply HK; [exact Hb| |by apply lib_mono_infos|done].
  eapply user_update; [exact U|done|intros; apply released_queue|done|done|].
  destruct U as [_ _ _ [_ Hids Hm _ _ _ _] _ Hg _]. cbn in Hids, Hm.
  apply lookup_place_of in Hg as Hpk.
  eapply (mutexes_release (v_lib v) _ g _ m c k hs) with (y := None) (q := []); try done.
  - intros m' ?. by rewrite released_mutex decide_False.
  - rewrite released_mutex decide_True //. f_equal. exact Hnil.
  - intros x. rewrite place_of_insert. case_decide as E; [|done]. by subst x.
  - intros x gc'. rewrite lookup_insert_Some. intros [[<- <-]|[Hx ?]].
    + eexists. split; [exact Hg|]. by rewrite decide_True.
    + eexists. split; [done|]. by rewrite decide_False.
Qed.

Lemma ok_release_waiter b x r :
  (3 * length (cpu_vec (v_lib v)) + 20 + N ≤ b)%nat → queue_of (QMutex m) (v_lib v) = x :: r →
  ok clean n c (CIn b (v_with_lib (released_lib m (v_lib v)) v) (WUser k hs0 loc))
    (handle (bind (lib_do (release_front (QMutex m))) (λ next,
       bind (lib_do (pop_front (QMutex m))) (λ x, bind (destroy x) (λ _,
       bind (lib_do (write_free m false)) (λ _,
       bind (Cpu.add_to_ready_queue next) destroy))))) f h).
Proof.
  intros Hb Hx. set (d := released_lib m (v_lib v)).
  pose proof U as [_ _ _ [Hloc Hids Hm _ _ _ _] _ Hg _]. cbn in Hloc, Hids, Hm.
  apply lookup_place_of in Hg as Hpk.
  destruct (queue_head _ _ _ _ _ Hloc Hx) as (y & φ & hsy & -> & Hgy & Hφ). cbn in Hφ. subst φ.
  assert (queue_of (QMutex m) d = Some y :: r) as Hd by (by unfold d; rewrite released_queue).
  destruct (release_pop_spec (QMutex m) d y r ltac:(by eexists) Hd)
    as (d3 & d4 & Hrel & Hm3 & Hpop & Hm4 & Hqt & Hq4 & Hl4 & Hk4).
  hnorm. eapply ok_lib; [lia|exact Hrel|apply Hm3|].
  hnorm. eapply ok_lib; [lia|exact Hpop|apply Hm4|].
  cbn [destroy bind]. hnorm. eapply ok_lib; [lia|done|by apply lib_mono_infos|].
  set (d5 := with_mutex m _ _). cbn [v_lib v_with_lib] in d5.
  change (v_with_lib d5 _) with (v_with_lib d5 v). hnorm.
  assert (∀ q, queue_of q d5 = if decide (q = QMutex m) then r else queue_of q (v_lib v)) as Hq5.
  { intros q. unfold d5. rewrite queue_of_with_mutex. case_decide as E.
    - subst q. change (queue_of (QMutex m) d4 = r). by rewrite Hq4 decide_True.
    - rewrite Hq4 decide_False //. unfold d. by rewrite released_queue. }
  assert (mutex_of m d5 = mk_mutex r 0 false) as Hm5.
  { unfold d5. rewrite mutex_of_with decide_True //. f_equal.
    - change (queue_of (QMutex m) d4 = r). by rewrite Hq4 decide_True.
    - destruct (qt_mutex _ _ Hqt m) as [_ ->]. unfold d. by rewrite released_mutex decide_True. }
  eapply (ok_wake_one v (WUser k hs0 loc) c k hs (hs ∖ {[m]}) g sig U (QMutex m))
    with (N := N); try done.
  - cbn. lia.
  - etransitivity; [|apply frame_with_mutex]. etransitivity; [|apply Hqt]. by split.
  - eapply (mutexes_release (v_lib v) _ g _ m c k hs) with (y := Some y) (q := r); try done.
    + by rewrite /= (fr_next _ _ (qt_frame _ _ Hqt)).
    + intros m' Hne. unfold d5. rewrite mutex_of_with decide_False //.
      destruct (qt_mutex _ _ Hqt m') as [E1 E2]. specialize (Hq4 (QMutex m')).
      rewrite decide_False in Hq4; [|congruence]. unfold d in *.
      rewrite released_queue in Hq4. rewrite released_mutex decide_False // in E1, E2.
      cbn in Hq4. destruct (mutex_of m' d4), (mutex_of m' (v_lib v)). cbn in *. congruence.
    + intros y' [= <-]. by eapply (waking_ne v).
    + intros x. erewrite (waking_place v); [|exact U|exact Hx|exact Hgy].
      repeat case_decide; congruence.
    + intros x m' [= <-] [Hh|[? Hh]]; apply lookup_place_of in Hgy; congruence.
    + intros x gc' Hx'. eapply (waking_holds v) in Hx' as (gc & ? & ->); [|exact U|exact Hx|exact Hgy].
      exists gc. split; [done|]. case_decide; [|done]. subst x. by simplify_eq.
  - intros b' v' sig' Hb' U' Hi Hs. cbn [destroy handle]. eapply HK; [exact Hb'|exact U'| |done].
    eapply (lib_mono_trans _ _ d); [by apply lib_mono_infos|].
    eapply lib_mono_trans; [apply Hqt|]. eapply lib_mono_trans; [|exact Hi].
    by apply lib_mono_infos.
Qed.

End release.

Lemma nothrow_if {A} (b : bool) (p q : prog A) : nothrow p → nothrow q → nothrow (if b then p else q).
Proof. by destruct b. Qed.

(** [release_lock] throws, or gives the mutex back. *)
Lemma ok_release_lock b v k hs0 hs loc c g sig m N (f : unit → prog unit) h :
  (3 * length (cpu_vec (v_lib v)) + 40 + N ≤ b)%nat →
  user_in clean v (WUser k hs0 loc) c k PPlain hs 0 g sig →
  local_ok (v_lib v) (v_stk v) loc → log_ok loc hs → m ∉ client_holds (l_log loc) →
  (∀ c' e, ok clean n c' (COut (WUser k hs loc) true) (h e)) →
  (∀ b' v' g' sig', (N ≤ b')%nat →
     user_in clean v' (WUser k hs0 loc) c k PPlain (hs ∖ {[m]}) 0 g' sig' →
     local_ok (v_lib v') (v_stk v') loc → log_ok loc (hs ∖ {[m]}) →
     ok clean n c (CIn b' v' (WUser k hs0 loc)) (f tt)) →
  ok clean n c (CIn b v (WUser k hs0 loc)) (handle (Mutex.release_lock m) f h).
Proof.
  intros Hb U Hloc Hlo Hm Hh HK. unfold Mutex.release_lock. hnorm.
  eapply ok_read; [lia|done|]. destruct (free (mutex_of m (v_lib v))) eqn:Hfr.
  { eapply ok_throw; [lia|done..]. }
  assert (∀ b' v' g' sig', (N ≤ b')%nat →
    user_in clean v' (WUser k hs0 loc) c k PPlain (hs ∖ {[m]}) 0 g' sig' →
    lib_mono (λ _, False) (v_lib v) (v_lib v') → v_stk v' = v_stk v →
    ok clean n c (CIn b' v' (WUser k hs0 loc)) (f tt)) as HK'.
  { intros b' v' g' sig' ? U' Hmo Hs. eapply HK; [done|exact U'| |].
    - rewrite Hs. by eapply local_ok_mono.
    - unfold log_ok in *. set_solver. }
  hnorm. apply ok_self; [lia|]. hnorm. eapply ok_read; [lia|by eapply user_id|].
  hnorm. eapply ok_read; [lia|done|].
  destruct (id_of k =? owner (mutex_of m (v_lib v))) eqn:Ho; cbn [negb].
  2:{ eapply ok_throw; [lia|done..]. }
  apply Z.eqb_eq in Ho. hnorm. eapply ok_lib; [lia|done|by apply lib_mono_infos|].
  hnorm. eapply ok_lib; [lia|done|by apply lib_mono_infos|].
  hnorm. eapply ok_read; [lia|by apply queue_empty_spec; eexists|].
  match goal with |- ok _ _ _ (CIn _ ?v2 _) _ =>
    change v2 with (v_with_lib (released_lib m (v_lib v)) v) end.
  cbn [v_lib v_with_lib]. rewrite released_queue.
  destruct (queue_of (QMutex m) (v_lib v)) as [|x r] eqn:Eq.
  - rewrite bool_decide_eq_true_2 //. cbn [negb handle].
    eapply (ok_release_nobody v k hs0 hs); try done. lia.
  - rewrite bool_decide_eq_false_2 //. cbn [negb].
    eapply (ok_release_waiter v k hs0 hs); try done. lia.
Qed.

Lemma ok_unlock k hs loc i m f h :
  m ∉ client_holds (l_log loc) →
  (∀ c' e, ok clean n c' (COut (WUser k hs loc) true) (h e)) →
  (∀ c' hs', ok clean n c' (COut (WUser k hs' loc) true) (f tt)) →
  ∀ c, ok clean n c (COut (WUser k hs loc) i) (handle (Mutex.unlock m) f h).
Proof.
  intros Hm Hh HK c. unfold Mutex.unlock. hnorm. eapply ok_critical; [done| |].
  { intros []. hnorm. reflexivity. }
  intros v Hv. exists (3 * length (cpu_vec (v_lib v)) + 60)%nat; split; [unfold cs_bound; lia|].
  destruct (user_acquired _ _ _ _ _ _ Hv) as (U & Hloc & Hlo).
  hnorm. eapply (ok_release_lock _ _ _ _ _ _ _ _ _ _ 10); [lia|exact U|done..|].
  intros b' v' g' sig' Hb' U' Hloc' Hlo'.
  eapply ok_leave; [|exact U'|apply local_ext_refl|done|done|done|]; [lia|]. intros c'. apply HK.
Qed.

End calls.
