(* ===== verification/ThreadWait.v ===== *)
(** * Waiting and waking

    cv.cpp, [thread::join], [thread::yield] and the two loops of
    [add_to_ready_queue] that move a whole queue: they keep the invariant and, for
    [wait] and [join], return with what they promise. *)

From stdpp Require Import fin_sets.
From S2P Require Import Prelude CStd ThreadTypes ThreadMonad ThreadLib ThreadMachine ThreadInv.
From S2P Require Import ThreadLogic ThreadSound ThreadMoves ThreadSteps ThreadReady ThreadOps.
From S2P Require Import ThreadCalls.

#[local] Opaque Cpu.guard_lock Cpu.guard_unlock Cpu.swap_self_to_queue Cpu.check_ready_and_wake
  Cpu.add_to_ready_queue.

(** ** Moving a whole queue *)

(** The queue after its first [j] elements have been moved out. *)
Definition moved (j : nat) (l : deque) : deque := replicate j None ++ drop j l.

Lemma moved_lookup j (l : deque) x : l !! j = Some x → moved j l !! j = Some x.
Proof.
  intros Hj. unfold moved. rewrite lookup_app_r length_replicate; [|lia].
  by rewrite Nat.sub_diag lookup_drop Nat.add_0_r.
Qed.

Lemma moved_S j (l : deque) : (j < length l)%nat → <[j := None]> (moved j l) = moved (S j) l.
Proof.
  intros Hj. unfold moved. rewrite insert_app_r_alt length_replicate; [|lia].
  destruct (lookup_lt_is_Some_2 l j Hj) as [x Hx].
  rewrite Nat.sub_diag (drop_S _ _ _ Hx) replicate_S_end -app_assoc. done.
Qed.

Section moving.
Context (clean : bool) (n : nat).

(** The loop moves what is left of the queue. *)
Lemma ok_move_loop w c q l ready N (K : unit → prog unit) rest :
  ∀ j b v d0,
  (rest + N ≤ b)%nat → (j + rest = length l)%nat → q ≠ QReady →
  quiet d0 (v_lib v) → is_Some (get_queue q d0) →
  (∀ q', queue_of q' (v_lib v) = if decide (q' = q) then moved j l
                                 else if decide (q' = QReady) then ready ++ take j l
                                 else queue_of q' d0) →
  (∀ c', last_of c' (v_lib v) = last_of c' d0) →
  (∀ c', kill_of c' (v_lib v) = kill_of c' d0) →
  (∀ b' d', (N ≤ b')%nat → quiet d0 d' →
     (∀ q', queue_of q' d' = if decide (q' = q) then replicate (length l) None
                             else if decide (q' = QReady) then ready ++ l
                             else queue_of q' d0) →
     (∀ c', last_of c' d' = last_of c' d0) → (∀ c', kill_of c' d' = kill_of c' d0) →
     ok clean n c (CIn b' (v_with_lib d' v) w) (K tt)) →
  ok clean n c (CIn b v w)
    (bind (for_each (seq j rest) (λ i, lib_do (move_nth_to_ready q i))) K).
Proof.
  induction rest as [|rest IH]; intros j b v d0 Hb Hj Hqr Hqt Hget Hq Hl Hk HK.
  - cbn. rewrite (view_with_lib v). apply HK; [lia|done| |done|done].
    intros q'. rewrite Hq. assert (j = length l) as -> by lia. unfold moved.
    rewrite drop_all app_nil_r firstn_all. done.
  - cbn [seq for_each]. norm.
    destruct (lookup_lt_is_Some_2 l j ltac:(lia)) as [x Hx].
    assert (is_Some (get_queue q (v_lib v))) as Hget' by by apply (qt_queue _ _ Hqt).
    destruct (move_nth_spec q j x (v_lib v) Hqr Hget') as (d1 & Hmv & Hqt1 & Hq1 & Hl1 & Hk1).
    { rewrite Hq decide_True //. by apply moved_lookup. }
    eapply ok_lib; [lia|exact Hmv|apply Hqt1|].
    assert (quiet d0 d1) as Hqt2 by by etransitivity.
    eapply (IH (S j) _ (v_with_lib d1 v) d0); [cbn; lia|lia|done|exact Hqt2|done| | | |].
    + intros q'. cbn. rewrite Hq1 !Hq. destruct (decide (q' = q)) as [->|].
      * destruct (decide (q = q)); [|done]. apply moved_S. lia.
      * destruct (decide (q' = QReady)); [|done].
        destruct (decide (QReady = q)); [by subst|]. destruct (decide (QReady = QReady)); [|done].
        by rewrite (take_S_r _ _ _ Hx) app_assoc.
    + intros c'. cbn. by rewrite Hl1.
    + intros c'. cbn. by rewrite Hk1.
    + intros b' d' ?????. by apply HK.
Qed.

Lemma ok_destroy_nones w c N b v (K : unit → prog unit) m :
  ok clean n c (CIn b v w) (K tt) →
  (N ≤ b)%nat → ok clean n c (CIn b v w) (bind (for_each (replicate m None) destroy) K).
Proof. intros HK Hb. induction m as [|m IH]; cbn; [done|]. done. Qed.

End moving.

(** The annotations when all of [q] becomes ready. *)
Definition wake_place (q : queue_ref) (p : place) : place :=
  match p with
  | InQ q' φ => InQ (if decide (q' = q) then QReady else q') φ
  | p => p
  end.
Definition wake_all (q : queue_ref) (g : ghost) : ghost :=
  (λ gc, GCtx (wake_place q (g_place gc)) (g_holds gc)) <$> g.

Lemma wake_all_place q g x : place_of (wake_all q g) x = wake_place q <$> place_of g x.
Proof. unfold place_of, wake_all. rewrite lookup_fmap. by destruct (g !! x). Qed.

Lemma wake_all_running q g k c φ hs :
  g !! k = Some (GCtx (Running c φ) hs) → wake_all q g !! k = Some (GCtx (Running c φ) hs).
Proof. intros Hk. unfold wake_all. by rewrite lookup_fmap Hk. Qed.

Lemma wake_all_holds q g x gc' :
  wake_all q g !! x = Some gc' → ∃ gc, g !! x = Some gc ∧ g_holds gc' = g_holds gc.
Proof.
  unfold wake_all. rewrite lookup_fmap. destruct (g !! x) as [gc|]; [|done].
  intros [= <-]. by exists gc.
Qed.

Lemma wake_all_evolve q own g0 g : evolve own g0 g → evolve own g0 (wake_all q g).
Proof.
  intros He y Hy. specialize (He y Hy). unfold wake_all. rewrite lookup_fmap.
  destruct (g0 !! y), (g !! y) as [gc|]; try done. destruct He as [-> ->].
  by destruct gc as [[] ?].
Qed.

(** A phase of the woken threads is one of the queue's. *)
Lemma wake_all_phase q d g x φ :
  loc_ok d g → (place_of (wake_all q g) x = Some (InQ QReady φ) ∨
                ∃ c, place_of (wake_all q g) x = Some (Running c φ)) →
  (place_of g x = Some (InQ QReady φ) ∨ ∃ c, place_of g x = Some (Running c φ)) ∨
  phase_ok q φ.
Proof.
  intros Hl. rewrite wake_all_place. destruct (place_of g x) as [[q' φ'|c' φ'| | |]|] eqn:E; cbn;
    try (intros [?|[? ?]]; done).
  - intros [[= Hq ->]|[? ?]]; [|done]. case_decide; subst.
    + right. by apply (lo_phase _ _ Hl x).
    + left. by left.
  - intros [?|[c [= -> ->]]]; [done|]. left. right. by exists c.
Qed.

Section add_all.
Context (clean : bool) (n : nat) (v : view) (w : who) (c : cpu_id) (k : ctx)
  (hs : gset mutex_id) (g : ghost) (sig : gset cpu_id) (q : queue_ref).
Context (U : user_in clean v w c k PPlain hs 0 g sig).
Context (Hqr : q ≠ QReady) (Hqm : ∀ m, q ≠ QMutex m).
Context (Hqj : ∀ i, q = QJoin i → finished (v_lib v) i).
Context (Hget : is_Some (get_queue q (v_lib v))).

Lemma user_wake_all d' :
  quiet (v_lib v) d' →
  (∀ q', queue_of q' d' = if decide (q' = q) then []
                          else if decide (q' = QReady)
                               then queue_of QReady (v_lib v) ++ queue_of q (v_lib v)
                          else queue_of q' (v_lib v)) →
  (∀ c', last_of c' d' = last_of c' (v_lib v)) →
  (∀ c', kill_of c' d' = kill_of c' (v_lib v)) →
  user_in clean (v_with_lib d' v) w c k PPlain hs (length (queue_of q (v_lib v)))
    (wake_all q g) sig.
Proof.
  intros [Hf Hmf Hmo _] Hq Hl Hk. pose proof U as [Ho He Hs Hlib Hst Hg Hi].
  pose proof (ok_loc _ _ _ _ Hlib) as Hloc. cbn in Hloc.
  split; cbn; [done|by apply wake_all_evolve|done| |done|by apply wake_all_running|].
  - assert (loc_ok d' (wake_all q g)) as Hl'.
    { eapply (loc_wake_all (v_lib v) d' g _ q); try done; [|apply Hf].
      intros x. rewrite wake_all_place. by destruct (place_of g x) as [[]|]. }
    eapply (lib_ready clean c _ _ _ (v_lib v) d' g _ 0 _ k); try done.
    + eapply (mutexes_ready (v_lib v)); [apply Hlib|apply Hf| | |].
      * intros m. destruct (Hmf m) as [-> ->]. split_and!; [done..|]. intros Hnil.
        specialize (Hq (QMutex m)). rewrite decide_False in Hq; [|by intros <-; eapply Hqm].
        destruct (decide (QMutex m = QReady)); [done|]. cbn in Hq. congruence.
      * intros x m Hx. destruct (wake_all_phase q _ g x (PLock m) Hloc Hx); [done|].
        destruct q; try done. by destruct (Hqm m0).
      * intros x gc'. apply wake_all_holds.
    + intros x i Hx. apply (fr_fin _ _ Hf).
      destruct (wake_all_phase q _ g x (PJoin i) Hloc Hx) as [Hx'|Hφ].
      * by apply (ok_joined _ _ _ _ Hlib x).
      * destruct q; try done. injection Hφ as ->. by apply Hqj.
    + intros x c' Hx. by rewrite wake_all_place Hx.
    + intros x [gc' Hx]. destruct (wake_all_holds _ _ _ _ Hx) as (gc & ? & _). by eexists.
    + intros Hne. destruct (queue_of q (v_lib v)) as [|x r] eqn:Eq.
      { destruct Hne. specialize (Hq QReady). destruct (decide (QReady = q)); [by subst|].
        destruct (decide (QReady = QReady)); [|done]. by rewrite app_nil_r in Hq. }
      destruct (queue_head _ _ _ _ _ Hloc Eq) as (y & φ & hsy & -> & Hgy & _).
      exists y. split; [by eexists|]. intros ->. congruence.
    + change (ready_queue d') with (queue_of QReady d').
      change (ready_queue (v_lib v)) with (queue_of QReady (v_lib v)).
      rewrite Hq. destruct (decide (QReady = q)); [by subst|].
      destruct (decide (QReady = QReady)); [|done]. rewrite length_app. lia.
    + lia.
  - intros Hcl. rewrite (fr_idle _ _ Hf). by apply Hi.
Qed.

Lemma ok_add_all N (K : unit → prog unit) b :
  (3 * length (cpu_vec (v_lib v)) + length (queue_of q (v_lib v)) + 10 + N ≤ b)%nat →
  (∀ b' v' g' sig', (N ≤ b')%nat → user_in clean v' w c k PPlain hs 0 g' sig' →
     lib_mono (λ _, False) (v_lib v) (v_lib v') → v_stk v' = v_stk v →
     ok clean n c (CIn b' v' w) (K tt)) →
  ok clean n c (CIn b v w) (bind (Cpu.add_all_to_ready_queue q) K).
Proof.
  intros Hb HK. unfold Cpu.add_all_to_ready_queue.
  norm. eapply ok_read; [lia|by apply queue_size_spec|].
  set (l := queue_of q (v_lib v)) in *.
  norm. eapply (ok_move_loop _ _ _ _ q l (queue_of QReady (v_lib v))
                  (3 * length (cpu_vec (v_lib v)) + 8 + N) _ (length l) 0 _ _ (v_lib v));
    [lia|lia|done|done|done| |done|done|].
  { intros q'. unfold moved. cbn. rewrite drop_0 app_nil_r.
    destruct (decide (q' = q)); [by subst|]. destruct (decide (q' = QReady)); by subst. }
  intros b1 d1 Hb1 Hqt1 Hq1 Hl1 Hk1.
  destruct (clear_spec q d1 ltac:(by apply (qt_queue _ _ Hqt1)))
    as (d2 & Hcl & Hqt2 & Hq2 & Hl2 & Hk2).
  norm. eapply ok_lib; [lia|exact Hcl|apply Hqt2|].
  rewrite Hq1 decide_True //. norm. eapply (ok_destroy_nones _ _ _ _ 0); [|lia].
  change (v_with_lib d2 _) with (v_with_lib d2 v).
  assert (quiet (v_lib v) d2) as Hqt by by etransitivity.
  assert (user_in clean (v_with_lib d2 v) w c k PPlain hs (length l) (wake_all q g) sig) as U'.
  { apply user_wake_all; [done| | |].
    - intros q'. rewrite Hq2 Hq1. by destruct (decide (q' = q)).
    - intros c'. by rewrite Hl2.
    - intros c'. by rewrite Hk2. }
  eapply ok_check_ready_and_wake; [|eapply user_cs, U'|].
  { cbn. rewrite (fr_vec _ _ (qt_frame _ _ Hqt)). instantiate (1 := N). lia. }
  intros b' v' sig' Hb' [Hw Hwg Hws Hwd] Hcs. cbn in Hws. eapply HK; [done| | |done].
  - destruct U' as [Ho _ _ _ Hst Hg _]. cbn in Hst. eapply user_of_cs; [done..| |done].
    by rewrite Hws.
  - eapply lib_mono_trans; [apply Hqt|]. by apply idle_only_mono.
Qed.

End add_all.

#[local] Opaque Cpu.add_all_to_ready_queue.

Section waits.
Context (clean : bool) (n : nat).

(** ** cv.cpp *)

Lemma ok_wait k hs loc i cvar m f h :
  m ∉ client_holds (l_log loc) →
  (∀ c' hs' e, ok clean n c' (COut (WUser k hs' loc) true) (h e)) →
  (∀ c' hs' loc', m ∈ hs' → local_ext loc loc' →
                  ok clean n c' (COut (WUser k hs' loc') true) (f tt)) →
  ∀ c, ok clean n c (COut (WUser k hs loc) i) (handle (Cv.wait cvar m) f h).
Proof.
  intros Hm Hh HK c. unfold Cv.wait. hnorm. eapply ok_critical; [done| |].
  { intros []. hnorm. reflexivity. }
  intros v Hv. exists (3 * length (cpu_vec (v_lib v)) + 110)%nat; split; [unfold cs_bound; lia|].
  destruct (user_acquired _ _ _ _ _ _ Hv) as (U & Hloc & Hlo).
  hnorm. eapply (ok_release_lock _ _ _ _ _ _ _ _ _ _ _ _ 60);
    [lia|exact U|done|done|done|intros; apply Hh|].
  intros b' v' g' sig' Hb' U' Hloc' Hlo'. hnorm.
  eapply (ok_swap_self_to_queue _ _ _ _ _ _ _ _ _ _ _ (QCv cvar) PPlain);
    [lia|exact U'|by eexists|done|done|done|done|].
  intros c2 b2 v2 Hb2 Hv2. destruct (user_resumed _ _ _ _ _ _ _ Hv2) as (U2 & Hloc2 & Hlo2).
  hnorm. eapply ok_leave; [|exact U2|apply local_ext_refl|done|done| |]; [lia| |].
  - intros []. hnorm. reflexivity.
  - intros c3. specialize (ok_lock clean n k (hs ∖ {[m]}) loc true m f h HK c3) as Hlock.
    unfold Mutex.lock in Hlock. revert Hlock. hnorm. intros Hlock. apply Hlock.
Qed.

Lemma ok_signal k hs loc i cvar f h :
  (∀ c' hs', ok clean n c' (COut (WUser k hs' loc) true) (f tt)) →
  ∀ c, ok clean n c (COut (WUser k hs loc) i) (handle (Cv.signal cvar) f h).
Proof.
  intros HK c. unfold Cv.signal. hnorm. eapply ok_critical; [done| |].
  { intros []. hnorm. reflexivity. }
  intros v Hv. exists (3 * length (cpu_vec (v_lib v)) + 60)%nat; split; [unfold cs_bound; lia|].
  destruct (user_acquired _ _ _ _ _ _ Hv) as (U & Hloc & Hlo).
  hnorm. eapply ok_read; [lia|by apply queue_empty_spec; eexists|].
  destruct (queue_of (QCv cvar) (v_lib v)) as [|x r] eqn:Eq.
  - rewrite bool_decide_eq_true_2 //. cbn [negb bind]. hnorm. cbn [handle].
    eapply ok_leave; [|exact U|apply local_ext_refl|done|done|done|]; [lia|]. intros c'. apply HK.
  - rewrite bool_decide_eq_false_2 //. cbn [negb].
    pose proof U as [_ _ _ [Hl _ Hmx _ _ _ _] _ Hg _]. cbn in Hl, Hmx.
    destruct (queue_head _ _ _ _ _ Hl Eq) as (y & φ & hsy & -> & Hgy & Hφ).
    destruct (release_pop_spec (QCv cvar) _ y r ltac:(by eexists) Eq)
      as (d1 & d2 & Hrel & Hm1 & Hpop & Hm2 & Hqt & Hq2 & Hl2 & Hk2).
    hnorm. eapply ok_lib; [lia|exact Hrel|apply Hm1|].
    hnorm. eapply ok_lib; [lia|exact Hpop|apply Hm2|]. cbn [destroy bind]. hnorm.
    change (v_with_lib d2 _) with (v_with_lib d2 v).
    eapply (ok_wake_one clean n v _ c k hs hs _ _ U (QCv cvar)) with (N := 10%nat); try done.
    + lia.
    + apply Hqt.
    + eapply (mutexes_ready (v_lib v)); [exact Hmx|apply Hqt| | |].
      * intros m. destruct (qt_mutex _ _ Hqt m) as [-> ->]. split_and!; [done..|].
        intros Hnil. specialize (Hq2 (QMutex m)). destruct (decide (QMutex m = QCv cvar)); [done|].
        change (queue_of (QMutex m) d2 = []). by rewrite Hq2.
      * intros x m Hx. unfold handed in *. rewrite !(waking_place clean v _ _ _ _ _ _ _ U _ _ r _ _ Eq Hgy) in Hx.
        destruct (decide (y = x)); [|done]. by destruct Hx as [[= ->]|[? ?]].
      * intros x gc' Hx. eapply (waking_holds clean v) in Hx as (gc & ? & ->); [|done..].
        exists gc. split; [done|]. case_decide; [|done]. subst x. by simplify_eq.
    + intros b' v' sig' Hb' U' Hi Hs. hnorm.
      eapply ok_leave; [|exact U'|apply local_ext_refl| |done|done|]; [lia| |intros c'; apply HK].
      rewrite Hs. eapply local_ok_mono; [|exact Hloc]. eapply lib_mono_trans; [apply Hqt|].
      exact Hi.
Qed.

Lemma ok_broadcast k hs loc i cvar f h :
  (∀ c' hs', ok clean n c' (COut (WUser k hs' loc) true) (f tt)) →
  ∀ c, ok clean n c (COut (WUser k hs loc) i) (handle (Cv.broadcast cvar) f h).
Proof.
  intros HK c. unfold Cv.broadcast. hnorm. eapply ok_critical; [done| |].
  { intros []. hnorm. reflexivity. }
  intros v Hv.
  exists (3 * length (cpu_vec (v_lib v)) + length (queue_of (QCv cvar) (v_lib v)) + 30)%nat.
  pose proof (queue_bound _ _ _ _ (QCv cvar) (proj1 Hv)). split; [unfold cs_bound; lia|].
  destruct (user_acquired _ _ _ _ _ _ Hv) as (U & Hloc & Hlo).
  hnorm. eapply (ok_add_all _ _ _ _ _ _ _ _ _ (QCv cvar) U) with (N := 10%nat); try done; [lia|].
  intros b' v' g' sig' Hb' U' Hmo Hs. hnorm.
  eapply ok_leave; [|exact U'|apply local_ext_refl| |done|done|]; [lia| |intros c'; apply HK].
  rewrite Hs. by eapply local_ok_mono.
Qed.

(** ** thread::yield and thread::join *)

Lemma ok_yield k hs loc i f h :
  (∀ c' hs', ok clean n c' (COut (WUser k hs' loc) true) (f tt)) →
  ∀ c, ok clean n c (COut (WUser k hs loc) i) (handle Thread.yield f h).
Proof.
  intros HK c. unfold Thread.yield. hnorm. eapply ok_critical; [done| |].
  { intros []. hnorm. reflexivity. }
  intros v Hv. exists 100%nat; split; [unfold cs_bound; lia|].
  destruct (user_acquired _ _ _ _ _ _ Hv) as (U & Hloc & Hlo).
  hnorm. eapply ok_read; [lia|by apply queue_empty_spec; eexists|].
  destruct (decide (queue_of QReady (v_lib v) = [])) as [E|E].
  - rewrite bool_decide_eq_true_2 //. cbn [negb bind]. hnorm. cbn [handle].
    eapply ok_leave; [|exact U|apply local_ext_refl|done|done|done|]; [lia|]. intros c'. apply HK.
  - rewrite bool_decide_eq_false_2 //. cbn [negb]. hnorm.
    eapply (ok_swap_self_to_queue _ _ _ _ _ _ _ _ _ _ _ QReady PPlain);
      [lia|exact U|by eexists|done|done|done|done|].
    intros c2 b2 v2 Hb2 Hv2. destruct (user_resumed _ _ _ _ _ _ _ Hv2) as (U2 & Hloc2 & Hlo2).
    hnorm. eapply ok_leave; [|exact U2|apply local_ext_refl|done|done|done|]; [lia|].
    intros c3. apply HK.
Qed.

(** The thread leaves [join] knowing that [i] has ended. *)
Lemma ok_join_end b v k hs0 hs loc c g sig i (f : unit → prog unit) :
  (0 < b)%nat → user_in clean v (WUser k hs0 loc) c k PPlain hs 0 g sig →
  local_ok (v_lib v) (v_stk v) loc → log_ok loc hs → finished (v_lib v) i →
  (∀ c' hs' loc', i ∈ l_fins loc' → local_ext loc loc' →
                  ok clean n c' (COut (WUser k hs' loc') true) (f tt)) →
  ok clean n c (CIn b v (WUser k hs0 loc)) (bind Cpu.guard_unlock (λ _, bind (do InterruptEnable) f)).
Proof.
  intros Hb U [Hf Hk Hbt Hj] Hlo Hfin HK.
  assert (local_ext loc (Local (l_log loc) ({[i]} ∪ l_fins loc) (l_known loc) (l_boot loc))) as Hext
    by (split_and!; [done..|]; set_solver).
  eapply (ok_leave _ _ _ _ _ _ _ _ _ _ _ _ _ f); [done|exact U|exact Hext| |done|done|].
  - split; cbn; [|done|done|].
    + intros j. rewrite elem_of_union elem_of_singleton. intros [->|?]; auto.
    + intros j ?. set_solver.
  - intros c'. apply HK; [set_solver|exact Hext].
Qed.

Lemma ok_join k hs loc b i f h :
  i ∈ l_known loc →
  (∀ c' hs' loc', i ∈ l_fins loc' → local_ext loc loc' →
                  ok clean n c' (COut (WUser k hs' loc') true) (f tt)) →
  ∀ c, ok clean n c (COut (WUser k hs loc) b) (handle (Thread.join i) f h).
Proof.
  intros Hi HK c. unfold Thread.join. hnorm. eapply ok_critical; [done| |].
  { intros []. hnorm. reflexivity. }
  intros v Hv. exists 100%nat; split; [unfold cs_bound; lia|].
  destruct (user_acquired _ _ _ _ _ _ Hv) as (U & Hloc & Hlo).
  destruct (lc_known _ _ _ Hloc i Hi) as [si Hsi].
  hnorm. eapply ok_read; [lia|by rewrite /read_alive /reads Hsi|].
  destruct (alive si) eqn:Ha.
  - hnorm. eapply (ok_swap_self_to_queue _ _ _ _ _ _ _ _ _ _ _ (QJoin i) (PJoin i));
      [lia|exact U|by rewrite /= Hsi; eexists|done|done|done|done|].
    intros c2 b2 v2 Hb2 Hv2. destruct (user_resumed _ _ _ _ _ _ _ Hv2) as (U2 & Hloc2 & Hlo2).
    hnorm. rewrite (view_with_lib v2). eapply ok_join_end; [lia| |done|done| |done].
    + eapply user_update; [exact U2|done..|].
      destruct U2 as [_ _ _ [_ _ Hmx _ _ _ _] _ Hg _]. cbn in Hmx.
      eapply (mutexes_ready (v_lib v2)); [exact Hmx|done|done| |].
      * intros x m. unfold handed. rewrite !place_of_insert. case_decide; [|done].
        by intros [?|[? ?]].
      * intros x gc'. rewrite lookup_insert_Some. intros [[<- <-]|[_ ?]]; eauto.
    + eapply (ok_joined _ _ _ _ (ui_lib _ _ _ _ _ _ _ _ _ _ U2) k). right. exists c2.
      eapply lookup_place_of, (ui_g _ _ _ _ _ _ _ _ _ _ U2).
  - cbn [bind]. hnorm. cbn [handle]. eapply ok_join_end; [lia|exact U|done|done| |done].
    by exists si.
Qed.

End waits.
