(* ===== verification/ThreadCreate.v ===== *)
(** * Making threads

    The constructor of [thread]: a new context and its id, the allocations that can
    fail, [makecontext], and the ready queue; then every call of the library by a
    thread ([ok_call]). *)

From stdpp Require Import fin_sets.
From S2P Require Import Prelude CStd ThreadTypes ThreadMonad ThreadLib ThreadMachine ThreadInv.
From S2P Require Import ThreadLogic ThreadSound ThreadMoves ThreadSteps ThreadReady ThreadOps.
From S2P Require Import ThreadCalls ThreadWait.

#[local] Opaque Cpu.guard_lock Cpu.guard_unlock Cpu.swap_self_to_queue Cpu.check_ready_and_wake
  Cpu.add_to_ready_queue Cpu.add_all_to_ready_queue.

(** ** The counters *)

(** A context has been made and is not in use; the thread objects are [infs]. *)
Definition grow (infs : gmap ctx shared_thread_info) (d : lib) : lib :=
  mk_lib (to_uint32 (max_id d + 1)) (S (next_ctx d)) (contexts d) (cpu_vec d)
    (ready_queue d) (cpus d) (mutexes d) (cvs d) infs.

Definition new_infos (d : lib) (infs : gmap ctx shared_thread_info) : Prop :=
  infs = infos d ∨ infs = <[next_ctx d := mk_info [] true]> (infos d).

Lemma next_id_wraps n : to_uint32 (to_uint32 (1 + Z.of_nat n) + 1) = to_uint32 (1 + Z.of_nat (S n)).
Proof.
  unfold to_uint32. rewrite Zplus_mod_idemp_l. f_equal. lia.
Qed.

Section grow.
Context (d : lib) (g : ghost) (infs : gmap ctx shared_thread_info).
Context (Hids : ids_ok d g) (Hin : new_infos d infs).

Lemma fresh_ghost : g !! next_ctx d = None.
Proof. apply eq_None_not_Some. intros H%(io_ghost _ _ Hids). lia. Qed.
Lemma fresh_context : contexts d !! next_ctx d = None.
Proof. apply eq_None_not_Some. intros H%(io_ctx _ _ Hids). lia. Qed.
Lemma fresh_info : infos d !! next_ctx d = None.
Proof. apply eq_None_not_Some. intros H%(io_info _ _ Hids). lia. Qed.

Lemma grow_finished i : finished (grow infs d) i ↔ finished d i.
Proof.
  unfold finished. cbn. destruct Hin as [->| ->]; [done|].
  destruct (decide (i = next_ctx d)) as [->|].
  - rewrite lookup_insert_eq fresh_info. naive_solver.
  - by rewrite lookup_insert_ne.
Qed.

Lemma grow_mono fin : lib_mono fin d (grow infs d).
Proof.
  split_and!.
  - intros i Hi. cbn. destruct Hin as [->| ->]; [done|]. by apply lookup_insert_is_Some'; right.
  - intros i ?. by apply grow_finished.
  - intros i ?%grow_finished. by right.
  - cbn. lia.
Qed.

Lemma grow_queue q : queue_of q (grow infs d) = queue_of q d.
Proof.
  destruct q as [| | |i]; try done. unfold queue_of. cbn. destruct Hin as [->| ->]; [done|].
  destruct (decide (i = next_ctx d)) as [->|].
  - by rewrite lookup_insert_eq fresh_info.
  - by rewrite lookup_insert_ne.
Qed.

Lemma grow_ids : ids_ok (grow infs d) g.
Proof.
  destruct Hids. split; cbn; try done.
  - rewrite io_next. apply next_id_wraps.
  - intros k ?%io_ctx. lia.
  - intros k ?%io_ghost. lia.
  - intros k Hk. destruct Hin as [->| ->]; [apply io_info in Hk; lia|].
    apply lookup_insert_is_Some' in Hk as [->|?%io_info]; lia.
  - intros k ?%io_thread. destruct Hin as [->| ->]; [done|]. by apply lookup_insert_is_Some'; right.
Qed.

Lemma grow_mutexes : mutexes_ok d g → mutexes_ok (grow infs d) g.
Proof.
  intros Hm Hnw m. assert (no_wrap d) as Hnd by (unfold no_wrap in *; cbn in *; lia).
  destruct (Hm Hnd m). split; try done. destruct mo_owner as [?|(k & ? & ?)]; [by left|].
  right. exists k. split; [cbn; lia|done].
Qed.

End grow.

Lemma lib_ok_grow clean own e d g stk sig gold infs :
  new_infos d infs → lib_ok clean own e (View d g stk sig gold) →
  lib_ok clean own e (View (grow infs d) g stk sig gold).
Proof.
  intros Hin [Hl Hi Hm Hc Hg Hw Hj]. cbn in *. split; cbn; try done.
  - eapply loc_same; [exact Hl|done| |done..]. intros q. by eapply grow_queue.
  - by apply grow_ids.
  - by apply grow_mutexes.
  - by destruct Hc; split.
  - intros Hcl. by destruct (Hw Hcl); split.
  - intros k i ?. eapply grow_finished; [done..|]. by eapply Hj.
Qed.

(** ** A new thread becomes ready *)

(** In [d] a context has been made whose number is not in use; [d'] has it. *)
Definition with_thread (k : ctx) (d : lib) : lib :=
  with_ready (ready_queue d ++ [Some k])
    (with_contexts (<[k := mk_managed_uc (id_of k)]> (contexts d)) d).

Section new_thread.
Context (clean : bool) (c : cpu_id) (d : lib) (g : ghost) (stk : gmap cpu_id stack_ref)
  (sig gold : gset cpu_id) (k : ctx).
Context (Hok : lib_ok clean (Some c) 0 (View d g stk sig gold)).
Context (Hnext : next_ctx d = S k) (Hgk : g !! k = None) (Hck : contexts d !! k = None).
Context (Hinfo : is_Some (infos d !! k)).
Context (Hold : no_wrap d → ∀ m, owner (mutex_of m d) ≠ id_of k).

Let g' : ghost := <[k := GCtx (InQ QReady PPlain) ∅]> g.

Lemma new_place x p :
  place_of g' x = Some p → p ≠ InQ QReady PPlain → place_of g x = Some p ∧ x ≠ k.
Proof.
  unfold g'. rewrite place_of_insert. case_decide; [|naive_solver]. intros [= <-]. done.
Qed.

Lemma new_mutexes : mutexes_ok (with_thread k d) g'.
Proof.
  intros Hnw m. pose proof (ok_mutexes _ _ _ _ Hok Hnw m) as []. cbn in *.
  change (mutex_of m (with_thread k d)) with (mutex_of m d).
  assert (∀ x, handed g' x m → handed g x m) as Hh.
  { intros x [Hx|[c' Hx]]; apply new_place in Hx as [? _]; try done; [by left|].
    right. by exists c'. }
  split; [done|done|by eauto|by eauto|].
  intros x gc. unfold g'. rewrite lookup_insert_Some. intros [[<- <-]|[? Hx]]; [|by eauto].
  cbn. split; [set_solver|]. intros [_ Ho]. by destruct (Hold Hnw m).
Qed.

Lemma lib_ok_new :
  (clean = true → (∀ c', stk !! c' ≠ Some SBoot) ∨
                  g = ∅ ∧ ready_queue d = [] ∧ c = 0%nat ∧ stk !! c = Some (SUc (Uc k))) →
  lib_ok clean (Some c) 1 (View (with_thread k d) g' stk sig gold).
Proof.
  intros Hboot. destruct Hok as [Hl Hi Hm Hc Hg Hw Hj]. cbn in *. split; cbn.
  - eapply (loc_new d _ g Hl k (mk_managed_uc (id_of k))); try done. by intros [].
  - destruct Hi. split; cbn; try done.
    + intros x u. rewrite lookup_insert_Some. intros [[<- <-]|[_ ?]]; [done|by eauto].
    + intros x. rewrite lookup_insert_is_Some'. intros [<-|?]; [lia|eauto].
    + intros x. unfold g'. rewrite lookup_insert_is_Some'. intros [<-|?]; [lia|eauto].
    + intros x. unfold g'. rewrite lookup_insert_is_Some'. intros [<-|?]; eauto.
  - apply new_mutexes.
  - destruct Hc. split; try done. intros c' st Hst Hne. specialize (co_stack _ _ Hst Hne).
    destruct st as [|[|x]]; try done. destruct co_stack as [? Hx]. split; [done|].
    unfold g'. rewrite place_of_insert. case_decide; [|done]. subst x.
    unfold place_of in Hx. by rewrite Hgk in Hx.
  - done.
  - intros Hcl. destruct (Hw Hcl). split; try done.
    + intros c' Hi'. cbn. rewrite length_app. specialize (wo_ready _ Hi'). cbn. lia.
    + intros c' Hs. destruct (Hboot Hcl) as [Hn|(-> & Hr & -> & Hk)]; [by destruct (Hn c')|].
      split.
      * right. exists 0%nat, k. split_and!; [done| |done]. cbn. by rewrite Hr.
      * intros x x'. unfold g'. rewrite !lookup_insert_is_Some' !lookup_empty.
        intros [<-|[? ?]] [<-|[? ?]]; done.
    + intros Hs. destruct (Hboot Hcl) as [Hn|(-> & Hr & -> & Hk)]; [by destruct (Hn 0%nat)|].
      congruence.
  - intros x i [Hx|[c' Hx]]; apply new_place in Hx as [? _]; try done.
    + by apply (Hj x); left.
    + by apply (Hj x); right; exists c'.
Qed.

End new_thread.

(** ** thread::construct_thread *)

Lemma evolve_new own g0 g k :
  evolve own g0 g →
  evolve own (<[k := GCtx Made ∅]> g0) (<[k := GCtx (InQ QReady PPlain) ∅]> g).
Proof.
  intros He y Hy. destruct (decide (k = y)) as [<-|]; [by rewrite !lookup_insert_eq|].
  rewrite !lookup_insert_ne //. by apply He.
Qed.

Lemma make_context_grow d :
  make_context d = Some (next_ctx d, with_contexts
    (<[next_ctx d := mk_managed_uc (max_id d)]> (contexts d)) (grow (infos d) d)).
Proof. done. Qed.

Section construct.
Context (clean : bool) (n : nat) (w : who) (c : cpu_id) (st : stack_ref) (v : view)
  (g : ghost) (sig : gset cpu_id).
Context (Hcs : in_cs clean v w c st 0 g sig).
Let k : ctx := next_ctx (v_lib v).

(** The new thread's number is the owner of no mutex. *)
Lemma new_owner infs m :
  no_wrap (grow infs (v_lib v)) → owner (mutex_of m (v_lib v)) ≠ id_of k.
Proof.
  intros Hnw. destruct Hcs as [_ _ _ [_ _ Hm _ _ _ _] _]. cbn in Hm.
  assert (no_wrap (v_lib v)) as Hnd by (unfold no_wrap in *; cbn in *; lia).
  destruct (mo_owner _ _ _ _ (Hm Hnd m)) as [->|(x & Hx & ->)].
  - intros H. symmetry in H. revert H. eapply id_of_nonzero; [|exact Hnw]. cbn. unfold k. lia.
  - intros Heq. apply (id_of_inj (grow infs (v_lib v)) x k) in Heq; [unfold k in *; lia|..|exact Hnw];
      cbn; unfold k; lia.
Qed.

(** A failed construction leaves only a number behind. *)
Lemma cs_grow infs :
  new_infos (v_lib v) infs → in_cs clean (v_with_lib (grow infs (v_lib v)) v) w c st 0 g sig.
Proof.
  intros Hin. destruct Hcs as [? ? ? Hl ?]. split; try done. by apply lib_ok_grow.
Qed.

Context (Hboot : clean = true → (∀ c', <[c := st]> (v_stk v) !! c' ≠ Some SBoot) ∨
  g = ∅ ∧ ready_queue (v_lib v) = [] ∧ c = 0%nat ∧ st = SUc (Uc k)).

Definition new_view : view :=
  v_with_g (<[k := GCtx Made ∅]> (v_g v))
    (v_with_lib (with_thread k (grow (<[k := mk_info [] true]> (infos (v_lib v))) (v_lib v))) v).

Lemma cs_new :
  in_cs clean new_view w c st 1 (<[k := GCtx (InQ QReady PPlain) ∅]> g) sig.
Proof.
  destruct (cs_grow (<[k := mk_info [] true]> (infos (v_lib v))) ltac:(by right)) as [He Hs Ho Hl Hid].
  assert (ids_ok (v_lib v) g) as Hids by apply Hcs.
  split; try done.
  - by apply evolve_new.
  - eapply lib_ok_new; [exact Hl|done|exact (fresh_ghost _ _ Hids)|exact (fresh_context _ _ Hids)|
      by cbn; rewrite lookup_insert_eq| |].
    + intros Hnw m. by eapply new_owner.
    + intros Hcl. destruct (Hboot Hcl) as [?|(?&?&?&->)]; [by left|]. right.
      split_and!; try done. by rewrite lookup_insert_eq.
Qed.

Lemma delete_new infs :
  delete_context k (with_contexts (<[k := mk_managed_uc (max_id (v_lib v))]>
    (contexts (v_lib v))) (grow infs (v_lib v))) = Some (tt, grow infs (v_lib v)).
Proof.
  assert (ids_ok (v_lib v) g) as Hids by apply Hcs.
  unfold delete_context, writes. cbn. rewrite lookup_insert_eq. cbn. unfold with_contexts. cbn.
  rewrite delete_insert_id //. exact (fresh_context _ _ Hids).
Qed.

Context (Hstk : v_stk v !! c ≠ Some (SUc (Uc k))).

Lemma new_stack c' : v_stk v !! c' ≠ Some (SUc (Uc k)).
Proof.
  destruct (decide (c' = c)) as [->|Hne]; [done|]. intros Hs.
  destruct Hcs as [_ _ _ [Hl Hids _ Hc _ _ _] _]. cbn in Hids, Hc.
  destruct (co_stack _ _ _ _ Hc c' (SUc (Uc k))) as [_ Hp].
  - by rewrite lookup_insert_ne.
  - congruence.
  - apply place_of_lookup in Hp as [hs Hp]. by rewrite (fresh_ghost _ _ Hids) in Hp.
Qed.

Context (Hown : own_ctx w ≠ Some k).

(** The view after [make_context], with the thread objects [infs]. *)
Definition made_view (infs : gmap ctx shared_thread_info) : view :=
  v_with_lib (with_contexts (<[k := mk_managed_uc (max_id (v_lib v))]> (contexts (v_lib v)))
                (grow infs (v_lib v))) v.

Lemma ok_construct N b (f : ctx → prog unit) (h : exception → prog unit) :
  (3 * length (cpu_vec (v_lib v)) + 60 + N ≤ b)%nat →
  (v_stk v !! c ≠ Some SBoot → ∀ b' v', (N ≤ b')%nat → in_cs clean v' w c st 0 g sig →
     v_stk v' = v_stk v → lib_mono (λ _, False) (v_lib v) (v_lib v') →
     ok clean n c (CIn b' v' w)
       (handle (bind Cpu.guard_unlock (λ _, bind (do InterruptEnable) (λ _, Throw BadAlloc))) f h)) →
  (∀ b' v' sig', (N ≤ b')%nat → woken new_view v' →
     in_cs clean v' w c st 0 (<[k := GCtx (InQ QReady PPlain) ∅]> g) sig' →
     ok clean n c (CIn b' v' w) (f k)) →
  ok clean n c (CIn b v w) (handle Thread.construct_thread f h).
Proof.
  intros Hb Hfail HK. assert (ids_ok (v_lib v) g) as Hids by apply Hcs.
  assert (max_id (v_lib v) = id_of k) as Hmax by apply Hids.
  unfold Thread.construct_thread. rewrite handle_try_catch. unfold Thread.alloc_or_throw.
  hnorm. apply ok_in; [lia|]. split; [|intros Hst; apply Hfail; [done|lia|done|done|by apply lib_mono_infos]].
  cbn [handle]. hnorm. eapply ok_lib; [lia|reflexivity|apply (grow_mono _ g _ Hids); by left|].
  assert (∀ infs b, new_infos (v_lib v) infs → (2 + N ≤ b)%nat →
    v_stk v !! c ≠ Some SBoot → ok clean n c (CIn b (made_view infs) w)
      (bind (do (Delete k)) (λ _, handle (bind Cpu.guard_unlock (λ _,
         bind (do InterruptEnable) (λ _, Throw BadAlloc))) f h))) as Hdel.
  { intros infs b1 Hin Hb1 Hst. apply ok_in; [lia|]. eexists. split; [apply delete_new|].
    split; [apply new_stack|]. apply (Hfail Hst); [lia|by apply cs_grow|done|].
    by eapply grow_mono. }
  hnorm. apply ok_in; [lia|]. split.
  2:{ intros Hst. cbn [handle destroy]. hnorm. cbn [handle]. apply Hdel; [by left|lia|done]. }
  cbn [handle]. hnorm. eapply ok_lib; [lia|reflexivity| |].
  { destruct (grow_mono _ g (<[k := mk_info [] true]> (infos (v_lib v))) Hids ltac:(by right)
                (may_finish w)) as (A & B & C & _).
    split_and!; [exact A|exact B|exact C|done]. }
  hnorm. apply ok_in; [lia|]. split.
  2:{ intros Hst. cbn [handle destroy]. hnorm. cbn [handle].
      match goal with |- ok _ _ _ (CIn _ ?v1 _) _ =>
        change v1 with (made_view (<[k := mk_info [] true]> (infos (v_lib v)))) end.
      apply Hdel; [by right|lia|done]. }
  cbn [handle]. hnorm. apply ok_in; [lia|]. split.
  { cbn. by rewrite lookup_insert_eq. }
  split; [done|]. split.
  { destruct Hcs as [He _ _ _ _]. specialize (He k Hown). cbn.
    pose proof (fresh_ghost _ _ Hids) as Hg. fold k in Hg. rewrite Hg in He.
    fold k. by destruct (v_g v !! k). }
  cbn [handle]. hnorm.
  eapply ok_add_to_ready_queue with (N := S N) (d1 := v_lib new_view);
    [cbn; lia| | |exact cs_new|].
  - unfold push_back, writes. cbn. do 3 f_equal. unfold with_thread, grow, with_info, with_contexts.
    cbn. by rewrite Hmax.
  - assert (quiet (v_lib (made_view (<[k := mk_info [] true]> (infos (v_lib v)))))
              (v_lib new_view)) as Hqt; [|exact Hqt].
    assert (v_lib new_view = set_queue QReady (ready_queue (v_lib v) ++ [Some k])
              (v_lib (made_view (<[k := mk_info [] true]> (infos (v_lib v)))))) as ->.
    { cbn. unfold with_thread, with_contexts. cbn. by rewrite Hmax. }
    apply quiet_set_queue. by eexists.
  - intros b' v' sig' Hb' Hwk Hcs'. cbn [handle]. hnorm. apply ok_in; [lia|].
    split; [done|]. cbn [handle]. eapply HK; [|exact Hwk|exact Hcs']. lia.
Qed.

End construct.

(** ** Calls of threads *)

Section calls.
Context (clean : bool) (n : nat).

Lemma ok_thread k hs loc i (f : ctx → prog unit) h :
  (clean = true → l_boot loc = true) →
  (∀ c' hs' e, ok clean n c' (COut (WUser k hs' loc) true) (h e)) →
  (∀ c' hs' t, ok clean n c' (COut (WUser k hs' loc) true) (f t)) →
  ∀ c, ok clean n c (COut (WUser k hs loc) i) (handle Thread.thread f h).
Proof.
  intros Hbt Hh HK c. unfold Thread.thread. hnorm. eapply ok_critical; [done| |].
  { intros []. reflexivity. }
  intros v Hv. exists (3 * length (cpu_vec (v_lib v)) + 80)%nat; split; [unfold cs_bound; lia|].
  destruct (user_acquired _ _ _ _ _ _ Hv) as (U & Hloc & Hlo).
  pose proof (user_cs _ _ _ _ _ _ _ _ _ _ U) as Hcs.
  assert (ids_ok (v_lib v) (v_g v)) as Hids by apply Hcs.
  pose proof (ui_g _ _ _ _ _ _ _ _ _ _ U) as Hg. pose proof (ui_stk _ _ _ _ _ _ _ _ _ _ U) as Hst.
  assert (k ≠ next_ctx (v_lib v)) as Hne.
  { intros ->. by rewrite (fresh_ghost _ _ Hids) in Hg. }
  hnorm. eapply (ok_construct _ _ _ _ _ _ _ _ Hcs) with (N := 10%nat); [| | |lia| |].
  - intros Hcl. left. intros c' Hs. rewrite insert_id // in Hs.
    by apply (lc_boot _ _ _ Hloc c' (Hbt Hcl)).
  - congruence.
  - cbn. congruence.
  - intros _ b' v' Hb' Hcs' Hs Hm. hnorm.
    eapply (ok_leave _ _ _ _ _ _ _ _ _ _ _ _ _ (λ _, h BadAlloc));
      [| |apply local_ext_refl| |done| |]; [lia| | |done|].
    + eapply user_of_cs; [exact Hcs'|done| |done]. by rewrite Hs.
    + rewrite Hs. by eapply local_ok_mono.
    + intros c'. apply Hh.
  - intros b' v' sig' Hb' Hwk Hcs'. hnorm.
    destruct Hwk as [Hw _ Hs _]. cbn in Hs.
    eapply (ok_leave _ _ _ _ _ _ _ _ _ _ _ _ _ (λ _, f (next_ctx (v_lib v))));
      [| |apply local_ext_refl| |exact Hlo| |]; [lia| | | |].
    + eapply user_of_cs; [exact Hcs'|done|by rewrite Hs|]. by rewrite lookup_insert_ne.
    + rewrite Hs. eapply local_ok_mono; [|exact Hloc].
      eapply (lib_mono_trans (λ _, True)); [|by apply idle_only_mono].
      exact (grow_mono _ _ (<[next_ctx (v_lib v) := mk_info [] true]> (infos (v_lib v))) Hids
               ltac:(by right) _).
    + intros []. by hnorm.
    + intros c'. apply HK.
Qed.

(** The thread's history grows by what the library promises. *)
Lemma ok_note k hs loc e (f : unit → prog unit) c :
  note_ok e hs loc → ok clean n c (COut (WUser k hs (add_event e loc)) true) (f tt) →
  ok clean n c (COut (WUser k hs loc) true) (bind (do (Note e)) f).
Proof. intros He HK. apply ok_out. by split. Qed.

Lemma ok_call k hs loc o (K : prog unit) c :
  (∀ c' hs' loc', ok clean n c' (COut (WUser k hs' loc') true) K) →
  ok clean n c (COut (WUser k hs (call_local clean o loc)) true)
    (bind (call_prog o) (λ _, K)).
Proof.
  intros HK. unfold call_prog. rewrite bind_assoc bind_try_catch.
  set (F := λ r, bind (do (Note (EReturn o r))) (λ _, K)).
  set (H := λ e, bind (Ret (RRaised e)) F).
  assert (∀ c' hs' loc' r, note_ok (EReturn o r) hs' loc' →
            ok clean n c' (COut (WUser k hs' loc') true) (F r)) as HF.
  { intros c' hs' loc' r Hr. apply ok_note; [done|apply HK]. }
  assert (∀ c' hs' loc' e, ok clean n c' (COut (WUser k hs' loc') true) (H e)) as HH.
  { intros c' hs' loc' e. apply HF. by destruct o. }
  assert (∀ o' m, client_step (client_holds (l_log loc)) (ECall o') =
            client_holds (l_log loc) ∖ {[m]} →
            m ∉ client_holds (l_log (call_local clean o' loc))) as Hrel.
  { intros o' m Hst. change (m ∉ client_holds (l_log loc ++ [ECall o'])).
    rewrite client_holds_snoc Hst. set_solver. }
  destruct o; cbn [op_prog]; rewrite handle_bind; cbn [handle].
  - apply ok_thread; [|intros; apply HH|intros; by apply HF].
    intros ->. cbn. apply orb_true_r.
  - apply ok_join; [cbn; set_solver|]. intros c' hs' loc' Hi _. by apply HF.
  - apply ok_yield. intros c' hs'. by apply HF.
  - apply ok_lock. intros c' hs' loc' Hm _. by apply HF.
  - apply ok_unlock; [by apply Hrel|intros; apply HH|]. intros c' hs'. by apply HF.
  - apply ok_wait; [by apply Hrel|intros; apply HH|]. intros c' hs' loc' Hm _. by apply HF.
  - apply ok_signal. intros c' hs'. by apply HF.
  - apply ok_broadcast. intros c' hs'. by apply HF.
Qed.

End calls.
