(* ===== verification/ThreadEntry.v ===== *)
(** * Where control enters the library

    The timer handler, what a new thread runs, the loop of the goldfish and the
    constructor of a CPU: the programs that ThreadSound asks to be right. *)

From stdpp Require Import fin_sets.
From S2P Require Import Prelude CStd ThreadTypes ThreadMonad ThreadLib ThreadMachine ThreadInv.
From S2P Require Import ThreadLogic ThreadSound ThreadMoves ThreadSteps ThreadReady ThreadOps.
From S2P Require Import ThreadCalls ThreadWait ThreadCreate.

#[local] Opaque Cpu.guard_lock Cpu.guard_unlock Cpu.swap_self_to_queue Cpu.check_ready_and_wake
  Cpu.add_to_ready_queue Cpu.add_all_to_ready_queue.

(** ** Preemption *)

Section timer.
Context (clean : bool) (n : nat).

Lemma ok_timer_user c k hs loc i (p : prog unit) :
  (∀ c', ok clean n c' (COut (WUser k hs loc) true) p) →
  ok clean n c (COut (WUser k hs loc) i) (bind Cpu.timer_interrupt_handler (λ _, p)).
Proof.
  intros Hp. unfold Cpu.timer_interrupt_handler. norm.
  eapply ok_critical; [done| |].
  { intros []. by norm. }
  intros v Hv. exists 100%nat; split; [unfold cs_bound; lia|].
  destruct (user_acquired _ _ _ _ _ _ Hv) as (U & Hloc & Hlo).
  assert (∀ b, (10 ≤ b)%nat → ok clean n c (CIn b v (WUser k hs loc))
            (bind Cpu.guard_unlock (λ _, bind (do InterruptEnable) (λ _, p)))) as Hend.
  { intros b Hb. eapply (ok_leave _ _ _ _ _ _ _ _ _ _ _ _ _ (λ _, p));
      [lia|exact U|apply local_ext_refl|done|done|done|done]. }
  destruct (user_cpu _ _ _ _ _ _ _ _ _ _ U) as [cp Hcp].
  pose proof (user_last _ _ _ _ _ _ _ _ _ _ U) as Hlast.
  norm. apply ok_self; [lia|]. norm. eapply ok_read; [lia|by rewrite /read_idle /reads Hcp|].
  destruct (is_idle cp); cbn [negb]; [norm; apply Hend; lia|].
  assert (read_last c (v_lib v) = Some (Some k, v_lib v)) as Hrl.
  { by rewrite read_last_spec ?Hlast. }
  norm. apply ok_self; [lia|]. norm. eapply ok_read; [lia|exact Hrl|].
  change (is_null (Some k)) with false. cbn [negb].
  norm. apply ok_self; [lia|]. norm. eapply ok_read; [lia|exact Hrl|].
  norm. apply ok_assert; [lia|done|].
  norm. eapply ok_read; [lia|by apply queue_empty_spec; eexists|].
  destruct (decide (queue_of QReady (v_lib v) = [])) as [E|E].
  { rewrite bool_decide_eq_true_2 //. cbn [negb]. norm. apply Hend; lia. }
  rewrite bool_decide_eq_false_2 //. cbn [negb]. norm.
  eapply (ok_swap_self_to_queue _ _ _ _ _ _ _ _ _ _ _ QReady PPlain);
    [lia|exact U|by eexists|done|done|done|done|].
  intros c2 b2 v2 Hb2 Hv2. destruct (user_resumed _ _ _ _ _ _ _ Hv2) as (U2 & Hloc2 & Hlo2).
  norm. eapply (ok_leave _ _ _ _ _ _ _ _ _ _ _ _ _ (λ _, p));
    [lia|exact U2|apply local_ext_refl|done|done|done|done].
Qed.

(** A goldfish that was woken has nothing to preempt. *)
Lemma ok_timer_gold c i (p : prog unit) :
  ok clean n c (COut (WGold true) true) p →
  ok clean n c (COut (WGold true) i) (bind Cpu.timer_interrupt_handler (λ _, p)).
Proof.
  intros Hp. unfold Cpu.timer_interrupt_handler. norm.
  eapply ok_critical; [done| |].
  { intros []. by norm. }
  intros v Hv. exists 100%nat; split; [unfold cs_bound; lia|].
  destruct Hv as (Hlib & Hst & _ & Hsig).
  assert (∀ b, (10 ≤ b)%nat → ok clean n c (CIn b v (WGold true))
            (bind Cpu.guard_unlock (λ _, bind (do InterruptEnable) (λ _, p)))) as Hend.
  { intros b Hb. apply (ok_guard_unlock _ _ _ _ _ _ (v_g v) (v_sig v) (WGold true));
      [lia|apply evolve_refl|apply sig_ext_refl| |].
    - destruct v. split; [exact Hlib|]. split; [exact Hst|]. cbn in *. naive_solver.
    - intros c' Hc'. rewrite (Hc' eq_refl). apply ok_out. split; [by right|done]. }
  destruct (co_stack _ _ _ _ (ok_cpus _ _ _ _ Hlib) _ _ Hst ltac:(done)) as (_&[cp Hcp]&Hlast).
  norm. apply ok_self; [lia|]. norm. eapply ok_read; [lia|by rewrite /read_idle /reads Hcp|].
  destruct (is_idle cp); cbn [negb]; [norm; apply Hend; lia|].
  norm. apply ok_self; [lia|]. norm.
  assert (read_last c (v_lib v) = Some (None, v_lib v)) as Hrl.
  { by rewrite read_last_spec ?Hlast. }
  eapply ok_read; [lia|exact Hrl|]. change (is_null None) with true. cbn [negb]. norm. apply Hend; lia.
Qed.

Lemma ok_timer c w p :
  is_Some (own_ctx w) ∨ w = WGold true →
  ok_at clean n c w true p →
  ok_at clean n c w true (bind Cpu.timer_interrupt_handler (λ _, p)).
Proof.
  intros [[k Hk]| ->] Hp c' Hc'.
  - destruct w as [k0 hs loc| |]; [|done..]. apply ok_timer_user. intros c2. by apply Hp.
  - apply ok_timer_gold. by apply Hp.
Qed.

End timer.

(** ** Freeing the stack of a thread that ended *)

(** The state in which the context that waited for it on CPU [c] is gone. *)
Record freed (c : cpu_id) (d d' : lib) (g g' : ghost) : Prop := {
  fd_queue q : queue_of q d' = queue_of q d;
  fd_get q : is_Some (get_queue q d') ↔ is_Some (get_queue q d);
  fd_last c' : last_of c' d' = last_of c' d;
  fd_kill : kill_of c d' = None;
  fd_dom c' : is_Some (cpus d' !! c') ↔ is_Some (cpus d !! c');
  fd_idle c' : idle_of c' d' = idle_of c' d;
  fd_place x gc : g !! x = Some gc → g_place gc ≠ ToKill c → g' !! x = Some gc }.

Section free.
Context (clean : bool) (c : cpu_id) (e : nat) (stk : gmap cpu_id stack_ref)
  (sig gold : gset cpu_id) (d d1 : lib) (g : ghost).
Context (Hok : lib_ok clean (Some c) e (View d g stk sig gold)).
Context (Hqt : quiet d d1) (Hq : ∀ q, queue_of q d1 = queue_of q d).
Context (Hl : ∀ c', last_of c' d1 = last_of c' d).
Context (Hk : ∀ c', kill_of c' d1 = if decide (c' = c) then None else kill_of c' d).

(** The contexts are now [cs], the annotations [g']. *)
Section free_lib.
Context (cs : gmap ctx managed_uc) (g' : ghost).
Let d2 : lib := with_contexts cs d1.
Context (Hcs : ∀ x u, cs !! x = Some u → contexts d !! x = Some u).
Context (Hloc : loc_ok d2 g').
Context (Hpl : ∀ x q φ, place_of g' x = Some (InQ q φ) → place_of g x = Some (InQ q φ)).
Context (Hrun : ∀ x c' φ, place_of g' x = Some (Running c' φ) ↔ place_of g x = Some (Running c' φ)).
Context (Hho : ∀ x gc', g' !! x = Some gc' → ∃ gc, g !! x = Some gc ∧ g_holds gc' = g_holds gc).

Lemma free_dom x : is_Some (g' !! x) → is_Some (g !! x).
Proof. intros [gc' Hx]. destruct (Hho _ _ Hx) as (gc & ? & _). by eexists. Qed.

Lemma free_lib : lib_ok clean (Some c) e (View d2 g' stk sig gold).
Proof.
  destruct Hok as [Hlo Hi Hm Hc Hg Hw Hj], Hqt as [Hf Hmf Hmo Hget].
  cbn in Hlo, Hi, Hm, Hc, Hg, Hw, Hj. split; cbn; try done.
  - destruct Hi. split; cbn; rewrite ?(fr_max _ _ Hf) ?(fr_next _ _ Hf); eauto.
    + intros x [u Hx]. apply io_ctx. eexists. by apply Hcs.
    + intros x Hx. by apply io_ghost, free_dom.
    + intros x. rewrite (fr_info _ _ Hf). apply io_info.
    + intros x ?%free_dom. by apply (fr_info _ _ Hf), io_thread.
  - eapply (mutexes_ready d); [done|apply Hf| | |done].
    + intros m. destruct (Hmf m) as [E1 E2]. split_and!; [done..|]. intros Hnil.
      specialize (Hq (QMutex m)). change (queue_of (QMutex m) d1 = []). by rewrite Hq.
    + intros x m [Hx|[c' Hx]]; [left; by apply Hpl|right; exists c'; by apply Hrun].
  - destruct Hc as [Hn Hv Hd Hs]. split; cbn; rewrite ?(fr_vec _ _ Hf); try done.
    + intros c'. by rewrite (fr_dom _ _ Hf).
    + intros c' ?%(fr_dom _ _ Hf). by apply Hd.
    + intros c' st Hst Hne. specialize (Hs c' st Hst Hne). destruct st as [|[|]].
      * apply eq_None_not_Some. rewrite (fr_dom _ _ Hf) Hs. by intros [? ?].
      * change (last_of c' d2) with (last_of c' d1). by rewrite (fr_dom _ _ Hf) Hl.
      * change (last_of c' d2) with (last_of c' d1). by rewrite Hl Hrun.
  - intros c'. rewrite (fr_dom _ _ Hf). apply Hg.
  - intros Hcl. assert (ready_queue d2 = ready_queue d) as Hr by exact (Hq QReady).
    assert (∀ c', idle_of c' d2 = idle_of c' d) as Hid by exact (fr_idle _ _ Hf).
    destruct (Hw Hcl). split; rewrite /boot_ready ?Hr; try done.
    + intros c'. rewrite Hid. apply wo_idle.
    + intros c'. rewrite Hid. apply wo_sig.
    + intros c'. rewrite Hid. apply wo_ready.
    + intros c' Hs. destruct (wo_boot _ Hs) as [? Hone]. split; [done|].
      intros x x' ?%free_dom ?%free_dom. by apply Hone.
    + intros Hs. apply map_eq. intros x. rewrite lookup_empty. apply eq_None_not_Some.
      intros [gc Hx]%free_dom. by rewrite (wo_main Hs) in Hx.
  - intros x i Hx. apply (fr_fin _ _ Hf), (Hj x).
    destruct Hx as [Hx|[c' Hx]]; [left; by apply Hpl|right; exists c'; by apply Hrun].
Qed.

Lemma free_freed :
  (∀ x gc, g !! x = Some gc → g_place gc ≠ ToKill c → g' !! x = Some gc) → freed c d d2 g g'.
Proof.
  destruct Hqt as [Hf Hmf Hmo Hget]. split; try done.
  - change (kill_of c d1 = None). by rewrite Hk decide_True.
  - apply (fr_dom _ _ Hf).
  - apply (fr_idle _ _ Hf).
Qed.

End free_lib.

Lemma free_nothing :
  kill_of c d = None → lib_ok clean (Some c) e (View d1 g stk sig gold) ∧ freed c d d1 g g.
Proof.
  intros Hnone. assert (d1 = with_contexts (contexts d1) d1) as -> by by destruct d1.
  assert (contexts d1 = contexts d) as Hc by apply Hqt. split.
  - apply free_lib; [by rewrite Hc| |done..|by eauto].
    eapply (loc_same d _ g (ok_loc _ _ _ _ Hok)); try done.
    + intros c'. etransitivity; [exact (Hk c')|]. case_decide; by subst.
  - by apply free_freed.
Qed.

(** The context of [k] is deleted. *)
Lemma free_killed k :
  kill_of c d = Some k →
  ∃ hs, g !! k = Some (GCtx (ToKill c) hs) ∧
    lib_ok clean (Some c) e (View (with_contexts (delete k (contexts d1)) d1)
                               (<[k := GCtx Dead hs]> g) stk sig gold) ∧
    freed c d (with_contexts (delete k (contexts d1)) d1) g (<[k := GCtx Dead hs]> g).
Proof.
  intros Hkill. pose proof (ok_loc _ _ _ _ Hok) as Hlo. cbn in Hlo.
  apply (lo_kill _ _ Hlo) in Hkill as Hp. destruct (place_of_lookup _ _ _ Hp) as [hs Hg].
  assert (contexts d1 = contexts d) as Hc by apply Hqt.
  exists hs. split; [done|]. split.
  - apply free_lib.
    + intros x u [_ Hx]%lookup_delete_Some. by rewrite -Hc.
    + eapply (loc_free d _ g Hlo c k hs Hg); cbn; [| | |by rewrite Hc].
      * intros q. rewrite -(Hq q). by destruct q.
      * intros c'. rewrite -(Hl c'). done.
      * intros c'. exact (Hk c').
    + intros x q φ. rewrite place_of_insert. by case_decide.
    + intros x c' φ. rewrite place_of_insert. case_decide; [|done]. subst x. split; [done|].
      congruence.
    + intros x gc'. rewrite lookup_insert_Some. intros [[<- <-]|[? ?]]; eauto.
  - apply free_freed. intros x gc Hx Hne. rewrite lookup_insert_ne //. intros <-. by simplify_eq.
Qed.

End free.

(** Its owner is not running anywhere. *)
Lemma ok_free clean n w c b v g sig e F (K : unit → prog unit) :
  (3 ≤ b)%nat → (∀ x, F x = bind (destroy x) K) → evolve (own_ctx w) (v_g v) g →
  lib_ok clean (Some c) e (View (v_lib v) g (v_stk v) sig (v_gold v)) →
  is_Some (cpus (v_lib v) !! c) →
  (∀ k, own_ctx w = Some k ∨ v_stk v !! c = Some (SUc (Uc k)) →
        ∃ φ, place_of g k = Some (Running c φ)) →
  (∀ b' d' g', (b - 2 ≤ b')%nat → evolve (own_ctx w) (v_g v) g' →
     lib_ok clean (Some c) e (View d' g' (v_stk v) sig (v_gold v)) → freed c (v_lib v) d' g g' →
     lib_mono (λ _, False) (v_lib v) d' →
     ok clean n c (CIn b' (v_with_lib d' v) w) (K tt)) →
  ok clean n c (CIn b v w) (bind (lib_do (reset_kill c)) F).
Proof.
  intros Hb HF He Hok Hcp Hrun HK.
  destruct (reset_kill_spec c _ Hcp) as (d1 & Hres & Hqt & Hq & Hl & Hk).
  eapply ok_lib; [lia|exact Hres|apply Hqt|]. rewrite HF.
  destruct (kill_of c (v_lib v)) as [k|] eqn:Ek.
  - destruct (free_killed _ _ _ _ _ _ _ _ _ Hok Hqt Hq Hl Hk k Ek) as (hs & Hg & Hok' & Hfd).
    apply lookup_place_of in Hg as Hp. pose proof (ok_loc _ _ _ _ Hok) as Hloc. cbn in Hloc.
    assert (∀ c', v_stk v !! c' ≠ Some (SUc (Uc k))) as Hns.
    { intros c' Hs. destruct (decide (c' = c)) as [->|Hne].
      - destruct (Hrun k (or_intror Hs)) as [φ ?]. congruence.
      - destruct (co_stack _ _ _ _ (ok_cpus _ _ _ _ Hok) c' _ Hs) as [_ ?]; cbn in *; congruence. }
    cbn [destroy]. apply ok_in; [lia|]. exists (with_contexts (delete k (contexts d1)) d1).
    split_and!; [|done|].
    + assert (is_Some (contexts d1 !! k)) as [u Hu].
      { rewrite (fr_ctx _ _ (qt_frame _ _ Hqt)). apply (lo_live _ _ Hloc).
        by exists (ToKill c). }
      unfold delete_context, writes. cbn. by rewrite Hu.
    + eapply HK; [lia| |exact Hok'|exact Hfd|].
      * by eapply evolve_insert.
      * eapply lib_mono_trans; [apply Hqt|by apply lib_mono_infos].
  - destruct (free_nothing _ _ _ _ _ _ _ _ _ Hok Hqt Hq Hl Hk Ek) as [Hok' Hfd].
    cbn [destroy bind].
    eapply HK; [lia|done|exact Hok'|exact Hfd|apply Hqt].
Qed.

(** ** Taking the next thread *)

Section take.
Context (clean : bool) (c : cpu_id) (e : nat) (stk : gmap cpu_id stack_ref)
  (sig gold : gset cpu_id) (d d' : lib) (g : ghost) (y : ctx) (r : deque) (φ : phase)
  (hs : gset mutex_id).
Context (Hok : lib_ok clean (Some c) e (View d g stk sig gold)) (He : (e ≤ 1)%nat).
Context (Hlast : last_of c d = None) (Hcp : is_Some (cpus d !! c)).
Context (Hr : queue_of QReady d = Some y :: r) (Hg : g !! y = Some (GCtx (InQ QReady φ) hs)).
Context (Hqt : quiet d d').
Context (Hq : ∀ q', queue_of q' d' = if decide (q' = QReady) then r else queue_of q' d).
Context (Hl : ∀ c', last_of c' d' = if decide (c' = c) then Some y else last_of c' d).
Context (Hk : ∀ c', kill_of c' d' = kill_of c' d).

Lemma lib_ok_take :
  lib_ok clean (Some c) 0
    (View d' (<[y := GCtx (Running c φ) hs]> g) (<[c := SUc (Uc y)]> stk) sig gold).
Proof.
  pose proof Hok as [Hlo Hi Hm Hc Hgd Hw Hj]. destruct Hqt as [Hf Hmf Hmo Hget].
  cbn in Hlo, Hi, Hm, Hc, Hgd, Hw, Hj. apply lookup_place_of in Hg as Hp.
  pose proof (dom_insert_eq _ _ (GCtx (Running c φ) hs) _ Hg) as Hdm.
  split; cbn [v_lib v_g v_stk v_sig v_gold].
  - eapply (loc_take d d' g Hlo c y φ hs r); try done. apply Hf.
  - eapply ids_frame; [done..|]. intros x. apply Hdm.
  - eapply mutexes_frame; [done..| | |].
    + intros _ m _ Hnil. by rewrite Hq.
    + intros x m. unfold handed. rewrite !place_of_insert. case_decide; [|done]. subst x. cbn.
      intros [?|[? [= -> ->]]]; [done|]. by left.
    + intros x gc'. rewrite lookup_insert_Some. intros [[<- <-]|[? ?]]; eauto.
  - eapply cpus_frame; [done..| |].
    + intros c' ?. by rewrite Hl decide_False.
    + intros x c' Hne Hx. rewrite place_of_insert. case_decide; [|done]. subst x. congruence.
  - intros c'. rewrite (fr_dom _ _ Hf). apply Hgd.
  - intros Hcl. assert (ready_queue d' = r) as Hr' by exact (Hq QReady).
    change (ready_queue d = Some y :: r) in Hr.
    assert (∀ c', <[c := SUc (Uc y)]> stk !! c' = Some SBoot → stk !! c' = Some SBoot ∧ c' ≠ c)
      as Hst.
    { intros c'. rewrite lookup_insert_Some. naive_solver. }
    destruct (Hw Hcl). split; try done.
    + intros c' Hne. rewrite (fr_idle _ _ Hf) lookup_insert_ne; [by apply wo_idle|congruence].
    + intros c' Hne. rewrite (fr_idle _ _ Hf) lookup_insert_ne; [by apply wo_sig|congruence].
    + intros c'. rewrite (fr_idle _ _ Hf). intros Hid. specialize (wo_ready _ Hid).
      rewrite Hr' Hr in wo_ready |- *. cbn in wo_ready. lia.
    + intros c' [Hs Hne]%Hst. destruct (wo_boot _ Hs) as [Hb Hone]. split.
      * left. rewrite Hr'. destruct Hb as [Hb|(c0 & k0 & [= <-] & Hb & _)]; congruence.
      * intros x x' ?%Hdm ?%Hdm. by apply Hone.
    + intros [Hs _]%Hst. pose proof Hg as Hg0. by rewrite (wo_main Hs) in Hg0.
  - intros x i Hx. apply (fr_fin _ _ Hf), (Hj x). unfold joined in *.
    rewrite !(place_of_insert g) in Hx. destruct (decide (y = x)); [|done]. subst x.
    cbn in Hx. left. rewrite Hp. by destruct Hx as [?|[? [= -> ->]]].
Qed.

End take.

(** ** The goldfish *)

Record gold_in (clean : bool) (c : cpu_id) (v : view) (g : ghost) (sig : gset cpu_id)
    : Prop := {
  gi_evolve : evolve None (v_g v) g;
  gi_sig : sig_ext c (v_sig v) sig;
  gi_lib : lib_ok clean (Some c) 1 (View (v_lib v) g (v_stk v) sig (v_gold v));
  gi_stk : v_stk v !! c = Some (SUc (Goldfish c));
  gi_cpu : is_Some (cpus (v_lib v) !! c);
  gi_last : last_of c (v_lib v) = None;
  gi_idle : clean = true → idle_of c (v_lib v) = true → ready_queue (v_lib v) = [] }.

Lemma gold_resumed clean c v : resume_gold clean c v → gold_in clean c v (v_g v) (v_sig v).
Proof.
  intros (?&?&?&?&?). split; try done; [apply evolve_refl|]. by destruct v.
Qed.

Lemma gold_acquired clean c v :
  acquired clean c (WGold true) v → gold_in clean c v (v_g v) (v_sig v ∖ {[c]}).
Proof.
  intros (Hl&Hs&_&Hsig).
  destruct (lib_ok_acquire_gold _ _ _ Hl Hs Hsig) as (?&?&?&Hid).
  split; try done; [apply evolve_refl|intros c' ?; set_solver|].
  intros Hcl Hi. by rewrite Hid in Hi.
Qed.

(** It goes to sleep. *)
Lemma lib_ok_sleep clean c cp d g stk sig gold :
  lib_ok clean (Some c) 1 (View d g stk sig gold) → cpus d !! c = Some cp →
  stk !! c = Some (SUc (Goldfish c)) → last_of c d = None → ready_queue d = [] →
  lib_ok clean None 0 (View (with_cpu c (set_idle true cp) d) g stk sig gold) ∧
  (clean = true → c ∉ sig).
Proof.
  intros Hok Hcp Hs Hl Hr. pose proof (idle_only_write c true cp d Hcp) as Hio.
  pose proof (ok_cpus _ _ _ _ Hok) as Hc. pose proof (ok_work _ _ _ _ Hok) as Hw. cbn in Hw.
  assert (lib_ok false (Some c) 1 (View d g stk sig gold)) as Hok0 by by destruct Hok; split.
  destruct (lib_ok_idle_only false _ _ Hio c 1 1 g stk sig sig gold Hok0 ltac:(done))
    as [? ? ? Hc' ? _ ?].
  split; [split; try done|].
  - destruct Hc'. split; try done. intros c' st Hst _. destruct (decide (c' = c)) as [->|Hne];
      [|apply co_stack; congruence].
    cbn in Hst. rewrite Hs in Hst. simplify_eq. rewrite (idle_only_last _ _ Hio).
    split_and!; [done| |done]. apply (idle_only_dom _ _ Hio). by eexists.
  - intros Hcl. destruct (Hw Hcl). split; cbn; rewrite ?Hr; try done.
    + intros c' _. rewrite idle_of_with_cpu. case_decide; subst; [done|]. apply wo_idle. congruence.
    + intros c' _. rewrite idle_of_with_cpu. case_decide; subst.
      * split; [by intros ?%wo_own|by intros [_ ?]].
      * apply wo_sig. congruence.
    + intros c' _. cbn. lia.
    + intros c' Hs'. destruct (wo_boot _ Hs') as [_ ?]. split; [by left|done].
  - intros Hcl. by apply (Hw Hcl).
Qed.

(** Which thread is at the front of the ready queue. *)
Lemma ready_head clean own e v x r :
  lib_ok clean own e v → queue_of QReady (v_lib v) = x :: r →
  ∃ y φ hs, x = Some y ∧ v_g v !! y = Some (GCtx (InQ QReady φ) hs).
Proof.
  intros Hl Hr. destruct (queue_head _ _ _ _ _ (ok_loc _ _ _ _ Hl) Hr) as (y & φ & hs & ? & ? & _).
  by exists y, φ, hs.
Qed.

Section watch.
Context (clean : bool) (n : nat) (c : cpu_id) (p : prog unit).
Context (Hp : ∀ m b v, (m < n)%nat → (40 ≤ b)%nat → resume_gold clean c v →
                       ok clean m c (CIn b v (WGold true)) p).
Context (Hacq : ∀ m v, (m < n)%nat → acquired clean c (WGold true) v →
                       ∃ b, (b ≤ cs_bound (v_lib v))%nat ∧ ok clean m c (CIn b v (WGold true)) p).

(** The rest of an iteration, once the last thread's stack is freed. *)
Lemma ok_watch_take m b v g sig x r :
  (m < n)%nat → (25 ≤ b)%nat → gold_in clean c v g sig →
  queue_of QReady (v_lib v) = x :: r →
  ok clean m c (CIn b v (WGold true))
    (bind (c ← do Self;
           swap_last_ready_front c ;;
           x ← queue_front QReady;
           do (Assert (is_null x)) ;;
           c ← do Self;
           l ← read_last c;
           do (Assert (negb (is_null l))) ;;
           x ← pop_front QReady;
           destroy x ;;
           c ← do Self;
           to ← deref_last c;
           do (SwapContext (Goldfish c) (Uc to)))%thread (λ _, p)).
Proof.
  intros Hm Hb [He Hsig Hlib Hst Hcp Hlast Hid] Hr.
  destruct (ready_head _ _ _ _ _ _ Hlib Hr) as (y & φ & hs & -> & Hy). cbn in Hy.
  destruct (swap_last_ready_front_spec c _ y r Hcp Hlast Hr)
    as (d1 & d' & Hsw & Hm1 & Hfr & Hrl & Hpop & Hm2 & Hqt & Hq & Hl & Hk).
  norm. apply ok_self; [lia|]. norm. eapply ok_lib; [lia|exact Hsw|apply Hm1|].
  norm. eapply ok_read; [lia|exact Hfr|]. norm. apply ok_assert; [lia|done|].
  norm. apply ok_self; [lia|]. norm. eapply ok_read; [lia|exact Hrl|].
  norm. apply ok_assert; [lia|done|].
  norm. eapply ok_lib; [lia|exact Hpop|apply Hm2|]. cbn [destroy]. norm.
  apply ok_self; [lia|].
  norm. eapply ok_read; [lia|by apply deref_last_spec; rewrite /= Hl decide_True|].
  apply ok_swap; [lia|].
  assert (is_Some (cpus d' !! c)) as Hcp' by by apply (fr_dom _ _ (qt_frame _ _ Hqt)).
  split; [by apply bool_decide_eq_true|]. split; [done|].
  exists (<[y := GCtx (Running c φ) hs]> g), sig. split_and!; [|done| |done| |].
  - eapply (evolve_insert _ _ _ y (InQ QReady φ)); done.
  - split_and!; [lia| |by exists φ, hs; rewrite /= lookup_insert_eq|].
    + eapply lib_ok_take; try done; lia.
    + intros Hcl. cbn. rewrite (fr_idle _ _ (qt_frame _ _ Hqt)).
      destruct (idle_of c (v_lib v)) eqn:E; [|done].
      specialize (Hid Hcl eq_refl). change (ready_queue (v_lib v) = Some y :: r) in Hr. congruence.
  - by apply (ok_gold _ _ _ _ Hlib).
  - intros b' v' ??. by apply Hp.
Qed.

(** It has nothing to do. *)
Lemma ok_watch_sleep m b v g sig :
  (m < n)%nat → (10 ≤ b)%nat → gold_in clean c v g sig → queue_of QReady (v_lib v) = [] →
  ok clean m c (CIn b v (WGold true))
    (bind (c ← do Self;
           write_idle true c ;;
           Cpu.guard_unlock ;;
           do InterruptEnableSuspend ;;
           do InterruptDisable ;;
           Cpu.guard_lock)%thread (λ _, p)).
Proof.
  intros Hm Hb [He Hsig Hlib Hst [cp Hcp] Hlast Hid] Hr.
  norm. apply ok_self; [lia|]. norm. eapply ok_lib; [lia|by rewrite /write_idle /writes Hcp|
    by apply lib_mono_infos|].
  destruct (lib_ok_sleep _ _ _ _ _ _ _ _ Hlib Hcp Hst Hlast Hr) as [Hlib' Hns].
  norm. apply (ok_guard_unlock _ _ _ _ _ _ g sig (WGold false)); [lia|done|done| |].
  { split; [exact Hlib'|]. split; [done|]. intros Hcl. cbn. specialize (Hns Hcl). naive_solver. }
  intros c' Hc'. rewrite (Hc' eq_refl). norm. apply ok_out. split; [done|].
  norm. apply ok_interrupt_disable. apply ok_guard_lock; [done|]. intros v' Hv'. by apply Hacq.
Qed.

Lemma ok_watch_body m b v g sig :
  (m < n)%nat → (39 ≤ b)%nat → gold_in clean c v g sig →
  ok clean m c (CIn b v (WGold true)) (bind Cpu.watch_suspend_body (λ _, p)).
Proof.
  intros Hm Hb G. unfold Cpu.watch_suspend_body.
  norm. apply ok_assert_ints; [lia|]. norm. apply ok_guard_load; [lia|].
  norm. apply ok_assert; [lia|done|]. norm. apply ok_self; [lia|].
  norm. eapply ok_free; [lia|intros x; norm; reflexivity|apply (gi_evolve _ _ _ _ _ G)|
    apply (gi_lib _ _ _ _ _ G)|apply (gi_cpu _ _ _ _ _ G)| |].
  { intros k [?|Hs]; [done|]. rewrite (gi_stk _ _ _ _ _ G) in Hs. done. }
  intros b' d' g' Hb' He' Hlib' Hfd Hmono.
  assert (gold_in clean c (v_with_lib d' v) g' sig) as G'.
  { destruct G as [? ? ? ? ? ? Hid]. split; try done.
    - by apply (fd_dom _ _ _ _ _ Hfd).
    - by rewrite /= (fd_last _ _ _ _ _ Hfd).
    - cbn. intros Hcl. rewrite (fd_idle _ _ _ _ _ Hfd). intros Hi.
      specialize (fd_queue _ _ _ _ _ Hfd QReady). cbn. intros ->. by apply Hid. }
  pose proof (gi_last _ _ _ _ _ G') as Hlast. pose proof (gi_cpu _ _ _ _ _ G') as Hcp.
  cbn in Hlast, Hcp. norm. apply ok_self; [lia|].
  assert (read_last c d' = Some (None, d')) as Hrl by by rewrite read_last_spec ?Hlast.
  norm. eapply ok_read; [lia|exact Hrl|]. norm. apply ok_assert; [lia|done|].
  norm. eapply ok_read; [lia|by apply queue_empty_spec; eexists|].
  destruct (queue_of QReady (v_lib (v_with_lib d' v))) as [|x r] eqn:Er.
  - rewrite bool_decide_eq_true_2 //. cbn [negb].
    eapply ok_watch_sleep; [done|lia|exact G'|done].
  - rewrite bool_decide_eq_false_2 //. cbn [negb].
    eapply ok_watch_take; [done|lia|exact G'|done].
Qed.

End watch.

(** The loop: by induction on the steps left, from a switch or from sleep. *)
Lemma ok_watch_loop clean c n :
  (∀ b v, (40 ≤ b)%nat → resume_gold clean c v →
          ok clean n c (CIn b v (WGold true)) Cpu.watch_suspend) ∧
  (∀ v, acquired clean c (WGold true) v →
        ok clean n c (CIn 40 v (WGold true)) Cpu.watch_suspend).
Proof.
  induction (lt_wf n) as [n _ IH].
  assert (∀ m b v g sig, (m < n)%nat → (39 ≤ b)%nat → gold_in clean c v g sig →
    ok clean m c (CIn b v (WGold true))
      (bind Cpu.watch_suspend_body (λ _, Cpu.watch_suspend))) as Hbody.
  { intros m b v g sig Hm Hb G. eapply (ok_watch_body clean n c); [| |done|done|exact G].
    - intros m' b' v' Hm' Hb' Hv'. by apply (IH m').
    - intros m' v' Hm' Hv'. exists 40%nat. split; [unfold cs_bound; lia|]. by apply (IH m'). }
  split.
  - intros b v Hb Hv. apply ok_in_forever; [lia|]. intros m Hm.
    eapply Hbody; [done|lia|by apply gold_resumed].
  - intros v Hv. apply ok_in_forever; [lia|]. intros m Hm.
    eapply Hbody; [done|lia|by apply gold_acquired].
Qed.

Lemma ok_watch_suspend clean n c : saved_gold clean n c Cpu.watch_suspend.
Proof. intros b v. apply ok_watch_loop. Qed.

(** ** The end of a thread *)

Section last.
Context (clean : bool) (c : cpu_id) (e : nat) (stk : gmap cpu_id stack_ref)
  (sig gold : gset cpu_id) (d d' : lib) (g : ghost) (k : ctx) (φ : phase)
  (hs : gset mutex_id) (st : stack_ref).
Context (Hok : lib_ok clean (Some c) e (View d g stk sig gold)).
Context (Hg : g !! k = Some (GCtx (Running c φ) hs)) (Hs : stk !! c = Some (SUc (Uc k))).
Context (Hkill : kill_of c d = None) (Hst : st ≠ SBoot).
Context (Hqt : quiet d d') (Hq : ∀ q', queue_of q' d' = queue_of q' d).
Context (Hl : ∀ c', last_of c' d' = if decide (c' = c) then None else last_of c' d).
Context (Hk : ∀ c', kill_of c' d' = if decide (c' = c) then Some k else kill_of c' d).

(** The thread of CPU [c] has ended and leaves its stack. *)
Lemma lib_ok_kill_last e' :
  (e ≤ e')%nat →
  lib_ok clean (Some c) e' (View d' (<[k := GCtx (ToKill c) hs]> g) (<[c := st]> stk) sig gold).
Proof.
  intros He. pose proof Hok as [Hlo Hi Hm Hc Hgd Hw Hj]. destruct Hqt as [Hf Hmf Hmo Hget].
  cbn in Hlo, Hi, Hm, Hc, Hgd, Hw, Hj. apply lookup_place_of in Hg as Hp.
  pose proof (dom_insert_eq _ _ (GCtx (ToKill c) hs) _ Hg) as Hdm.
  split; cbn [v_lib v_g v_stk v_sig v_gold].
  - eapply (loc_kill_last d d' g Hlo c k φ hs); try done. apply Hf.
  - eapply ids_frame; [done..|]. intros x. apply Hdm.
  - eapply mutexes_frame; [done..| | |].
    + intros _ m _ Hnil. by rewrite Hq.
    + intros x m. unfold handed. rewrite !place_of_insert. case_decide; [|done].
      by intros [?|[? ?]].
    + intros x gc'. rewrite lookup_insert_Some. intros [[<- <-]|[? ?]]; eauto.
  - eapply cpus_frame; [done..| |].
    + intros c' ?. by rewrite Hl decide_False.
    + intros x c' Hne Hx. rewrite place_of_insert. case_decide; [|done]. subst x. congruence.
  - intros c'. rewrite (fr_dom _ _ Hf). apply Hgd.
  - intros Hcl. assert (ready_queue d' = ready_queue d) as Hr' by exact (Hq QReady).
    eapply work_frame; [by apply Hw|done|rewrite Hr'; lia|done| | |done].
    + intros c' _ Hb. left. rewrite Hr'. by eapply boot_ready_user.
    + intros x. apply Hdm.
  - intros x i Hx. apply (fr_fin _ _ Hf), (Hj x). unfold joined in *.
    rewrite !(place_of_insert g) in Hx. destruct (decide (k = x)); [|done].
    by destruct Hx as [?|[? ?]].
Qed.

End last.

(** The last switch of a thread, when [to_kill] is free. *)
Section exit.
Context (clean : bool) (n : nat) (c : cpu_id) (v : view) (k : ctx) (hs0 hs : gset mutex_id)
  (loc : local) (g : ghost) (sig : gset cpu_id).
Context (U : user_in clean v (WUser k hs0 loc) c k PPlain hs 0 g sig) (Hlo : log_ok loc hs).
Context (Hkill : kill_of c (v_lib v) = None).

Lemma ok_last_switch b (K : unit → prog unit) :
  (60 ≤ b)%nat →
  ok clean n c (CIn b v (WUser k hs0 loc))
    (bind (c ← do Self;
           swap_kill_last c ;;
           e ← queue_empty QReady;
           if negb e then
             c ← do Self;
             swap_last_ready_front c ;;
             x ← queue_front QReady;
             do (Assert (is_null x)) ;;
             x ← pop_front QReady;
             destroy x ;;
             c ← do Self;
             to ← deref_last c;
             do (SetContext (Uc to))
           else
             c ← do Self;
             do (SetContext (Goldfish c)))%thread K).
Proof.
  intros Hb. pose proof (user_last _ _ _ _ _ _ _ _ _ _ U) as Hlast.
  pose proof (user_cpu _ _ _ _ _ _ _ _ _ _ U) as Hcp.
  destruct (swap_kill_last_spec c k _ Hkill Hlast) as (d1 & Hsw & Hqt & Hq & Hl & Hk).
  pose proof U as [_ He Hsig Hlib Hst Hg Hid].
  assert (is_Some (cpus d1 !! c)) as Hcp1 by by apply (fr_dom _ _ (qt_frame _ _ Hqt)).
  set (g1 := <[k := GCtx (ToKill c) hs]> g).
  assert (∀ st e', st ≠ SBoot → lib_ok clean (Some c) e'
            (View d1 g1 (<[c := st]> (v_stk v)) sig (v_gold v))) as Hok1.
  { intros st e' Hns. eapply (lib_ok_kill_last clean c 0 (v_stk v) sig (v_gold v) (v_lib v));
      try done. lia. }
  norm. apply ok_self; [lia|]. norm. eapply ok_lib; [lia|exact Hsw|apply Hqt|].
  norm. eapply ok_read; [lia|by apply queue_empty_spec; eexists|]. cbn [v_lib v_with_lib].
  destruct (queue_of QReady d1) as [|x r] eqn:Er.
  - rewrite bool_decide_eq_true_2 //. cbn [negb].
    norm. apply ok_self; [lia|]. norm. apply ok_set; [lia|].
    exists g1, sig. split_and!; [by apply evolve_own|done| |].
    + split_and!; [done|lia|by rewrite /= Hst|]. split_and!; cbn.
      * by apply Hok1.
      * by rewrite lookup_insert_eq.
      * done.
      * by rewrite Hl decide_True.
      * intros Hcl. rewrite (fr_idle _ _ (qt_frame _ _ Hqt)) Hid //.
    + exists (ToKill c), hs. by rewrite /g1 lookup_insert_eq.
  - rewrite bool_decide_eq_false_2 //. cbn [negb].
    destruct (ready_head clean (Some c) 0 (View d1 g1 (<[c := SUc (Goldfish c)]> (v_stk v)) sig
                (v_gold v)) x r) as (y & φ & hsy & -> & Hy); [by apply Hok1|done|]. cbn in Hy.
    assert (last_of c d1 = None) as Hl1 by by rewrite Hl decide_True.
    destruct (swap_last_ready_front_spec c d1 y r Hcp1 Hl1 Er)
      as (d2 & d' & Hsw2 & Hm1 & Hfr & _ & Hpop & Hm2 & Hqt2 & Hq2 & Hl2 & Hk2).
    norm. apply ok_self; [lia|]. norm. eapply ok_lib; [lia|exact Hsw2|apply Hm1|].
    norm. eapply ok_read; [lia|exact Hfr|]. norm. apply ok_assert; [lia|done|].
    norm. eapply ok_lib; [lia|exact Hpop|apply Hm2|]. cbn [destroy]. norm.
    apply ok_self; [lia|].
    norm. eapply ok_read; [lia|by apply deref_last_spec; rewrite /= Hl2 decide_True|].
    norm. apply ok_set; [lia|].
    assert (y ≠ k) as Hyk.
    { intros ->. unfold g1 in Hy. by rewrite lookup_insert_eq in Hy. }
    exists (<[y := GCtx (Running c φ) hsy]> g1), sig. split_and!; [| done| |].
    + eapply (evolve_insert _ _ _ y (InQ QReady φ)); [by apply evolve_own|done|done].
    + split_and!; [lia| |by exists φ, hsy; rewrite /= lookup_insert_eq|].
      * epose proof (lib_ok_take clean c 0 _ _ _ d1 d' g1 y r φ hsy
          (Hok1 (SUc (Goldfish c)) _ ltac:(done)) ltac:(lia) Hl1 Hcp1 Er Hy Hqt2 Hq2 Hl2 Hk2) as Ht.
        by rewrite insert_insert_eq in Ht.
      * intros Hcl. cbn. rewrite (fr_idle _ _ (qt_frame _ _ Hqt2)).
        rewrite (fr_idle _ _ (qt_frame _ _ Hqt)). by apply Hid.
    + exists (ToKill c), hs. by rewrite lookup_insert_ne // /g1 lookup_insert_eq.
Qed.

End exit.

(** The thread's function has returned. *)
Lemma clear_alive_spec i d :
  is_Some (infos d !! i) →
  ∃ d', clear_alive i d = Some (tt, d') ∧ finished d' i ∧ frame d d' ∧ mutexes d' = mutexes d ∧
    lib_mono (λ j, j = i) d d' ∧ (∀ q, queue_of q d' = queue_of q d) ∧
    (∀ q, is_Some (get_queue q d') ↔ is_Some (get_queue q d)) ∧
    (∀ c', last_of c' d' = last_of c' d) ∧ (∀ c', kill_of c' d' = kill_of c' d).
Proof.
  intros [si Hi]. unfold clear_alive, writes. rewrite Hi. cbn. eexists. split; [done|].
  set (si' := mk_info (join_waiting_queue si) false).
  assert (∀ j, infos (with_info i si' d) !! j =
            if decide (j = i) then Some si' else infos d !! j) as Hj.
  { intros j. cbn. case_decide; subst; [by rewrite lookup_insert_eq|by rewrite lookup_insert_ne]. }
  assert (∀ q, get_queue q (with_info i si' d) = get_queue q d) as Hq.
  { intros q. destruct q as [| | |j]; try done. cbn [get_queue]. rewrite Hj.
    case_decide; subst; [by rewrite Hi|done]. }
  assert (∀ j, finished d j → finished (with_info i si' d) j) as Hf.
  { intros j (sj & Hs & Ha). unfold finished. rewrite Hj. case_decide; eauto. }
  assert (∀ j, is_Some (infos (with_info i si' d) !! j) ↔ is_Some (infos d !! j)) as Hd.
  { intros j. rewrite Hj. case_decide; subst; [|done]. split; by eexists. }
  split_and!; try done.
  - exists si'. by rewrite Hj decide_True.
  - split_and!; [by intros j ?%Hd|done| |done].
    intros j (sj & Hs & Ha). rewrite Hj in Hs. case_decide; [by left|]. right. by exists sj.
  - intros q. unfold queue_of. by rewrite Hq.
  - intros q. by rewrite Hq.
Qed.

Lemma ok_exit clean n c k hs loc i :
  EFinish ∈ l_log loc →
  ok clean n c (COut (WUser k hs loc) i)
    (do InterruptDisable ;;
     Cpu.guard_lock ;;
     clear_alive k ;;
     Cpu.add_all_to_ready_queue (QJoin k) ;;
     c ← do Self;
     x ← reset_kill c;
     destroy x ;;
     c ← do Self;
     swap_kill_last c ;;
     e ← queue_empty QReady;
     if negb e then
       c ← do Self;
       swap_last_ready_front c ;;
       x ← queue_front QReady;
       do (Assert (is_null x)) ;;
       x ← pop_front QReady;
       destroy x ;;
       c ← do Self;
       to ← deref_last c;
       do (SetContext (Uc to))
     else
       c ← do Self;
       do (SetContext (Goldfish c)))%thread.
Proof.
  intros Hfin. eapply ok_critical; [done|by intros []|]. intros v Hv.
  exists (3 * length (cpu_vec (v_lib v)) + length (queue_of (QJoin k) (v_lib v)) + 100)%nat.
  pose proof (queue_bound _ _ _ _ (QJoin k) (proj1 Hv)). split; [unfold cs_bound; lia|].
  destruct (user_acquired _ _ _ _ _ _ Hv) as (U & Hloc & Hlo).
  pose proof (ui_g _ _ _ _ _ _ _ _ _ _ U) as Hg.
  assert (is_Some (infos (v_lib v) !! k)) as Hi.
  { apply (io_thread _ _ (ok_ids _ _ _ _ (ui_lib _ _ _ _ _ _ _ _ _ _ U))). by eexists. }
  destruct (clear_alive_spec k _ Hi) as (d1 & Hcl & Hf1 & Hfr & Hmx & Hmo & Hq & Hget & Hl & Hk).
  eapply ok_lib; [lia|exact Hcl| |].
  { destruct Hmo as (H1 & H2 & H3 & H4). split_and!; [done..| |done].
    intros j [->|?]%H3; [by left|by right]. }
  assert (user_in clean (v_with_lib d1 v) (WUser k hs loc) c k PPlain hs 0
            (<[k := GCtx (Running c PPlain) hs]> (v_g v)) (v_sig v)) as U1.
  { eapply user_update; [exact U|done..|].
    eapply (mutexes_ready (v_lib v)); [apply U|apply Hfr| | |].
    - intros m. unfold mutex_of. by rewrite Hmx.
    - intros x m. unfold handed. rewrite place_of_insert. case_decide; [|done].
      by intros [?|[? ?]].
    - intros x gc'. rewrite lookup_insert_Some. intros [[<- <-]|[_ ?]]; eauto. }
  eapply (ok_add_all _ _ _ _ _ _ _ _ _ (QJoin k) U1) with (N := 80%nat); try done.
  { by intros ? [= <-]. }
  { apply Hget. cbn. destruct Hi as [si ->]. by eexists. }
  { specialize (Hq (QJoin k)). cbn [v_lib v_with_lib]. rewrite (fr_vec _ _ Hfr) Hq. lia. }
  intros b' v' g' sig' Hb' U' _ Hs.
  pose proof (ui_g _ _ _ _ _ _ _ _ _ _ U') as Hg'.
  apply ok_self; [lia|]. eapply ok_free; [lia|intros x; reflexivity| | | | |].
  - destruct U' as [Ho He _ _ _ _ _]. rewrite Ho. exact He.
  - apply (ui_lib _ _ _ _ _ _ _ _ _ _ U').
  - by eapply user_cpu.
  - intros x [[= <-]|Hx]; [by eexists; eapply lookup_place_of|].
    rewrite (ui_stk _ _ _ _ _ _ _ _ _ _ U') in Hx. injection Hx as <-.
    by eexists; eapply lookup_place_of.
  - intros b2 d2 g2 Hb2 He2 Hlib2 Hfd _.
    rewrite -[X in ok _ _ _ _ X]bind_ret_r.
    eapply (ok_last_switch _ _ _ _ _ _ hs); [| |apply (fd_kill _ _ _ _ _ Hfd)|lia].
    + destruct U' as [Ho He Hsg _ Hst _ Hid]. split; try done.
      * by apply (fd_place _ _ _ _ _ Hfd).
      * intros Hc. cbn. rewrite (fd_idle _ _ _ _ _ Hfd). by apply Hid.
    + done.
Qed.

(** What a thread runs: its function calls the library as often as it likes. *)
Lemma ok_func clean n x k :
  (∀ n c hs loc, EFinish ∈ l_log loc → ok clean n c (COut (WUser x hs loc) true) (k tt)) →
  ∀ c hs loc, ok clean n c (COut (WUser x hs loc) true) (Act Func k).
Proof.
  intros Hk. induction n as [|n IH]; [done|]. intros c hs loc.
  change (out_act clean (ok clean n) c (WUser x hs loc) true Func k).
  split_and!; [done| |].
  - intros o. by apply ok_call.
  - apply Hk. cbn. set_solver.
Qed.

Lemma ok_wrapped clean n x : saved clean n x PPlain ∅ new_local (Thread.wrapped_function x).
Proof.
  intros c b v Hb Hv. destruct (user_resumed _ _ _ _ _ _ _ Hv) as (U & Hloc & Hlo).
  unfold Thread.wrapped_function.
  eapply ok_leave; [lia|exact U|apply local_ext_refl|done|done|reflexivity|].
  intros c'. apply ok_func. intros n' c2 hs loc Hfin. by apply ok_exit.
Qed.
