(* ===== verification/ThreadBoot.v ===== *)
(** * Booting

    The constructor of a CPU, with and without a function to run, and the state
    before any has run: with ThreadEntry this makes ThreadSound's invariant hold in
    every reachable state ([reachable_ok]). *)

From stdpp Require Import fin_sets.
From S2P Require Import Prelude CStd ThreadTypes ThreadMonad ThreadLib ThreadMachine ThreadInv.
From S2P Require Import ThreadLogic ThreadSound ThreadMoves ThreadSteps ThreadReady ThreadOps.
From S2P Require Import ThreadCalls ThreadWait ThreadCreate ThreadEntry.

#[local] Opaque Cpu.guard_lock Cpu.guard_unlock Cpu.swap_self_to_queue Cpu.check_ready_and_wake
  Cpu.add_to_ready_queue Cpu.add_all_to_ready_queue.

(** ** A new CPU *)

(** CPU [c] has been constructed and registered as [cp]. *)
Definition booted (c : cpu_id) (cp : cpu) (d : lib) : lib :=
  mk_lib (to_uint32 (max_id d + 1)) (S (next_ctx d)) (contexts d) (cpu_vec d ++ [c])
    (ready_queue d) (<[c := cp]> (cpus d)) (mutexes d) (cvs d) (infos d).

Section boot.
Context (clean : bool) (c : cpu_id) (cp : cpu) (d : lib) (g : ghost)
  (stk : gmap cpu_id stack_ref) (sig gold : gset cpu_id) (st : stack_ref) (e : nat).
Context (Hok : lib_ok clean None 0 (View d g stk sig gold)).
Context (Hs : stk !! c = Some SBoot) (Hst : st ≠ SBoot).
Context (Hlast : last_context cp = None) (Hkill : to_kill cp = None).

Lemma boot_none : cpus d !! c = None.
Proof. exact (co_stack _ _ _ _ (ok_cpus _ _ _ _ Hok) c _ Hs ltac:(done)). Qed.

Lemma booted_cpus c' : cpus (booted c cp d) !! c' = if decide (c' = c) then Some cp else cpus d !! c'.
Proof.
  cbn. case_decide; subst; [by rewrite lookup_insert_eq|by rewrite lookup_insert_ne].
Qed.

Lemma booted_last c' : last_of c' (booted c cp d) = last_of c' d.
Proof.
  unfold last_of. rewrite booted_cpus. case_decide; subst; [|done]. by rewrite boot_none.
Qed.

Lemma booted_kill c' : kill_of c' (booted c cp d) = kill_of c' d.
Proof.
  unfold kill_of. rewrite booted_cpus. case_decide; subst; [|done]. by rewrite boot_none.
Qed.

Lemma boot_clean : clean = true → ready_queue d = [].
Proof.
  intros Hcl. pose proof (ok_work _ _ _ _ Hok Hcl) as W.
  by destruct (wo_boot _ _ _ _ _ _ W c Hs) as [[?|(?&?&?&?)] _].
Qed.

Lemma lib_ok_boot :
  lib_ok clean (Some c) e (View (booted c cp d) g (<[c := st]> stk) sig ({[c]} ∪ gold)).
Proof.
  pose proof boot_none as Hnone. pose proof booted_cpus as Hcpus.
  pose proof boot_clean as Hready.
  destruct (lib_ok_grow _ _ _ _ _ _ _ _ (infos d) ltac:(by left) Hok)
    as [Hl Hi Hm Hc Hg _ Hj]. cbn in Hl, Hi, Hm, Hc, Hg, Hj.
  pose proof (ok_work _ _ _ _ Hok) as Hw. cbn in Hw.
  split; cbn [v_lib v_g v_stk v_sig v_gold].
  - eapply (loc_same (grow (infos d) d) _ g Hl); try done; apply booted_last || apply booted_kill.
  - by destruct Hi; split.
  - exact Hm.
  - destruct Hc as [Hn Hv Hd Hk]. cbn in Hn, Hv, Hd, Hk. split.
    + apply NoDup_app. split_and!; [done| |by apply NoDup_singleton].
      intros x Hx ->%list_elem_of_singleton. apply Hv in Hx. rewrite Hnone in Hx. by destruct Hx.
    + intros c'. cbn. rewrite elem_of_app list_elem_of_singleton lookup_insert_is_Some' Hv.
      naive_solver.
    + intros c'. cbn. rewrite !lookup_insert_is_Some'. intros [?|?%Hd]; by [left|right].
    + intros c' st' Hst' Hne. assert (c' ≠ c) by congruence.
      rewrite lookup_insert_ne // in Hst'. specialize (Hk c' st' Hst' ltac:(done)).
      rewrite Hcpus booted_last. by rewrite decide_False.
  - intros c'. rewrite Hcpus. case_decide; [set_solver|]. intros ?%Hg. set_solver.
  - intros Hcl. destruct (Hw Hcl). specialize (Hready Hcl).
    assert (∀ c', c' ≠ c → idle_of c' (booted c cp d) = idle_of c' d) as Hid.
    { intros c' ?. unfold idle_of. by rewrite Hcpus decide_False. }
    split; cbn; rewrite ?Hready; try done.
    + intros c' Hne. rewrite Hid; [|congruence]. rewrite lookup_insert_ne; [by apply wo_idle|congruence].
    + intros c' Hne. rewrite Hid; [|congruence]. rewrite lookup_insert_ne; [by apply wo_sig|congruence].
    + intros c' [= <-] Hin. apply wo_sig in Hin; [|done]. destruct Hin. congruence.
    + intros c' _. cbn. lia.
    + intros c'. rewrite lookup_insert_Some. intros [[_ ?]|[_ Hs']]; [done|].
      destruct (wo_boot _ Hs') as [_ ?]. split; [by left|done].
    + rewrite lookup_insert_Some. intros [[_ ?]|[_ Hs']]; [done|by apply wo_main].
  - intros x i Hx. by eapply Hj.
Qed.

End boot.

Lemma construct_cpu_spec c d :
  ∃ cp, construct_cpu c d = Some (tt, with_cpu c cp (grow (infos d) d)) ∧
        last_context cp = None ∧ to_kill cp = None ∧ is_idle cp = false.
Proof. by eexists. Qed.

Lemma register_cpu_spec c cp d :
  last_context cp = None → to_kill cp = None → is_idle cp = false →
  ∃ cp', register_cpu c (with_cpu c cp (grow (infos d) d)) = Some (tt, booted c cp' d) ∧
        last_context cp' = None ∧ to_kill cp' = None ∧ is_idle cp' = false.
Proof.
  intros ???. unfold register_cpu, writes. cbn. rewrite lookup_insert_eq. cbn.
  rewrite insert_insert_eq. by eexists.
Qed.

Lemma swap_last_spec c y d :
  is_Some (cpus d !! c) → last_of c d = None →
  ∃ d', swap_last c (Some y) d = Some (None, d') ∧ quiet d d' ∧
    (∀ q', queue_of q' d' = queue_of q' d) ∧
    (∀ c', last_of c' d' = if decide (c' = c) then Some y else last_of c' d) ∧
    (∀ c', kill_of c' d' = kill_of c' d).
Proof.
  intros [cp Hc] Hl. unfold swap_last. rewrite Hc. cbn.
  assert (last_context cp = None) as -> by (unfold last_of in Hl; by rewrite Hc in Hl).
  eexists. split; [done|]. split_and!.
  - by eapply quiet_with_cpu.
  - intros q'. apply queue_of_with_cpu.
  - intros c'. by rewrite last_of_with_cpu.
  - intros c'. rewrite kill_of_with_cpu. case_decide; subst; [|done]. unfold kill_of. by rewrite Hc.
Qed.

(** ** The constructor of a CPU *)

Section constructor.
Context (clean : bool) (n : nat).

(** The first part, common to all CPUs. *)
Lemma ok_boot_start c (F : nat → unit → prog unit) :
  (∀ v cp, acquired clean c WBoot v → last_context cp = None → to_kill cp = None →
     is_idle cp = false →
     ∃ N, (N + 10 ≤ cs_bound (v_lib v))%nat ∧ ∀ b, (N ≤ b)%nat → ok clean n c
       (CIn b (v_with_gold ({[c]} ∪ v_gold v) (v_with_lib (booted c cp (v_lib v)) v)) WBoot)
       (F c tt)) →
  ok clean n c (COut WBoot false)
    (bind Cpu.guard_lock (λ _, bind (do Self) (λ c, bind (lib_do (construct_cpu c)) (λ _,
       bind (do (MakeContext (Goldfish c) EWatchSuspend)) (λ _,
       bind (lib_do (register_cpu c)) (F c)))))).
Proof.
  intros HK. apply ok_guard_lock; [done|]. intros v Hv.
  destruct (construct_cpu_spec c (v_lib v)) as (cp & Hcon & H1 & H2 & H3).
  destruct (register_cpu_spec c cp (v_lib v) H1 H2 H3) as (cp' & Hreg & H1' & H2' & H3').
  destruct (HK v cp' Hv H1' H2' H3') as (N & ? & HN). exists (N + 10)%nat. split; [done|].
  apply ok_self; [lia|]. eapply ok_lib; [lia|exact Hcon|apply lib_mono_infos; [done|cbn; lia]|].
  apply ok_in; [lia|]. split_and!; [|done..|by apply Hv|].
  { cbn. by rewrite lookup_insert_eq. }
  eapply ok_lib; [lia|exact Hreg|by apply lib_mono_infos|]. apply HN. lia.
Qed.

(** Without a function it runs its goldfish. *)
Lemma ok_boot_idle c : ok clean n c (COut WBoot false) (Boot.cpu_constructor false).
Proof.
  eapply (ok_boot_start c (λ c _, _)). intros v cp Hv H1 H2 H3. exists 60%nat.
  split; [unfold cs_bound; lia|]. intros b Hb.
  destruct Hv as [Hlib Hs]. destruct v as [d g stk sig gold]. cbn in Hs.
  set (cp' := set_idle true cp).
  assert (lib_ok clean (Some c) 1 (View (booted c cp' d) g (<[c := SUc (Goldfish c)]> stk) sig
            ({[c]} ∪ gold))) as Hok by by eapply lib_ok_boot.
  eapply ok_lib with (d := booted c cp' d); [lia| |by apply lib_mono_infos|].
  { unfold write_idle, writes. cbn. rewrite lookup_insert_eq. cbn.
    unfold with_cpu, booted. cbn. by rewrite insert_insert_eq. }
  rewrite -[X in ok _ _ _ _ X]bind_ret_r. apply ok_set; [lia|].
  exists g, sig. split_and!; [apply evolve_refl|apply sig_ext_refl| |done].
  split_and!; [done|lia|by rewrite /= Hs|]. split_and!; cbn.
  - exact Hok.
  - by rewrite lookup_insert_eq.
  - by rewrite lookup_insert_eq.
  - rewrite (booted_last clean c cp' d g stk sig gold Hlib Hs H1).
    unfold last_of. by rewrite (boot_none clean c d g stk sig gold).
  - intros Hcl _. by eapply (boot_clean clean c).
Qed.

(** With one, which only CPU 0 has, it makes the first thread and runs a thread. *)
Lemma ok_boot_run w v c g sig k φ0 (K : unit → prog unit) b :
  (20 ≤ b)%nat → in_cs clean v w c (SUc (Uc k)) 0 g sig → own_ctx w = None → w = WBoot →
  is_Some (cpus (v_lib v) !! c) → last_of c (v_lib v) = None →
  place_of g k = Some (InQ QReady φ0) →
  ok clean n c (CIn b v w)
    (bind (c ← do Self;
           write_idle false c ;;
           to_run ← release_front QReady;
           do (Assert (negb (is_null to_run))) ;;
           x ← pop_front QReady;
           destroy x ;;
           c ← do Self;
           swap_last c to_run ;;
           c ← do Self;
           to ← deref_last c;
           do (SetContext (Uc to)))%thread K).
Proof.
  intros Hb [He Hsig Hown Hlib Hid] Ho -> [cp Hcp] Hlast Hk.
  set (d1 := with_cpu c (set_idle false cp) (v_lib v)).
  pose proof (idle_only_write c false cp _ Hcp) as Hio.
  assert (lib_ok clean (Some c) 0 (View d1 g (<[c := SUc (Uc k)]> (v_stk v)) sig (v_gold v))) as Hok1.
  { eapply lib_ok_idle_only; [exact Hio|exact Hlib|]. intros Hcl. specialize (Hid Hcl).
    pose proof (ok_work _ _ _ _ Hlib Hcl) as []. cbn in *.
    assert (∀ c', idle_of c' d1 = idle_of c' (v_lib v)) as Hi.
    { intros c'. unfold d1. rewrite idle_of_with_cpu. case_decide; by subst. }
    split; try done; intros c'; rewrite Hi; [apply wo_idle|apply wo_sig|apply wo_ready]. }
  destruct (queue_of QReady d1) as [|x r] eqn:Er.
  { destruct (lo_queue _ _ (ok_loc _ _ _ _ Hok1) QReady) as (ks & Heq & _ & Hks).
    change (queue_of QReady d1 = Some <$> ks) in Heq. rewrite Er in Heq.
    destruct ks as [|? ?]; [|done]. by destruct (proj2 (Hks k) ltac:(eauto)) . }
  destruct (ready_head _ _ _ _ _ _ Hok1 Er) as (y & φ & hsy & -> & Hy). cbn in Hy.
  assert (is_Some (cpus d1 !! c)) as Hcp1 by (apply (idle_only_dom _ _ Hio); by eexists).
  assert (last_of c d1 = None) as Hl1 by by rewrite (idle_only_last _ _ Hio).
  destruct (release_pop_spec QReady d1 y r ltac:(by eexists) Er)
    as (d2 & d3 & Hrel & Hm2 & Hpop & Hm3 & Hqt3 & Hq3 & Hl3 & Hk3).
  destruct (swap_last_spec c y d3) as (d4 & Hsw & Hqt4 & Hq4 & Hl4 & Hk4);
    [by apply (fr_dom _ _ (qt_frame _ _ Hqt3))|by rewrite Hl3|].
  assert (quiet d1 d4) as Hqt by by etransitivity.
  norm. apply ok_self; [lia|].
  norm. eapply ok_lib; [lia|by rewrite /write_idle /writes Hcp|by apply lib_mono_infos|].
  norm. eapply ok_lib; [lia|exact Hrel|apply Hm2|]. norm. apply ok_assert; [lia|done|].
  norm. eapply ok_lib; [lia|exact Hpop|apply Hm3|]. cbn [destroy]. norm. apply ok_self; [lia|].
  norm. eapply ok_lib; [lia|exact Hsw|apply Hqt4|]. norm. apply ok_self; [lia|].
  norm. eapply ok_read; [lia|by apply deref_last_spec; rewrite /= Hl4 decide_True|].
  apply ok_set; [lia|].
  exists (<[y := GCtx (Running c φ) hsy]> g), sig. split_and!; [|done| |done].
  - by eapply (evolve_insert _ _ _ y (InQ QReady φ)).
  - split_and!; [lia| |by exists φ, hsy; rewrite /= lookup_insert_eq|].
    + assert (∀ q', queue_of q' d4 = if decide (q' = QReady) then r else queue_of q' d1) as Hq
        by (intros q'; by rewrite Hq4 Hq3).
      assert (∀ c', last_of c' d4 = if decide (c' = c) then Some y else last_of c' d1) as Hl
        by (intros c'; rewrite Hl4; by case_decide).
      assert (∀ c', kill_of c' d4 = kill_of c' d1) as Hkl by (intros c'; by rewrite Hk4).
      pose proof (lib_ok_take clean c 0 _ _ _ d1 d4 g y r φ hsy Hok1 ltac:(lia) Hl1 Hcp1 Er Hy
        Hqt Hq Hl Hkl) as Ht. by rewrite insert_insert_eq in Ht.
    + intros Hcl. cbn. rewrite (fr_idle _ _ (qt_frame _ _ Hqt)). unfold d1.
      rewrite idle_of_with_cpu. by case_decide.
Qed.

Lemma ok_boot_func : ok clean n 0 (COut WBoot false) (Boot.cpu_constructor true).
Proof.
  eapply (ok_boot_start 0 (λ _ _, _)). intros v cp Hv H1 H2 H3.
  exists (3 * length (cpu_vec (v_lib v)) + 150)%nat.
  split; [unfold cs_bound; lia|]. intros b Hb.
  destruct Hv as [Hlib Hs]. destruct v as [d g stk sig gold]. cbn in Hs, Hb.
  set (v1 := v_with_gold _ _). set (k := next_ctx (v_lib v1)).
  assert (lib_ok clean (Some 0%nat) 0 (View (booted 0 cp d) g
            (<[0%nat := SUc (Uc k)]> stk) sig ({[0%nat]} ∪ gold))) as Hok by by eapply lib_ok_boot.
  assert (in_cs clean v1 WBoot 0 (SUc (Uc k)) 0 g sig) as Hcs.
  { split; [apply evolve_refl|apply sig_ext_refl|by eexists|exact Hok|].
    intros _. unfold idle_of. cbn. by rewrite lookup_insert_eq. }
  unfold Thread.thread_locked. norm. apply ok_guard_load; [lia|]. norm.
  apply ok_assert; [lia|done|]. norm. apply ok_assert_ints; [lia|]. rewrite bind_handle.
  eapply (ok_construct _ _ _ _ _ _ _ _ Hcs) with (N := 60%nat).
  - intros Hcl. right. split_and!; try done.
    + exact (wo_main _ _ _ _ _ _ (ok_work _ _ _ _ Hlib Hcl) Hs).
    + exact (boot_clean clean 0%nat d g stk sig gold Hlib Hs Hcl).
  - cbn. by rewrite Hs.
  - done.
  - cbn. rewrite length_app. cbn. lia.
  - intros Hns. by destruct Hns.
  - intros b' v' sig' Hb' [Hw _ Hws _] Hcs'.
    rewrite -[X in ok _ _ _ _ X]bind_ret_r.
    eapply (ok_boot_run WBoot v' 0%nat); [lia|exact Hcs'|done|done| | |].
    + apply (idle_only_dom _ _ Hw). cbn. by rewrite lookup_insert_eq.
    + rewrite (idle_only_last _ _ Hw). change (last_of 0 (booted 0 cp d) = None).
      rewrite (booted_last clean 0%nat cp d g stk sig gold Hlib Hs H1).
      unfold last_of. by rewrite (boot_none clean 0%nat d g stk sig gold).
    + rewrite place_of_insert. by rewrite decide_True.
Qed.

End constructor.

(** ** Before anything has run *)

Definition boot_view (n : nat) : view := View lib_init ∅ (stack <$> hws (boot n)) ∅ ∅.

Lemma boot_hw n c h :
  hws (boot n) !! c = Some h →
  h = mk_hwcpu (Boot.cpu_constructor (bool_decide (c = 0%nat))) SBoot false false.
Proof.
  cbn. intros Hc%elem_of_list_to_map_2. apply list_elem_of_fmap in Hc as (c' & [= -> ->] & _). done.
Qed.

Lemma boot_stack n c st : v_stk (boot_view n) !! c = Some st → st = SBoot.
Proof.
  cbn [boot_view v_stk]. rewrite lookup_fmap. intros (h & Hc & ->)%fmap_Some.
  by rewrite (boot_hw _ _ _ Hc).
Qed.

Lemma boot_lib_ok clean n : lib_ok clean None 0 (boot_view n).
Proof.
  assert (∀ (x : ctx) p, place_of ∅ x ≠ Some p) as Hp.
  { intros x p. unfold place_of. by rewrite lookup_empty. }
  assert (∀ x, ¬ is_Some ((∅ : ghost) !! x)) as Hd by (intros x [? ?]; set_solver).
  split; cbn [boot_view v_lib v_g v_sig v_gold].
  - split.
    + intros q. exists []. split_and!; [by destruct q|constructor|].
      intros k. split; [set_solver|]. intros [φ Hk]. by destruct (Hp k _ Hk).
    + intros c k. split; [done|]. intros [φ Hk]. by destruct (Hp k _ Hk).
    + intros c k. split; [done|]. intros Hk. by destruct (Hp k _ Hk).
    + intros k. split; [by intros [? ?]|]. intros (p & Hk & _). by destruct (Hp k _ Hk).
    + intros k q φ Hk. by destruct (Hp k _ Hk).
  - split; try done; intros k [? ?]; done.
  - intros _ m. split; try done; [by left|..].
    + intros k [Hk|[c Hk]]; by destruct (Hp k _ Hk).
    + intros k k' [Hk|[c Hk]]; by destruct (Hp k _ Hk).
  - split; try done; [constructor| | |].
    + intros c. split; [set_solver|by intros [? ?]].
    + intros c [? ?]. done.
    + intros c st Hst _. by rewrite (boot_stack _ _ _ Hst).
  - intros c [? ?]. done.
  - intros _. split; try done.
    + intros c _. split; [set_solver|]. intros [Hs _]. by apply boot_stack in Hs.
    + intros c Hs. split; [by left|]. intros k k' Hk. by destruct (Hd k).
  - intros k i [Hk|[c Hk]]; by destruct (Hp k _ Hk).
Qed.

Lemma boot_inv clean n m : ∃ B, inv clean m B (boot n).
Proof.
  exists 0%nat, (boot_view n), ∅. pose proof (boot_lib_ok clean n) as Hok.
  split; try done.
  - intros k. split; intros [? ?]; done.
  - intros i (si & Hi & _). done.
  - intros c h Hc _. rewrite (boot_hw _ _ _ Hc). exists WBoot. split; [done|]. cbn.
    intros c' Hr. rewrite (Hr eq_refl). case_bool_decide; [|apply ok_boot_idle].
    subst c. apply ok_boot_func.
Qed.

(** ** Every reachable state *)

Theorem reachable_ok clean n s :
  reachable (allowed clean) n s → ∀ m, ∃ B, inv clean m B s.
Proof.
  apply reachable_inv.
  - intros m x. apply ok_wrapped.
  - intros m c. apply ok_watch_suspend.
  - intros m c w p. apply ok_timer.
  - intros m. apply boot_inv.
Qed.
