(* ===== verification/ThreadCorrect.v ===== *)
(** * What the thread library guarantees

    The consequences of the invariant for whole runs: [n] CPUs boot and any
    schedule of actions, interrupts, failing allocations and calls by client
    threads follows ([run ls (boot n)]). *)

From stdpp Require Import fin_sets.
From S2P Require Import Prelude CStd ThreadTypes ThreadMonad ThreadLib ThreadMachine ThreadInv.
From S2P Require Import ThreadLogic ThreadSound ThreadBoot.

(** ** Definitions of the statements *)

(** The owners a context can have: an element of a queue, and the two pointers of
    a CPU. *)
Inductive holder :=
  | HQueue (q : queue_ref) (i : nat)
  | HLast (c : cpu_id)
  | HKill (c : cpu_id).

Definition holds (d : lib) (h : holder) (k : ctx) : Prop :=
  match h with
  | HQueue q i => queue_of q d !! i = Some (Some k)
  | HLast c => last_of c d = Some k
  | HKill c => kill_of c d = Some k
  end.

(** The history of thread [k]. *)
Definition history (s : machine) (k : ctx) : list event := default [] (logs s !! k).

(** Steps of CPU [c] in a schedule. *)
Definition own_steps (c : cpu_id) (ls : list label) : nat := sum_list (own_step c <$> ls).

(** Run a schedule as long as CPU [c] holds the guard. *)
Fixpoint run_holding (c : cpu_id) (ls : list label) (s : machine) : option machine :=
  if decide (guard s = Some c) then
    match ls with
    | [] => Some s
    | l :: ls => match step l s with
                 | Some (Next s) => run_holding c ls s
                 | _ => None
                 end
    end
  else None.

(** An endless schedule; a label that is not enabled is skipped. *)
Fixpoint exec (σ : nat → label) (s : machine) (i : nat) : machine :=
  match i with
  | O => s
  | S i => match step (σ i) (exec σ s i) with
           | Some (Next s') => s'
           | _ => exec σ s i
           end
  end.

(** No CPU has still to boot. *)
Definition all_booted (s : machine) : bool :=
  bool_decide (map_Forall (λ _ h, stack h ≠ SBoot) (hws s)).

(** A schedule in which threads create threads only when all CPUs have booted. *)
Fixpoint run_settled (ls : list label) (s : machine) : option outcome :=
  match ls with
  | [] => Some (Next s)
  | l :: ls =>
      if match l with LCall _ OCreate => all_booted s | _ => true end then
        o ← step l s;
        match o with
        | Next s => run_settled ls s
        | Fault f => Some (Fault f)
        end
      else None
  end.

(** CPU [c] sleeps: nothing but an inter-processor interrupt wakes it. *)
Definition asleep (s : machine) (c : cpu_id) : bool :=
  match hws s !! c with
  | Some h => bool_decide (stack h = SUc (Goldfish c)) &&
              match code h with
              | Act InterruptEnableSuspend _ => negb (ipi h)
              | _ => false
              end
  | None => false
  end.

(** CPUs on their goldfish that have been told to look for threads. *)
Definition awake_goldfish (s : machine) : gset cpu_id :=
  dom (filter (λ ch, stack (ch.2) = SUc (Goldfish (ch.1)) ∧ idle_of (ch.1) (data s) = false) (hws s)).

(** A concrete schedule and its result. *)
Definition turns_of (k : nat) (c : cpu_id) : list label := replicate k (LRun c).

Definition result (o : option outcome) : machine :=
  match o with Some (Next s) => s | _ => boot 0 end.
Definition is_next (o : option outcome) : bool :=
  match o with Some (Next _) => true | _ => false end.

Lemma is_next_ok o : is_next o = true → o = Some (Next (result o)).
Proof. by destruct o as [[]|]. Qed.

Definition ran (ls : list label) (n : nat) : machine := result (run ls (boot n)).
Definition runs_through (ls : list label) (n : nat) : bool := is_next (run ls (boot n)).

Lemma ran_ok ls n : runs_through ls n = true → run ls (boot n) = Some (Next (ran ls n)).
Proof. apply is_next_ok. Qed.

Lemma ran_and ls n (P : machine → Prop) :
  runs_through ls n = true → P (ran ls n) → ∃ s, run ls (boot n) = Some (Next s) ∧ P s.
Proof. intros H%ran_ok HP. by exists (ran ls n). Qed.

(** ** Runs are reachable *)

Lemma run_reachable n ls s s' :
  reachable (allowed false) n s → run ls s = Some (Next s') → reachable (allowed false) n s'.
Proof.
  revert s. induction ls as [|l ls IH]; intros s Hr; cbn; [by intros [= ->]|].
  intros (o & Hst & Ho)%bind_Some. destruct o as [s1|]; [|done]. apply (IH s1); [|done].
  eapply reach_step; [done| |done]. by destruct l as [| | | |? []|].
Qed.

Lemma boot_reachable n ls s : run ls (boot n) = Some (Next s) → reachable (allowed false) n s.
Proof. apply run_reachable. constructor. Qed.

Lemma run_settled_reachable n ls s s' :
  reachable (allowed true) n s → run_settled ls s = Some (Next s') →
  reachable (allowed true) n s'.
Proof.
  revert s. induction ls as [|l ls IH]; intros s Hr; cbn; [by intros [= ->]|].
  destruct (match l with LCall _ OCreate => all_booted s | _ => true end) eqn:Hl; [|done].
  intros (o & Hst & Ho)%bind_Some. destruct o as [s1|]; [|done]. apply (IH s1); [|done].
  eapply reach_step; [done| |done]. destruct l as [| | | |? []|]; try done.
  intros _ c' h Hc. apply bool_decide_eq_true in Hl. by apply (Hl c' h).
Qed.

(** The state of a run, with its annotations. *)
Lemma run_inv n ls s m : run ls (boot n) = Some (Next s) → ∃ B v L, inv_at false m B s v L.
Proof.
  intros Hr. destruct (reachable_ok false n s (boot_reachable _ _ _ Hr) m) as (B & v & L & I).
  by exists B, v, L.
Qed.

(** A step from a reachable state keeps the invariant. *)
Lemma reachable_step s l o m B :
  step l s = Some o → inv false (S m) B s → good_step false m B l s o.
Proof.
  intros Hst Hinv. eapply step_sound; try done.
  - intros m' x. apply ThreadEntry.ok_wrapped.
  - intros m' c. apply ThreadEntry.ok_watch_suspend.
  - intros m' c w p. apply ThreadEntry.ok_timer.
  - by destruct l as [| | | |? []|].
Qed.

(** ** No fault *)

Lemma run_no_fault n ls f : run ls (boot n) ≠ Some (Fault f).
Proof.
  enough (∀ s, reachable (allowed false) n s → run ls s ≠ Some (Fault f)) as H
    by (apply H; constructor).
  induction ls as [|l ls IH]; intros s' Hr; [done|]. cbn.
  intros (o & Hst & Ho)%bind_Some.
  destruct (reachable_ok false n s' Hr 1) as [B HB].
  destruct (reachable_step s' l o 0 B Hst HB) as (s2 & B' & -> & _).
  apply (IH s2); [|done]. eapply reach_step; [done| |done]. by destruct l as [| | | |? []|].
Qed.

(** ** Ownership of contexts *)

Section consequences.
Context {clean : bool} {m B : nat} {s : machine} {v : view} {L : gmap ctx local}.
Context (I : inv_at clean m B s v L).

Lemma free_lib_ok : guard s = None → lib_ok clean None 0 v.
Proof. intros Hg. pose proof (iv_in _ _ _ _ _ _ I) as H. by rewrite Hg in H. Qed.

(** The place of a context tells its owner. *)
Lemma holds_place h k :
  loc_ok (data s) (v_g v) → holds (data s) h k →
  ∃ p, place_of (v_g v) k = Some p ∧
    match h, p with
    | HQueue q _, InQ q' _ => q = q'
    | HLast c, Running c' _ | HKill c, ToKill c' => c = c'
    | _, _ => False
    end.
Proof.
  intros Hl. destruct h as [q i|c|c]; cbn.
  - intros Hi%list_elem_of_lookup_2. destruct (lo_queue _ _ Hl q) as (ks & Heq & _ & Hks).
    rewrite Heq in Hi. apply list_elem_of_fmap in Hi as (k' & [= <-] & Hin).
    apply Hks in Hin as [φ ?]. by eexists.
  - intros [φ ?]%(lo_last _ _ Hl). by eexists.
  - intros ?%(lo_kill _ _ Hl). by eexists.
Qed.

(** When the guard is free every live context has exactly one owner, and no queue
    holds a null pointer. *)
Lemma contexts_owned :
  guard s = None →
  (∀ q, None ∉ queue_of q (data s)) ∧
  (∀ k, is_Some (contexts (data s) !! k) ↔ ∃ h, holds (data s) h k) ∧
  (∀ h h' k, holds (data s) h k → holds (data s) h' k → h = h').
Proof.
  intros Hg. pose proof (ok_loc _ _ _ _ (free_lib_ok Hg)) as Hl. rewrite (iv_lib _ _ _ _ _ _ I) in Hl.
  split_and!.
  - intros q Hin. destruct (lo_queue _ _ Hl q) as (ks & Heq & _). rewrite Heq in Hin.
    by apply list_elem_of_fmap in Hin as (? & ? & _).
  - intros k. rewrite (lo_live _ _ Hl). split.
    + intros ([q φ|c φ|c| |] & Hp & Hlv); try done.
      * destruct (lo_queue _ _ Hl q) as (ks & Heq & _ & Hks).
        assert (k ∈ ks) as [i Hi]%list_elem_of_lookup_1 by (apply Hks; eauto).
        exists (HQueue q i). cbn. by rewrite Heq list_lookup_fmap Hi.
      * exists (HLast c). apply (lo_last _ _ Hl). eauto.
      * exists (HKill c). by apply (lo_kill _ _ Hl).
    + intros (h & (p & Hp & Hm)%(holds_place _ _ Hl)). exists p. split; [done|]. by destruct h, p.
  - intros h h' k Hh Hh'. pose proof (holds_place _ _ Hl Hh) as (p & Hp & Hm).
    pose proof (holds_place _ _ Hl Hh') as (p' & Hp' & Hm'). assert (p' = p) as -> by congruence.
    destruct h as [q i|c|c], h' as [q' i'|c'|c'], p as [q0 φ|c0 φ|c0| |]; try done; subst; try done.
    f_equal. destruct (lo_queue _ _ Hl q0) as (ks & Heq & Hnd & _). cbn in Hh, Hh'.
    rewrite Heq !list_lookup_fmap in Hh, Hh'.
    destruct (ks !! i) eqn:E; [|done]. destruct (ks !! i') eqn:E'; [|done]. simplify_eq/=.
    by eapply NoDup_lookup.
Qed.

(** ** Mutexes *)

Lemma history_holds k gc :
  v_g v !! k = Some gc → client_holds (history s k) ⊆ g_holds gc.
Proof.
  intros Hk. destruct (proj2 (iv_dom _ _ _ _ _ _ I k) ltac:(eauto)) as [loc Hloc].
  pose proof (iv_logs _ _ _ _ _ _ I _ _ _ Hk Hloc) as Hlo.
  destruct (iv_local _ _ _ _ _ _ I _ _ Hloc) as [Hlog _]. unfold history. by rewrite -Hlog.
Qed.

Lemma history_ghost k mu : mu ∈ client_holds (history s k) → is_Some (v_g v !! k).
Proof.
  intros Hin. destruct (v_g v !! k) as [gc|] eqn:Hk; [done|].
  unfold history in Hin. rewrite (iv_nolog _ _ _ _ _ _ I _ Hk) in Hin. set_solver.
Qed.

Lemma one_holder k k' mu :
  no_wrap (data s) → mu ∈ client_holds (history s k) → mu ∈ client_holds (history s k') →
  k = k'.
Proof.
  intros Hnw Hk Hk'. destruct (history_ghost _ _ Hk) as [gc Hgc].
  destruct (history_ghost _ _ Hk') as [gc' Hgc'].
  apply (iv_unique _ _ _ _ _ _ I Hnw mu k k' gc gc'); [done..| |].
  - by apply (history_holds _ _ Hgc).
  - by apply (history_holds _ _ Hgc').
Qed.

(** A free mutex keeps no thread waiting; one that is not belongs to a thread
    that has it, or is on its way to one that was waiting for it. *)
Lemma mutex_kept mu :
  guard s = None → no_wrap (data s) →
  (free (mutex_of mu (data s)) = true →
     waiting_queue (mutex_of mu (data s)) = [] ∧ owner (mutex_of mu (data s)) = 0) ∧
  (∀ k, mu ∈ client_holds (history s k) →
     free (mutex_of mu (data s)) = false ∧ owner (mutex_of mu (data s)) = id_of k).
Proof.
  intros Hg Hnw. pose proof (ok_mutexes _ _ _ _ (free_lib_ok Hg)) as Hm.
  rewrite (iv_lib _ _ _ _ _ _ I) in Hm. specialize (Hm Hnw mu). split; [apply Hm|].
  intros k Hk. destruct (history_ghost _ _ Hk) as [gc Hgc].
  apply (mo_holds _ _ _ _ Hm _ _ Hgc). by apply (history_holds _ _ Hgc).
Qed.

(** ** Joining *)

Lemma join_history k i :
  EReturn (OJoin i) RDone ∈ history s k → EFinish ∈ history s i.
Proof.
  intros Hin. destruct (v_g v !! k) as [gc|] eqn:Hk.
  2:{ unfold history in Hin. rewrite (iv_nolog _ _ _ _ _ _ I _ Hk) in Hin. set_solver. }
  destruct (proj2 (iv_dom _ _ _ _ _ _ I k) ltac:(eauto)) as [loc Hloc].
  destruct (iv_local _ _ _ _ _ _ I _ _ Hloc) as [Hlog Hok].
  apply (iv_fin _ _ _ _ _ _ I), (lc_fins _ _ _ Hok), (lc_join _ _ _ Hok). by rewrite Hlog.
Qed.

(** ** Stacks *)

Lemma stack_runner c h k :
  hws s !! c = Some h → stack h = SUc (Uc k) →
  ∃ φ hs, v_g v !! k = Some (GCtx (Running c φ) hs).
Proof.
  intros Hc Hst. destruct (decide (guard s = Some c)) as [Hg|Hg].
  - pose proof (iv_in _ _ _ _ _ _ I) as Hin. rewrite Hg in Hin.
    destruct Hin as (h' & b & w & _ & Hc' & (_ & _ & Hw) & _). simplify_eq.
    rewrite Hst in Hw. destruct w; [|done..]. by destruct Hw as ([= ->] & _ & ?).
  - destruct (iv_out _ _ _ _ _ _ I _ _ Hc Hg) as (w & (_ & _ & Hw) & _). rewrite Hst in Hw.
    destruct w; [|by destruct Hw|done]. destruct Hw as ([= ->] & ? & _). eauto.
Qed.

Lemma stack_unique c c' h h' u :
  hws s !! c = Some h → hws s !! c' = Some h' → stack h = SUc u → stack h' = SUc u → c = c'.
Proof.
  intros Hc Hc' Hs Hs'. destruct u as [c0|k].
  - assert (∀ c h, hws s !! c = Some h → stack h = SUc (Goldfish c0) → c = c0) as Hu; [|by
      rewrite (Hu _ _ Hc Hs) (Hu _ _ Hc' Hs')].
    clear c c' h h' Hc Hc' Hs Hs'. intros c h Hc Hs.
    destruct (decide (guard s = Some c)) as [Hg|Hg].
    + pose proof (iv_in _ _ _ _ _ _ I) as Hin. rewrite Hg in Hin.
      destruct Hin as (h' & b & w & _ & Hc' & (_ & _ & Hw) & _). simplify_eq.
      rewrite Hs in Hw. destruct w; [by destruct Hw| |done]. by injection Hw.
    + destruct (iv_out _ _ _ _ _ _ I _ _ Hc Hg) as (w & (_ & _ & Hw) & _). rewrite Hs in Hw.
      destruct w; [by destruct Hw| |done]. by destruct Hw as ([= ->] & _).
  - destruct (stack_runner _ _ _ Hc Hs) as (φ & hs & Hk).
    destruct (stack_runner _ _ _ Hc' Hs') as (φ' & hs' & Hk'). congruence.
Qed.

End consequences.

(** ** Work conservation *)

Lemma asleep_idle m B s v L c :
  inv_at true (S m) B s v L → guard s = None → asleep s c = true → idle_of c (data s) = true.
Proof.
  intros I Hg Ha. unfold asleep in Ha. destruct (hws s !! c) as [h|] eqn:Hc; [|done].
  apply andb_true_iff in Ha as [Hst%bool_decide_eq_true Ha].
  destruct (code h) as [| |R a k| |] eqn:Hcode; [done..| |done|done]. destruct a; try done.
  apply negb_true_iff in Ha as Hipi.
  assert (guard s ≠ Some c) as Hg' by by rewrite Hg.
  pose proof (wo_sig _ _ _ _ _ _ (ok_work _ _ _ _ (free_lib_ok I Hg) eq_refl) c ltac:(done))
    as Hsig.
  rewrite (v_stk_at _ _ _ _ _ _ _ _ I Hc) Hst (iv_lib _ _ _ _ _ _ I) in Hsig.
  destruct (iv_out _ _ _ _ _ _ I _ _ Hc Hg') as (w & (_ & _ & Hw) & Hok).
  rewrite Hst in Hw. rewrite Hcode in Hok. destruct (Hok c ltac:(done)) as [-> _].
  destruct Hw as [_ Hw]. specialize (Hw eq_refl). rewrite Hipi in Hw.
  destruct (idle_of c (data s)); [done|]. exfalso. apply Hw, Hsig. done.
Qed.

Lemma signalled_awake m B s v L :
  inv_at true m B s v L → guard s = None → v_sig v = awake_goldfish s.
Proof.
  intros I Hg. apply set_eq. intros c.
  rewrite (wo_sig _ _ _ _ _ _ (ok_work _ _ _ _ (free_lib_ok I Hg) eq_refl) c) //.
  rewrite (iv_stk _ _ _ _ _ _ I) (iv_lib _ _ _ _ _ _ I) lookup_fmap /awake_goldfish elem_of_dom.
  unfold is_Some. setoid_rewrite map_lookup_filter_Some. cbn [fst snd].
  destruct (hws s !! c) as [h|]; cbn; [split|split].
  - intros [[= ?] ?]. by exists h.
  - by intros (? & [= <-] & -> & ?).
  - by intros [? _].
  - by intros (? & ? & _).
Qed.

Lemma ready_handled m B s v L c :
  inv_at true (S m) B s v L → guard s = None → asleep s c = true →
  (length (ready_queue (data s)) ≤ base.size (awake_goldfish s))%nat.
Proof.
  intros I Hg Hc. pose proof (ok_work _ _ _ _ (free_lib_ok I Hg) eq_refl) as Hw.
  pose proof (wo_ready _ _ _ _ _ _ Hw c) as Hr.
  rewrite (iv_lib _ _ _ _ _ _ I) Nat.add_0_r (signalled_awake _ _ _ _ _ I Hg) in Hr.
  apply Hr. by eapply asleep_idle.
Qed.

(** ** Critical sections *)

(** A CPU that holds the guard can make a step. *)
Lemma holder_runs m B s v L c :
  inv_at false (S m) B s v L → guard s = Some c → is_Some (step (LRun c) s).
Proof.
  intros I Hg. pose proof (iv_in _ _ _ _ _ _ I) as Hin. rewrite Hg in Hin.
  destruct Hin as (h & b & w & _ & Hc & _ & Hok). cbn. unfold step_cpu. rewrite Hc. cbn.
  destruct b as [|b]; [by destruct (code h)|].
  destruct (code h) as [x|e|R a k|a p|p]; try done.
  destruct a; cbn in *; try done; unfold switch_to, go; repeat case_match; done.
Qed.

Lemma inv_more m B B' s : (B ≤ B')%nat → inv false m B s → inv false m B' s.
Proof.
  intros Hle (v & L & I). exists v, L. destruct I. split; try done.
  destruct (guard s); [|done]. destruct iv_in as (h & b & w & ? & ?). exists h, b, w.
  split; [lia|done].
Qed.

Lemma inv_free m B B' s : guard s = None → inv false m B s → inv false m B' s.
Proof.
  intros Hg (v & L & I). exists v, L. destruct I. split; try done. by rewrite Hg in iv_in |- *.
Qed.

(** A bound on the critical section that does not depend on the step index. *)
Lemma run_bound n ls s : run ls (boot n) = Some (Next s) → ∃ B, ∀ m, inv false m B s.
Proof.
  intros Hr%boot_reachable. induction Hr as [|s l s' Hr [B IH] _ Hst].
  - exists 0%nat. intros m. destruct (boot_inv false n m) as [B HB]. by eapply inv_free.
  - exists (B `max` cs_bound (data s))%nat. intros m.
    destruct (reachable_step s l _ m B Hst (IH (S m))) as (? & B' & [= <-] & Hinv & Ht).
    destruct (guard s') as [c|] eqn:Hg'; [|by eapply inv_free].
    apply (inv_more m B'); [|done]. unfold tick in Ht.
    destruct (guard s); [lia|]. rewrite Hg' in Ht. specialize (Ht ltac:(done)). lia.
Qed.

(** A step while the guard is held uses up the bound. *)
Lemma holding_step c l s s' m B :
  guard s = Some c → step l s = Some (Next s') → inv false (S m) B s →
  ∃ B', inv false m B' s' ∧ (B' + own_step c l ≤ B)%nat.
Proof.
  intros Hg Hst Hinv. destruct (reachable_step s l _ m B Hst Hinv) as (? & B' & [= <-] & ? & Ht).
  exists B'. unfold tick in Ht. by rewrite Hg in Ht.
Qed.

Lemma holding_bound c ls s s' m B :
  run_holding c ls s = Some s' → inv false (length ls + m) B s →
  guard s' = Some c ∧ ∃ B', inv false m B' s' ∧ (B' + own_steps c ls ≤ B)%nat.
Proof.
  revert s B. induction ls as [|l ls IH]; intros s B; cbn; destruct (decide (guard s = Some c)) as [Hg|];
    try done.
  - intros [= <-] Hinv. split; [done|]. exists B. unfold own_steps. cbn. split; [done|lia].
  - destruct (step l s) as [[s1|]|] eqn:Hst; [|done..]. intros Hrun Hinv.
    destruct (holding_step c l s s1 _ B Hg Hst Hinv) as (B1 & Hinv1 & Hle).
    destruct (IH s1 B1 Hrun Hinv1) as (Hg' & B' & ? & ?). split; [done|]. exists B'.
    split; [done|]. unfold own_steps in *. cbn. lia.
Qed.

(** The steps of CPU [c] among the first [j] of an endless schedule. *)
Definition turns (c : cpu_id) (σ : nat → label) (j : nat) : nat :=
  length (filter (λ i, σ i = LRun c) (seq 0 j)).

Lemma turns_S c σ j :
  turns c σ (S j) = (turns c σ j + if decide (σ j = LRun c) then 1 else 0)%nat.
Proof.
  unfold turns. rewrite seq_S filter_app length_app filter_cons filter_nil.
  by destruct (decide (σ (0 + j)%nat = LRun c)) as [H|H]; destruct (decide (σ j = LRun c)).
Qed.

Lemma exec_holding c σ s j m B :
  (∀ i, (i < j)%nat → guard (exec σ s i) = Some c) → inv false (j + m) B s →
  ∃ B', inv false m B' (exec σ s j) ∧ (B' + turns c σ j ≤ B)%nat.
Proof.
  revert m. induction j as [|j IH]; intros m Hg Hinv.
  - exists B. split; [done|]. cbn. lia.
  - destruct (IH (S m)) as (B' & Hinv' & Hle); [intros i ?; apply Hg; lia|by rewrite -Nat.add_succ_comm|].
    rewrite turns_S. cbn. specialize (Hg j ltac:(lia)).
    destruct (step (σ j) (exec σ s j)) as [o|] eqn:Hst.
    + destruct (reachable_step _ _ _ m B' Hst Hinv') as (s1 & B1 & -> & Hinv1 & Ht).
      exists B1. split; [done|]. unfold tick in Ht. rewrite Hg in Ht.
      destruct (decide (σ j = LRun c)) as [E|]; [|lia].
      rewrite E /= decide_True // in Ht. lia.
    + exists B'. split; [by apply (inv_le false (S m)); [lia|]|].
      destruct (decide (σ j = LRun c)) as [E|]; [|lia]. rewrite E in Hst.
      destruct Hinv' as (v & L & I). destruct (holder_runs _ _ _ _ _ _ I Hg) as [? ?]. congruence.
Qed.

(** A fair schedule gives CPU [c] as many turns as one likes. *)
Lemma fair_turns c σ N : (∀ i, ∃ j, (i ≤ j)%nat ∧ σ j = LRun c) → ∃ j, (N ≤ turns c σ j)%nat.
Proof.
  intros Hf. induction N as [|N [j IH]]; [exists 0%nat; lia|].
  destruct (Hf j) as (j' & Hle & Hj'). exists (S j'). rewrite turns_S decide_True //.
  assert (turns c σ j ≤ turns c σ j')%nat; [|lia].
  clear -Hle. induction Hle; [done|]. rewrite turns_S. lia.
Qed.

(** ** Theorems *)

(** C22: mutual exclusion.  A thread has a mutex from the return of [lock] or
    [wait] until it calls [unlock] or [wait]; whatever the schedule, the number of
    CPUs and the calls, no two threads have the same mutex, as long as fewer than
    2^32 - 1 contexts have been made ([no_wrap]): then their identifiers repeat, and
    [release_lock] cannot tell the owner from another thread. *)
Theorem mutual_exclusion n ls s k k' m :
  run ls (boot n) = Some (Next s) → no_wrap (data s) → k ≠ k' →
  m ∈ client_holds (history s k) → m ∉ client_holds (history s k').
Proof.
  intros Hr Hnw Hne Hk Hk'. destruct (run_inv _ _ _ 0 Hr) as (B & v & L & I).
  by apply Hne, (one_holder I k k' m).
Qed.

(** C23: no run violates an assertion of the sources, follows a null or dangling
    pointer, touches the shared data without the guard and with interrupts off,
    releases a guard it does not hold, switches to a context that does not exist,
    deletes a stack in use, or returns from the function of a context. *)
Theorem thread_library_safe n ls f : run ls (boot n) ≠ Some (Fault f).
Proof. apply run_no_fault. Qed.

(** C24: whenever the guard is free, every context that exists is owned by exactly
    one element of a queue or pointer of a CPU, nothing owned has been freed, and no
    queue holds a moved-from pointer: no thread is lost, leaked or queued twice. *)
Theorem contexts_have_one_owner n ls s :
  run ls (boot n) = Some (Next s) → guard s = None →
  (∀ q, None ∉ queue_of q (data s)) ∧
  (∀ k, is_Some (contexts (data s) !! k) ↔ ∃ h, holds (data s) h k) ∧
  (∀ h h' k, holds (data s) h k → holds (data s) h' k → h = h').
Proof.
  intros Hr. destruct (run_inv _ _ _ 0 Hr) as (B & v & L & I). apply (contexts_owned I).
Qed.

(** C25: [join] returns only when the function of the thread has returned. *)
Theorem join_waits n ls s k i :
  run ls (boot n) = Some (Next s) → EReturn (OJoin i) RDone ∈ history s k →
  EFinish ∈ history s i.
Proof.
  intros Hr. destruct (run_inv _ _ _ 0 Hr) as (B & v & L & I). apply (join_history I).
Qed.

(** C26: no two CPUs ever run on the same stack. *)
Theorem stacks_not_shared n ls s c c' h h' u :
  run ls (boot n) = Some (Next s) → c ≠ c' → hws s !! c = Some h → hws s !! c' = Some h' →
  stack h = SUc u → stack h' ≠ SUc u.
Proof.
  intros Hr Hne Hc Hc' Hs Hs'. destruct (run_inv _ _ _ 0 Hr) as (B & v & L & I).
  by apply Hne, (stack_unique I c c' h h' u).
Qed.

(** C27: when the guard is free, and fewer than 2^32 - 1 contexts have been made, a
    free mutex has no owner and no thread waits for it, and a thread that has a mutex
    is its owner. *)
Theorem mutex_consistent n ls s m :
  run ls (boot n) = Some (Next s) → guard s = None → no_wrap (data s) →
  (free (mutex_of m (data s)) = true →
     waiting_queue (mutex_of m (data s)) = [] ∧ owner (mutex_of m (data s)) = 0) ∧
  (∀ k, m ∈ client_holds (history s k) →
     free (mutex_of m (data s)) = false ∧ owner (mutex_of m (data s)) = id_of k).
Proof.
  intros Hr. destruct (run_inv _ _ _ 0 Hr) as (B & v & L & I). apply (mutex_kept I).
Qed.

(** C28: a critical section is short and never blocks: from the step that takes the
    guard, the CPU makes at most [cs_bound] steps with it, a bound linear in the
    numbers of CPUs and contexts, and at each point it can make one. *)
Theorem critical_section_bounded n ls0 s0 l s c ls s' :
  run ls0 (boot n) = Some (Next s0) → guard s0 = None →
  step l s0 = Some (Next s) → run_holding c ls s = Some s' →
  (own_steps c ls ≤ cs_bound (data s0))%nat ∧ ∃ o, step (LRun c) s' = Some (Next o).
Proof.
  intros Hr Hg Hst Hrun. destruct (run_inv _ _ _ (S (length ls + 1)) Hr) as (B & v & L & I).
  destruct (reachable_step s0 l _ (length ls + 1) B Hst ltac:(by exists v, L))
    as (? & B1 & [= <-] & Hinv & Ht).
  destruct (holding_bound c ls s s' 1 B1 Hrun Hinv) as (Hg' & B' & Hinv' & Hle).
  unfold tick in Ht. rewrite Hg in Ht. split.
  - destruct (guard s) eqn:E; [specialize (Ht ltac:(done)); lia|].
    destruct ls; cbn in Hrun; by rewrite E in Hrun.
  - destruct Hinv' as (v' & L' & I'). destruct (holder_runs _ _ _ _ _ _ I' Hg') as [o Ho].
    destruct (reachable_step s' (LRun c) o 0 B' Ho ltac:(by exists v', L')) as (s2 & ? & -> & _).
    by exists s2.
Qed.

(** C29: the guard is always given back: under any schedule that runs the CPU again
    and again, a CPU that holds the guard releases it, or hands it to the context it
    switches to, which releases it. *)
Theorem guard_released n ls s c σ :
  run ls (boot n) = Some (Next s) → guard s = Some c →
  (∀ i, ∃ j, (i ≤ j)%nat ∧ σ j = LRun c) →
  ∃ j, guard (exec σ s j) ≠ Some c.
Proof.
  intros Hr Hg Hf. destruct (run_bound _ _ _ Hr) as [B HB].
  destruct (fair_turns c σ (S B) Hf) as [j Hj].
  destruct (decide (Forall (λ i, guard (exec σ s i) = Some c) (seq 0 j))) as [Hall|Hn].
  - rewrite Forall_forall in Hall.
    destruct (exec_holding c σ s j 0 B) as (B' & _ & ?); [|apply HB|lia].
    intros i ?. apply Hall, elem_of_seq. lia.
  - apply not_Forall_Exists in Hn; [|solve_decision].
    apply Exists_exists in Hn as (i & _ & Hi). by exists i.
Qed.

(** C30: work conservation.  When threads are created only after all CPUs have
    booted, no wake-up is lost: while a CPU sleeps and the guard is free, there are
    at least as many CPUs on their way to the ready queue as threads in it. *)
Theorem no_lost_wakeup n ls s c :
  run_settled ls (boot n) = Some (Next s) → guard s = None → asleep s c = true →
  (length (ready_queue (data s)) ≤ base.size (awake_goldfish s))%nat.
Proof.
  intros Hr Hg Hc. destruct (reachable_ok true n s) with (m := 1%nat) as (B & v & L & I).
  { eapply run_settled_reachable; [constructor|done]. }
  by eapply ready_handled.
Qed.

(** C31: without that condition a wake-up can be lost.  A CPU that finds a thread
    as soon as it has booted keeps its [is_idle] flag ([cpu::cpu] sets it and
    [watch_suspend] clears it only on the CPU it wakes); the next thread made ready
    wakes that busy CPU, and another one sleeps on while a thread is ready, the
    guard is free and no CPU is on its way. *)
Theorem wakeup_lost_while_booting :
  ∃ ls s, run ls (boot 3) = Some (Next s) ∧ guard s = None ∧ ready_queue (data s) ≠ [] ∧
          asleep s 2 = true ∧ awake_goldfish s = ∅.
Proof.
  exists (turns_of 34 0 ++ [LCall 0 OCreate] ++ turns_of 19 0 ++ turns_of 30 1 ++
          turns_of 20 2 ++ [LCall 0 OCreate] ++ turns_of 22 0).
  apply ran_and; [by vm_compute|]. split_and!; [by vm_compute|by vm_compute|by vm_compute|].
  by apply (bool_decide_eq_true_1 (_ = ∅)); vm_compute.
Qed.

(** ** Witnesses *)

(** Thread 1 has mutex 7 and thread 2 waits for it. *)
Definition lock_run : list label :=
  turns_of 34 0 ++ [LCall 0 (OLock 7)] ++ turns_of 10 0 ++ [LCall 0 OCreate] ++
  turns_of 19 0 ++ turns_of 30 1 ++ [LCall 1 (OLock 7)] ++ turns_of 28 1.

Lemma mutual_exclusion_witness :
  ∃ s, run lock_run (boot 2) = Some (Next s) ∧ no_wrap (data s) ∧
       (7 : nat) ∈ client_holds (history s 1) ∧ ECall (OLock 7) ∈ history s 2 ∧
       (7 : nat) ∉ client_holds (history s 2).
Proof.
  apply ran_and; [by vm_compute|].
  assert (no_wrap (data (ran lock_run 2))) as Hnw by by vm_compute.
  assert ((7 : nat) ∈ client_holds (history (ran lock_run 2) 1)) as Hin.
  { apply (bool_decide_eq_true_1 _). by vm_compute. }
  split_and!; [exact Hnw|exact Hin|apply (bool_decide_eq_true_1 _); by vm_compute|].
  apply (mutual_exclusion 2 lock_run (ran lock_run 2) 1 2 7); [|exact Hnw|done|exact Hin].
  apply ran_ok. by vm_compute.
Defined.

Lemma contexts_have_one_owner_witness :
  ∃ s, run lock_run (boot 2) = Some (Next s) ∧ holds (data s) (HQueue (QMutex 7) 0) 2 ∧
       holds (data s) (HLast 0) 1 ∧ is_Some (contexts (data s) !! 2%nat) ∧
       ∀ h, holds (data s) h 2 → h = HQueue (QMutex 7) 0.
Proof.
  apply ran_and; [by vm_compute|].
  assert (holds (data (ran lock_run 2)) (HQueue (QMutex 7) 0) 2) as Hh by by vm_compute.
  destruct (contexts_have_one_owner 2 lock_run (ran lock_run 2)) as (_ & Hlive & Huniq);
    [by apply ran_ok; vm_compute|by vm_compute|].
  split_and!; [exact Hh|by vm_compute|by apply Hlive; eexists|]. intros h Hh'. by eapply Huniq.
Defined.

(** Thread 1 has joined thread 3. *)
Definition join_run : list label :=
  turns_of 34 0 ++ turns_of 20 1 ++ [LCall 0 OCreate] ++ turns_of 22 0 ++ turns_of 26 1 ++
  [LCall 0 (OJoin 3)] ++ turns_of 28 0 ++ [LFinish 1] ++ turns_of 30 1.

Lemma join_waits_witness :
  ∃ s, run join_run (boot 2) = Some (Next s) ∧ EReturn (OJoin 3) RDone ∈ history s 1 ∧
       EFinish ∈ history s 3.
Proof.
  apply ran_and; [by vm_compute|].
  assert (EReturn (OJoin 3) RDone ∈ history (ran join_run 2) 1) as Hin.
  { apply (bool_decide_eq_true_1 _). by vm_compute. }
  split; [exact Hin|]. apply (join_waits 2 join_run (ran join_run 2) 1 3); [|exact Hin].
  apply ran_ok. by vm_compute.
Defined.

Lemma stacks_not_shared_witness :
  ∃ s, run lock_run (boot 2) = Some (Next s) ∧
       ∃ h h', hws s !! 0%nat = Some h ∧ hws s !! 1%nat = Some h' ∧
               stack h = SUc (Uc 1) ∧ stack h' ≠ SUc (Uc 1).
Proof.
  apply ran_and; [by vm_compute|].
  assert (is_Some (hws (ran lock_run 2) !! 0%nat)) as [h Hh]
    by (apply (bool_decide_eq_true_1 _); by vm_compute).
  assert (is_Some (hws (ran lock_run 2) !! 1%nat)) as [h' Hh']
    by (apply (bool_decide_eq_true_1 _); by vm_compute).
  assert (stack <$> hws (ran lock_run 2) !! 0%nat = Some (SUc (Uc 1))) as Hs by by vm_compute.
  rewrite Hh in Hs. injection Hs as Hs. exists h, h'. split_and!; [exact Hh|exact Hh'|exact Hs|].
  apply (stacks_not_shared 2 lock_run (ran lock_run 2) 0 1 h h' (Uc 1));
    [by apply ran_ok; vm_compute|done|exact Hh|exact Hh'|exact Hs].
Defined.

Lemma mutex_consistent_witness :
  ∃ s, run lock_run (boot 2) = Some (Next s) ∧ (7 : nat) ∈ client_holds (history s 1) ∧
       owner (mutex_of 7 (data s)) = id_of 1 ∧ waiting_queue (mutex_of 8 (data s)) = [].
Proof.
  apply ran_and; [by vm_compute|].
  assert ((7 : nat) ∈ client_holds (history (ran lock_run 2) 1)) as Hin.
  { apply (bool_decide_eq_true_1 _). by vm_compute. }
  assert (run lock_run (boot 2) = Some (Next (ran lock_run 2))) as Hr by (apply ran_ok; by vm_compute).
  split_and!; [exact Hin| |].
  - by apply (mutex_consistent 2 lock_run (ran lock_run 2) 7 Hr ltac:(by vm_compute) ltac:(by vm_compute)).
  - by apply (mutex_consistent 2 lock_run (ran lock_run 2) 8 Hr ltac:(by vm_compute) ltac:(by vm_compute)).
Defined.

(** CPU 0 takes the guard at the first step of its constructor, and keeps it for
    the 30 steps that make the first thread. *)
Lemma critical_section_bounded_witness :
  ∃ s s', step (LRun 0) (boot 2) = Some (Next s) ∧
          run_holding 0 (turns_of 30 0) s = Some s' ∧ (30 ≤ cs_bound lib_init)%nat ∧
          ∃ o, step (LRun 0) s' = Some (Next o).
Proof.
  set (s := result (step (LRun 0) (boot 2))).
  assert (step (LRun 0) (boot 2) = Some (Next s)) as Hst by (apply is_next_ok; by vm_compute).
  destruct (run_holding 0 (turns_of 30 0) s) as [s'|] eqn:Hrun.
  2:{ assert (bool_decide (is_Some (run_holding 0 (turns_of 30 0) s)) = true) as Hs by by vm_compute.
      by rewrite Hrun in Hs. }
  exists s, s'. split; [exact Hst|]. split; [exact Hrun|].
  destruct (critical_section_bounded 2 [] (boot 2) (LRun 0) s 0 (turns_of 30 0) s')
    as [Hle Ho]; [done|done|exact Hst|exact Hrun|].
  split; [exact Hle|exact Ho].
Defined.

Lemma guard_released_witness :
  ∃ s, run [LRun 0] (boot 2) = Some (Next s) ∧ guard s = Some 0%nat ∧
       ∃ j, guard (exec (λ _, LRun 0) s j) ≠ Some 0%nat.
Proof.
  apply ran_and; [by vm_compute|]. split; [by vm_compute|].
  apply (guard_released 2 [LRun 0] (ran [LRun 0] 2)); [by apply ran_ok; vm_compute|by vm_compute|].
  intros i. by exists i.
Defined.

(** Three CPUs have booted and a thread is made: CPU 1 is on its way to it, CPU 2
    sleeps. *)
Definition create_run : list label :=
  turns_of 34 0 ++ turns_of 20 1 ++ turns_of 20 2 ++ [LCall 0 OCreate] ++ turns_of 22 0.

Lemma no_lost_wakeup_witness :
  ∃ s, run_settled create_run (boot 3) = Some (Next s) ∧ asleep s 2 = true ∧
       length (ready_queue (data s)) = 1%nat ∧
       (length (ready_queue (data s)) ≤ base.size (awake_goldfish s))%nat.
Proof.
  set (s := result (run_settled create_run (boot 3))). exists s.
  assert (run_settled create_run (boot 3) = Some (Next s)) as Hr by (apply is_next_ok; by vm_compute).
  split_and!; [exact Hr|by vm_compute|by vm_compute|].
  by apply (no_lost_wakeup 3 create_run s 2 Hr); vm_compute.
Defined.
