(* ===== verification/PagerTypes.v ===== *)
(** * The data of the pager

    vm_arena.h, Page.h, Page.cpp and the global variables of vm_pager.cpp, as one
    state record [pager], with the memory and the files the pager works on.  A
    [shared_ptr<VirtualPage>] is the number of a page on the heap ([vpages]); a
    page lives as long as [translateVA] or [filename_block_to_vpage] holds it
    ([owned]), which is what [weak_ptr::lock] asks.  Pages of data are functions
    from offsets to bytes.  The files are an interface ([Files]): their code is
    not in the repository. *)

From S2P Require Import Prelude.

(** ** Constants *)

(** vm_arena.h *)
Definition VM_PAGESIZE : Z := 65536.
Definition VM_ARENA_BASEADDR : Z := 0x600000000.
Definition VM_ARENA_SIZE : Z := 0x01000000.

(** Page.h, vm_pager.cpp *)
Definition VM_ARENA_MAXADDR : Z := VM_ARENA_BASEADDR + VM_ARENA_SIZE.
Definition page_table_size : Z := VM_ARENA_SIZE / VM_PAGESIZE.
Definition strong_asserts : bool := true.

(** ** Data *)

Abbreviation pid_t := Z (only parsing).
Abbreviation page := (Z → byte) (only parsing).

(** What [memset] leaves of a page. *)
Definition null_page : page := λ _, NUL.

(** vm_pager.h; [ppage] has 20 bits. *)
Record page_table_entry_t := mk_pte {
  ppage : Z;
  read_enable : bool;
  write_enable : bool }.
Definition zero_pte : page_table_entry_t := mk_pte 0 false false.

(** A page table on the heap, and a pointer to one of its entries. *)
Abbreviation table_id := nat (only parsing).
Abbreviation page_table := (Z → page_table_entry_t) (only parsing).
Abbreviation pte_ptr := (table_id * Z)%type (only parsing).

(** Page.h; an object that [make_unique] or [make_shared] has value-initialised. *)
Record PhysicalPage := mk_PhysicalPage { PPN : Z; clocked : bool; dirty : bool }.
Definition new_PhysicalPage : PhysicalPage := mk_PhysicalPage 0 false false.

Definition set_PPN (n : Z) (p : PhysicalPage) := mk_PhysicalPage n (clocked p) (dirty p).
Definition set_clocked (b : bool) (p : PhysicalPage) := mk_PhysicalPage (PPN p) b (dirty p).
Definition set_dirty (b : bool) (p : PhysicalPage) := mk_PhysicalPage (PPN p) (clocked p) b.

Abbreviation vpage_id := nat (only parsing).

Record VirtualPage := mk_VirtualPage {
  affiliated : list pte_ptr;
  isSwap : bool;
  filename : string;
  blocks : list Z;
  physicalPage : option PhysicalPage;
  resident : bool }.
Definition new_VirtualPage : VirtualPage := mk_VirtualPage [] false "" [] None false.

Definition set_affiliated (l : list pte_ptr) (v : VirtualPage) :=
  mk_VirtualPage l (isSwap v) (filename v) (blocks v) (physicalPage v) (resident v).
Definition set_isSwap (b : bool) (v : VirtualPage) :=
  mk_VirtualPage (affiliated v) b (filename v) (blocks v) (physicalPage v) (resident v).
Definition set_filename (n : string) (v : VirtualPage) :=
  mk_VirtualPage (affiliated v) (isSwap v) n (blocks v) (physicalPage v) (resident v).
Definition set_blocks (l : list Z) (v : VirtualPage) :=
  mk_VirtualPage (affiliated v) (isSwap v) (filename v) l (physicalPage v) (resident v).
Definition set_physicalPage (p : option PhysicalPage) (v : VirtualPage) :=
  mk_VirtualPage (affiliated v) (isSwap v) (filename v) (blocks v) p (resident v).
Definition set_resident (b : bool) (v : VirtualPage) :=
  mk_VirtualPage (affiliated v) (isSwap v) (filename v) (blocks v) (physicalPage v) b.

#[export] Instance PhysicalPage_eq_dec : EqDecision PhysicalPage.
Proof. solve_decision. Defined.

(** ** The files

    [None] for the file name is the swap file; a read that fails gives [None], and
    so does a write. *)
Class Files := {
  store : Type;
  file_read : option string → Z → store → option page;
  file_write : option string → Z → page → store → option store }.

(** What vm_pager.h promises: a block that could be read stays accessible, the
    blocks of the swap file always are, and what is written is read back.  Two
    assumptions are stronger than vm_pager.h.  Only writing changes what is read, so
    a block that cannot be read stays so, where vm_pager.h lets the file become
    accessible later (PagerCorrect.orphan_abort shows what happens then).  And
    different names are different files: two names of one file, such as a and ./a,
    are excluded; the pager compares names and would keep two pages for one block. *)
Class FilesLaws {F : Files} (swap_blocks : Z) : Prop := {
  read_written n b p f f' : file_write n b p f = Some f' → file_read n b f' = Some p;
  read_other n b p f f' n' b' :
    file_write n b p f = Some f' → (n', b') ≠ (n, b) → file_read n' b' f' = file_read n' b' f;
  write_read n b p q f : file_read n b f = Some q → is_Some (file_write n b p f);
  write_swap b p f : 0 ≤ b < swap_blocks → is_Some (file_write None b p f) }.

(** The order in which an [unordered_map] is traversed is not specified. *)
Class Traversal := { traversal : gmap Z vpage_id → list (Z * vpage_id) }.
Class TraversalLaws {O : Traversal} : Prop := {
  traversal_perm m : traversal m ≡ₚ map_to_list m }.

(** ** The state *)

Section state.
Context `{F : Files}.

(** The globals of vm_pager.cpp, the heap, the MMU register, the memory and the
    files. *)
Record pager := mk_pager {
  process_table : gmap pid_t table_id;
  translateVA : gmap pid_t (gmap Z vpage_id);
  next_free_VA : gmap pid_t Z;
  filename_block_to_vpage : gmap string (gmap Z vpage_id);
  max_swap_blocks : Z;
  next_free_swap : list Z;
  next_free_PPN : list Z;
  clock_queue : list vpage_id;
  mem_pages_cap : Z;
  current_pid : pid_t;
  page_table_base_register : option table_id;
  vpages : gmap vpage_id VirtualPage;
  next_vpage : vpage_id;
  tables : gmap table_id page_table;
  next_table : table_id;
  vm_physmem : Z → page;
  files : store }.

Definition with_process_table (x : gmap pid_t table_id) (s : pager) : pager :=
  mk_pager x (translateVA s) (next_free_VA s) (filename_block_to_vpage s) (max_swap_blocks
    s) (next_free_swap s) (next_free_PPN s) (clock_queue s) (mem_pages_cap s)
    (current_pid s) (page_table_base_register s) (vpages s) (next_vpage s) (tables
    s) (next_table s) (vm_physmem s) (files s).
Definition with_translateVA (x : gmap pid_t (gmap Z vpage_id)) (s : pager) : pager :=
  mk_pager (process_table s) x (next_free_VA s) (filename_block_to_vpage s)
    (max_swap_blocks s) (next_free_swap s) (next_free_PPN s) (clock_queue s)
    (mem_pages_cap s) (current_pid s) (page_table_base_register s) (vpages s)
    (next_vpage s) (tables s) (next_table s) (vm_physmem s) (files s).
Definition with_next_free_VA (x : gmap pid_t Z) (s : pager) : pager :=
  mk_pager (process_table s) (translateVA s) x (filename_block_to_vpage s) (max_swap_blocks
    s) (next_free_swap s) (next_free_PPN s) (clock_queue s) (mem_pages_cap s)
    (current_pid s) (page_table_base_register s) (vpages s) (next_vpage s) (tables
    s) (next_table s) (vm_physmem s) (files s).
Definition with_filename_block_to_vpage (x : gmap string (gmap Z vpage_id)) (s : pager) : pager :=
  mk_pager (process_table s) (translateVA s) (next_free_VA s) x (max_swap_blocks s)
    (next_free_swap s) (next_free_PPN s) (clock_queue s) (mem_pages_cap s)
    (current_pid s) (page_table_base_register s) (vpages s) (next_vpage s) (tables
    s) (next_table s) (vm_physmem s) (files s).
Definition with_max_swap_blocks (x : Z) (s : pager) : pager :=
  mk_pager (process_table s) (translateVA s) (next_free_VA s) (filename_block_to_vpage s) x
    (next_free_swap s) (next_free_PPN s) (clock_queue s) (mem_pages_cap s)
    (current_pid s) (page_table_base_register s) (vpages s) (next_vpage s) (tables
    s) (next_table s) (vm_physmem s) (files s).
Definition with_next_free_swap (x : list Z) (s : pager) : pager :=
  mk_pager (process_table s) (translateVA s) (next_free_VA s) (filename_block_to_vpage s)
    (max_swap_blocks s) x (next_free_PPN s) (clock_queue s) (mem_pages_cap s)
    (current_pid s) (page_table_base_register s) (vpages s) (next_vpage s) (tables
    s) (next_table s) (vm_physmem s) (files s).
Definition with_next_free_PPN (x : list Z) (s : pager) : pager :=
  mk_pager (process_table s) (translateVA s) (next_free_VA s) (filename_block_to_vpage s)
    (max_swap_blocks s) (next_free_swap s) x (clock_queue s) (mem_pages_cap s)
    (current_pid s) (page_table_base_register s) (vpages s) (next_vpage s) (tables
    s) (next_table s) (vm_physmem s) (files s).
Definition with_clock_queue (x : list vpage_id) (s : pager) : pager :=
  mk_pager (process_table s) (translateVA s) (next_free_VA s) (filename_block_to_vpage s)
    (max_swap_blocks s) (next_free_swap s) (next_free_PPN s) x (mem_pages_cap s)
    (current_pid s) (page_table_base_register s) (vpages s) (next_vpage s) (tables
    s) (next_table s) (vm_physmem s) (files s).
Definition with_mem_pages_cap (x : Z) (s : pager) : pager :=
  mk_pager (process_table s) (translateVA s) (next_free_VA s) (filename_block_to_vpage s)
    (max_swap_blocks s) (next_free_swap s) (next_free_PPN s) (clock_queue s) x
    (current_pid s) (page_table_base_register s) (vpages s) (next_vpage s) (tables
    s) (next_table s) (vm_physmem s) (files s).
Definition with_current_pid (x : pid_t) (s : pager) : pager :=
  mk_pager (process_table s) (translateVA s) (next_free_VA s) (filename_block_to_vpage s)
    (max_swap_blocks s) (next_free_swap s) (next_free_PPN s) (clock_queue s)
    (mem_pages_cap s) x (page_table_base_register s) (vpages s) (next_vpage s)
    (tables s) (next_table s) (vm_physmem s) (files s).
Definition with_page_table_base_register (x : option table_id) (s : pager) : pager :=
  mk_pager (process_table s) (translateVA s) (next_free_VA s) (filename_block_to_vpage s)
    (max_swap_blocks s) (next_free_swap s) (next_free_PPN s) (clock_queue s)
    (mem_pages_cap s) (current_pid s) x (vpages s) (next_vpage s) (tables s)
    (next_table s) (vm_physmem s) (files s).
Definition with_vpages (x : gmap vpage_id VirtualPage) (s : pager) : pager :=
  mk_pager (process_table s) (translateVA s) (next_free_VA s) (filename_block_to_vpage s)
    (max_swap_blocks s) (next_free_swap s) (next_free_PPN s) (clock_queue s)
    (mem_pages_cap s) (current_pid s) (page_table_base_register s) x (next_vpage s)
    (tables s) (next_table s) (vm_physmem s) (files s).
Definition with_next_vpage (x : vpage_id) (s : pager) : pager :=
  mk_pager (process_table s) (translateVA s) (next_free_VA s) (filename_block_to_vpage s)
    (max_swap_blocks s) (next_free_swap s) (next_free_PPN s) (clock_queue s)
    (mem_pages_cap s) (current_pid s) (page_table_base_register s) (vpages s) x
    (tables s) (next_table s) (vm_physmem s) (files s).
Definition with_tables (x : gmap table_id page_table) (s : pager) : pager :=
  mk_pager (process_table s) (translateVA s) (next_free_VA s) (filename_block_to_vpage s)
    (max_swap_blocks s) (next_free_swap s) (next_free_PPN s) (clock_queue s)
    (mem_pages_cap s) (current_pid s) (page_table_base_register s) (vpages s)
    (next_vpage s) x (next_table s) (vm_physmem s) (files s).
Definition with_next_table (x : table_id) (s : pager) : pager :=
  mk_pager (process_table s) (translateVA s) (next_free_VA s) (filename_block_to_vpage s)
    (max_swap_blocks s) (next_free_swap s) (next_free_PPN s) (clock_queue s)
    (mem_pages_cap s) (current_pid s) (page_table_base_register s) (vpages s)
    (next_vpage s) (tables s) x (vm_physmem s) (files s).
Definition with_vm_physmem (x : Z → page) (s : pager) : pager :=
  mk_pager (process_table s) (translateVA s) (next_free_VA s) (filename_block_to_vpage s)
    (max_swap_blocks s) (next_free_swap s) (next_free_PPN s) (clock_queue s)
    (mem_pages_cap s) (current_pid s) (page_table_base_register s) (vpages s)
    (next_vpage s) (tables s) (next_table s) x (files s).
Definition with_files (x : store) (s : pager) : pager :=
  mk_pager (process_table s) (translateVA s) (next_free_VA s) (filename_block_to_vpage s)
    (max_swap_blocks s) (next_free_swap s) (next_free_PPN s) (clock_queue s)
    (mem_pages_cap s) (current_pid s) (page_table_base_register s) (vpages s)
    (next_vpage s) (tables s) (next_table s) (vm_physmem s) x.

(** Before [vm_init]. *)
Definition pager_start (f : store) : pager :=
  mk_pager ∅ ∅ ∅ ∅ 0 [] [] [] 0 0 None ∅ 0 ∅ 0 (λ _, null_page) f.

(** [translateVA[pid][va]] and [filename_block_to_vpage[n][b]], when present. *)
Definition page_at (T : gmap pid_t (gmap Z vpage_id)) (pid va : Z) : option vpage_id :=
  T !! pid ≫= (.!! va).
Definition cached_at (C : gmap string (gmap Z vpage_id)) (n : string) (b : Z) : option vpage_id :=
  C !! n ≫= (.!! b).

(** Some [shared_ptr] of the two maps points to page [v]. *)
Definition owned (v : vpage_id) (s : pager) : bool :=
  bool_decide (map_Exists (λ _ m, map_Exists (λ _ v', v' = v) m) (translateVA s)) ||
  bool_decide (map_Exists (λ _ m, map_Exists (λ _ v', v' = v) m) (filename_block_to_vpage s)).

(** ** The monad

    Every function of the pager returns or ends the process. *)
Inductive crash := AssertionFailed | UndefinedBehaviour | OutOfFuel.

Inductive result (A : Type) := Done (a : A) (s : pager) | Crash (c : crash).

Definition M (A : Type) : Type := pager → result A.

End state.
Arguments Done {F A}.
Arguments Crash {F A}.

Section monad.
Context `{F : Files}.

#[export] Instance M_ret : MRet M := λ A a s, Done a s.
#[export] Instance M_bind : MBind M := λ A B k m s,
  match m s with Done a s' => k a s' | Crash c => Crash c end.

Definition crash_with {A} (c : crash) : M A := λ _, Crash c.
Definition gets {A} (f : pager → A) : M A := λ s, Done (f s) s.
Definition modify (f : pager → pager) : M unit := λ s, Done tt (f s).
Definition assert (b : bool) : M unit := if b then mret tt else crash_with AssertionFailed.
Definition when (b : bool) (m : M unit) : M unit := if b then m else mret tt.

(** Follow a pointer, an iterator, or take the element of a container: undefined
    when there is none. *)
Definition deref {A} (x : option A) : M A :=
  match x with Some a => mret a | None => crash_with UndefinedBehaviour end.

Fixpoint for_each {A} (l : list A) (f : A → M unit) : M unit :=
  match l with
  | [] => mret tt
  | x :: l => f x ;; for_each l f
  end.

(** ** Objects on the heap *)

Definition get_vpage (v : vpage_id) : M VirtualPage := λ s, deref (vpages s !! v) s.
Definition modify_vpage (v : vpage_id) (f : VirtualPage → VirtualPage) : M unit :=
  vp ← get_vpage v;
  modify (λ s, with_vpages (<[v := f vp]> (vpages s)) s).
Definition get_phys (v : vpage_id) : M PhysicalPage :=
  vp ← get_vpage v;
  deref (physicalPage vp).
Definition modify_phys (v : vpage_id) (f : PhysicalPage → PhysicalPage) : M unit :=
  pp ← get_phys v;
  modify_vpage v (set_physicalPage (Some (f pp))).

(** [std::make_shared<VirtualPage>()] *)
Definition make_vpage : M vpage_id :=
  v ← gets next_vpage;
  modify (λ s, with_next_vpage (S v) (with_vpages (<[v := new_VirtualPage]> (vpages s)) s)) ;;
  mret v.

(** [std::make_unique<array<page_table_entry_t, page_table_size>>()] *)
Definition make_table : M table_id :=
  t ← gets next_table;
  modify (λ s, with_next_table (S t) (with_tables (<[t := λ _, zero_pte]> (tables s)) s)) ;;
  mret t.

(** An entry of a page table that exists. *)
Definition pte_at (p : pte_ptr) (s : pager) : option page_table_entry_t :=
  f ← tables s !! p.1;
  if (0 <=? p.2) && (p.2 <? page_table_size) then Some (f p.2) else None.
Definition get_pte (p : pte_ptr) : M page_table_entry_t := λ s, deref (pte_at p s) s.
Definition set_entry (i : Z) (e : page_table_entry_t) (f : page_table) : page_table :=
  λ j, if decide (j = i) then e else f j.
Definition modify_pte (p : pte_ptr) (f : page_table_entry_t → page_table_entry_t) : M unit :=
  e ← get_pte p;
  modify (λ s, with_tables (alter (set_entry p.2 (f e)) p.1 (tables s)) s).

(** [weak_ptr::lock] *)
Definition lock (v : vpage_id) : M (option vpage_id) :=
  gets (λ s, if owned v s then Some v else None).

(** ** Physical memory *)

(** A page of physical memory that exists. *)
Definition check_ppn (n : Z) : M unit := λ s,
  if (0 <=? n) && (n <? mem_pages_cap s) then Done tt s else Crash UndefinedBehaviour.
Definition set_page (n : Z) (p : page) (mem : Z → page) : Z → page :=
  λ m, if decide (m = n) then p else mem m.
Definition write_page (n : Z) (p : page) : M unit :=
  check_ppn n ;; modify (λ s, with_vm_physmem (set_page n p (vm_physmem s)) s).
Definition read_page (n : Z) : M page :=
  check_ppn n ;; gets (λ s, vm_physmem s n).
(** The byte at an address of [vm_physmem]. *)
Definition read_byte (a : Z) : M byte :=
  p ← read_page (a / VM_PAGESIZE);
  mret (p (a `mod` VM_PAGESIZE)).

(** ** File accesses of the pager *)

Definition pager_file_read (n : option string) (b : Z) (ppn : Z) : M Z :=
  f ← gets files;
  match file_read n b f with
  | Some p => write_page ppn p ;; mret 0
  | None => mret (-1)
  end.
Definition pager_file_write (n : option string) (b : Z) (ppn : Z) : M Z :=
  p ← read_page ppn;
  f ← gets files;
  match file_write n b p f with
  | Some f => modify (with_files f) ;; mret 0
  | None => mret (-1)
  end.

End monad.
