(* ===== verification/Pager.v ===== *)
(** * The code of the pager

    Page.cpp and vm_pager.cpp, function by function and statement by statement.
    Assertions that the sources have commented out are left out.  A loop that ends
    by [break] takes fuel; PagerEvict and PagerName show that it is enough. *)

From S2P Require Import Prelude PagerTypes.

Section pager.
Context `{F : Files} `{Tr : Traversal}.

(** ** Page.cpp *)

(** The bits [r] and [w] of the entries of a page. *)
Definition enable_bits (vp : VirtualPage) : M (bool * bool) :=
  if negb (resident vp) then mret (false, false)
  else
    pp ← deref (physicalPage vp);
    if negb (clocked pp) then mret (false, false)
    else if negb (isSwap vp) then
      if dirty pp then mret (true, true) else mret (true, false)
    else
      assert (length (affiliated vp) =? length (blocks vp))%nat ;;
      if (length (affiliated vp) =? 1)%nat then
        if dirty pp then mret (true, true) else mret (true, false)
      else mret (true, false).

(** The body of the loop of [updatePTEs]. *)
Definition update_entry (vp : VirtualPage) (r w : bool) (PTE : pte_ptr) : M unit :=
  modify_pte PTE (λ e, mk_pte (ppage e) r (write_enable e)) ;;
  modify_pte PTE (λ e, mk_pte (ppage e) (read_enable e) w) ;;
  match physicalPage vp with
  | Some pp => modify_pte PTE (λ e, mk_pte (PPN pp `mod` 2 ^ 20) (read_enable e) (write_enable e))
  | None => mret tt
  end.

Definition updatePTEs (v : vpage_id) : M unit :=
  vp ← get_vpage v;
  assert (0 <? length (affiliated vp))%nat ;;
  '(r, w) ← enable_bits vp;
  for_each (affiliated vp) (update_entry vp r w).

(** ** vm_pager.cpp: helpers *)

Definition VA_to_PTE (va : Z) (ptbr : table_id) : pte_ptr :=
  (ptbr, (va - VM_ARENA_BASEADDR) / VM_PAGESIZE).

(** [translateVA[pid]] of [operator[]], which makes a missing entry. *)
Definition at_translateVA (pid : pid_t) : M (gmap Z vpage_id) :=
  T ← gets translateVA;
  match T !! pid with
  | Some m => mret m
  | None => modify (with_translateVA (<[pid := ∅]> T)) ;; mret ∅
  end.

(** [translateVA[pid][va] = v] *)
Definition set_translateVA (pid : pid_t) (va : Z) (v : vpage_id) : M unit :=
  m ← at_translateVA pid;
  modify (λ s, with_translateVA (<[pid := <[va := v]> m]> (translateVA s)) s).

(** [next_free_VA[pid]] *)
Definition at_next_free_VA (pid : pid_t) : M Z :=
  N ← gets next_free_VA;
  match N !! pid with
  | Some a => mret a
  | None => modify (with_next_free_VA (<[pid := 0]> N)) ;; mret 0
  end.

(** [process_table[pid]->data()]: a missing entry would be a null pointer. *)
Definition process_data (pid : pid_t) : M table_id :=
  P ← gets process_table;
  deref (P !! pid).

Definition get_ptbr : M table_id :=
  p ← gets page_table_base_register;
  deref p.

Definition pop_front_swap : M Z :=
  l ← gets next_free_swap;
  match l with
  | b :: l => modify (with_next_free_swap l) ;; mret b
  | [] => crash_with UndefinedBehaviour
  end.
Definition pop_front_clock : M unit :=
  l ← gets clock_queue;
  match l with
  | _ :: l => modify (with_clock_queue l)
  | [] => crash_with UndefinedBehaviour
  end.
Definition push_back_clock (v : vpage_id) : M unit :=
  modify (λ s, with_clock_queue (clock_queue s ++ [v]) s).

(** [clock_queue.front().lock()], which is dereferenced. *)
Definition lock_front : M vpage_id :=
  l ← gets clock_queue;
  w ← deref (head l);
  o ← lock w;
  deref o.

Definition remove_from_filename_block (v : vpage_id) : M unit :=
  vp ← get_vpage v;
  b ← deref (head (blocks vp));
  modify (λ s,
    let C := filename_block_to_vpage s in
    with_filename_block_to_vpage
      (<[filename vp := delete b (default ∅ (C !! filename vp))]> C) s) ;;
  C ← gets filename_block_to_vpage;
  if bool_decide (C !! filename vp = Some ∅)
  then modify (with_filename_block_to_vpage (delete (filename vp) C))
  else mret tt.

(** The file of a page, as [file_read] and [file_write] take it. *)
Definition file_of (vp : VirtualPage) : option string :=
  if isSwap vp then None else Some (filename vp).

(** ** [evict_and_replace] *)

(** The loop that looks for a page that has not been used. *)
Fixpoint find_victim (fuel : nat) : M unit :=
  match fuel with
  | O => crash_with OutOfFuel
  | S fuel =>
      front ← lock_front;
      pp ← get_phys front;
      if clocked pp then
        modify_phys front (set_clocked false) ;;
        vp ← get_vpage front;
        when (bool_decide (affiliated vp ≠ [])) (updatePTEs front) ;;
        pop_front_clock ;;
        push_back_clock front ;;
        find_victim fuel
      else mret tt
  end.

(** Its parts: a dirty victim is written, ... *)
Definition write_back (to_evict : vpage_id) : M unit :=
  pp ← get_phys to_evict;
  when (dirty pp)
    (vp ← get_vpage to_evict;
     b ← deref (head (blocks vp));
     _ ← pager_file_write (file_of vp) b (PPN pp);
     mret tt).

(** ... the replacement takes its physical page ... *)
Definition take_page (to_evict replacement : vpage_id) : M unit :=
  modify_vpage replacement (set_physicalPage (Some new_PhysicalPage)) ;;
  pp ← get_phys to_evict;
  modify_phys replacement (set_PPN (PPN pp)) ;;
  modify_phys replacement (set_clocked true) ;;
  modify_phys replacement (set_dirty false) ;;
  updatePTEs replacement.

(** ... and the victim loses it. *)
Definition lose_page (to_evict : vpage_id) : M unit :=
  modify_vpage to_evict (set_resident false) ;;
  modify_vpage to_evict (set_physicalPage None) ;;
  vp ← get_vpage to_evict;
  when (bool_decide (affiliated vp ≠ [])) (updatePTEs to_evict) ;;
  when (negb (isSwap vp) && (length (affiliated vp) =? 0)%nat)
    (remove_from_filename_block to_evict).

Definition evict_and_replace (replacement : vpage_id) : M unit :=
  n ← gets (λ s, length (clock_queue s));
  find_victim (S n) ;;
  to_evict ← lock_front;
  pop_front_clock ;;
  write_back to_evict ;;
  take_page to_evict replacement ;;
  push_back_clock replacement ;;
  lose_page to_evict.

Definition give_new_ppn (v : vpage_id) : M unit :=
  modify_vpage v (set_physicalPage (Some new_PhysicalPage)) ;;
  free ← gets next_free_PPN;
  match free with
  | ppn :: rest =>
      modify_phys v (set_PPN ppn) ;;
      modify (with_next_free_PPN rest) ;;
      modify_phys v (set_clocked true) ;;
      push_back_clock v
  | [] => evict_and_replace v
  end ;;
  modify_vpage v (set_resident true).

(** Position of the first element of the clock that still points to page [v]. *)
Definition find_clock (v : vpage_id) (s : pager) : option nat :=
  fst <$> list_find (λ w, w = v ∧ owned w s = true) (clock_queue s).

Definition return_ppn_remove_from_clock (v : vpage_id) : M unit :=
  pp ← get_phys v;
  modify (λ s, with_next_free_PPN (next_free_PPN s ++ [PPN pp]) s) ;;
  our_clocker ← gets (find_clock v);
  i ← deref our_clocker;
  modify (λ s, with_clock_queue (delete i (clock_queue s)) s) ;;
  modify_vpage v (set_resident false) ;;
  modify_vpage v (set_physicalPage None) ;;
  updatePTEs v.

(** ** [assert_structure_consistency] *)

(** The checks of the page at one address of one process. *)
Definition check_vpage (pid : pid_t) (va : Z) (v : vpage_id) : M unit :=
  vp ← get_vpage v;
  assert (bool_decide (blocks vp ≠ [])) ;;
  N ← gets next_free_VA;
  assert (bool_decide (is_Some (N !! pid))) ;;
  n ← at_next_free_VA pid;
  assert (va <? n) ;;
  (if isSwap vp then
     free ← gets next_free_swap;
     for_each (blocks vp) (λ swap_alloc, assert (bool_decide (swap_alloc ∉ free))) ;;
     assert (length (blocks vp) =? length (affiliated vp))%nat ;;
     when (1 <? length (affiliated vp))%nat
       (for_each (affiliated vp) (λ aff, e ← get_pte aff; assert (negb (write_enable e))))
   else assert (length (blocks vp) =? 1)%nat) ;;
  (if resident vp then assert (bool_decide (physicalPage vp ≠ None))
   else assert (bool_decide (physicalPage vp = None))) ;;
  (* the entry a page in the same state would have: updatePTEs of a copy *)
  when (resident vp)
    (pp ← deref (physicalPage vp);
     free ← gets next_free_PPN;
     assert (bool_decide (PPN pp ∉ free))) ;;
  assert (0 <? length (affiliated vp))%nat ;;
  '(r, w) ← enable_bits vp;
  t ← process_data pid;
  assert (bool_decide (VA_to_PTE va t ∈ affiliated vp)) ;;
  for_each (affiliated vp) (λ aff,
    e ← get_pte aff;
    assert (bool_decide (read_enable e = r)) ;;
    assert (bool_decide (write_enable e = w)) ;;
    when (resident vp)
      (pp ← deref (physicalPage vp);
       assert (ppage e =? PPN pp `mod` 2 ^ 20))) ;;
  when (resident vp)
    (pp ← deref (physicalPage vp);
     when (negb (PPN pp =? 0))
       (found ← gets (find_clock v);
        assert (bool_decide (is_Some found)))).

(** All addresses of all processes, with the page at each. *)
Definition mappings (T : gmap pid_t (gmap Z vpage_id)) : list (pid_t * Z * vpage_id) :=
  '(pid, m) ← map_to_list T;
  '(va, v) ← map_to_list m;
  [(pid, va, v)].

(** [num_mapped_to] *)
Definition num_mapped_to (v : vpage_id) (T : gmap pid_t (gmap Z vpage_id)) : nat :=
  length (filter (λ x, x.2 = v) (mappings T)).

Definition assert_structure_consistency : M unit :=
  T ← gets translateVA;
  for_each (mappings T) (λ '(pid, va, v), check_vpage pid va v) ;;
  for_each (mappings T) (λ '(pid, va, v),
    vp ← get_vpage v;
    assert (length (affiliated vp) =? num_mapped_to v T)%nat) ;;
  clock ← gets clock_queue;
  cap ← gets mem_pages_cap;
  free ← gets next_free_PPN;
  assert (Z.of_nat (length clock) =? (cap - Z.of_nat (length free) - 1) `mod` 2 ^ 64) ;;
  for_each clock (λ in_mem,
    grabbed ← lock in_mem;
    assert (bool_decide (is_Some grabbed)) ;;
    v ← deref grabbed;
    vp ← get_vpage v;
    assert (resident vp) ;;
    pp ← get_phys v;
    assert (negb (PPN pp =? 0))).

Definition final_check : M unit := when strong_asserts assert_structure_consistency.

(** ** Swap-backed pages and faults *)

Definition make_swap_to_nullpage (virtual_addr : Z) (pid : pid_t) : M (option vpage_id) :=
  free ← gets next_free_swap;
  if bool_decide (free = []) then final_check ;; mret None
  else
    vp ← make_vpage;
    set_translateVA pid virtual_addr vp ;;
    b ← pop_front_swap;
    modify_vpage vp (λ v, set_blocks (blocks v ++ [b]) v) ;;
    modify_vpage vp (set_resident true) ;;
    modify_vpage vp (set_physicalPage (Some new_PhysicalPage)) ;;
    modify_phys vp (set_PPN 0) ;;
    modify_phys vp (set_dirty false) ;;
    modify_phys vp (set_clocked true) ;;
    modify_vpage vp (set_isSwap true) ;;
    t ← process_data pid;
    modify_vpage vp (λ v, set_affiliated (affiliated v ++ [VA_to_PTE virtual_addr t]) v) ;;
    updatePTEs vp ;;
    mret (Some vp).

(** [std::find] and [erase] of a pointer that must be there. *)
Definition erase_affiliated (v : vpage_id) (p : pte_ptr) : M unit :=
  vp ← get_vpage v;
  i ← deref (fst <$> list_find (p =.) (affiliated vp));
  modify_vpage v (set_affiliated (delete i (affiliated vp))).

(** The entry of page [v] that the sources look at. *)
Definition front_readable (v : vpage_id) : M bool :=
  vp ← get_vpage v;
  p ← deref (head (affiliated vp));
  e ← get_pte p;
  mret (read_enable e).

(** The page of an address, as an address. *)
Definition page_start (addr : Z) : Z := addr - addr `mod` VM_PAGESIZE.

(** The current process gets a copy of the page it shares at [va_block_addr]. *)
Definition split_page (va_block_addr : Z) (fault_page : vpage_id) : M Z :=
  new_vpage ← make_vpage;
  ptbr ← get_ptbr;
  modify_vpage new_vpage
    (λ v, set_affiliated (affiliated v ++ [VA_to_PTE va_block_addr ptbr]) v) ;;
  pid ← gets current_pid;
  set_translateVA pid va_block_addr new_vpage ;;
  erase_affiliated fault_page (VA_to_PTE va_block_addr ptbr) ;;
  fp ← get_vpage fault_page;
  b ← deref (last (blocks fp));
  modify_vpage new_vpage (λ v, set_blocks (blocks v ++ [b]) v) ;;
  modify_vpage fault_page (λ v, set_blocks (removelast (blocks v)) v) ;;
  modify_vpage new_vpage (set_isSwap true) ;;
  give_new_ppn new_vpage ;;
  fp ← get_vpage fault_page;
  when (resident fp)
    (to ← get_phys new_vpage;
     from ← get_phys fault_page;
     p ← read_page (PPN from);
     write_page (PPN to) p) ;;
  modify_phys new_vpage (set_dirty true) ;;
  modify_phys new_vpage (set_clocked true) ;;
  updatePTEs fault_page ;;
  updatePTEs new_vpage ;;
  final_check ;;
  mret 0.

(** The copy-on-write part of [vm_fault]; [again] is [vm_fault(addr, false)]. *)
Definition copy_on_write (again : M Z) (va_block_addr : Z) (fault_page : vpage_id) : M Z :=
  readable ← front_readable fault_page;
  res ← (if negb readable then again else mret 0);
  if res =? -1 then mret (-1) else split_page va_block_addr fault_page.

(** Bring a page in: [true] if it is in memory now. *)
Definition bring_in (fault_page : vpage_id) : M bool :=
  fp ← get_vpage fault_page;
  absent ← (if negb (resident fp) then mret true
            else pp ← deref (physicalPage fp); mret (PPN pp =? 0));
  if absent : bool then
    modify_vpage fault_page (set_physicalPage (Some new_PhysicalPage)) ;;
    fp ← get_vpage fault_page;
    let isNullPage := resident fp in
    give_new_ppn fault_page ;;
    pp ← get_phys fault_page;
    ok ← (if isNullPage then write_page (PPN pp) null_page ;; mret true
          else
            fp ← get_vpage fault_page;
            b ← deref (head (blocks fp));
            res ← pager_file_read (file_of fp) b (PPN pp);
            if res =? -1 then
              when (length (affiliated fp) =? 1)%nat (remove_from_filename_block fault_page) ;;
              return_ppn_remove_from_clock fault_page ;;
              mret false
            else mret true);
    if ok : bool then modify_vpage fault_page (set_resident true) ;; mret true
    else mret false
  else mret true.

(** The rest of [vm_fault]. *)
Definition finish_fault (fault_page : vpage_id) (write_flag : bool) : M Z :=
  pp ← get_phys fault_page;
  (if negb (dirty pp) then modify_phys fault_page (set_dirty write_flag)
   else when write_flag
     (fp ← get_vpage fault_page;
      assert ((1 <? length (blocks fp))%nat || negb (clocked pp)))) ;;
  modify_phys fault_page (set_clocked true) ;;
  updatePTEs fault_page ;;
  final_check ;;
  mret 0.

(** [vm_fault]; its only recursive call has [write_flag] false and makes no
    other. *)
Definition vm_fault_with (again : M Z) (addr : Z) (write_flag : bool) : M Z :=
  let va_block_addr := page_start addr in
  pid ← gets current_pid;
  m ← at_translateVA pid;
  match m !! va_block_addr with
  | None => final_check ;; mret (-1)
  | Some fault_page =>
      fp ← get_vpage fault_page;
      if write_flag && (1 <? length (blocks fp))%nat
      then copy_on_write again va_block_addr fault_page
      else
        ok ← bring_in fault_page;
        if ok : bool then finish_fault fault_page write_flag
        else final_check ;; mret (-1)
  end.

Definition vm_fault_read (addr : Z) : M Z := vm_fault_with (crash_with OutOfFuel) addr false.
Definition vm_fault (addr : Z) (write_flag : bool) : M Z :=
  vm_fault_with (vm_fault_read addr) addr write_flag.

(** ** File names in the arena *)

(** Make the page at [va] of the current process readable: [false] if it cannot
    be. *)
Definition readable_page (va va_block : Z) : M bool :=
  pid ← gets current_pid;
  m ← at_translateVA pid;
  match m !! va_block with
  | None => mret false
  | Some v =>
      readable ← front_readable v;
      if negb readable then
        res ← vm_fault va false;
        mret (negb (res =? -1))
      else mret true
  end.

(** Where the byte at [va] is in physical memory. *)
Definition phys_addr (va va_block : Z) : M Z :=
  pid ← gets current_pid;
  m ← at_translateVA pid;
  v ← deref (m !! va_block);
  pp ← get_phys v;
  mret (PPN pp * VM_PAGESIZE + va `mod` VM_PAGESIZE).

(** The loop: [va_block] is the block of the first page, which the block computed
    in the body hides.  An iteration ends the loop with the name, or goes on with
    the next addresses. *)
Definition filename_step (va_block : Z) (st : Z * Z * string)
    : M (Z * Z * string + option string) :=
  let '(start, va, running) := st in
  c ← read_byte start;
  if bool_decide (c = NUL) then mret (inr (Some running))
  else
    let running := running +:+ String c "" in
    let start := start + 1 in
    let va := va + 1 in
    if va_block + VM_PAGESIZE <=? va then
      let va_block := page_start va in
      ok ← readable_page va va_block;
      if negb ok then mret (inr None)
      else
        start ← phys_addr va va_block;
        mret (inl (start, va, running))
    else mret (inl (start, va, running)).

(** At most [p] iterations. *)
Fixpoint iterate {A B} (p : positive) (f : A → M (A + B)) (a : A) : M (A + B) :=
  let next r k := match r with inl a => k a | inr b => mret (inr b) end in
  match p with
  | xH => f a
  | xO p => r ← iterate p f a; next r (iterate p f)
  | xI p => r ← f a; next r (λ a, r ← iterate p f a; next r (iterate p f))
  end.

(** The fuel: more characters than the arena has. *)
Definition filename_fuel : positive := Z.to_pos (VM_ARENA_SIZE + 1).

Definition translate_from_other_addr_space (their_filename : Z) : M (option string) :=
  let va_filename := their_filename in
  let va_filename_block := page_start va_filename in
  ok ← readable_page va_filename va_filename_block;
  if negb ok then mret None
  else
    start ← phys_addr va_filename va_filename_block;
    r ← iterate filename_fuel (filename_step va_filename_block) (start, va_filename, "");
    match r with
    | inr res => mret res
    | inl _ => crash_with OutOfFuel
    end.

(** ** The interface *)

(** [i] from [from] to [n - 1]. *)
Definition vm_init (memory_pages swap_blocks : Z) : M unit :=
  modify (λ s, with_vm_physmem (set_page 0 null_page (vm_physmem s)) s) ;;
  modify (with_mem_pages_cap memory_pages) ;;
  modify (with_max_swap_blocks swap_blocks) ;;
  modify (λ s, with_next_free_PPN (next_free_PPN s ++ seqZ 1 (memory_pages - 1)) s) ;;
  modify (λ s, with_next_free_swap (next_free_swap s ++ seqZ 0 swap_blocks) s).

(** [process_table.insert]: a process that is there keeps its table, and the new
    one is freed. *)
Definition insert_process (pid : pid_t) (t : table_id) : M unit :=
  P ← gets process_table;
  match P !! pid with
  | Some _ => modify (λ s, with_tables (delete t (tables s)) s)
  | None => modify (with_process_table (<[pid := t]> P))
  end.

(** [process_table.erase], with the table. *)
Definition erase_process (pid : pid_t) : M unit :=
  P ← gets process_table;
  match P !! pid with
  | Some t => modify (λ s, with_tables (delete t (tables s)) (with_process_table (delete pid P) s))
  | None => mret tt
  end.

Definition set_next_free_VA (pid : pid_t) (a : Z) : M unit :=
  modify (λ s, with_next_free_VA (<[pid := a]> (next_free_VA s)) s).
Definition erase_next_free_VA (pid : pid_t) : M unit :=
  modify (λ s, with_next_free_VA (delete pid (next_free_VA s)) s).

(** How many swap-backed pages the traversal meets. *)
Fixpoint count_swap (l : list (Z * vpage_id)) : M Z :=
  match l with
  | [] => mret 0
  | (_, v) :: l =>
      vp ← get_vpage v;
      n ← count_swap l;
      mret (n + Z.b2z (isSwap vp))
  end.

(** A page of the parent at [va], given to the child. *)
Definition copy_mapping (child_pid : pid_t) (va : Z) (v : vpage_id) : M unit :=
  vp ← get_vpage v;
  null ← (if resident vp then pp ← deref (physicalPage vp); mret (PPN pp =? 0) else mret false);
  if null : bool then _ ← make_swap_to_nullpage va child_pid; mret tt
  else
    set_translateVA child_pid va v ;;
    when (isSwap vp)
      (b ← pop_front_swap;
       modify_vpage v (λ v, set_blocks (blocks v ++ [b]) v)) ;;
    t ← process_data child_pid;
    modify_vpage v (λ v, set_affiliated (affiliated v ++ [VA_to_PTE va t]) v) ;;
    updatePTEs v.

Definition vm_create (parent_pid child_pid : pid_t) : M Z :=
  table ← make_table;
  insert_process child_pid table ;;
  set_next_free_VA child_pid VM_ARENA_BASEADDR ;;
  T ← gets translateVA;
  ok ← match T !! parent_pid with
       | Some m =>
           swap_needed ← count_swap (traversal m);
           free ← gets next_free_swap;
           if Z.of_nat (length free) <? swap_needed then
             erase_process child_pid ;;
             erase_next_free_VA child_pid ;;
             mret false
           else
             a ← at_next_free_VA parent_pid;
             set_next_free_VA child_pid a ;;
             for_each (traversal m) (λ '(va, v), copy_mapping child_pid va v) ;;
             mret true
       | None => mret true
       end;
  if negb ok then mret (-1)
  else
    P ← gets process_table;
    when (bool_decide (P !! parent_pid = None))
      (modify (with_current_pid child_pid) ;;
       t ← process_data child_pid;
       modify (with_page_table_base_register (Some t))) ;;
    final_check ;;
    mret 0.

(** Map a page of a file. *)
Definition map_file (virtual_addr : Z) (our_filename : string) (block : Z) : M unit :=
  pid ← gets current_pid;
  C ← gets filename_block_to_vpage;
  match cached_at C our_filename block with
  | Some vp =>
      set_translateVA pid virtual_addr vp ;;
      ptbr ← get_ptbr;
      modify_vpage vp (λ v, set_affiliated (affiliated v ++ [VA_to_PTE virtual_addr ptbr]) v) ;;
      updatePTEs vp
  | None =>
      vp ← make_vpage;
      modify (λ s,
        let C := filename_block_to_vpage s in
        with_filename_block_to_vpage
          (<[our_filename := <[block := vp]> (default ∅ (C !! our_filename))]> C) s) ;;
      set_translateVA pid virtual_addr vp ;;
      modify_vpage vp (set_resident false) ;;
      modify_vpage vp (set_filename our_filename) ;;
      modify_vpage vp (set_isSwap false) ;;
      modify_vpage vp (λ v, set_blocks (blocks v ++ [block]) v) ;;
      ptbr ← get_ptbr;
      modify_vpage vp (λ v, set_affiliated (affiliated v ++ [VA_to_PTE virtual_addr ptbr]) v) ;;
      updatePTEs vp
  end.

(** [vm_map]: [None] is [nullptr], for the argument and for the result. *)
Definition vm_map (their_filename : option Z) (block : Z) : M (option Z) :=
  pid ← gets current_pid;
  virtual_addr ← at_next_free_VA pid;
  if VM_ARENA_MAXADDR <=? virtual_addr then final_check ;; mret None
  else
    ok ← match their_filename with
         | Some their_filename =>
             try_convert ← translate_from_other_addr_space their_filename;
             match try_convert with
             | Some our_filename => map_file virtual_addr our_filename block ;; mret true
             | None => mret false
             end
         | None =>
             res ← make_swap_to_nullpage virtual_addr pid;
             mret (bool_decide (res ≠ None))
         end;
    if negb ok then mret None
    else
      a ← at_next_free_VA pid;
      set_next_free_VA pid (a + VM_PAGESIZE) ;;
      final_check ;;
      mret (Some virtual_addr).

Definition vm_switch (pid : pid_t) : M unit :=
  modify (with_current_pid pid) ;;
  t ← process_data pid;
  modify (with_page_table_base_register (Some t)) ;;
  final_check.

(** The current process loses the page at [va]. *)
Definition release_mapping (va : Z) (v : vpage_id) : M unit :=
  vp ← get_vpage v;
  when (isSwap vp)
    (b ← deref (last (blocks vp));
     modify (λ s, with_next_free_swap (next_free_swap s ++ [b]) s) ;;
     modify_vpage v (λ v, set_blocks (removelast (blocks v)) v)) ;;
  vp ← get_vpage v;
  last_one ← (if resident vp then
                pp ← deref (physicalPage vp);
                mret (negb (PPN pp =? 0) && (length (blocks vp) =? 0)%nat)
              else mret false);
  when last_one (return_ppn_remove_from_clock v) ;;
  ptbr ← get_ptbr;
  erase_affiliated v (VA_to_PTE va ptbr) ;;
  vp ← get_vpage v;
  when (bool_decide (affiliated vp ≠ [])) (updatePTEs v).

Definition vm_destroy : M unit :=
  pid ← gets current_pid;
  m ← at_translateVA pid;
  for_each (traversal m) (λ '(va, v), release_mapping va v) ;;
  modify (λ s, with_translateVA (delete pid (translateVA s)) s) ;;
  erase_process pid ;;
  erase_next_free_VA pid ;;
  final_check.

End pager.
