(* ===== verification/PagerInv.v ===== *)
(** * The invariant of the pager

    What holds between calls of the pager, in parts that the functions break and
    restore one at a time: the maps from addresses to pages and back ([maps_ok]),
    the swap blocks ([swap_ok]), physical memory and the clock ([alloc_ok]), the
    page table entries ([pte_ok]) and the data ([data_ok]).  [T] is what
    [translateVA] would be if the mapping in progress were done; [X] are the pages
    in the hands of the function at work. *)

From S2P Require Import Prelude PagerTypes Pager.

Section inv.
Context `{F : Files} `{Tr : Traversal}.

Abbreviation translation := (gmap pid_t (gmap Z vpage_id)).

(** ** Vocabulary *)

Definition mapped (T : translation) (v : vpage_id) : Prop :=
  ∃ pid va, page_at T pid va = Some v.
Definition cached (C : gmap string (gmap Z vpage_id)) (v : vpage_id) : Prop :=
  ∃ n b, cached_at C n b = Some v.
Definition live (T : translation) (s : pager) (v : vpage_id) : Prop :=
  mapped T v ∨ cached (filename_block_to_vpage s) v.

(** A property of every live page but those of [X]. *)
Definition each (T : translation) (X : gset vpage_id) (s : pager)
    (P : vpage_id → VirtualPage → Prop) : Prop :=
  ∀ v vp, live T s v → vpages s !! v = Some vp → v ∉ X → P v vp.

(** The bits [updatePTEs] writes, and the entry it makes of an entry. *)
Definition bits (vp : VirtualPage) : bool * bool :=
  match physicalPage vp with
  | Some pp =>
      if resident vp && clocked pp then
        (true, dirty pp && (negb (isSwap vp) || (length (affiliated vp) =? 1)%nat))
      else (false, false)
  | None => (false, false)
  end.
Definition entry_for (vp : VirtualPage) (e : page_table_entry_t) : page_table_entry_t :=
  mk_pte (match physicalPage vp with Some pp => PPN pp `mod` 2 ^ 20 | None => ppage e end)
    (bits vp).1 (bits vp).2.

(** The entry an address of the arena has. *)
Definition valid_va (va : Z) : Prop :=
  ∃ i, 0 ≤ i < page_table_size ∧ va = VM_ARENA_BASEADDR + i * VM_PAGESIZE.

(** Where the data of a page is when it is not in memory, and where it is now. *)
Definition backing (s : pager) (vp : VirtualPage) : option page :=
  b ← head (blocks vp); file_read (file_of vp) b (files s).
Definition content (s : pager) (vp : VirtualPage) : option page :=
  match physicalPage vp with
  | Some pp => Some (vm_physmem s (PPN pp))
  | None => backing s vp
  end.

(** ** The parts of the invariant *)

Record maps_ok (T : translation) (s : pager) : Prop := {
  ma_inj pid pid' t :
    process_table s !! pid = Some t → process_table s !! pid' = Some t → pid = pid';
  ma_table pid t : process_table s !! pid = Some t → is_Some (tables s !! t);
  ma_process pid va v : page_at T pid va = Some v → is_Some (process_table s !! pid);
  ma_va pid va v : page_at T pid va = Some v → valid_va va;
  ma_vpage v : live T s v → is_Some (vpages s !! v);
  ma_aff v vp : live T s v → vpages s !! v = Some vp →
    NoDup (affiliated vp) ∧
    ∀ p, p ∈ affiliated vp ↔ ∃ pid va t, process_table s !! pid = Some t ∧
                               page_at T pid va = Some v ∧ p = VA_to_PTE va t;
  ma_cached n b v : cached_at (filename_block_to_vpage s) n b = Some v →
    ∃ vp, vpages s !! v = Some vp ∧ isSwap vp = false ∧ filename vp = n ∧ blocks vp = [b];
  ma_file v vp : mapped T v → vpages s !! v = Some vp → isSwap vp = false →
    ∃ b, blocks vp = [b] ∧
         (cached_at (filename_block_to_vpage s) (filename vp) b = Some v ∨
          file_read (Some (filename vp)) b (files s) = None);
  ma_next_vpage v : is_Some (vpages s !! v) → (v < next_vpage s)%nat;
  ma_next_table t : is_Some (tables s !! t) → (t < next_table s)%nat }.

(** The blocks of the swap file: each page that shares its data has a block, the
    first holds the data, and no block has two uses. *)
Record swap_ok (nswap : Z) (T : translation) (s : pager) : Prop := {
  sw_length v vp : live T s v → vpages s !! v = Some vp → isSwap vp = true →
    length (blocks vp) = length (affiliated vp);
  sw_nodup v vp : live T s v → vpages s !! v = Some vp → isSwap vp = true →
    NoDup (blocks vp);
  sw_disjoint v v' vp vp' b : live T s v → live T s v' →
    vpages s !! v = Some vp → vpages s !! v' = Some vp' →
    isSwap vp = true → isSwap vp' = true → b ∈ blocks vp → b ∈ blocks vp' → v = v';
  sw_used v vp b : live T s v → vpages s !! v = Some vp → isSwap vp = true →
    b ∈ blocks vp → (b ∉ next_free_swap s) ∧ 0 ≤ b < nswap;
  sw_free : NoDup (next_free_swap s);
  sw_range b : b ∈ next_free_swap s → 0 ≤ b < nswap }.

(** The physical page of a page: the null page, or one of its own. *)
Record phys_ok (s : pager) (vp : VirtualPage) : Prop := {
  ph_resident : resident vp = bool_decide (is_Some (physicalPage vp));
  ph_range pp : physicalPage vp = Some pp → PPN pp ≠ 0 →
    1 ≤ PPN pp < mem_pages_cap s ∧ PPN pp ∉ next_free_PPN s;
  ph_null pp : physicalPage vp = Some pp → PPN pp = 0 →
    isSwap vp = true ∧ clocked pp = true ∧ dirty pp = false ∧ length (affiliated vp) = 1%nat }.

(** A page that takes up a page of physical memory. *)
Definition occupies (vp : VirtualPage) (n : Z) : Prop :=
  n ≠ 0 ∧ ∃ pp, physicalPage vp = Some pp ∧ PPN pp = n.

Record alloc_ok (T : translation) (X : gset vpage_id) (s : pager) : Prop := {
  al_cap : 2 ≤ mem_pages_cap s ≤ 2 ^ 20;
  al_clock_nodup : NoDup (clock_queue s);
  al_free_nodup : NoDup (next_free_PPN s);
  al_free n : n ∈ next_free_PPN s → 1 ≤ n < mem_pages_cap s;
  al_clock v : v ∈ clock_queue s ↔
    live T s v ∧ (v ∉ X) ∧ ∃ vp n, vpages s !! v = Some vp ∧ occupies vp n;
  al_phys : each T X s (λ _, phys_ok s);
  al_inj v v' vp vp' n : v ∈ clock_queue s → v' ∈ clock_queue s →
    vpages s !! v = Some vp → vpages s !! v' = Some vp' →
    occupies vp n → occupies vp' n → v = v';
  al_count : Z.of_nat (length (clock_queue s)) + Z.of_nat (length (next_free_PPN s)) =
             mem_pages_cap s - 1 }.

Definition pte_matches (vp : VirtualPage) (e : page_table_entry_t) : Prop :=
  entry_for vp e = e.

Definition pte_ok (T : translation) (X : gset vpage_id) (s : pager) : Prop :=
  each T X s (λ _ vp, ∀ p, p ∈ affiliated vp → ∃ e, pte_at p s = Some e ∧ pte_matches vp e).

(** Data that is only in memory is dirty. *)
Record data_vp (s : pager) (vp : VirtualPage) : Prop := {
  dv_clean pp : physicalPage vp = Some pp → PPN pp ≠ 0 → dirty pp = false →
    backing s vp = Some (vm_physmem s (PPN pp));
  dv_swap : isSwap vp = true → physicalPage vp = None → is_Some (backing s vp);
  dv_file pp : isSwap vp = false → physicalPage vp = Some pp → is_Some (backing s vp) }.

Record data_ok (T : translation) (X : gset vpage_id) (s : pager) : Prop := {
  da_null : vm_physmem s 0 = null_page;
  da_each : each T X s (λ _, data_vp s) }.

(** The addresses of each process are the first ones of the arena, and the entries
    of the others are disabled. *)
Record arena_ok (T : translation) (s : pager) : Prop := {
  ar_next pid : is_Some (next_free_VA s !! pid) ↔ is_Some (process_table s !! pid);
  ar_range pid a : next_free_VA s !! pid = Some a →
    ∃ n, 0 ≤ n ≤ page_table_size ∧ a = VM_ARENA_BASEADDR + n * VM_PAGESIZE;
  ar_pages pid a va : next_free_VA s !! pid = Some a →
    (is_Some (page_at T pid va) ↔ valid_va va ∧ va < a) }.

Definition unmapped_ok (T : translation) (s : pager) : Prop :=
  ∀ pid t va e, process_table s !! pid = Some t → valid_va va → page_at T pid va = None →
    pte_at (VA_to_PTE va t) s = Some e → read_enable e = false ∧ write_enable e = false.

(** Between calls. *)
Record consistent (nswap : Z) (s : pager) : Prop := {
  co_maps : maps_ok (translateVA s) s;
  co_swap : swap_ok nswap (translateVA s) s;
  co_alloc : alloc_ok (translateVA s) ∅ s;
  co_pte : pte_ok (translateVA s) ∅ s;
  co_data : data_ok (translateVA s) ∅ s;
  co_arena : arena_ok (translateVA s) s;
  co_unmapped : unmapped_ok (translateVA s) s;
  co_known pid : is_Some (translateVA s !! pid) → is_Some (process_table s !! pid) }.

(** ** Execution *)

(** Program [m] returns from [s], with [Q]. *)
Definition wp {A} (m : M A) (Q : A → pager → Prop) (s : pager) : Prop :=
  match m s with Done a s' => Q a s' | Crash _ => False end.

Lemma pg_run {A} (m : M A) Q s : wp m Q s ↔ ∃ a s', m s = Done a s' ∧ Q a s'.
Proof. unfold wp. destruct (m s); naive_solver. Qed.

Lemma pg_mono {A} (m : M A) (Q Q' : A → pager → Prop) s :
  wp m Q s → (∀ a s', Q a s' → Q' a s') → wp m Q' s.
Proof. unfold wp. destruct (m s); eauto. Qed.

Lemma pg_ret {A} (a : A) (Q : A → pager → Prop) s : Q a s → wp (mret a) Q s.
Proof. done. Qed.
Lemma pg_bind {A B} (m : M A) (k : A → M B) Q s :
  wp m (λ a, wp (k a) Q) s → wp (m ≫= k) Q s.
Proof. unfold wp, mbind, M_bind. by destruct (m s). Qed.
Lemma pg_assoc {A B C} (m : M A) (k : A → M B) (l : B → M C) Q s :
  wp ((m ≫= k) ≫= l) Q s → wp (m ≫= λ a, k a ≫= l) Q s.
Proof. unfold wp, mbind, M_bind. by destruct (m s). Qed.
Lemma pg_gets {A} (f : pager → A) (Q : A → pager → Prop) s : Q (f s) s → wp (gets f) Q s.
Proof. done. Qed.
Lemma pg_modify f (Q : unit → pager → Prop) s : Q tt (f s) → wp (modify f) Q s.
Proof. done. Qed.
Lemma pg_assert b (Q : unit → pager → Prop) s : b = true → Q tt s → wp (assert b) Q s.
Proof. by intros ->. Qed.
Lemma pg_deref {A} (x : option A) a (Q : A → pager → Prop) s :
  x = Some a → Q a s → wp (deref x) Q s.
Proof. by intros ->. Qed.
Lemma pg_get_vpage v vp (Q : VirtualPage → pager → Prop) s :
  vpages s !! v = Some vp → Q vp s → wp (get_vpage v) Q s.
Proof. unfold wp, get_vpage. by intros ->. Qed.
Lemma pg_get_phys v vp pp (Q : PhysicalPage → pager → Prop) s :
  vpages s !! v = Some vp → physicalPage vp = Some pp → Q pp s → wp (get_phys v) Q s.
Proof. intros Hv Hp HQ. apply pg_bind. eapply pg_get_vpage; [done|]. by rewrite Hp. Qed.
Lemma pg_modify_vpage v vp f (Q : unit → pager → Prop) s :
  vpages s !! v = Some vp → Q tt (with_vpages (<[v := f vp]> (vpages s)) s) →
  wp (modify_vpage v f) Q s.
Proof. intros Hv HQ. apply pg_bind. by eapply pg_get_vpage. Qed.
Lemma pg_modify_phys v vp pp f (Q : unit → pager → Prop) s :
  vpages s !! v = Some vp → physicalPage vp = Some pp →
  Q tt (with_vpages (<[v := set_physicalPage (Some (f pp)) vp]> (vpages s)) s) →
  wp (modify_phys v f) Q s.
Proof.
  intros Hv Hp HQ. apply pg_bind. eapply pg_get_phys; [done..|]. by eapply pg_modify_vpage.
Qed.
Lemma pg_get_pte p e (Q : page_table_entry_t → pager → Prop) s :
  pte_at p s = Some e → Q e s → wp (get_pte p) Q s.
Proof. unfold wp, get_pte. by intros ->. Qed.
Lemma pg_when b m (Q : unit → pager → Prop) s :
  (b = true → wp m Q s) → (b = false → Q tt s) → wp (when b m) Q s.
Proof. destruct b; intros H1 H2; [by apply H1|by apply H2]. Qed.
Lemma pg_lock v (Q : option vpage_id → pager → Prop) s :
  owned v s = true → Q (Some v) s → wp (lock v) Q s.
Proof. unfold wp, lock, gets. by intros ->. Qed.

Lemma pg_for_each {A} (l : list A) (f : A → M unit) (I : list A → pager → Prop) s :
  I l s → (∀ x l s, I (x :: l) s → wp (f x) (λ _, I l) s) →
  wp (for_each l f) (λ _, I []) s.
Proof.
  intros HI Hf. revert s HI. induction l as [|x l IH]; intros s HI; [exact HI|]. cbn [for_each].
  apply pg_bind. eapply pg_mono; [by apply Hf|]. intros [] s' HI'. by apply IH.
Qed.

End inv.
