(* ===== verification/PagerPtes.v ===== *)
(** * Page table entries

    [updatePTEs] makes the entries of a page what its state tells, and changes no
    other; frame lemmas for the parts of the invariant. *)

From S2P Require Import Prelude PagerTypes Pager PagerInv.

Section ptes.
Context `{F : Files} `{Tr : Traversal}.

(** ** Ownership *)

Lemma page_at_Some T pid va v : page_at T pid va = Some v ↔ ∃ m, T !! pid = Some m ∧ m !! va = Some v.
Proof. unfold page_at. apply bind_Some. Qed.
Lemma cached_at_Some C n b v : cached_at C n b = Some v ↔ ∃ m, C !! n = Some m ∧ m !! b = Some v.
Proof. unfold cached_at. apply bind_Some. Qed.

Lemma owned_live v s : owned v s = true ↔ live (translateVA s) s v.
Proof.
  unfold owned. rewrite orb_true_iff !bool_decide_eq_true. unfold live, mapped, cached.
  setoid_rewrite page_at_Some. setoid_rewrite cached_at_Some. unfold map_Exists. naive_solver.
Qed.

(** ** One entry *)

Lemma pte_at_alter (p q : pte_ptr) g e s :
  pte_at p s = Some e →
  pte_at q (with_tables (alter (set_entry p.2 g) p.1 (tables s)) s) =
  if decide (q = p) then Some g else pte_at q s.
Proof.
  destruct p as [t i], q as [t' j]. unfold pte_at. cbn. intros Hp.
  destruct (tables s !! t) as [f|] eqn:Ht; [|done]. cbn in Hp.
  destruct (decide (t' = t)) as [->|Hne].
  - rewrite lookup_alter_eq Ht. cbn. unfold set_entry.
    destruct (decide ((t, j) = (t, i))) as [[= ->]|Hne].
    + destruct (_ && _); [|done]. by rewrite decide_True.
    + rewrite decide_False; [done|]. congruence.
  - rewrite lookup_alter_ne //. rewrite decide_False; [done|]. congruence.
Qed.

Lemma pg_modify_pte p e f (Q : unit → pager → Prop) s :
  pte_at p s = Some e →
  (∀ tb, (∀ q, pte_at q (with_tables tb s) = if decide (q = p) then Some (f e) else pte_at q s) →
         (∀ t, is_Some (tb !! t) ↔ is_Some (tables s !! t)) → Q tt (with_tables tb s)) →
  wp (modify_pte p f) Q s.
Proof.
  intros Hp HQ. apply pg_bind. eapply pg_get_pte; [done|]. apply pg_modify, HQ.
  - intros q. by eapply pte_at_alter.
  - intros t. apply lookup_alter_is_Some.
Qed.

(** ** All entries of a page *)

(** The entries [l] have been set for [vp]. *)
Definition set_for (l : list pte_ptr) (vp : VirtualPage) (s : pager) (tb : gmap table_id page_table)
    : Prop :=
  (∀ p, pte_at p (with_tables tb s) =
        if decide (p ∈ l) then entry_for vp <$> pte_at p s else pte_at p s) ∧
  ∀ t, is_Some (tb !! t) ↔ is_Some (tables s !! t).

Lemma entry_for_idemp vp e : entry_for vp (entry_for vp e) = entry_for vp e.
Proof. unfold entry_for. by destruct (physicalPage vp). Qed.

Lemma enable_bits_ok vp (Q : bool * bool → pager → Prop) s :
  (resident vp = true → is_Some (physicalPage vp)) →
  (resident vp = true → isSwap vp = true → length (affiliated vp) = length (blocks vp)) →
  Q (bits vp) s → wp (enable_bits vp) Q s.
Proof.
  unfold enable_bits, bits. intros Hp Hl HQ. destruct (resident vp); cbn [negb andb] in *.
  2:{ apply pg_ret. by destruct (physicalPage vp). }
  destruct (Hp eq_refl) as [pp Hpp]. rewrite Hpp in HQ |- *.
  apply pg_bind, (pg_deref _ pp); [done|].
  destruct (clocked pp); cbn [negb] in *; [|done].
  destruct (isSwap vp); cbn [negb orb] in *.
  - rewrite Hl // Nat.eqb_refl in HQ |- *. apply pg_bind, pg_assert; [done|].
    destruct (length (blocks vp) =? 1)%nat; [|by rewrite andb_false_r in HQ].
    by destruct (dirty pp).
  - by destruct (dirty pp).
Qed.

Lemma update_entry_ok p vp r w e (Q : unit → pager → Prop) s :
  bits vp = (r, w) → pte_at p s = Some e →
  (∀ tb, (∀ q, pte_at q (with_tables tb s) =
               if decide (q = p) then Some (entry_for vp e) else pte_at q s) →
         (∀ t, is_Some (tb !! t) ↔ is_Some (tables s !! t)) → Q tt (with_tables tb s)) →
  wp (update_entry vp r w p) Q s.
Proof.
  intros Hb He HQ. unfold entry_for in HQ. rewrite Hb in HQ.
  eapply pg_bind, pg_modify_pte; [done|]. intros tb1 Ht1 Hd1. apply pg_bind.
  eapply (pg_modify_pte p); [by rewrite Ht1 decide_True|]. intros tb2 Ht2 Hd2. cbn in Hd2.
  assert (∀ q, pte_at q (with_tables tb2 s) =
               if decide (q = p) then Some (mk_pte (ppage e) r w) else pte_at q s) as Ht.
  { intros q. change (with_tables tb2 s) with (with_tables tb2 (with_tables tb1 s)).
    rewrite Ht2 Ht1. by destruct (decide (q = p)). }
  change (with_tables tb2 (with_tables tb1 s)) with (with_tables tb2 s).
  destruct (physicalPage vp) as [pp|].
  - eapply (pg_modify_pte p); [by rewrite Ht decide_True|]. intros tb3 Ht3 Hd3. apply (HQ tb3).
    + intros q. change (with_tables tb3 s) with (with_tables tb3 (with_tables tb2 s)).
      rewrite Ht3 Ht. by destruct (decide (q = p)).
    + intros t. rewrite (Hd3 t) (Hd2 t). apply Hd1.
  - apply (HQ tb2); [done|]. intros t. rewrite (Hd2 t). apply Hd1.
Qed.

Lemma set_for_cons p l vp e s tb tb' :
  pte_at p s = Some e →
  (∀ q, pte_at q (with_tables tb s) = if decide (q = p) then Some (entry_for vp e) else pte_at q s) →
  (∀ t, is_Some (tb !! t) ↔ is_Some (tables s !! t)) →
  set_for l vp (with_tables tb s) tb' → set_for (p :: l) vp s tb'.
Proof.
  intros He Htb Hdom [Htb' Hdom']. split; [|intros t; by rewrite (Hdom' t) Hdom].
  intros q. change (with_tables tb' s) with (with_tables tb' (with_tables tb s)).
  rewrite Htb' Htb. destruct (decide (q = p)) as [->|].
  - rewrite He /= entry_for_idemp. rewrite (decide_True (P := p ∈ p :: l)); [|set_solver].
    by destruct (decide (p ∈ l)).
  - destruct (decide (q ∈ l)); [rewrite decide_True //; set_solver|].
    rewrite decide_False //. set_solver.
Qed.

Lemma update_entries_ok (l : list pte_ptr) vp r w (Q : unit → pager → Prop) s :
  bits vp = (r, w) → (∀ p, p ∈ l → is_Some (pte_at p s)) →
  (∀ tb, set_for l vp s tb → Q tt (with_tables tb s)) →
  wp (for_each l (update_entry vp r w)) Q s.
Proof.
  intros Hb. revert s. induction l as [|p l IH]; intros s Hl HQ.
  - specialize (HQ (tables s)). destruct s. apply HQ. by split.
  - apply pg_bind. destruct (Hl p ltac:(set_solver)) as [e He].
    eapply update_entry_ok; [done..|]. intros tb Htb Hdom. apply IH.
    + intros q Hq. rewrite Htb. destruct (decide (q = p)); [done|]. apply Hl. set_solver.
    + intros tb' Htb'. apply (HQ tb'). by eapply set_for_cons.
Qed.

(** [updatePTEs] *)
Lemma updatePTEs_ok v vp (Q : unit → pager → Prop) s :
  vpages s !! v = Some vp → affiliated vp ≠ [] →
  (∀ p, p ∈ affiliated vp → is_Some (pte_at p s)) →
  (resident vp = true → is_Some (physicalPage vp)) →
  (resident vp = true → isSwap vp = true → length (affiliated vp) = length (blocks vp)) →
  (∀ tb, set_for (affiliated vp) vp s tb → Q tt (with_tables tb s)) →
  wp (updatePTEs v) Q s.
Proof.
  intros Hv Hne Hl Hr Hs HQ. unfold updatePTEs. eapply pg_bind, pg_get_vpage; [done|].
  apply pg_bind, pg_assert; [by destruct (affiliated vp)|].
  apply pg_bind, enable_bits_ok; [done..|]. destruct (bits vp) as [r w] eqn:Hb.
  by eapply update_entries_ok.
Qed.

End ptes.
