(* ===== verification/PagerFrame.v ===== *)
(** * Frames of the pager's invariant

    Which parts of the invariant survive a change of which fields, and how a page
    is taken out of them and given back. *)

From S2P Require Import Prelude PagerTypes Pager PagerInv PagerPtes.

Section frame.
Context `{F : Files} `{Tr : Traversal}.

(** What is known of a page wherever its data is. *)
Definition static (vp : VirtualPage) : list pte_ptr * bool * string * list Z :=
  (affiliated vp, isSwap vp, filename vp, blocks vp).
Definition statics (s s' : pager) : Prop :=
  ∀ v, static <$> vpages s' !! v = static <$> vpages s !! v.

Lemma statics_refl s : statics s s.
Proof. done. Qed.
Lemma statics_trans s1 s2 s3 : statics s1 s2 → statics s2 s3 → statics s1 s3.
Proof. intros H1 H2 v. by rewrite (H2 v). Qed.

Lemma statics_at s s' v vp' :
  statics s s' → vpages s' !! v = Some vp' →
  ∃ vp, vpages s !! v = Some vp ∧ static vp = static vp'.
Proof.
  intros H Hv. specialize (H v). rewrite Hv in H. symmetry in H.
  by apply fmap_Some in H as (vp & ? & ?); exists vp.
Qed.

Lemma statics_insert s s' v vp vp' :
  vpages s !! v = Some vp → static vp' = static vp → vpages s' = <[v := vp']> (vpages s) →
  statics s s'.
Proof.
  intros Hv Hs E w. rewrite E. destruct (decide (w = v)) as [->|].
  - by rewrite lookup_insert_eq Hv /= Hs.
  - by rewrite lookup_insert_ne.
Qed.

(** ** Taking pages out *)

Lemma each_weaken T X Y s P : X ⊆ Y → each T X s P → each T Y s P.
Proof. intros HXY H v vp Hl Hv HY. apply H; [done..|set_solver]. Qed.

Lemma live_mapped T s v : mapped T v → live T s v.
Proof. by left. Qed.

(** ** The maps *)

(** The cache has lost pages without addresses only. *)
Definition cache_shrinks (T : gmap pid_t (gmap Z vpage_id)) (s s' : pager) : Prop :=
  (∀ n b v, cached_at (filename_block_to_vpage s') n b = Some v →
            cached_at (filename_block_to_vpage s) n b = Some v) ∧
  (∀ n b v, mapped T v → cached_at (filename_block_to_vpage s) n b = Some v →
            cached_at (filename_block_to_vpage s') n b = Some v).

Lemma cache_same T s s' :
  filename_block_to_vpage s' = filename_block_to_vpage s → cache_shrinks T s s'.
Proof. intros H. unfold cache_shrinks. by rewrite H. Qed.

Lemma cache_live T s s' v : cache_shrinks T s s' → live T s' v → live T s v.
Proof. intros [H _] [?|(n & b & Hc)]; [by left|]. right. exists n, b. by apply H. Qed.

(** Files that could not be read still cannot. *)
Definition files_kept (s s' : pager) : Prop :=
  ∀ n b, file_read (Some n) b (files s) = None → file_read (Some n) b (files s') = None.

Lemma files_same s s' : files s' = files s → files_kept s s'.
Proof. intros H n b. by rewrite H. Qed.

Lemma maps_frame T s s' :
  maps_ok T s → process_table s' = process_table s → cache_shrinks T s s' → statics s s' →
  (∀ t, is_Some (tables s' !! t) ↔ is_Some (tables s !! t)) →
  next_vpage s' = next_vpage s → next_table s' = next_table s → files_kept s s' →
  maps_ok T s'.
Proof.
  intros M Hp Hc Hs Ht Hnv Hnt Hf.
  assert (∀ v, is_Some (vpages s' !! v) ↔ is_Some (vpages s !! v)) as Hdom.
  { intros v. rewrite -!(fmap_is_Some static). by rewrite Hs. }
  destruct M. split; rewrite ?Hp ?Hnv ?Hnt; try done.
  - intros pid t ?. apply Ht. eauto.
  - intros v Hl. apply Hdom, ma_vpage. by eapply cache_live.
  - intros v vp' Hl Hv. destruct (statics_at _ _ _ _ Hs Hv) as (vp & Hv0 & [= <- _ _ _]).
    eapply ma_aff; [by eapply cache_live|done].
  - intros n b v Hcv. destruct (ma_cached n b v) as (vp & Hv & ? & ? & ?); [by apply Hc|].
    specialize (Hs v). rewrite Hv in Hs. apply fmap_Some in Hs as (vp' & ? & [= ? ? ? ?]).
    exists vp'. by split_and!; congruence.
  - intros v vp' Hm Hv Hsw. destruct (statics_at _ _ _ _ Hs Hv) as (vp & Hv0 & [= _ Hsw' <- <-]).
    destruct (ma_file v vp Hm Hv0) as (b & ? & Hor); [congruence|]. exists b. split; [done|].
    destruct Hor; [left; by apply Hc|right; by apply Hf].
  - intros v. rewrite Hdom. apply ma_next_vpage.
  - intros t. rewrite Ht. apply ma_next_table.
Qed.

(** Fewer pages have fewer blocks. *)
Lemma swap_shrinks nswap T T' s s' :
  swap_ok nswap T s → (∀ v, live T' s' v → live T s v) → statics s s' →
  next_free_swap s' = next_free_swap s → swap_ok nswap T' s'.
Proof.
  intros S Hl Hs Hf. destruct S.
  split; rewrite ?Hf; try done.
  - intros v vp' Hv%Hl (vp & Hv0 & [= <- <- _ <-])%(statics_at _ _ _ _ Hs). eauto.
  - intros v vp' Hv%Hl (vp & Hv0 & [= _ <- _ <-])%(statics_at _ _ _ _ Hs). eauto.
  - intros v w vp' wp' b Hv%Hl Hw%Hl (vp & ? & [= _ <- _ <-])%(statics_at _ _ _ _ Hs)
      (wp0 & ? & [= _ <- _ <-])%(statics_at _ _ _ _ Hs). eauto.
  - intros v vp' b Hv%Hl (vp & Hv0 & [= _ <- _ <-])%(statics_at _ _ _ _ Hs). eauto.
Qed.

Lemma swap_frame nswap T s s' :
  swap_ok nswap T s → cache_shrinks T s s' → statics s s' → next_free_swap s' = next_free_swap s →
  swap_ok nswap T s'.
Proof. intros S Hc. eapply swap_shrinks; [exact S|]. intros v. by apply cache_live. Qed.

(** ** Entries *)

Lemma VA_to_PTE_inj va va' t t' :
  valid_va va → valid_va va' → VA_to_PTE va t = VA_to_PTE va' t' → va = va' ∧ t = t'.
Proof.
  unfold VA_to_PTE. intros (i & ? & ->) (i' & ? & ->) [= <- Hi]. split; [|done].
  unfold VM_PAGESIZE, VM_ARENA_BASEADDR in *.
  replace (0x600000000 + i * 65536 - 0x600000000) with (i * 65536) in Hi by lia.
  replace (0x600000000 + i' * 65536 - 0x600000000) with (i' * 65536) in Hi by lia.
  rewrite !Z.div_mul in Hi; lia.
Qed.

Lemma VA_to_PTE_index i t :
  VA_to_PTE (VM_ARENA_BASEADDR + i * VM_PAGESIZE) t = (t, i).
Proof.
  unfold VA_to_PTE. f_equal.
  replace (VM_ARENA_BASEADDR + i * VM_PAGESIZE - VM_ARENA_BASEADDR) with (i * VM_PAGESIZE) by lia.
  by rewrite Z.div_mul.
Qed.

Lemma valid_pte va t s : valid_va va → is_Some (tables s !! t) → is_Some (pte_at (VA_to_PTE va t) s).
Proof.
  intros (i & Hi & ->) [f Hf]. rewrite VA_to_PTE_index /pte_at /= Hf /=.
  rewrite (proj2 (Z.leb_le 0 i)) ?(proj2 (Z.ltb_lt i page_table_size)); [by eexists|lia..].
Qed.

Lemma aff_pte T s v vp p :
  maps_ok T s → live T s v → vpages s !! v = Some vp → p ∈ affiliated vp → is_Some (pte_at p s).
Proof.
  intros M Hl Hv Hp. destruct (ma_aff _ _ M _ _ Hl Hv) as [_ Hiff].
  apply Hiff in Hp as (pid & va & t & Ht & Hva & ->). apply valid_pte.
  - by eapply ma_va.
  - by eapply ma_table.
Qed.

Lemma aff_disjoint T s v v' vp vp' p :
  maps_ok T s → live T s v → live T s v' → vpages s !! v = Some vp → vpages s !! v' = Some vp' →
  p ∈ affiliated vp → p ∈ affiliated vp' → v = v'.
Proof.
  intros M Hl Hl' Hv Hv' Hp Hp'.
  apply (ma_aff _ _ M _ _ Hl Hv) in Hp as (pid & va & t & Ht & Hva & Ep).
  apply (ma_aff _ _ M _ _ Hl' Hv') in Hp' as (pid' & va' & t' & Ht' & Hva' & Ep').
  rewrite Ep in Ep'. apply VA_to_PTE_inj in Ep' as [-> ->]; [|by eapply ma_va..].
  assert (pid' = pid) as -> by by eapply ma_inj. congruence.
Qed.

(** Something maps to a page that has entries. *)
Lemma aff_mapped T s v vp :
  maps_ok T s → live T s v → vpages s !! v = Some vp → affiliated vp ≠ [] ↔ mapped T v.
Proof.
  intros M Hl Hv. destruct (ma_aff _ _ M _ _ Hl Hv) as [_ Hiff]. split.
  - destruct (affiliated vp) as [|p l] eqn:E; [done|]. intros _.
    destruct (proj1 (Hiff p) ltac:(set_solver)) as (pid & va & t & _ & ? & _). by exists pid, va.
  - intros (pid & va & Hva) E. destruct (ma_process _ _ M _ _ _ Hva) as [t Ht].
    assert (VA_to_PTE va t ∈ affiliated vp) as Hin by (apply Hiff; by exists pid, va, t).
    rewrite E in Hin. by apply elem_of_nil in Hin.
Qed.

(** The entries of the other pages do not change. *)
Lemma pte_frame T X s s' :
  pte_ok T X s → (∀ v, live T s' v → live T s v) →
  (∀ v vp', v ∉ X → live T s' v → vpages s' !! v = Some vp' →
     ∃ vp, vpages s !! v = Some vp ∧ affiliated vp' = affiliated vp ∧ bits vp' = bits vp ∧
           PPN <$> physicalPage vp' = PPN <$> physicalPage vp ∧
           ∀ p, p ∈ affiliated vp → pte_at p s' = pte_at p s) →
  pte_ok T X s'.
Proof.
  intros H Hl Hs v vp' Hv Hvp' HX p Hp.
  destruct (Hs v vp' HX Hv Hvp') as (vp & Hvp & Haff & Hbits & HPPN & Hpte).
  rewrite Haff in Hp. destruct (H v vp (Hl v Hv) Hvp HX p Hp) as (e & He & Hm). exists e.
  rewrite Hpte //. split; [done|]. unfold pte_matches, entry_for in *. rewrite Hbits.
  rewrite -{2}Hm. f_equal. destruct (physicalPage vp), (physicalPage vp'); simplify_eq/=; congruence.
Qed.

(** [updatePTEs] gives a page back. *)
Lemma pte_close T X s v vp tb :
  maps_ok T s → pte_ok T X s → live T s v → vpages s !! v = Some vp →
  set_for (affiliated vp) vp s tb → pte_ok T (X ∖ {[v]}) (with_tables tb s).
Proof.
  intros M H Hl Hv [Htb _] w wp' Hw Hwp' HX p Hp. cbn in Hwp'. change (live T s w) in Hw.
  rewrite Htb. destruct (decide (w = v)) as [->|Hne].
  - assert (wp' = vp) as -> by congruence. rewrite decide_True //.
    destruct (aff_pte _ _ _ _ _ M Hl Hv Hp) as [e ->]. cbn. eexists. split; [done|].
    apply entry_for_idemp.
  - rewrite decide_False; [|intros Hp'; by apply Hne, (aff_disjoint T s w v wp' vp p)].
    apply (H w); [done..|set_solver|done].
Qed.

Lemma unmapped_frame T s s' :
  unmapped_ok T s → process_table s' = process_table s →
  (∀ pid t va, process_table s !! pid = Some t → valid_va va → page_at T pid va = None →
     pte_at (VA_to_PTE va t) s' = pte_at (VA_to_PTE va t) s) →
  unmapped_ok T s'.
Proof.
  intros H Hp Hpte pid t va e Ht Hva Hno He. rewrite Hp in Ht. apply (H pid t va e); [done..|].
  by rewrite -(Hpte pid).
Qed.

(** The entries of an address without a page belong to no page. *)
Lemma unmapped_set_for T T' s v vp tb :
  maps_ok T s → live T s v → vpages s !! v = Some vp → set_for (affiliated vp) vp s tb →
  (∀ pid va, page_at T' pid va = None → page_at T pid va = None) →
  unmapped_ok T' s → unmapped_ok T' (with_tables tb s).
Proof.
  intros M Hl Hv [Htb _] HT H. apply (unmapped_frame _ s); [done..|].
  intros pid t va Ht Hva Hno. rewrite Htb. rewrite decide_False; [done|].
  intros (pid' & va' & t' & Ht' & Hva' & E)%(ma_aff _ _ M _ _ Hl Hv).
  apply VA_to_PTE_inj in E as [-> ->]; [|done|by eapply ma_va].
  assert (pid' = pid) as -> by by eapply (ma_inj _ _ M). rewrite HT // in Hva'.
Qed.

(** ** Physical memory *)

Lemma phys_frame s s' vp :
  phys_ok s vp → mem_pages_cap s' = mem_pages_cap s → next_free_PPN s' = next_free_PPN s →
  phys_ok s' vp.
Proof. intros [P1 P2 P3] Hc Hf. split; rewrite ?Hc ?Hf; done. Qed.

Lemma alloc_frame T X s s' :
  alloc_ok T X s → (∀ v, v ∉ X → vpages s' !! v = vpages s !! v) →
  (∀ v, live T s' v ↔ live T s v) → clock_queue s' = clock_queue s →
  next_free_PPN s' = next_free_PPN s → mem_pages_cap s' = mem_pages_cap s → alloc_ok T X s'.
Proof.
  intros [A1 A2 A3 A4 A5 A6 A7 A8] Hv Hl Hq Hf Hc.
  assert (∀ v, v ∈ clock_queue s → vpages s' !! v = vpages s !! v) as Hqv.
  { intros v (_ & HX & _)%A5. by apply Hv. }
  split; rewrite ?Hq ?Hf ?Hc; try done.
  - intros v. rewrite A5 Hl. split; intros (? & HX & ?); (split_and!; [done|done|]).
    + by rewrite Hv.
    + by rewrite -Hv.
  - intros v vp Hlv%Hl Hvp HX. rewrite Hv // in Hvp.
    eapply phys_frame; [by apply (A6 v)|done..].
  - intros v v' vp vp' n Hin Hin'. rewrite !Hqv //. by apply A7.
Qed.

(** The page given back when its entries need no care. *)
Lemma pte_frame_same T X s s' :
  pte_ok T X s → (∀ v, live T s' v → live T s v) → (∀ v, v ∉ X → vpages s' !! v = vpages s !! v) →
  tables s' = tables s → pte_ok T X s'.
Proof.
  intros H Hl Hv Ht. apply (pte_frame _ _ s); [done..|]. intros v vp' HX _ Hv'.
  rewrite Hv // in Hv'. exists vp'. split_and!; try done. intros p _. unfold pte_at. by rewrite Ht.
Qed.

End frame.
