(* ===== verification/PagerEvict.v ===== *)
(** * Eviction

    [find_victim] ends after at most one turn of the clock, [evict_and_replace]
    writes the victim back when it must and gives its physical page to the
    replacement, and [give_new_ppn] leaves every other page with its data. *)

From S2P Require Import Prelude PagerTypes Pager PagerInv PagerPtes PagerFrame.

Section evict.
Context `{F : Files} `{Tr : Traversal} (nswap : Z) `{FL : !FilesLaws nswap}.

(** ** What eviction keeps *)

(** The data of a block of a file, in memory or not. *)
Definition file_data (s : pager) (n : string) (b : Z) : option page :=
  match cached_at (filename_block_to_vpage s) n b with
  | Some v => vp ← vpages s !! v; content s vp
  | None => file_read (Some n) b (files s)
  end.

(** The globals that only the calls of the interface change. *)
Definition globals (s : pager) :=
  (process_table s, translateVA s, next_free_VA s, next_free_swap s, mem_pages_cap s,
   current_pid s, page_table_base_register s, next_vpage s, next_table s).

(** From [s] to [s'] pages were moved between memory and files; the page [r] is
    being given a new physical page. *)
Record moved (T : gmap pid_t (gmap Z vpage_id)) (r : vpage_id) (s s' : pager) : Prop := {
  mv_globals : globals s' = globals s;
  mv_physmem : vm_physmem s' = vm_physmem s;
  mv_statics : statics s s';
  mv_cache : cache_shrinks T s s';
  mv_files : files_kept s s';
  mv_tables t : is_Some (tables s' !! t) ↔ is_Some (tables s !! t);
  mv_content v vp vp' : live T s' v → v ≠ r → vpages s !! v = Some vp →
    vpages s' !! v = Some vp' → content s' vp' = content s vp;
  mv_backing vp : vpages s !! r = Some vp → backing s' vp = backing s vp;
  mv_data n b : cached_at (filename_block_to_vpage s) n b ≠ Some r →
    file_data s' n b = file_data s n b;
  mv_unmapped T' : (∀ pid va, page_at T' pid va = None → page_at T pid va = None) →
    unmapped_ok T' s → unmapped_ok T' s' }.

Lemma moved_refl T r s : moved T r s s.
Proof.
  split; try done.
  - by intros n b.
  - intros v vp vp' _ _ ??. by simplify_eq.
Qed.

Lemma moved_trans T r s1 s2 s3 : moved T r s1 s2 → moved T r s2 s3 → moved T r s1 s3.
Proof.
  intros A B. split.
  - by rewrite (mv_globals _ _ _ _ B) (mv_globals _ _ _ _ A).
  - by rewrite (mv_physmem _ _ _ _ B) (mv_physmem _ _ _ _ A).
  - eapply statics_trans; [apply A|apply B].
  - destruct (mv_cache _ _ _ _ A) as [A1 A2], (mv_cache _ _ _ _ B) as [B1 B2].
    split; [intros n b v ?; by apply A1, B1|intros n b v ??; apply B2; [done|by apply A2]].
  - intros n b ?. by apply (mv_files _ _ _ _ B), (mv_files _ _ _ _ A).
  - intros t. rewrite (mv_tables _ _ _ _ B). apply (mv_tables _ _ _ _ A).
  - intros v vp vp3 Hl Hne Hv1 Hv3.
    destruct (statics_at _ _ _ _ (mv_statics _ _ _ _ B) Hv3) as (vp2 & Hv2 & _).
    rewrite (mv_content _ _ _ _ B v vp2 vp3) //. apply (mv_content _ _ _ _ A v); [|done..].
    by eapply cache_live; [apply B|].
  - intros vp Hr. pose proof (mv_statics _ _ _ _ A r) as Hs. rewrite Hr in Hs.
    apply fmap_Some in Hs as (vp2 & Hr2 & [= _ Hsw Hfn Hb]).
    pose proof (mv_backing _ _ _ _ B _ Hr2) as HB. pose proof (mv_backing _ _ _ _ A _ Hr) as HA.
    unfold backing, file_of in *. rewrite -Hsw -Hfn -Hb in HB. by rewrite HB.
  - intros n b Hne. rewrite (mv_data _ _ _ _ B); [by apply A|]. intros Hc. apply Hne.
    by apply (mv_cache _ _ _ _ A).
  - intros T' HT ?. by apply (mv_unmapped _ _ _ _ B), (mv_unmapped _ _ _ _ A).
Qed.

(** What holds while page [r] waits for a physical page. *)
Record evicting (T : gmap pid_t (gmap Z vpage_id)) (X : gset vpage_id) (r : vpage_id) (s : pager)
    : Prop := {
  ev_maps : maps_ok T s;
  ev_swap : swap_ok nswap T s;
  ev_alloc : alloc_ok T {[r]} s;
  ev_pte : pte_ok T X s;
  ev_data : data_ok T {[r]} s;
  ev_trans : translateVA s = T;
  ev_mapped : mapped T r }.

(** ** One turn of the clock's hand *)

(** The state after page [v] has lost its [clocked] bit and gone to the back. *)
Definition declocked (v : vpage_id) (vp : VirtualPage) (tb : gmap table_id page_table)
    (l : list vpage_id) (s : pager) : pager :=
  with_clock_queue (l ++ [v]) (with_tables tb (with_vpages (<[v := vp]> (vpages s)) s)).

Section declock.
Context (T : gmap pid_t (gmap Z vpage_id)) (X : gset vpage_id) (r v : vpage_id) (s : pager).
Context (vp : VirtualPage) (pp : PhysicalPage) (l : list vpage_id) (tb : gmap table_id page_table).
Context (E : evicting T X r s) (Hq : clock_queue s = v :: l).
Context (Hv : vpages s !! v = Some vp) (Hp : physicalPage vp = Some pp).
Let vp1 := set_physicalPage (Some (set_clocked false pp)) vp.
Let s1 := with_vpages (<[v := vp1]> (vpages s)) s.
Let s3 := declocked v vp1 tb l s.
Context (Htb : set_for (affiliated vp1) vp1 s1 tb).

Lemma declock_live : live T s v ∧ v ≠ r ∧ PPN pp ≠ 0.
Proof.
  assert (v ∈ clock_queue s) as Hin by (rewrite Hq; set_solver).
  apply (al_clock _ _ _ (ev_alloc _ _ _ _ E)) in Hin as (? & Hr & vp' & n & Hv' & Hn & pp' & ? & <-).
  simplify_eq. split_and!; [done|set_solver|done].
Qed.

Lemma declock_statics : statics s s1.
Proof. by apply (statics_insert _ _ v vp vp1). Qed.

Lemma declock_maps1 : maps_ok T s1.
Proof.
  eapply maps_frame; [apply E|done|by apply cache_same|apply declock_statics|done..|
    by apply files_same].
Qed.

Lemma declock_lookup w vp' :
  vpages s3 !! w = Some vp' →
  ∃ vp0, vpages s !! w = Some vp0 ∧ static vp' = static vp0 ∧ resident vp' = resident vp0 ∧
    (λ pp, (PPN pp, dirty pp)) <$> physicalPage vp' = (λ pp, (PPN pp, dirty pp)) <$> physicalPage vp0 ∧
    (w ≠ v → vp' = vp0).
Proof.
  cbn. rewrite lookup_insert_Some. intros [[<- <-]|[? ?]]; [|by exists vp'].
  exists vp. split_and!; try done. cbn. by rewrite Hp.
Qed.

Lemma declock_content vp0 vp' :
  static vp' = static vp0 →
  (λ pp, (PPN pp, dirty pp)) <$> physicalPage vp' = (λ pp, (PPN pp, dirty pp)) <$> physicalPage vp0 →
  content s3 vp' = content s vp0 ∧ backing s3 vp' = backing s vp0.
Proof.
  intros [= _ Hsw Hfn Hb] Hpp. assert (backing s3 vp' = backing s vp0) as Hbk.
  { unfold backing, file_of. by rewrite Hsw Hfn Hb. }
  split; [|done]. unfold content.
  destruct (physicalPage vp'), (physicalPage vp0); simplify_eq/=; [|done]. congruence.
Qed.

Lemma declock_moved : moved T r s s3.
Proof.
  destruct declock_live as (Hl & Hne & Hn0). destruct Htb as [Htb1 Htb2].
  split; try done.
  - apply declock_statics.
  - by apply files_same.
  - intros w vp0 vp' _ _ Hw Hw'. destruct (declock_lookup _ _ Hw') as (vp2 & E2 & Hs & _ & Hph & _).
    rewrite Hw in E2. injection E2 as <-. by apply declock_content.
  - intros n b _. unfold file_data. cbn. destruct (cached_at _ n b) as [w|] eqn:Hc; [|done].
    destruct (vpages s !! w) as [vp0|] eqn:Hw.
    + pose proof (declock_statics w) as Hs. cbn in Hs. rewrite Hw in Hs.
      apply fmap_Some in Hs as (vp' & Hw' & Hs'). rewrite Hw'. cbn.
      destruct (declock_lookup w vp') as (vp2 & E2 & Hst & _ & Hph & _); [done|].
      rewrite Hw in E2. injection E2 as <-. by apply declock_content.
    + rewrite lookup_insert_ne; [by rewrite Hw|]. congruence.
  - intros T' HT Hu.
    change (unmapped_ok T' (with_tables tb s1)). eapply unmapped_set_for; [apply declock_maps1|exact Hl| |done|done|].
    + cbn. by rewrite lookup_insert_eq.
    + by apply (unmapped_frame _ s).
Qed.

Lemma declock_alloc : alloc_ok T {[r]} s3.
Proof.
  destruct declock_live as (Hl & Hne & Hn0). pose proof (ev_alloc _ _ _ _ E) as A.
  assert (∀ w vp' n, vpages s3 !! w = Some vp' → occupies vp' n → ∃ vp0, vpages s !! w = Some vp0 ∧ occupies vp0 n) as Hocc.
  { intros w vp' n Hw (Hn & pp' & Hpp & Hpn).
    destruct (declock_lookup _ _ Hw) as (vp0 & Hw0 & _ & _ & Hph & _). exists vp0. split; [done|].
    split; [done|]. rewrite Hpp in Hph. symmetry in Hph.
    apply fmap_Some in Hph as (pp0 & ? & [= ? ?]). exists pp0. split; [done|congruence]. }
  assert (∀ w, w ∈ clock_queue s3 ↔ w ∈ clock_queue s) as Hperm.
  { intros w. cbn. rewrite Hq. set_solver. }
  destruct A as [Acap Acn Afn Afree Aclock Aphys Ainj Acount]. split; try done.
  - cbn. rewrite Hq in Acn. rewrite Permutation_app_comm. done.
  - intros w. rewrite Hperm Aclock. change (live T s3 w) with (live T s w).
    split; intros (Hw & Hr & vp' & n & Hw' & Ho); (split; [done|]; split; [done|]).
    + destruct (decide (w = v)) as [->|].
      * exists vp1, n. simplify_eq. cbn. rewrite lookup_insert_eq. split; [done|].
        destruct Ho as (? & pp' & ? & ?). simplify_eq. by split; [|eexists].
      * exists vp', n. cbn. by rewrite lookup_insert_ne.
    + destruct (Hocc _ _ _ Hw' Ho) as (vp0 & ? & ?). by exists vp0, n.
  - intros w vp' Hw Hw' HX. destruct (declock_lookup _ _ Hw') as (vp0 & Hw0 & Hs & Hres & Hph & Heq).
    destruct (decide (w = v)) as [->|Hwv].
    + simplify_eq. destruct (Aphys v vp Hl Hv HX) as [P1 P2 P3].
      assert (vp' = vp1) as -> by (cbn in Hw'; rewrite lookup_insert_eq in Hw'; congruence).
      split; cbn; [by rewrite P1 Hp| |].
      * intros pp0 [= <-] ?. by apply (P2 pp).
      * intros pp0 [= <-]. done.
    + rewrite Heq //. by destruct (Aphys w vp0 Hw Hw0 HX); split.
  - intros w w' wp wp' n Hw%Hperm Hw'%Hperm Hwp Hwp' Ho Ho'.
    destruct (Hocc _ _ _ Hwp Ho) as (? & ? & ?), (Hocc _ _ _ Hwp' Ho') as (? & ? & ?).
    by eapply (Ainj w w').
  - cbn. rewrite length_app -Acount Hq. cbn. lia.
Qed.

Lemma declock_ok : evicting T X r s3.
Proof.
  destruct declock_live as (Hl & Hne & Hn0). split.
  - eapply maps_frame; [apply E|done|by apply cache_same|apply declock_statics|apply Htb|
    done|done|by apply files_same].
  - eapply swap_frame; [apply E|by apply cache_same|apply declock_statics|done].
  - apply declock_alloc.
  - assert (pte_ok T ({[v]} ∪ X) s1) as H1.
    { eapply pte_frame; [eapply each_weaken; [|apply (ev_pte _ _ _ _ E)]; set_solver|done|].
      intros w vp' HX _ Hw. exists vp'. cbn in Hw. rewrite lookup_insert_ne in Hw; [done|set_solver]. }
    pose proof (pte_close T _ s1 v vp1 tb declock_maps1 H1 Hl) as H2.
    cbn in H2. rewrite lookup_insert_eq in H2. specialize (H2 eq_refl Htb).
    change (pte_ok T X (with_tables tb s1)). eapply each_weaken; [|exact H2]. set_solver.
  - destruct (ev_data _ _ _ _ E) as [D0 D]. split; [done|].
    intros w vp' Hw Hw' HX. destruct (declock_lookup _ _ Hw') as (vp0 & Hw0 & Hs & _ & Hph & _).
    destruct (declock_content vp0 vp' Hs Hph) as [_ Hb].
    destruct (D w vp0 Hw Hw0 HX) as [D1 D2 D3]. injection Hs as _ Hsw _ _.
    split; rewrite Hb.
    + intros pp' Hpp Hn Hd. rewrite Hpp in Hph. symmetry in Hph.
      apply fmap_Some in Hph as (pp0 & Hp0 & [= E1 E2]). rewrite E1 in Hn |- *. rewrite E2 in Hd. by apply D1.
    + rewrite Hsw. intros Hsw' Hn. apply D2; [done|]. rewrite Hn in Hph. by destruct (physicalPage vp0).
    + rewrite Hsw. intros pp' Hsw' Hpp. rewrite Hpp in Hph. symmetry in Hph.
      apply fmap_Some in Hph as (pp0 & Hp0 & _). by apply (D3 pp0).
  - apply E.
  - apply E.
Qed.

End declock.

(** [remove_from_filename_block] *)
Lemma remove_ok v vp b (Q : unit → pager → Prop) s :
  vpages s !! v = Some vp → head (blocks vp) = Some b →
  (∀ C, (∀ n b', cached_at C n b' = if decide ((n, b') = (filename vp, b)) then None
                                    else cached_at (filename_block_to_vpage s) n b') →
        Q tt (with_filename_block_to_vpage C s)) →
  wp (remove_from_filename_block v) Q s.
Proof.
  intros Hv Hb HQ. unfold remove_from_filename_block.
  eapply pg_bind, pg_get_vpage; [done|]. apply pg_bind. eapply pg_deref; [done|].
  apply pg_bind, pg_modify, pg_bind, pg_gets. cbn.
  set (C := filename_block_to_vpage s) in *. set (m := delete b (default ∅ (C !! filename vp))).
  assert (∀ n b', cached_at (<[filename vp := m]> C) n b' =
            if decide ((n, b') = (filename vp, b)) then None else cached_at C n b') as HC.
  { intros n b'. unfold cached_at. destruct (decide (n = filename vp)) as [->|Hne].
    - rewrite lookup_insert_eq /=. unfold m. destruct (decide (b' = b)) as [->|].
      + by rewrite decide_True // lookup_delete_eq.
      + rewrite decide_False; [|congruence]. rewrite lookup_delete_ne //.
        by destruct (C !! filename vp).
    - rewrite lookup_insert_ne // decide_False //. congruence. }
  case_bool_decide as Hm; [|by apply HQ]. apply pg_modify, HQ.
  intros n b'. rewrite -HC. unfold cached_at. destruct (decide (n = filename vp)) as [->|].
  - by rewrite lookup_delete_eq Hm.
  - by rewrite lookup_delete_ne.
Qed.

(** Different pages have their data in different blocks. *)
Lemma file_key T s v vp :
  maps_ok T s → live T s v → vpages s !! v = Some vp → isSwap vp = false →
  ∃ b, blocks vp = [b] ∧
       (cached_at (filename_block_to_vpage s) (filename vp) b = Some v ∨
        file_read (Some (filename vp)) b (files s) = None).
Proof.
  intros M [Hm|(n & b & Hc)] Hv Hsw; [by eapply ma_file|].
  destruct (ma_cached _ _ M _ _ _ Hc) as (vp' & ? & _ & <- & ?). simplify_eq.
  exists b. auto.
Qed.

Lemma keys_distinct T s v w vp wp b b' :
  maps_ok T s → swap_ok nswap T s → live T s v → live T s w → v ≠ w →
  vpages s !! v = Some vp → vpages s !! w = Some wp →
  head (blocks vp) = Some b → head (blocks wp) = Some b' →
  (isSwap vp = false → is_Some (backing s vp)) →
  (file_of wp, b') ≠ (file_of vp, b).
Proof.
  intros M S Hlv Hlw Hne Hv Hw Hb Hb' Hacc [= Hf ->]. unfold file_of in Hf.
  destruct (isSwap vp) eqn:Hsv, (isSwap wp) eqn:Hsw; try done.
  - apply Hne. apply (sw_disjoint _ _ _ S v w vp wp b); try done.
    + destruct (blocks vp); simplify_eq/=; set_solver.
    + destruct (blocks wp); simplify_eq/=; set_solver.
  - injection Hf as Hf.
    destruct (file_key _ _ _ _ M Hlv Hv Hsv) as (b1 & Hb1 & Hc1).
    destruct (file_key _ _ _ _ M Hlw Hw Hsw) as (b2 & Hb2 & Hc2).
    rewrite Hb1 in Hb. rewrite Hb2 in Hb'. simplify_eq/=.
    destruct (Hacc eq_refl) as [q Hq]. unfold backing, file_of in Hq.
    rewrite Hb1 Hsv /= in Hq. rewrite Hf in Hc2.
    destruct Hc1 as [Hc1|]; [|congruence]. destruct Hc2 as [Hc2|]; congruence.
Qed.

(** ** The hand stops *)

Definition phys_kept (s s' : pager) : Prop :=
  ∀ w, (λ vp, (λ pp, (PPN pp, dirty pp)) <$> physicalPage vp) <$> vpages s' !! w =
       (λ vp, (λ pp, (PPN pp, dirty pp)) <$> physicalPage vp) <$> vpages s !! w.

(** Page [v] has not been used since the hand last passed it. *)
Definition unclocked (s : pager) (v : vpage_id) : Prop :=
  ∃ vp pp, vpages s !! v = Some vp ∧ physicalPage vp = Some pp ∧ clocked pp = false.

Definition has_clocked (s : pager) (v : vpage_id) : Prop :=
  ∃ vp pp, vpages s !! v = Some vp ∧ physicalPage vp = Some pp ∧ clocked pp = true.

(** The hand has passed the first pages of [l1], which had been used, and
    stopped; [l2] are those it had passed before. *)
Definition turned (l1 l2 : list vpage_id) (s s' : pager) : Prop :=
  ∃ lc ld, l1 = lc ++ ld ∧ clock_queue s' = ld ++ l2 ++ lc ∧ (∀ w, w ∈ lc → has_clocked s w) ∧
    (∀ w, w ∈ ld → vpages s' !! w = vpages s !! w).

Lemma turned_once v l1 l2 vp s s1 s' :
  v ∉ l1 → vpages s1 = <[v := vp]> (vpages s) → unclocked s1 v → has_clocked s v →
  turned l1 (l2 ++ [v]) s1 s' → turned (v :: l1) l2 s s'.
Proof.
  intros Hnot Hs1 Hun Hv (lc & ld & -> & Hq & Hlc & Hld).
  assert (∀ w, w ≠ v → vpages s1 !! w = vpages s !! w) as Hw by (intros w ?; by rewrite Hs1 lookup_insert_ne).
  exists (v :: lc), ld. split; [done|]. split; [by rewrite Hq -!app_assoc|]. split.
  - intros w [->|Hin]%elem_of_cons; [done|]. destruct (Hlc w Hin) as (wp & pp & Hwp & Hpp). exists wp, pp.
    rewrite -Hw //. intros ->. apply Hnot, elem_of_app. by left.
  - intros w Hin. rewrite Hld // Hw //. intros ->. apply Hnot, elem_of_app. by right.
Qed.

Lemma pg_lock_front v l (Q : vpage_id → pager → Prop) s :
  clock_queue s = v :: l → live (translateVA s) s v → Q v s → wp lock_front Q s.
Proof.
  intros Hq Hl HQ. apply pg_bind, pg_gets. rewrite Hq. apply pg_bind, (pg_deref _ v); [done|].
  apply pg_bind, pg_lock; [by apply owned_live|]. by apply (pg_deref _ v).
Qed.

Lemma pg_pop_front_clock v l (Q : unit → pager → Prop) s :
  clock_queue s = v :: l → Q tt (with_clock_queue l s) → wp pop_front_clock Q s.
Proof. intros Hq HQ. apply pg_bind, pg_gets. by rewrite Hq. Qed.

Lemma declock_kept r s v vp pp l tb :
  vpages s !! v = Some vp → physicalPage vp = Some pp → v ≠ r →
  let s' := declocked v (set_physicalPage (Some (set_clocked false pp)) vp) tb l s in
  phys_kept s s' ∧ vpages s' !! r = vpages s !! r ∧ unclocked s' v ∧
  ∀ w, unclocked s w → unclocked s' w.
Proof.
  intros Hv Hp Hne. cbn. split_and!.
  - intros w. cbn. destruct (decide (w = v)) as [->|].
    + by rewrite lookup_insert_eq Hv /= Hp.
    + by rewrite lookup_insert_ne.
  - by rewrite lookup_insert_ne.
  - do 2 eexists. by rewrite /= lookup_insert_eq.
  - intros w Hw. unfold unclocked. cbn. destruct (decide (w = v)) as [->|].
    + do 2 eexists. by rewrite lookup_insert_eq.
    + by rewrite lookup_insert_ne.
Qed.

Lemma find_victim_ok T X r fuel l1 l2 (Q : unit → pager → Prop) s :
  evicting T X r s → clock_queue s = l1 ++ l2 → clock_queue s ≠ [] →
  (∀ w, w ∈ l2 → unclocked s w) → (length l1 < fuel)%nat →
  (∀ s' v l, evicting T X r s' → moved T r s s' → phys_kept s s' →
     vpages s' !! r = vpages s !! r → next_free_PPN s' = next_free_PPN s →
     clock_queue s' = v :: l → unclocked s' v → turned l1 l2 s s' → Q tt s') →
  wp (find_victim fuel) Q s.
Proof.
  intros E Hq Hne Hl2 Hfuel HQ. revert s l1 l2 E Hq Hne Hl2 Hfuel HQ.
  induction fuel as [|fuel IH]; intros s l1 l2 E Hq Hne Hl2 Hfuel HQ; [lia|]. cbn [find_victim].
  destruct (clock_queue s) as [|v l] eqn:Eq; [done|].
  assert (v ∈ clock_queue s) as Hin by (rewrite Eq; set_solver).
  apply (al_clock _ _ _ (ev_alloc _ _ _ _ E)) in Hin as (Hl & Hr & vp & n & Hv & Hn & pp & Hp & <-).
  assert (v ≠ r) as Hvr by set_solver.
  apply pg_bind. eapply pg_lock_front; [done|by rewrite (ev_trans _ _ _ _ E)|].
  eapply pg_bind, pg_get_phys; [done..|]. destruct (clocked pp) eqn:Hc.
  2:{ apply pg_ret. eapply HQ; [done|apply moved_refl|done|done|done|done|by exists vp, pp|].
      exists [], l1. rewrite app_nil_r Eq. split; [done|]. split; [done|]. by split; [intros ? ?%elem_of_nil|]. }
  destruct l1 as [|v' l1].
  { cbn in Hq. destruct (Hl2 v) as (? & ? & ? & ? & ?); [rewrite -Hq; set_solver|]. congruence. }
  injection Hq as <- ->. eapply pg_bind, pg_modify_phys; [done..|].
  set (vp1 := set_physicalPage (Some (set_clocked false pp)) vp).
  set (s1 := with_vpages (<[v := vp1]> (vpages s)) s).
  assert (vpages s1 !! v = Some vp1) as Hv1 by (cbn; by rewrite lookup_insert_eq).
  eapply pg_bind, pg_get_vpage; [exact Hv1|]. apply pg_bind.
  enough (∀ tb, set_for (affiliated vp1) vp1 s1 tb →
            wp (pop_front_clock ;; push_back_clock v ;; find_victim fuel) Q (with_tables tb s1)) as Hgo.
  { apply pg_when.
    - intros Haff%bool_decide_eq_true. pose proof (declock_maps1 T X r v s vp pp E Hv) as M1.
      eapply updatePTEs_ok; [exact Hv1|exact Haff| | | |].
      + intros p Hpin. by eapply (aff_pte T s1 v vp1).
      + intros _. by eexists.
      + intros _ Hsw. symmetry. by apply (sw_length _ _ _ (ev_swap _ _ _ _ E) v vp).
      + exact Hgo.
    - intros Haff%bool_decide_eq_false. specialize (Hgo (tables s1)).
      apply dec_stable in Haff. cbn in Haff. change (affiliated vp1) with (affiliated vp) in Hgo.
      rewrite Haff in Hgo. destruct s. apply Hgo. by split. }
  intros tb Htb. apply pg_bind. eapply pg_pop_front_clock; [exact Eq|].
  apply pg_bind, pg_modify. change (with_clock_queue _ _) with (declocked v vp1 tb (l1 ++ l2) s).
  destruct (declock_kept r s v vp pp (l1 ++ l2) tb Hv Hp Hvr) as (Hk & Hkr & Hun & Huns).
  pose proof (declock_moved T X r v s vp pp (l1 ++ l2) tb E Eq Hv Hp Htb) as Hmv.
  eapply (IH _ l1 (l2 ++ [v])); [by apply (declock_ok T X)| | | |cbn in Hfuel; lia|].
  - cbn. by rewrite -app_assoc.
  - cbn. by destruct (l1 ++ l2).
  - intros w [Hw| ->%list_elem_of_singleton]%elem_of_app; [by apply Huns, Hl2|done].
  - intros s' w l E' M' K' Hr' Hf' Hq' Hu' Ht'. eapply HQ; [done|by eapply moved_trans| | | |done|done|].
    + intros x. by rewrite K'.
    + by rewrite Hr'.
    + by rewrite Hf'.
    + apply (turned_once v l1 l2 vp1 s (declocked v vp1 tb (l1 ++ l2) s)); [|done|exact Hun|by exists vp, pp|exact Ht'].
      pose proof (al_clock_nodup _ _ _ (ev_alloc _ _ _ _ E)) as Hnd. rewrite Eq in Hnd.
      apply NoDup_cons in Hnd as [Hnot _]. intros Hin. apply Hnot, elem_of_app. by left.
Qed.

End evict.
