(* ===== verification/PagerPlace.v ===== *)
(** * A physical page for a virtual page

    [evict_and_replace] in steps that each keep [evicting]: the victim is written,
    the replacement is prepared, the victim loses its physical page, the
    replacement takes it; [give_new_ppn] takes a free one when there is one. *)

From S2P Require Import Prelude PagerTypes Pager PagerInv PagerPtes PagerFrame PagerEvict.

Section place.
Context `{F : Files} `{Tr : Traversal} (nswap : Z) `{FL : !FilesLaws nswap}.
Abbreviation evicting := (evicting nswap).

Lemma backing_key s s' vp vp' b :
  head (blocks vp) = Some b → blocks vp' = blocks vp → file_of vp' = file_of vp →
  file_read (file_of vp) b (files s') = file_read (file_of vp) b (files s) →
  backing s' vp' = backing s vp.
Proof. unfold backing. intros Hb -> -> Hf. by rewrite Hb /= Hf. Qed.

(** ** The victim is written *)

Section write.
Context (T : gmap pid_t (gmap Z vpage_id)) (X : gset vpage_id) (r v : vpage_id) (s : pager).
Context (vp : VirtualPage) (pp : PhysicalPage) (b : Z) (f : store).
Context (E : evicting T X r s).
Context (Hl : live T s v) (Hvr : v ≠ r) (Hv : vpages s !! v = Some vp).
Context (Hp : physicalPage vp = Some pp) (Hn : PPN pp ≠ 0) (Hb : head (blocks vp) = Some b).
Context (Hf : file_write (file_of vp) b (vm_physmem s (PPN pp)) (files s) = Some f).
Let s' := with_files f s.

Lemma write_acc : isSwap vp = false → is_Some (backing s vp).
Proof.
  intros Hs. eapply (dv_file _ _ (da_each _ _ _ (ev_data _ _ _ _ _ E) v vp Hl Hv _)); [done|exact Hp].
  Unshelve. set_solver.
Qed.

Lemma write_backing w wp :
  live T s w → vpages s !! w = Some wp →
  backing s' wp = if decide (w = v) then Some (vm_physmem s (PPN pp)) else backing s wp.
Proof.
  intros Hw Hwp. destruct (decide (w = v)) as [->|Hne].
  - simplify_eq. unfold backing. rewrite Hb /=. by eapply read_written.
  - unfold backing. destruct (head (blocks wp)) as [b'|] eqn:Hb'; [|done]. cbn.
    eapply read_other; [done|].
    eapply (keys_distinct nswap T s v w); [apply E|apply E|done..|exact write_acc].
Qed.

Lemma write_content w wp :
  live T s w → vpages s !! w = Some wp → content s' wp = content s wp.
Proof.
  intros Hw Hwp. unfold content. destruct (physicalPage wp) as [pp'|] eqn:Hpw; [done|].
  rewrite (write_backing w) //. destruct (decide (w = v)); [|done]. congruence.
Qed.

Lemma write_other n b' :
  cached_at (filename_block_to_vpage s) n b' = None →
  file_read (Some n) b' f = file_read (Some n) b' (files s).
Proof.
  intros Hc. eapply read_other; [done|]. intros [= Hn' ->]. unfold file_of in Hn'.
  destruct (isSwap vp) eqn:Hs; [done|]. injection Hn' as ->.
  destruct (file_key _ _ _ _ (ev_maps _ _ _ _ _ E) Hl Hv Hs) as (b1 & Hb1 & Hor).
  destruct (write_acc Hs) as [q Hq]. unfold backing, file_of in Hq. rewrite Hb1 Hs /= in Hq.
  pose proof Hb as Hb2. rewrite Hb1 in Hb2. injection Hb2 as ->. destruct Hor; congruence.
Qed.

Lemma write_kept : files_kept s s'.
Proof.
  intros n b' Hno. cbn. destruct (decide ((Some n, b') = (file_of vp, b))) as [[= Hn' ->]|Hne].
  - exfalso. unfold file_of in Hn'. destruct (isSwap vp) eqn:Hs; [done|].
    destruct (write_acc Hs) as [q Hq]. unfold backing, file_of in Hq. rewrite Hb Hs /= in Hq.
    congruence.
  - by erewrite read_other.
Qed.

Lemma write_data n b' : file_data s' n b' = file_data s n b'.
Proof.
  unfold file_data. cbn. destruct (cached_at _ n b') as [w|] eqn:Hc; [|by apply write_other].
  destruct (vpages s !! w) as [wp|] eqn:Hw; [|done]. cbn.
  apply (write_content w); [|done]. right. by exists n, b'.
Qed.

Lemma write_moved : moved T r s s'.
Proof.
  split; try done.
  - apply write_kept.
  - intros w wp wp' Hw _ Hwp Hwp'. cbn in Hwp'. simplify_eq. by apply (write_content w).
  - intros rp Hr. rewrite (write_backing r) //; [|by left; apply E]. by rewrite decide_False.
  - intros n b' _. apply write_data.
Qed.

Lemma write_ok : evicting T X r s'.
Proof.
  split; [| | | | |apply E|apply E].
  - eapply maps_frame; [apply E|done|by apply cache_same|done|done|done|done|apply write_kept].
  - by eapply swap_frame; [apply E|apply cache_same| |].
  - by eapply alloc_frame; [apply E|..].
  - by eapply pte_frame_same; [apply E|..].
  - destruct (ev_data _ _ _ _ _ E) as [D0 D]. split; [done|].
    intros w wp Hw Hwp HX. change (vpages s !! w = Some wp) in Hwp.
    specialize (D w wp Hw Hwp HX). destruct D as [D1 D2 D3].
    split; cbn.
    + intros pp' Hpp Hn' Hd. rewrite (write_backing w) //. destruct (decide (w = v)) as [->|].
      * by simplify_eq.
      * by apply D1.
    + intros ??. rewrite (write_backing w) //. destruct (decide (w = v)); [by eexists|by apply D2].
    + intros ???. rewrite (write_backing w) //. destruct (decide (w = v)); [by eexists|by eapply D3].
Qed.

End write.

(** ** The replacement is prepared *)

Section hole.
Context (T : gmap pid_t (gmap Z vpage_id)) (X : gset vpage_id) (r : vpage_id) (s : pager).
Context (rp rp' : VirtualPage) (E : evicting T X r s) (HX : r ∈ X).
Context (Hr : vpages s !! r = Some rp) (Hst : static rp' = static rp).
Let s' := with_vpages (<[r := rp']> (vpages s)) s.

Lemma hole_statics : statics s s'.
Proof. by apply (statics_insert _ _ r rp rp'). Qed.

Lemma hole_lookup w : w ≠ r → vpages s' !! w = vpages s !! w.
Proof. intros ?. cbn. by rewrite lookup_insert_ne. Qed.

Lemma hole_moved : moved T r s s'.
Proof.
  split; try done.
  - apply hole_statics.
  - by apply files_same.
  - intros w wp wp' _ Hne Hw Hw'. rewrite hole_lookup // in Hw'. by simplify_eq.
  - intros n b Hc. unfold file_data. cbn. destruct (cached_at _ n b) as [w|] eqn:Hc'; [|done].
    rewrite lookup_insert_ne; [done|congruence].
Qed.

Lemma hole_ok : evicting T X r s'.
Proof.
  assert (∀ w, w ∉ ({[r]} : gset vpage_id) → vpages s' !! w = vpages s !! w) as Hw.
  { intros w ?. apply hole_lookup. set_solver. }
  split; [| | | | |apply E|apply E].
  - eapply maps_frame; [apply E|done|by apply cache_same|apply hole_statics|done..|by apply files_same].
  - by eapply swap_frame; [apply E|apply cache_same|apply hole_statics|].
  - by eapply alloc_frame; [apply E|..].
  - eapply pte_frame_same; [apply E|done| |done]. intros w ?. apply Hw. set_solver.
  - destruct (ev_data _ _ _ _ _ E) as [D0 D]. split; [done|]. intros w wp Hlw Hwp HX'.
    rewrite Hw // in Hwp. by destruct (D w wp Hlw Hwp HX').
Qed.

(** Its entries are written. *)
Lemma retabled_moved tb :
  set_for (affiliated rp') rp' s' tb → moved T r s (with_tables tb s').
Proof.
  intros Htb. eapply moved_trans; [apply hole_moved|]. destruct Htb as [Htb1 Htb2].
  split; try done.
  - by apply files_same.
  - intros w wp wp' _ _ ??. by simplify_eq/=.
  - intros T' HT Hu. eapply unmapped_set_for; [apply hole_ok|left; apply E| |done|done|done].
    cbn. by rewrite lookup_insert_eq.
Qed.

Lemma retabled_ok tb :
  set_for (affiliated rp') rp' s' tb → evicting T X r (with_tables tb s').
Proof.
  intros [Htb1 Htb2]. pose proof hole_ok as H. split; [| | | | |apply E|apply E].
  - eapply maps_frame; [apply H|done|by apply cache_same|done|done|done|done|by apply files_same].
  - by eapply swap_frame; [apply H|apply cache_same| |].
  - by eapply alloc_frame; [apply H|..].
  - eapply pte_frame; [apply H|done|]. intros w wp HXw Hlw Hwp. exists wp. split_and!; try done.
    intros p Hp. rewrite Htb1. rewrite decide_False; [done|]. intros Hp'. apply HXw.
    enough (w = r) by set_solver. eapply (aff_disjoint T s' w r wp rp' p); try done; [apply H|left; apply E|].
    cbn. by rewrite lookup_insert_eq.
  - destruct (ev_data _ _ _ _ _ H) as [D0 D]. split; [done|]. intros w wp Hlw Hwp HX'.
    by destruct (D w wp Hlw Hwp HX').
Qed.

End hole.

(** ** The victim loses its physical page *)

(** It is free until the replacement takes it. *)
Definition unplaced (v : vpage_id) (vp : VirtualPage) (n : Z) (l : list vpage_id)
    (tb : gmap table_id page_table) (C : gmap string (gmap Z vpage_id)) (s : pager) : pager :=
  with_filename_block_to_vpage C (with_tables tb
    (with_clock_queue l (with_next_free_PPN (n :: next_free_PPN s)
      (with_vpages (<[v := set_physicalPage None (set_resident false vp)]> (vpages s)) s)))).

(** A page of a file without addresses leaves the cache. *)
Definition dropped (vp : VirtualPage) : bool :=
  negb (isSwap vp) && (length (affiliated vp) =? 0)%nat.

Lemma dropped_true vp n (b b' : Z) :
  dropped vp && bool_decide ((n, b') = (filename vp, b)) = true →
  isSwap vp = false ∧ affiliated vp = [] ∧ n = filename vp ∧ b' = b.
Proof.
  unfold dropped. intros [[? Hl]%andb_true_iff [= -> ->]%bool_decide_eq_true]%andb_true_iff.
  by apply negb_true_iff in H; apply Nat.eqb_eq, nil_length_inv in Hl.
Qed.

Lemma front_live T X r v s vp pp l :
  evicting T X r s → clock_queue s = v :: l → vpages s !! v = Some vp →
  physicalPage vp = Some pp → live T s v ∧ v ≠ r ∧ PPN pp ≠ 0 ∧ phys_ok s vp.
Proof.
  intros E Hq Hv Hp. assert (v ∈ clock_queue s) as Hin by (rewrite Hq; set_solver).
  apply (al_clock _ _ _ (ev_alloc _ _ _ _ _ E)) in Hin as (? & Hr & vp' & n & Hv' & Hn & pp' & ? & <-).
  simplify_eq. split_and!; [done|set_solver|done|].
  by apply (al_phys _ _ _ (ev_alloc _ _ _ _ _ E) v).
Qed.

Section unplace.
Context (T : gmap pid_t (gmap Z vpage_id)) (X : gset vpage_id) (r v : vpage_id) (s : pager).
Context (vp : VirtualPage) (pp : PhysicalPage) (b : Z) (l : list vpage_id).
Context (tb : gmap table_id page_table) (C : gmap string (gmap Z vpage_id)).
Context (E : evicting T X r s) (Hq : clock_queue s = v :: l).
Context (Hv : vpages s !! v = Some vp) (Hp : physicalPage vp = Some pp) (Hb : head (blocks vp) = Some b).
Context (Hbk : backing s vp = Some (vm_physmem s (PPN pp))).
Let vp0 := set_physicalPage None (set_resident false vp).
Let s1 := with_vpages (<[v := vp0]> (vpages s)) s.
Context (Htb : set_for (affiliated vp0) vp0 s1 tb).
Context (HC : ∀ n b', cached_at C n b' =
  if dropped vp && bool_decide ((n, b') = (filename vp, b)) then None
  else cached_at (filename_block_to_vpage s) n b').
Let s' := unplaced v vp (PPN pp) l tb C s.

Lemma unplace_live : live T s v ∧ v ≠ r ∧ PPN pp ≠ 0 ∧ phys_ok s vp.
Proof. exact (front_live T X r v s vp pp l E Hq Hv Hp). Qed.

(** A page of a file in memory is in the cache. *)
Lemma unplace_cached :
  isSwap vp = false → cached_at (filename_block_to_vpage s) (filename vp) b = Some v.
Proof.
  intros Hs. destruct unplace_live as (Hl & _).
  destruct (file_key _ _ _ _ (ev_maps _ _ _ _ _ E) Hl Hv Hs) as (b1 & Hb1 & Hor).
  pose proof Hb as Hb2. rewrite Hb1 in Hb2. injection Hb2 as ->.
  pose proof Hbk as Hbk2. unfold backing, file_of in Hbk2. rewrite Hb1 Hs /= in Hbk2.
  destruct Hor; congruence.
Qed.

Lemma unplace_statics : statics s s'.
Proof. by apply (statics_insert _ _ v vp vp0). Qed.

Lemma unplace_cache : cache_shrinks T s s'.
Proof.
  destruct unplace_live as (Hl & _). split; cbn; intros n b' w.
  - rewrite HC. by destruct (_ && _).
  - intros Hm Hc. rewrite HC. destruct (dropped vp && _) eqn:Ed; [|done]. exfalso.
    apply dropped_true in Ed as (Hs & Ha & -> & ->).
    rewrite unplace_cached // in Hc. injection Hc as <-.
    by apply (aff_mapped T s v vp) in Hm; [|apply E|..].
Qed.

Lemma unplace_still w : live T s w → w ≠ v → live T s' w.
Proof.
  intros [Hm|(n & b' & Hc)] Hne; [by left|]. right. exists n, b'. cbn. rewrite HC.
  destruct (dropped vp && _) eqn:Ed; [|done]. apply dropped_true in Ed as (Hs & _ & -> & ->).
  rewrite unplace_cached // in Hc. congruence.
Qed.

Lemma unplace_maps1 : maps_ok T s1.
Proof.
  eapply maps_frame; [apply E|done|by apply cache_same|exact unplace_statics|done..|by apply files_same].
Qed.

Lemma unplace_lookup w : w ≠ v → vpages s' !! w = vpages s !! w.
Proof. intros ?. cbn. by rewrite lookup_insert_ne. Qed.

Lemma unplace_victim : vpages s' !! v = Some vp0.
Proof. cbn. by rewrite lookup_insert_eq. Qed.

Lemma unplace_moved : moved T r s s'.
Proof.
  destruct unplace_live as (Hl & Hvr & Hn & _). split; try done.
  - apply unplace_statics.
  - apply unplace_cache.
  - by apply files_same.
  - apply Htb.
  - intros w wp wp' Hw _ Hwp Hwp'. destruct (decide (w = v)) as [->|Hne].
    + rewrite unplace_victim in Hwp'. simplify_eq. unfold content at 2. rewrite Hp. exact Hbk.
    + rewrite unplace_lookup // in Hwp'. by simplify_eq.
  - intros n b' _. unfold file_data. cbn. rewrite HC.
    destruct (dropped vp && _) eqn:Ed.
    + apply dropped_true in Ed as (Hs & _ & -> & ->). rewrite unplace_cached // Hv /=.
      unfold content. rewrite Hp -Hbk /backing Hb /= /file_of. by rewrite Hs.
    + destruct (cached_at _ n b') as [w|] eqn:Hc; [|done]. destruct (decide (w = v)) as [->|Hne].
      * rewrite lookup_insert_eq Hv /=. unfold content at 2. rewrite Hp. exact Hbk.
      * by rewrite lookup_insert_ne.
  - intros T' HT Hu. change (unmapped_ok T' (with_tables tb s1)).
    eapply unmapped_set_for; [exact unplace_maps1|exact Hl| |exact Htb|done|].
    + cbn. by rewrite lookup_insert_eq.
    + by apply (unmapped_frame _ s).
Qed.

Lemma unplace_alloc : alloc_ok T {[r]} s'.
Proof.
  destruct unplace_live as (Hl & Hvr & Hn & [_ Hrange _]).
  destruct (Hrange pp Hp Hn) as [Hr Hnf].
  pose proof (ev_alloc _ _ _ _ _ E) as [A1 A2 A3 A4 A5 A6 A7 A8]. rewrite Hq in A2, A8.
  apply NoDup_cons in A2 as [Hvl Hnd].
  assert (∀ w, w ∈ l → w ∈ clock_queue s ∧ w ≠ v) as Hin.
  { intros w ?. rewrite Hq. split; [set_solver|]. by intros ->. }
  assert (∀ w wp, live T s' w → w ≠ r → vpages s' !! w = Some wp → ∀ n, occupies wp n →
            w ∈ clock_queue s ∧ w ≠ v ∧ vpages s !! w = Some wp) as Hocc.
  { intros w wp Hw Hwr Hwp n Ho. destruct (decide (w = v)) as [->|Hne].
    - rewrite unplace_victim in Hwp. simplify_eq. by destruct Ho as (_ & ? & ? & _).
    - rewrite unplace_lookup // in Hwp. split_and!; [|done|done]. apply A5.
      split; [eapply cache_live; [apply unplace_cache|done]|]. split; [set_solver|]. by exists wp, n. }
  split; try done.
  - cbn. by apply NoDup_cons.
  - cbn. intros n [->|?]%elem_of_cons; [done|by apply A4].
  - intros w. cbn [unplaced clock_queue with_clock_queue with_next_free_PPN with_tables
      with_filename_block_to_vpage]. split.
    + intros Hw. destruct (Hin w Hw) as [Hc Hne]. apply A5 in Hc as (Hlw & HX & wp & n & Hwp & Ho).
      split; [by apply unplace_still|]. split; [done|]. exists wp, n. by rewrite unplace_lookup.
    + intros (Hw & HX & wp & n & Hwp & Ho).
      destruct (Hocc w wp Hw ltac:(set_solver) Hwp n Ho) as (Hc & Hne & _). rewrite Hq in Hc. set_solver.
  - intros w wp Hw Hwp HX. destruct (decide (w = v)) as [->|Hne].
    + rewrite unplace_victim in Hwp. injection Hwp as <-. by split.
    + rewrite unplace_lookup // in Hwp.
      destruct (A6 w wp) as [P1 P2 P3]; [eapply cache_live; [apply unplace_cache|done]|done|done|].
      split; [done| |done]. intros pp' Hpp Hn'. destruct (P2 pp' Hpp Hn') as [? Hnf']. split; [done|].
      cbn. apply not_elem_of_cons. split; [|done]. intros Heq. apply Hne.
      assert (w ∈ clock_queue s) as Hwc.
      { apply A5. split; [eapply cache_live; [apply unplace_cache|done]|]. split; [done|].
        exists wp, (PPN pp'). split; [done|]. split; [done|]. by exists pp'. }
      apply (A7 w v wp vp (PPN pp)); [done|rewrite Hq; set_solver|done|done| |].
      * split; [congruence|]. by exists pp'.
      * split; [done|]. by exists pp.
  - intros w w' wp wp' n Hw Hw' Hwp Hwp' Ho Ho'.
    destruct (Hin w Hw), (Hin w' Hw'). rewrite !unplace_lookup // in Hwp, Hwp'. by eapply (A7 w w').
  - cbn in *. lia.
Qed.

Lemma unplace_ok : evicting T X r s'.
Proof.
  destruct unplace_live as (Hl & Hvr & Hn & _).
  assert (∀ w, live T s' w → live T s w) as Hsub by (intros w; apply cache_live, unplace_cache).
  split; [| | | | |apply E|apply E].
  - eapply maps_frame; [apply E|done|exact unplace_cache|exact unplace_statics|apply Htb|done|done|
      by apply files_same].
  - by eapply swap_frame; [apply E|exact unplace_cache|exact unplace_statics|].
  - apply unplace_alloc.
  - assert (pte_ok T ({[v]} ∪ X) s1) as H1.
    { eapply pte_frame_same; [eapply each_weaken; [|apply (ev_pte _ _ _ _ _ E)]; set_solver|done| |done].
      intros w ?. cbn. rewrite lookup_insert_ne; [done|set_solver]. }
    assert (vpages s1 !! v = Some vp0) as Hv1 by (cbn; by rewrite lookup_insert_eq).
    pose proof (pte_close T _ s1 v vp0 tb unplace_maps1 H1 Hl Hv1 Htb) as H2.
    assert (pte_ok T X (with_tables tb s1)) as H3 by (eapply each_weaken; [|exact H2]; set_solver).
    eapply pte_frame_same; [exact H3|exact Hsub|done|done].
  - destruct (ev_data _ _ _ _ _ E) as [D0 D]. split; [done|]. intros w wp Hw Hwp HX.
    destruct (decide (w = v)) as [->|Hne].
    + rewrite unplace_victim in Hwp. injection Hwp as <-. split; [done| |done].
      intros _ _. change (is_Some (backing s vp)). by rewrite Hbk.
    + rewrite unplace_lookup // in Hwp. by destruct (D w wp (Hsub w Hw) Hwp HX).
Qed.

End unplace.

(** ** The replacement takes a free page *)

(** A page with physical page [n], just given to it. *)
Definition with_ppn (n : Z) (vp : VirtualPage) : VirtualPage :=
  set_resident true (set_physicalPage (Some (mk_PhysicalPage n true false)) vp).

Lemma place_alloc T r s rp n free :
  alloc_ok T {[r]} s → live T s r → vpages s !! r = Some (with_ppn n rp) →
  next_free_PPN s = n :: free →
  alloc_ok T ∅ (with_clock_queue (clock_queue s ++ [r]) (with_next_free_PPN free s)).
Proof.
  intros [A1 A2 A3 A4 A5 A6 A7 A8] Hl Hr Hf. set (s' := with_clock_queue _ _).
  rewrite Hf in A3, A4, A8. apply NoDup_cons in A3 as [Hnf Hnd].
  assert (1 ≤ n < mem_pages_cap s) as Hn by (apply A4; set_solver).
  assert (r ∉ clock_queue s) as Hrc by (intros (_ & HX & _)%A5; set_solver).
  assert (occupies (with_ppn n rp) n) as Ho by (split; [lia|by eexists]).
  assert (∀ w wp, w ∈ clock_queue s → vpages s !! w = Some wp → ¬ occupies wp n) as Hno.
  { intros w wp Hw Hwp (Hn0 & pp & Hp & <-). apply A5 in Hw as (Hlw & HX & _).
    destruct (ph_range _ _ (A6 w wp Hlw Hwp HX) pp Hp Hn0) as [_ Hnot]. rewrite Hf in Hnot. set_solver. }
  split; try done.
  - cbn. apply NoDup_app. split; [done|]. split; [|apply NoDup_singleton]. set_solver.
  - intros m Hm. apply A4. set_solver.
  - intros w. cbn. rewrite elem_of_app list_elem_of_singleton A5. split.
    + intros [(Hw & HX & ?)| ->]; [by split_and!|]. split_and!; [done|set_solver|].
      by exists (with_ppn n rp), n.
    + intros (Hw & _ & ?). destruct (decide (w = r)); [by right|left]. split_and!; [done|set_solver|done].
  - intros w wp Hw Hwp _. destruct (decide (w = r)) as [->|Hne].
    + change (vpages s !! r = Some wp) in Hwp. rewrite Hr in Hwp. injection Hwp as <-.
      split; cbn; [done| |]; intros pp [= <-] Hz; cbn in *; [done|lia].
    + destruct (A6 w wp Hw Hwp ltac:(set_solver)) as [P1 P2 P3]. split; [done| |done].
      intros pp Hp Hz. destruct (P2 pp Hp Hz) as [? Hnot]. rewrite Hf in Hnot. split; [done|set_solver].
  - intros w w' wp wp' m. cbn. rewrite !elem_of_app !list_elem_of_singleton.
    assert (∀ wp, vpages s !! r = Some wp → occupies wp m → m = n) as Hm.
    { rewrite Hr. intros ? [= <-] (_ & pp & [= <-] & <-). done. }
    intros [Hw| ->] [Hw'| ->] Hwp Hwp' Ho1 Ho2.
    + by eapply (A7 w w').
    + apply Hm in Ho2 as ->; [|done]. by destruct (Hno w wp Hw Hwp).
    + apply Hm in Ho1 as ->; [|done]. by destruct (Hno w' wp' Hw' Hwp').
    + done.
  - cbn in *. rewrite length_app. cbn. lia.
Qed.

(** What [give_new_ppn] leaves: page [r] has physical page [n], which nobody had or
    an evicted page gave up. *)
Record placed (T : gmap pid_t (gmap Z vpage_id)) (X : gset vpage_id) (r : vpage_id)
    (rp : VirtualPage) (n : Z) (s s' : pager) : Prop := {
  pl_moved : moved T r s s';
  pl_page : vpages s' !! r = Some (with_ppn n rp);
  pl_maps : maps_ok T s';
  pl_swap : swap_ok nswap T s';
  pl_alloc : alloc_ok T ∅ s';
  pl_pte : pte_ok T X s';
  pl_data : data_ok T {[r]} s';
  pl_range : 1 ≤ n < mem_pages_cap s';
  pl_other w wp wp' : w ≠ r → live T s' w →
    vpages s !! w = Some wp → vpages s' !! w = Some wp' →
    (λ pp, (PPN pp, dirty pp)) <$> physicalPage wp' =
      (λ pp, (PPN pp, dirty pp)) <$> physicalPage wp ∨
    physicalPage wp' = None ∧ occupies wp n }.

(** Page [w] is as it was, or has given physical page [n] up. *)
Definition phys_moved (r : vpage_id) (n : Z) (s s' : pager) : Prop :=
  ∀ w wp wp', w ≠ r → vpages s !! w = Some wp → vpages s' !! w = Some wp' →
    (λ pp, (PPN pp, dirty pp)) <$> physicalPage wp' =
      (λ pp, (PPN pp, dirty pp)) <$> physicalPage wp ∨
    physicalPage wp' = None ∧ occupies wp n.

Lemma placed_intro T X r rp n free s s1 :
  evicting T X r s1 → moved T r s s1 → vpages s1 !! r = Some (with_ppn n rp) →
  next_free_PPN s1 = n :: free → phys_moved r n s s1 →
  placed T X r rp n s (with_clock_queue (clock_queue s1 ++ [r]) (with_next_free_PPN free s1)).
Proof.
  intros E M Hr Hf Hph. set (s' := with_clock_queue _ _).
  pose proof (place_alloc T r s1 rp n free (ev_alloc _ _ _ _ _ E) (or_introl (ev_mapped _ _ _ _ _ E)) Hr Hf)
    as A. fold s' in A. split; try done.
  - eapply moved_trans; [exact M|]. split; try done; [by apply files_same|].
    intros v vp vp' _ _ ??. by simplify_eq/=.
  - eapply maps_frame; [apply E|done|by apply cache_same|done..|by apply files_same].
  - by eapply swap_frame; [apply E|apply cache_same| |].
  - by eapply pte_frame_same; [apply E|..].
  - destruct (ev_data _ _ _ _ _ E) as [D0 D]. split; [done|]. intros w wp Hw Hwp HX.
    by destruct (D w wp Hw Hwp HX).
  - apply (al_free _ _ _ (ev_alloc _ _ _ _ _ E)). rewrite Hf. set_solver.
  - intros w wp wp' Hne _. by apply Hph.
Qed.

Lemma live_block T s v vp :
  maps_ok T s → swap_ok nswap T s → live T s v → vpages s !! v = Some vp →
  ∃ b, head (blocks vp) = Some b.
Proof.
  intros M S Hl Hv. destruct (isSwap vp) eqn:Hs.
  - assert (mapped T v) as Hm.
    { destruct Hl as [?|(n & b & Hc)]; [done|].
      destruct (ma_cached _ _ M _ _ _ Hc) as (? & ? & ? & _). simplify_eq. congruence. }
    apply (aff_mapped T s v vp M) in Hm; [|done..].
    pose proof (sw_length _ _ _ S v vp Hl Hv Hs) as Hlen.
    destruct (blocks vp); [|by eexists]. by destruct (affiliated vp).
  - destruct (file_key _ _ _ _ M Hl Hv Hs) as (b & -> & _). by exists b.
Qed.

(** ** The functions *)

Lemma pg_check_ppn n (Q : unit → pager → Prop) s :
  0 ≤ n < mem_pages_cap s → Q tt s → wp (check_ppn n) Q s.
Proof.
  intros Hn HQ. unfold wp, check_ppn.
  by rewrite (proj2 (Z.leb_le 0 n)) ?(proj2 (Z.ltb_lt n _)); [|lia..].
Qed.

(** The victim's data is in its file afterwards. *)
Lemma write_back_ok T X r v l vp pp (Q : unit → pager → Prop) s :
  evicting T X r s → live T s v → v ≠ r → vpages s !! v = Some vp → physicalPage vp = Some pp →
  PPN pp ≠ 0 →
  (∀ f, evicting T X r (with_files f s) → moved T r s (with_files f s) →
        backing (with_files f s) vp = Some (vm_physmem s (PPN pp)) →
        Q tt (with_clock_queue l (with_files f s))) →
  wp (write_back v) Q (with_clock_queue l s).
Proof.
  intros E Hl Hvr Hv Hp Hn HQ. eapply pg_bind, pg_get_phys; [done..|].
  assert (v ∉ ({[r]} : gset vpage_id)) as HX by set_solver.
  destruct (live_block T s v vp) as [b Hb]; [apply E|apply E|done..|].
  pose proof (da_each _ _ _ (ev_data _ _ _ _ _ E) v vp Hl Hv HX) as D.
  apply pg_when; intros Hd.
  2:{ specialize (HQ (files s)). destruct s. apply HQ; [done|apply moved_refl|]. by eapply dv_clean. }
  assert (1 ≤ PPN pp < mem_pages_cap s) as Hr.
  { apply (ph_range _ _ (al_phys _ _ _ (ev_alloc _ _ _ _ _ E) v vp Hl Hv HX) pp Hp Hn). }
  assert (is_Some (file_write (file_of vp) b (vm_physmem s (PPN pp)) (files s))) as [f Hf].
  { unfold file_of. destruct (isSwap vp) eqn:Hs.
    - apply write_swap. apply (sw_used _ _ _ (ev_swap _ _ _ _ _ E) v vp); [done..|].
      destruct (blocks vp); simplify_eq/=; set_solver.
    - destruct (dv_file _ _ D pp Hs Hp) as [q Hq]. unfold backing, file_of in Hq.
      rewrite Hb Hs /= in Hq. by eapply write_read. }
  eapply pg_bind, pg_get_vpage; [done|]. eapply pg_bind, pg_deref; [done|].
  apply pg_bind, pg_bind, pg_bind, pg_check_ppn; [cbn; lia|]. apply pg_gets, pg_bind, pg_gets. cbn.
  rewrite Hf. apply (HQ f).
  - by eapply (write_ok T X r v).
  - by eapply (write_moved T X r v).
  - unfold backing. rewrite Hb /=. by eapply read_written.
Qed.

(** The replacement's entries exist whatever its state. *)
Lemma updatePTEs_hole T X r x l (Q : unit → pager → Prop) s :
  evicting T X r s → vpages s !! r = Some x →
  (resident x = true → is_Some (physicalPage x)) →
  (∀ tb, set_for (affiliated x) x s tb → Q tt (with_clock_queue l (with_tables tb s))) →
  wp (updatePTEs r) Q (with_clock_queue l s).
Proof.
  intros E Hr Hres HQ. assert (live T s r) as Hl by (left; apply E).
  eapply updatePTEs_ok; [done| | |done| |].
  - by apply (aff_mapped T s r x (ev_maps _ _ _ _ _ E) Hl Hr), (ev_mapped _ _ _ _ _ E).
  - intros p Hp. by apply (aff_pte T s r x p (ev_maps _ _ _ _ _ E) Hl Hr).
  - intros _ Hs. symmetry. by apply (sw_length _ _ _ (ev_swap _ _ _ _ _ E) r x).
  - intros tb Htb. by apply (HQ tb).
Qed.

Lemma take_page_ok T X r v l rp vp pp (Q : unit → pager → Prop) s :
  evicting T X r s → r ∈ X → v ≠ r → vpages s !! v = Some vp → physicalPage vp = Some pp →
  vpages s !! r = Some rp →
  let x := set_physicalPage (Some (mk_PhysicalPage (PPN pp) true false)) rp in
  let s1 := with_vpages (<[r := x]> (vpages s)) s in
  (∀ tb, evicting T X r (with_tables tb s1) → moved T r s (with_tables tb s1) →
         Q tt (with_clock_queue l (with_tables tb s1))) →
  wp (take_page v r) Q (with_clock_queue l s).
Proof.
  intros E HX Hvr Hv Hp Hr x s1 HQ. unfold take_page.
  eapply pg_bind, pg_modify_vpage; [done|]. eapply pg_bind, pg_get_phys.
  { cbn. by rewrite lookup_insert_ne. } { done. }
  eapply pg_bind, pg_modify_phys; [cbn; by rewrite lookup_insert_eq|done|].
  eapply pg_bind, pg_modify_phys; [cbn; by rewrite lookup_insert_eq|done|].
  eapply pg_bind, pg_modify_phys; [cbn; by rewrite lookup_insert_eq|done|]. cbn.
  rewrite !insert_insert_eq.
  eapply (updatePTEs_hole T X r x l Q s1); [by apply (hole_ok T X r s rp)|cbn; by rewrite lookup_insert_eq|
    by eexists|].
  intros tb Htb. apply HQ.
  - by apply (retabled_ok T X r s rp x).
  - by apply (retabled_moved T X r s rp x).
Qed.

(** Page [v] ends up without a physical page, and its number is free. *)
Lemma lose_page_ok T X r v l vp pp (Q : unit → pager → Prop) s :
  evicting T X r s → clock_queue s = v :: l → vpages s !! v = Some vp →
  physicalPage vp = Some pp → backing s vp = Some (vm_physmem s (PPN pp)) →
  (∀ tb C, let s' := unplaced v vp (PPN pp) l tb C s in
     evicting T X r s' → moved T r s s' →
     Q tt (with_clock_queue (l ++ [r]) (with_next_free_PPN (next_free_PPN s) s'))) →
  wp (lose_page v) Q (with_clock_queue (l ++ [r]) s).
Proof.
  intros E Hq Hv Hp Hbk HQ. unfold lose_page.
  destruct (front_live T X r v s vp pp l E Hq Hv Hp) as (Hl & Hvr & _).
  destruct (live_block T s v vp) as [b Hb]; [apply E|apply E|done..|].
  set (vp0 := set_physicalPage None (set_resident false vp)).
  set (s1 := with_vpages (<[v := vp0]> (vpages s)) s).
  eapply pg_bind, pg_modify_vpage; [done|].
  eapply pg_bind, pg_modify_vpage; [cbn; by rewrite lookup_insert_eq|]. cbn.
  rewrite insert_insert_eq. change (with_vpages _ _) with (with_clock_queue (l ++ [r]) s1).
  assert (vpages s1 !! v = Some vp0) as Hv1 by (cbn; by rewrite lookup_insert_eq).
  eapply pg_bind, pg_get_vpage; [exact Hv1|].
  enough (∀ tb, set_for (affiliated vp0) vp0 s1 tb →
    wp (when (negb (isSwap vp0) && (length (affiliated vp0) =? 0)%nat) (remove_from_filename_block v))
       Q (with_clock_queue (l ++ [r]) (with_tables tb s1))) as Hgo.
  { apply pg_bind, pg_when.
    - intros Haff%bool_decide_eq_true.
      eapply updatePTEs_ok; [exact Hv1|exact Haff| |done|done|exact Hgo].
      intros p Hpin. eapply (aff_pte T s1 v vp0); [|exact Hl|exact Hv1|done].
      by apply (unplace_maps1 T X r v s vp pp l ∅ ∅ E Hv).
    - intros Haff%bool_decide_eq_false%dec_stable. specialize (Hgo (tables s1)).
      rewrite Haff in Hgo. rewrite Haff. destruct s. apply Hgo. by split. }
  intros tb Htb. apply pg_when; intros Hd.
  - eapply remove_ok; [exact Hv1|exact Hb|]. intros C HC. cbn in HC.
    assert (∀ n b', cached_at C n b' = if dropped vp && bool_decide ((n, b') = (filename vp, b))
      then None else cached_at (filename_block_to_vpage s) n b') as HC'.
    { intros n b'. rewrite HC. change (dropped vp) with (negb (isSwap vp0) && (length (affiliated vp0) =? 0)%nat).
      rewrite Hd. by case_bool_decide; case_decide. }
    apply (HQ tb C); [by apply (unplace_ok T X r v s vp pp b)|by apply (unplace_moved T X r v s vp pp b)].
  - assert (∀ n b', cached_at (filename_block_to_vpage s) n b' =
      if dropped vp && bool_decide ((n, b') = (filename vp, b))
      then None else cached_at (filename_block_to_vpage s) n b') as HC'.
    { intros n b'. change (dropped vp) with (negb (isSwap vp0) && (length (affiliated vp0) =? 0)%nat).
      by rewrite Hd. }
    apply (HQ tb (filename_block_to_vpage s));
      [by apply (unplace_ok T X r v s vp pp b)|by apply (unplace_moved T X r v s vp pp b)].
Qed.

(** All pages but the victim are as the hand left them. *)
Lemma evict_phys r v n x vp pp l tb tb' C s s1 s2 :
  phys_kept s s1 → vpages s2 = <[r := x]> (vpages s1) → v ≠ r → vpages s1 !! v = Some vp →
  physicalPage vp = Some pp → PPN pp = n → n ≠ 0 →
  phys_moved r n s (unplaced v vp n l tb C (with_tables tb' s2)).
Proof.
  intros K Hs2 Hvr Hv Hp Hn Hn0 w wp wp' Hne Hwp. cbn. rewrite Hs2.
  specialize (K w). rewrite Hwp in K. cbn in K. destruct (decide (w = v)) as [->|].
  - rewrite lookup_insert_eq. intros [= <-]. right. split; [done|]. rewrite Hv in K. cbn in K.
    rewrite Hp in K. injection K as K. symmetry in K. apply fmap_Some in K as (pp0 & Hp0 & [= E1 E2]).
    split; [done|]. exists pp0. split; [done|congruence].
  - rewrite !lookup_insert_ne //. intros Hw. rewrite Hw in K. injection K as K. by left.
Qed.

Lemma evict_ok T X r rp (Q : unit → pager → Prop) s :
  evicting T X r s → r ∈ X → vpages s !! r = Some rp → next_free_PPN s = [] →
  (∀ n s', placed T X r rp n s s' → Q tt s') →
  wp (evict_and_replace r ;; modify_vpage r (set_resident true)) Q s.
Proof.
  intros E HX Hr Hf HQ. apply pg_bind. unfold evict_and_replace. apply pg_bind, pg_gets, pg_bind.
  assert (clock_queue s ≠ []) as Hq0.
  { pose proof (al_count _ _ _ (ev_alloc _ _ _ _ _ E)) as Hc.
    pose proof (al_cap _ _ _ (ev_alloc _ _ _ _ _ E)) as Hcap.
    intros Hnil. rewrite Hf Hnil /= in Hc. lia. }
  eapply (find_victim_ok nswap T X r _ (clock_queue s) []); [exact E|by rewrite app_nil_r|done| |lia|].
  { intros w Hw. by apply elem_of_nil in Hw. }
  intros s1 v l E1 M1 K1 Hr1 Hf1 Hq1 (vp & pp & Hv & Hp & _) _. rewrite Hr in Hr1. rewrite Hf in Hf1.
  destruct (front_live _ _ _ _ _ _ _ _ E1 Hq1 Hv Hp) as (Hl & Hvr & Hn0 & _).
  apply pg_bind. eapply pg_lock_front; [exact Hq1|by rewrite (ev_trans _ _ _ _ _ E1)|].
  apply pg_bind. eapply pg_pop_front_clock; [exact Hq1|]. apply pg_bind.
  eapply (write_back_ok T X r v l vp pp _ s1 E1 Hl Hvr Hv Hp Hn0). intros f E2 M2 Hbk.
  apply pg_bind. eapply (take_page_ok T X r v l rp vp pp _ (with_files f s1) E2 HX Hvr Hv Hp Hr1).
  set (x := set_physicalPage _ rp). set (s2 := with_vpages (<[r := x]> (vpages s1)) (with_files f s1)).
  intros tb E3 M3. apply pg_bind, pg_modify.
  change (with_clock_queue _ _) with (with_clock_queue (l ++ [r]) (with_tables tb s2)).
  assert (vpages (with_tables tb s2) !! v = Some vp) as Hv3 by (cbn; by rewrite lookup_insert_ne).
  eapply (lose_page_ok T X r v l vp pp _ (with_tables tb s2) E3 Hq1 Hv3 Hp Hbk).
  intros tb' C s' E4 M4. unfold s' in *. clear s'. set (s4 := unplaced _ _ _ _ _ _ _) in *.
  assert (vpages s4 !! r = Some x) as Hr4.
  { cbn. rewrite lookup_insert_ne // lookup_insert_eq //. }
  eapply pg_modify_vpage; [exact Hr4|]. cbn [next_free_PPN with_tables with_vpages with_files s2].
  apply (HQ (PPN pp)).
  set (s5 := with_vpages (<[r := set_resident true x]> (vpages s4)) s4).
  change (placed T X r rp (PPN pp) s
    (with_clock_queue (clock_queue s5 ++ [r]) (with_next_free_PPN (next_free_PPN s1) s5))).
  rewrite Hf1. apply placed_intro; [by apply (hole_ok T X r s4 x)| | | |].
  - eapply moved_trans; [exact M1|]. eapply moved_trans; [exact M2|].
    eapply moved_trans; [exact M3|]. eapply moved_trans; [exact M4|]. by apply (hole_moved T r s4 x).
  - cbn. by rewrite lookup_insert_eq.
  - cbn. by rewrite Hf1.
  - pose proof (evict_phys r v (PPN pp) x vp pp l tb' tb C s s1 s2 K1 eq_refl Hvr Hv Hp eq_refl Hn0) as Hph.
    intros w wp wp' Hne Hw Hw'. cbn in Hw'. rewrite lookup_insert_ne // in Hw'. by apply (Hph w).
Qed.

(** [give_new_ppn] *)
Lemma give_new_ppn_ok T X r rp (Q : unit → pager → Prop) s :
  evicting T X r s → r ∈ X → vpages s !! r = Some rp →
  (∀ n s', placed T X r rp n s s' → Q tt s') →
  wp (give_new_ppn r) Q s.
Proof.
  intros E HX Hr HQ. unfold give_new_ppn. eapply pg_bind, pg_modify_vpage; [done|].
  set (x0 := set_physicalPage (Some new_PhysicalPage) rp).
  set (s0 := with_vpages (<[r := x0]> (vpages s)) s).
  assert (evicting T X r s0) as E0 by by apply (hole_ok T X r s rp).
  assert (moved T r s s0) as M0 by by apply (hole_moved T r s rp).
  assert (vpages s0 !! r = Some x0) as Hr0 by (cbn; by rewrite lookup_insert_eq).
  apply pg_bind, pg_gets. destruct (next_free_PPN s0) as [|n free] eqn:Hf.
  - eapply (evict_ok T X r x0 Q s0 E0 HX Hr0 Hf). intros n s' P. apply (HQ n). destruct P. split; try done.
    + by eapply moved_trans.
    + intros w wp wp' Hne Hlw Hwp Hwp'. eapply pl_other; [done..| |done]. cbn. by rewrite lookup_insert_ne.
  - apply pg_bind. eapply pg_bind, pg_modify_phys; [exact Hr0|done|].
    apply pg_bind, pg_modify. eapply pg_bind, pg_modify_phys; [cbn; by rewrite lookup_insert_eq|done|].
    apply pg_modify. eapply pg_modify_vpage; [cbn; by rewrite lookup_insert_eq|]. cbn.
    rewrite !insert_insert_eq. apply (HQ n).
    set (s1 := with_vpages (<[r := with_ppn n rp]> (vpages s)) s).
    apply (placed_intro T X r rp n free s s1); [by apply (hole_ok T X r s rp)|by apply (hole_moved T r s rp)|
      cbn; by rewrite lookup_insert_eq|exact Hf|].
    intros w wp wp' Hne Hw Hw'. cbn in Hw'. rewrite lookup_insert_ne // in Hw'. simplify_eq. by left.
Qed.

End place.
