(* ===== verification/PagerCheck.v ===== *)
(** * The self-check

    [assert_structure_consistency] passes in every consistent state and changes
    nothing. *)

From S2P Require Import Prelude PagerTypes Pager PagerInv PagerPtes PagerFrame PagerEvict PagerPlace.

Section check.
Context `{F : Files} `{Tr : Traversal} (nswap : Z).

(** ** Counting the addresses of a page *)

Lemma elem_of_mappings T pid va v : (pid, va, v) ∈ mappings T ↔ page_at T pid va = Some v.
Proof.
  unfold mappings. rewrite list_elem_of_bind page_at_Some. setoid_rewrite elem_of_map_to_list'.
  split.
  - intros ([pid' m] & Hin & Hm). apply list_elem_of_bind in Hin as ([va' v'] & Hin & Hm').
    apply list_elem_of_singleton in Hin. apply elem_of_map_to_list in Hm'. cbn in *.
    simplify_eq. by exists m.
  - intros (m & Hm & Hv). exists (pid, m). split; [|done]. apply list_elem_of_bind.
    exists (va, v). split; [set_solver|by apply elem_of_map_to_list].
Qed.

Lemma NoDup_mappings T : NoDup (mappings T).
Proof.
  unfold mappings. apply NoDup_bind; [|intros [pid m] _; apply NoDup_bind|apply NoDup_map_to_list].
  - intros [p1 m1] [p2 m2] [[pid va] v] Hm1 Hm2 H1 H2.
    apply list_elem_of_bind in H1 as ([? ?] & H1 & _), H2 as ([? ?] & H2 & _).
    apply list_elem_of_singleton in H1, H2. apply elem_of_map_to_list in Hm1, Hm2. by simplify_eq.
  - intros [? ?] [? ?] y _ _ ->%list_elem_of_singleton H2%list_elem_of_singleton. by simplify_eq.
  - intros [? ?] _. apply NoDup_singleton.
  - apply NoDup_map_to_list.
Qed.

Lemma num_mapped_to_ok T s v vp :
  maps_ok T s → live T s v → vpages s !! v = Some vp → length (affiliated vp) = num_mapped_to v T.
Proof.
  intros M Hl Hv. destruct (ma_aff _ _ M v vp Hl Hv) as [Hnd Hiff]. unfold num_mapped_to.
  set (L := filter _ _).
  set (g := λ x : pid_t * Z * vpage_id, VA_to_PTE x.1.2 (default 0%nat (process_table s !! x.1.1))).
  assert (∀ pid va w, (pid, va, w) ∈ L ↔ page_at T pid va = Some v ∧ w = v) as HL.
  { intros pid va w. unfold L. rewrite list_elem_of_filter elem_of_mappings. naive_solver. }
  rewrite -(length_fmap g L). apply Permutation_length, NoDup_Permutation; [done| |].
  - apply NoDup_fmap_2_strong; [|apply NoDup_filter, NoDup_mappings].
    intros [[pid va] w] [[pid' va'] w'] [Hx ->]%HL [Hy ->]%HL. unfold g. cbn.
    destruct (ma_process _ _ M _ _ _ Hx) as [t Ht], (ma_process _ _ M _ _ _ Hy) as [t' Ht'].
    rewrite Ht Ht' /=. intros [-> ->]%VA_to_PTE_inj; [|by eapply ma_va..].
    by rewrite (ma_inj _ _ M _ _ _ Ht Ht').
  - intros p. rewrite Hiff list_elem_of_fmap. split.
    + intros (pid & va & t & Ht & Hp & ->). exists (pid, va, v). unfold g. cbn. rewrite Ht. split; [done|].
      by apply HL.
    + intros ([[pid va] w] & -> & [Hx ->]%HL). destruct (ma_process _ _ M _ _ _ Hx) as [t Ht].
      exists pid, va, t. unfold g. cbn. by rewrite Ht.
Qed.

(** ** The checks *)

(** A loop that only checks. *)
Lemma pg_for_each_same {A} (l : list A) (f : A → M unit) (Q : unit → pager → Prop) s :
  (∀ x, x ∈ l → wp (f x) (λ _ s', s' = s) s) → Q tt s → wp (for_each l f) Q s.
Proof.
  intros Hf HQ. induction l as [|x l IH]; [done|]. apply pg_bind.
  eapply pg_mono; [apply Hf; set_solver|]. intros [] s' ->. apply IH. intros y Hy. apply Hf. set_solver.
Qed.

Lemma pg_assert_same b s : b = true → wp (assert b) (λ _ s', s' = s) s.
Proof. by intros ->. Qed.

Lemma pg_bind_same {B} (m : M unit) (k : unit → M B) (Q : B → pager → Prop) s :
  wp m (λ _ s', s' = s) s → wp (k tt) Q s → wp (m ≫= k) Q s.
Proof. intros Hm Hk. apply pg_bind. eapply pg_mono; [exact Hm|]. by intros [] ? ->. Qed.

Lemma find_clock_ok T s v :
  translateVA s = T → live T s v → v ∈ clock_queue s →
  ∃ i, find_clock v s = Some i ∧ clock_queue s !! i = Some v.
Proof.
  intros HT Hl Hin. unfold find_clock.
  destruct (list_find_elem_of (λ w, w = v ∧ owned w s = true) (clock_queue s) v Hin) as [[i w] E].
  { split; [done|]. apply owned_live. by rewrite HT. }
  exists i. rewrite E. split; [done|]. by apply list_find_Some in E as (? & [-> _] & _).
Qed.

Section body.
Context (s : pager) (C : consistent nswap s).
Let T := translateVA s.

Lemma mapped_phys v vp : mapped T v → vpages s !! v = Some vp → phys_ok s vp.
Proof. intros Hm Hv. apply (al_phys _ _ _ (co_alloc _ _ C) v); [by left|done|set_solver]. Qed.

Lemma mapped_in_clock v vp pp :
  live T s v → vpages s !! v = Some vp → physicalPage vp = Some pp → PPN pp ≠ 0 → v ∈ clock_queue s.
Proof.
  intros Hl Hv Hp Hn. apply (al_clock _ _ _ (co_alloc _ _ C)). split; [done|]. split; [set_solver|].
  exists vp, (PPN pp). split; [done|]. split; [done|]. by exists pp.
Qed.

Lemma mapped_entry v vp p :
  mapped T v → vpages s !! v = Some vp → p ∈ affiliated vp →
  ∃ e, pte_at p s = Some e ∧ (read_enable e, write_enable e) = bits vp ∧
       ∀ pp, physicalPage vp = Some pp → ppage e = PPN pp `mod` 2 ^ 20.
Proof.
  intros Hm Hv Hp. destruct (co_pte _ _ C v vp (or_introl Hm) Hv ltac:(set_solver) p Hp) as (e & He & Hmt).
  exists e. split; [done|]. unfold pte_matches, entry_for in Hmt.
  split; [rewrite -{1 2}Hmt; cbn; by destruct (bits vp)|]. intros pp Hpp. rewrite -Hmt Hpp. done.
Qed.

(** The part on the blocks. *)
Lemma check_blocks_ok v vp :
  mapped T v → vpages s !! v = Some vp →
  wp (if isSwap vp then
       free ← gets next_free_swap;
       for_each (blocks vp) (λ swap_alloc, assert (bool_decide (swap_alloc ∉ free))) ;;
       assert (length (blocks vp) =? length (affiliated vp))%nat ;;
       when (1 <? length (affiliated vp))%nat
         (for_each (affiliated vp) (λ aff, e ← get_pte aff; assert (negb (write_enable e))))
     else assert (length (blocks vp) =? 1)%nat) (λ _ s', s' = s) s.
Proof.
  intros Hm Hv. pose proof (co_swap _ _ C) as S. assert (live T s v) as Hl by by left.
  destruct (isSwap vp) eqn:Hsw.
  - apply pg_bind, pg_gets, pg_bind, pg_for_each_same.
    { intros b Hb. apply pg_assert_same, bool_decide_eq_true. by apply (sw_used _ _ _ S v vp). }
    apply pg_bind, pg_assert; [apply Nat.eqb_eq; by apply (sw_length _ _ _ S v)|].
    apply pg_when; [|done]. intros Hlen%Nat.ltb_lt. apply pg_for_each_same; [|done]. intros p Hp.
    destruct (mapped_entry v vp p Hm Hv Hp) as (e & He & Hb & _).
    eapply pg_bind, pg_get_pte; [done|]. apply pg_assert_same. unfold bits in Hb.
    rewrite Hsw (proj2 (Nat.eqb_neq (length (affiliated vp)) 1)) in Hb; [|lia].
    destruct (physicalPage vp) as [pp|]; [|by injection Hb as _ ->].
    destruct (_ && _); injection Hb as _ ->; [by rewrite andb_false_r|done].
  - destruct (ma_file _ _ (co_maps _ _ C) v vp Hm Hv Hsw) as (b & -> & _). by apply pg_assert_same.
Qed.

(** The part on the entries. *)
Lemma check_entries_ok v vp r w :
  mapped T v → vpages s !! v = Some vp → bits vp = (r, w) →
  (resident vp = true → is_Some (physicalPage vp)) →
  wp (for_each (affiliated vp) (λ aff,
    e ← get_pte aff;
    assert (bool_decide (read_enable e = r)) ;;
    assert (bool_decide (write_enable e = w)) ;;
    when (resident vp)
      (pp ← deref (physicalPage vp);
       assert (ppage e =? PPN pp `mod` 2 ^ 20)))) (λ _ s', s' = s) s.
Proof.
  intros Hm Hv Hb Hres. apply pg_for_each_same; [|done]. intros p Hp.
  destruct (mapped_entry v vp p Hm Hv Hp) as (e & He & Hrw & Hpp). rewrite Hb in Hrw.
  injection Hrw as Hr Hw. eapply pg_bind, pg_get_pte; [done|].
  apply pg_bind, pg_assert; [by apply bool_decide_eq_true|].
  apply pg_bind, pg_assert; [by apply bool_decide_eq_true|].
  apply pg_when; [|done]. intros Hr'. destruct (Hres Hr') as [pp Hpp'].
  eapply pg_bind, pg_deref; [done|]. apply pg_assert_same, Z.eqb_eq. by apply Hpp.
Qed.

Lemma check_vpage_ok pid va v :
  page_at T pid va = Some v → wp (check_vpage pid va v) (λ _ s', s' = s) s.
Proof.
  intros Hva. assert (mapped T v) as Hm by by exists pid, va. assert (live T s v) as Hl by by left.
  destruct (ma_vpage _ _ (co_maps _ _ C) v Hl) as [vp Hv]. unfold check_vpage.
  eapply pg_bind, pg_get_vpage; [done|].
  destruct (live_block nswap T s v vp) as [b Hb]; [apply C|apply C|done..|].
  apply pg_bind, pg_assert; [apply bool_decide_eq_true; by destruct (blocks vp)|].
  destruct (ma_process _ _ (co_maps _ _ C) _ _ _ Hva) as [t Ht].
  destruct (proj2 (ar_next _ _ (co_arena _ _ C) pid) (mk_is_Some _ _ Ht)) as [a Ha].
  apply pg_bind, pg_gets, pg_bind, pg_assert; [apply bool_decide_eq_true; by eexists|].
  apply pg_bind. apply pg_bind, pg_gets. rewrite Ha. apply pg_bind, pg_assert.
  { apply Z.ltb_lt. by apply (ar_pages _ _ (co_arena _ _ C) pid a va Ha); eexists. }
  apply pg_bind_same; [by apply (check_blocks_ok v vp)|].
  destruct (mapped_phys v vp Hm Hv) as [P1 P2 P3].
  assert (resident vp = true → is_Some (physicalPage vp)) as Hres.
  { rewrite P1. apply bool_decide_eq_true. }
  apply pg_bind_same; [rewrite P1; by destruct (physicalPage vp)|].
  apply pg_bind_same.
  { apply pg_when; [|done]. intros Hr. destruct (Hres Hr) as [pp Hpp]. eapply pg_bind, pg_deref; [done|].
    apply pg_bind, pg_gets, pg_assert_same, bool_decide_eq_true. intros Hfree.
    pose proof (al_free _ _ _ (co_alloc _ _ C) _ Hfree). destruct (P2 pp Hpp ltac:(lia)); done. }
  apply pg_bind, pg_assert.
  { assert (affiliated vp ≠ []) by by apply (aff_mapped T s v vp (co_maps _ _ C) Hl Hv).
    by destruct (affiliated vp). }
  apply pg_bind, enable_bits_ok;
    [done|intros _ ?; symmetry; by apply (sw_length _ _ _ (co_swap _ _ C) v vp)|].
  destruct (bits vp) as [r w] eqn:Hbits. apply pg_bind, pg_bind, pg_gets. rewrite Ht.
  apply pg_ret, pg_bind, pg_assert.
  { apply bool_decide_eq_true, (ma_aff _ _ (co_maps _ _ C) v vp Hl Hv). by exists pid, va, t. }
  apply pg_bind_same; [by apply (check_entries_ok v vp)|].
  apply pg_when; [|done]. intros Hr. destruct (Hres Hr) as [pp Hpp]. eapply pg_bind, pg_deref; [done|].
  apply pg_when; [|done]. intros Hn%negb_true_iff%Z.eqb_neq.
  destruct (find_clock_ok T s v eq_refl Hl) as (i & Hi & _); [by apply (mapped_in_clock v vp pp)|].
  apply pg_bind, pg_gets, pg_assert_same, bool_decide_eq_true. by exists i.
Qed.

(** [assert_structure_consistency] *)
Lemma check_ok : wp assert_structure_consistency (λ _ s', s' = s) s.
Proof.
  unfold assert_structure_consistency. apply pg_bind, pg_gets, pg_bind, pg_for_each_same.
  { intros [[pid va] v] Hin%elem_of_mappings. by apply check_vpage_ok. }
  apply pg_bind, pg_for_each_same.
  { intros [[pid va] v] Hin%elem_of_mappings. assert (live T s v) as Hl by by left; exists pid, va.
    destruct (ma_vpage _ _ (co_maps _ _ C) v Hl) as [vp Hv]. eapply pg_bind, pg_get_vpage; [done|].
    apply pg_assert_same, Nat.eqb_eq. by apply (num_mapped_to_ok T s v vp); [apply C|..]. }
  pose proof (co_alloc _ _ C) as A. pose proof (al_count _ _ _ A). pose proof (al_cap _ _ _ A).
  apply pg_bind, pg_gets, pg_bind, pg_gets, pg_bind, pg_gets, pg_bind, pg_assert.
  { apply Z.eqb_eq. rewrite Z.mod_small; lia. }
  apply pg_for_each_same; [|done]. intros v Hin.
  pose proof Hin as (Hl & HX & vp & n & Hv & Hn & pp & Hp & <-)%(al_clock _ _ _ A).
  apply pg_bind, pg_lock; [by apply owned_live|]. apply pg_bind, pg_assert; [done|].
  apply pg_bind, (pg_deref _ v); [done|]. eapply pg_bind, pg_get_vpage; [done|].
  apply pg_bind, pg_assert.
  { rewrite (ph_resident _ _ (al_phys _ _ _ A v vp Hl Hv HX)) Hp. done. }
  eapply pg_bind, pg_get_phys; [done..|]. apply pg_assert_same. by apply negb_true_iff, Z.eqb_neq.
Qed.

End body.

Lemma pg_final_check (Q : unit → pager → Prop) s : consistent nswap s → Q tt s → wp final_check Q s.
Proof.
  intros C HQ. apply pg_when; [|done]. intros _. eapply pg_mono; [by apply check_ok|]. by intros [] ? ->.
Qed.

End check.
