(* ===== verification/PagerView.v ===== *)
(** * What a process sees

    A page of an arena is private or a block of a file ([slot]); [view] reads the
    slot at an address off the state.  [same]: two states that no process can tell
    apart.  [kept]: the same but for one page, which a function is working on. *)

From S2P Require Import Prelude PagerTypes Pager PagerInv PagerPtes PagerFrame PagerEvict.

Inductive slot := Private (p : page) | Shared (n : string) (b : Z).

Section view.
Context `{F : Files} `{Tr : Traversal}.
Abbreviation translation := (gmap pid_t (gmap Z vpage_id)).

Definition slot_of (s : pager) (vp : VirtualPage) : option slot :=
  if isSwap vp then Private <$> content s vp else Shared (filename vp) <$> head (blocks vp).

Definition view (s : pager) (pid va : Z) : option slot :=
  v ← page_at (translateVA s) pid va;
  vp ← vpages s !! v;
  slot_of s vp.

(** The globals that a fault leaves alone. *)
Definition registers (s : pager) :=
  (process_table s, next_free_VA s, next_free_swap s, mem_pages_cap s, current_pid s,
   page_table_base_register s).

Record same (s s' : pager) : Prop := {
  sm_registers : registers s' = registers s;
  sm_view pid va : view s' pid va = view s pid va;
  sm_data n b : file_data s' n b = file_data s n b }.

#[export] Instance same_preorder : PreOrder same.
Proof.
  split; [by split|]. intros s1 s2 s3 A B. split.
  - by rewrite (sm_registers _ _ B) (sm_registers _ _ A).
  - intros pid va. by rewrite (sm_view _ _ B) (sm_view _ _ A).
  - intros n b. by rewrite (sm_data _ _ B) (sm_data _ _ A).
Qed.

(** From [s] to [s'], all pages but [r] have kept their data. *)
Record kept (T : translation) (r : vpage_id) (s s' : pager) : Prop := {
  kp_globals : globals s' = globals s;
  kp_statics : statics s s';
  kp_cache : cache_shrinks T s s';
  kp_content v vp vp' : live T s' v → v ≠ r → vpages s !! v = Some vp →
    vpages s' !! v = Some vp' → content s' vp' = content s vp;
  kp_data n b : cached_at (filename_block_to_vpage s) n b ≠ Some r →
    file_data s' n b = file_data s n b }.

Lemma moved_kept T r s s' : moved T r s s' → kept T r s s'.
Proof. by intros []. Qed.

Lemma kept_trans T r s1 s2 s3 : kept T r s1 s2 → kept T r s2 s3 → kept T r s1 s3.
Proof.
  intros A B. split.
  - by rewrite (kp_globals _ _ _ _ B) (kp_globals _ _ _ _ A).
  - eapply statics_trans; [apply A|apply B].
  - destruct (kp_cache _ _ _ _ A) as [A1 A2], (kp_cache _ _ _ _ B) as [B1 B2].
    split; [intros n b v ?; by apply A1, B1|intros n b v ??; apply B2; [done|by apply A2]].
  - intros v vp vp3 Hl Hne Hv1 Hv3.
    destruct (statics_at _ _ _ _ (kp_statics _ _ _ _ B) Hv3) as (vp2 & Hv2 & _).
    rewrite (kp_content _ _ _ _ B v vp2 vp3) //. apply (kp_content _ _ _ _ A v); [|done..].
    by eapply cache_live; [apply B|].
  - intros n b Hne. rewrite (kp_data _ _ _ _ B); [by apply A|]. intros Hc. apply Hne.
    by apply (kp_cache _ _ _ _ A).
Qed.

Lemma static_slot s s' vp vp' :
  static vp' = static vp → content s' vp' = content s vp → slot_of s' vp' = slot_of s vp.
Proof. unfold slot_of. by intros [= _ -> -> ->] ->. Qed.

Lemma statics_view s s' pid va :
  translateVA s' = translateVA s → statics s s' →
  (∀ v vp vp', page_at (translateVA s) pid va = Some v → vpages s !! v = Some vp →
     vpages s' !! v = Some vp' → content s' vp' = content s vp) →
  view s' pid va = view s pid va.
Proof.
  intros HT Hs Hc. unfold view. rewrite HT.
  destruct (page_at _ pid va) as [v|] eqn:Hva; [|done]. cbn.
  specialize (Hs v). destruct (vpages s !! v) as [vp|] eqn:Hv.
  - apply fmap_Some in Hs as (vp' & Hv' & Hst). rewrite Hv'. apply static_slot; [done|by eapply Hc].
  - by apply fmap_None in Hs as ->.
Qed.

(** When page [r] has kept its data too, nobody sees a difference. *)
Lemma kept_same T r s s' :
  kept T r s s' → translateVA s = T → mapped T r →
  (∀ rp rp', vpages s !! r = Some rp → vpages s' !! r = Some rp' → content s' rp' = content s rp) →
  same s s'.
Proof.
  intros K HT Hm Hr. pose proof (kp_globals _ _ _ _ K) as [= E1 E2 E3 E4 E5 E6 E7 E8 E9].
  assert (∀ v vp vp', live T s' v → vpages s !! v = Some vp → vpages s' !! v = Some vp' →
            content s' vp' = content s vp) as Hc.
  { intros v vp vp' Hl Hv Hv'. destruct (decide (v = r)) as [->|]; [by apply Hr|].
    by apply (kp_content _ _ _ _ K v). }
  split.
  - unfold registers. congruence.
  - intros pid va. apply statics_view; [done|apply K|]. intros v vp vp' Hva. apply Hc. left.
    exists pid, va. by rewrite -HT.
  - intros n b. destruct (decide (cached_at (filename_block_to_vpage s) n b = Some r)) as [Hcr|];
      [|by apply K].
    unfold file_data. rewrite Hcr (proj2 (kp_cache _ _ _ _ K) n b r Hm Hcr). cbn.
    pose proof (kp_statics _ _ _ _ K r) as Hs. destruct (vpages s !! r) as [rp|] eqn:Hrp.
    + apply fmap_Some in Hs as (rp' & Hrp' & _). rewrite Hrp'. by apply Hr.
    + by apply fmap_None in Hs as ->.
Qed.

(** ** Translations with the same pages

    An entry without addresses, which [operator[]] makes, is no difference. *)

Definition same_pages (T T' : translation) : Prop :=
  ∀ pid va, page_at T pid va = page_at T' pid va.

#[export] Instance same_pages_equivalence : Equivalence same_pages.
Proof.
  split; [done|by intros T T' H pid va|]. intros T1 T2 T3 H H' pid va. by rewrite (H pid).
Qed.

#[export] Instance page_at_proper : Proper (same_pages ==> eq ==> eq ==> eq) page_at.
Proof. intros T T' H pid ? <- va ? <-. apply H. Qed.
#[export] Instance mapped_proper : Proper (same_pages ==> eq ==> iff) mapped.
Proof. intros T T' H v ? <-. unfold mapped. by setoid_rewrite H. Qed.
#[export] Instance live_proper : Proper (same_pages ==> eq ==> eq ==> iff) live.
Proof. intros T T' H s ? <- v ? <-. unfold live. by rewrite H. Qed.

Lemma pages_live T T' s v : same_pages T T' → live T' s v ↔ live T s v.
Proof. intros H. by setoid_rewrite H. Qed.

Lemma each_pages T T' X s P : same_pages T T' → each T X s P → each T' X s P.
Proof. intros H He v vp Hl. apply He. by apply (pages_live _ _ _ _ H). Qed.

Lemma maps_pages T T' s : same_pages T T' → maps_ok T s → maps_ok T' s.
Proof.
  intros H []. pose proof (λ v, pages_live _ _ s v H) as HL. split; try done.
  - intros pid va v. rewrite -H. eauto.
  - intros pid va v. rewrite -H. eauto.
  - intros v. rewrite HL. eauto.
  - intros v vp Hl%HL Hv. destruct (ma_aff v vp Hl Hv) as [Hnd Hiff]. split; [done|].
    intros p. rewrite Hiff. by setoid_rewrite H.
  - intros v vp Hm. apply ma_file. by apply (mapped_proper _ _ H v v eq_refl).
Qed.

Lemma swap_pages nswap T T' s : same_pages T T' → swap_ok nswap T s → swap_ok nswap T' s.
Proof.
  intros H []. pose proof (λ v, pages_live _ _ s v H) as HL.
  split; try done; setoid_rewrite HL; eauto.
Qed.

Lemma alloc_pages T T' X s : same_pages T T' → alloc_ok T X s → alloc_ok T' X s.
Proof.
  intros H []. split; try done; [|by eapply each_pages]. intros v. by rewrite (pages_live _ _ _ _ H).
Qed.

Lemma data_pages T T' X s : same_pages T T' → data_ok T X s → data_ok T' X s.
Proof. intros H [? D]. split; [done|]. by eapply each_pages. Qed.
Lemma arena_pages T T' s : same_pages T T' → arena_ok T s → arena_ok T' s.
Proof. intros H []. split; [done..|]. intros pid a va. rewrite -H. eauto. Qed.
Lemma unmapped_pages T T' s : same_pages T T' → unmapped_ok T s → unmapped_ok T' s.
Proof. intros H Hu pid t va e. rewrite -H. eauto. Qed.

Lemma arena_frame T s s' :
  arena_ok T s → next_free_VA s' = next_free_VA s → process_table s' = process_table s → arena_ok T s'.
Proof. intros [] Hn Hp. split; rewrite ?Hn ?Hp; done. Qed.

End view.
