(* ===== verification/PagerWork.v ===== *)
(** * Work on one page

    The steps the functions of the interface are made of, each with what it keeps:
    a page gets a physical page, the physical page is filled, the page's bits are
    set, its entries are written, its physical page is returned. *)

From S2P Require Import Prelude PagerTypes Pager PagerInv PagerPtes PagerFrame PagerEvict PagerPlace.
From S2P Require Import PagerCheck PagerView.

Section work.
Context `{F : Files} `{Tr : Traversal} (nswap : Z) `{FL : !FilesLaws nswap}.
Abbreviation translation := (gmap pid_t (gmap Z vpage_id)).
Abbreviation consistent := (consistent nswap).

(** Consistent but for the entries of the pages in [X] and the data of those in
    [Y]. *)
Record working (T : translation) (X Y : gset vpage_id) (s : pager) : Prop := {
  wk_maps : maps_ok T s;
  wk_swap : swap_ok nswap T s;
  wk_alloc : alloc_ok T ∅ s;
  wk_pte : pte_ok T X s;
  wk_data : data_ok T Y s;
  wk_arena : arena_ok T s;
  wk_unmapped : unmapped_ok T s;
  wk_trans : translateVA s = T;
  wk_known pid : is_Some (T !! pid) → is_Some (process_table s !! pid) }.

Lemma working_consistent T s : working T ∅ ∅ s → consistent s.
Proof. intros []. by subst. Qed.
Lemma consistent_working s : consistent s → working (translateVA s) ∅ ∅ s.
Proof. by intros []. Qed.

Lemma working_weaken T X X' Y Y' s : X ⊆ X' → Y ⊆ Y' → working T X Y s → working T X' Y' s.
Proof.
  intros HX HY []. split; try done; [by eapply each_weaken|]. destruct wk_data0.
  split; [done|by eapply each_weaken].
Qed.

Lemma each_empty T X s P : each T ∅ s P → each T X s P.
Proof. intros H v vp Hl Hv _. by apply H. Qed.

(** ** A page without physical memory asks for some *)

Lemma consistent_evicting r rp s :
  consistent s → mapped (translateVA s) r → vpages s !! r = Some rp → (∀ n, ¬ occupies rp n) →
  evicting nswap (translateVA s) {[r]} r s.
Proof.
  intros [] Hm Hr Hno. split; try done.
  - destruct co_alloc as [A1 A2 A3 A4 A5 A6 A7 A8]. split; try done; [|by apply each_empty].
    intros v. rewrite A5. split; [|set_solver]. intros (Hl & _ & vp & n & Hv & Ho).
    split; [done|]. split; [|by exists vp, n]. intros ->%elem_of_singleton. simplify_eq. by apply (Hno n).
  - by apply each_empty.
  - destruct co_data. split; [done|by apply each_empty].
Qed.

Lemma placed_working T X r rp n s s' :
  placed nswap T X r rp n s s' → arena_ok T s → unmapped_ok T s → translateVA s = T →
  (∀ pid, is_Some (T !! pid) → is_Some (process_table s !! pid)) → working T X {[r]} s'.
Proof.
  intros [M ? ? ? ? ? ? ? ?] HA HU HT HK. pose proof (mv_globals _ _ _ _ M) as [= E1 E2 E3 _ _ _ _ _ _].
  split; try done.
  - by apply (arena_frame _ s).
  - by eapply mv_unmapped.
  - by rewrite E2.
  - by rewrite E1.
Qed.

(** ** The physical page is filled *)

Section fill.
Context (T : translation) (X : gset vpage_id) (r : vpage_id) (rp : VirtualPage) (n : Z) (p : page).
Context (s : pager) (W : working T X {[r]} s) (Hm : mapped T r).
Context (Hr : vpages s !! r = Some rp) (Ho : occupies rp n).
Let s' := with_vm_physmem (set_page n p (vm_physmem s)) s.

Lemma fill_other w wp pp :
  live T s w → w ≠ r → vpages s !! w = Some wp → physicalPage wp = Some pp →
  vm_physmem s' (PPN pp) = vm_physmem s (PPN pp).
Proof.
  intros Hl Hne Hw Hp. cbn. unfold set_page. rewrite decide_False; [done|]. intros En.
  destruct Ho as [Hn Hpr]. apply Hne. pose proof (wk_alloc _ _ _ _ W) as A.
  assert (occupies wp n) as Ho' by (split; [done|by exists pp]).
  apply (al_inj _ _ _ A w r wp rp n); try done; apply (al_clock _ _ _ A); (split; [|split; [set_solver|]]).
  - done.
  - by exists wp, n.
  - by left.
  - by exists rp, n.
Qed.

Lemma fill_content w wp :
  live T s w → w ≠ r → vpages s !! w = Some wp → content s' wp = content s wp.
Proof.
  intros Hl Hne Hw. unfold content. destruct (physicalPage wp) as [pp|] eqn:Hp; [|done].
  by erewrite fill_other.
Qed.

Lemma fill_kept : kept T r s s'.
Proof.
  split; try done.
  - intros w wp wp' Hl Hne Hw Hw'. assert (wp' = wp) as -> by (cbn in Hw'; congruence).
    by apply (fill_content w).
  - intros n' b Hne. unfold file_data. cbn. destruct (cached_at _ n' b) as [w|] eqn:Hc; [|done].
    destruct (vpages s !! w) as [wp|] eqn:Hw; [|done]. cbn. apply (fill_content w); [|congruence|done].
    right. by exists n', b.
Qed.

Lemma fill_ok : working T X {[r]} s'.
Proof.
  destruct W as [M S A P D AR U HT HK]. split; try done.
  - eapply maps_frame; [exact M|done|by apply cache_same|done..|by apply files_same].
  - by eapply swap_frame; [exact S|apply cache_same|..].
  - by eapply alloc_frame; [exact A|..].
  - destruct D as [D0 D]. split.
    + cbn. unfold set_page. rewrite decide_False; [done|]. destruct Ho; congruence.
    + intros w wp Hl Hw HX. assert (w ≠ r) as Hne by set_solver.
      destruct (D w wp Hl Hw HX) as [D1 D2 D3]. split; try done.
      intros pp Hp ??. erewrite fill_other; [|done..]. by apply D1.
  - by apply (arena_frame _ s).
Qed.

End fill.

(** ** The bits of the page are set *)

Section settle.
Context (T : translation) (X : gset vpage_id) (r : vpage_id) (rp : VirtualPage) (pp : PhysicalPage) (d : bool).
Context (s : pager) (W : working T X {[r]} s) (HX : r ∈ X) (Hm : mapped T r).
Context (Hr : vpages s !! r = Some rp) (Hp : physicalPage rp = Some pp) (Hn : PPN pp ≠ 0).
Context (Hd : d = false → backing s rp = Some (vm_physmem s (PPN pp))).
Context (Hf : isSwap rp = false → is_Some (backing s rp)).
Let rp' := set_physicalPage (Some (mk_PhysicalPage (PPN pp) true d)) rp.
Let s' := with_vpages (<[r := rp']> (vpages s)) s.

Lemma settle_statics : statics s s'.
Proof. by apply (statics_insert _ _ r rp rp'). Qed.

Lemma settle_content : content s' rp' = content s rp.
Proof. unfold content. by rewrite Hp. Qed.

Lemma settle_kept : kept T r s s'.
Proof.
  split; try done; [by apply settle_statics|..].
  - intros w wp wp' Hl Hne Hw Hw'. cbn in Hw'. rewrite lookup_insert_ne // in Hw'. by simplify_eq.
  - intros n b Hne. unfold file_data. cbn. destruct (cached_at _ n b) as [w|] eqn:Hc; [|done].
    rewrite lookup_insert_ne; [done|congruence].
Qed.

Lemma settle_alloc : alloc_ok T ∅ s'.
Proof.
  destruct (wk_alloc _ _ _ _ W) as [A1 A2 A3 A4 A5 A6 A7 A8].
  assert (∀ w wp, vpages s' !! w = Some wp → ∃ wp0, vpages s !! w = Some wp0 ∧
            ∀ n, occupies wp n ↔ occupies wp0 n) as Hw.
  { intros w wp. cbn. rewrite lookup_insert_Some. intros [[<- <-]|[? ?]]; [|by exists wp].
    exists rp. split; [done|]. unfold occupies. cbn. rewrite Hp. naive_solver. }
  assert (∀ w wp0, vpages s !! w = Some wp0 → is_Some (vpages s' !! w)) as Hw'.
  { intros w wp0 ?. cbn. rewrite lookup_insert_is_Some'. right. by eexists. }
  split; try done.
  - intros v. cbn. rewrite A5. split; intros (Hl & HX' & vp & n & Hv & Ho); (split; [done|]; split; [done|]).
    + destruct (Hw' _ _ Hv) as [vp' Hv']. exists vp', n. split; [done|].
      destruct (Hw _ _ Hv') as (vp0 & Hv0 & ->). by simplify_eq.
    + destruct (Hw _ _ Hv) as (vp0 & Hv0 & Hiff). exists vp0, n. split; [done|]. by apply Hiff.
  - intros w wp Hl Hwp HX'. destruct (decide (w = r)) as [->|Hne].
    + cbn in Hwp. rewrite lookup_insert_eq in Hwp. injection Hwp as <-.
      destruct (A6 r rp Hl Hr HX') as [P1 P2 P3]. split; cbn; [by rewrite P1 Hp| |].
      * intros pp0 [= <-] ?. by apply (P2 pp).
      * intros pp0 [= <-] ?. done.
    + cbn in Hwp. rewrite lookup_insert_ne // in Hwp. by destruct (A6 w wp Hl Hwp HX'); split.
  - intros w w' wp wp' n ? ? (wp0 & ? & Hi)%Hw (wp0' & ? & Hi')%Hw ?%Hi ?%Hi'. by eapply (A7 w w').
Qed.

Lemma settle_ok : working T X ∅ s'.
Proof.
  destruct W as [M S A P D AR U HT HK]. pose proof settle_statics as HS.
  assert (∀ w, w ≠ r → vpages s' !! w = vpages s !! w) as Hw.
  { intros w ?. cbn. by rewrite lookup_insert_ne. }
  split; try done.
  - eapply maps_frame; [exact M|done|by apply cache_same|done..|by apply files_same].
  - by eapply swap_frame; [exact S|apply cache_same|..].
  - apply settle_alloc.
  - eapply pte_frame_same; [exact P|done| |done]. intros w ?. apply Hw. set_solver.
  - destruct D as [D0 D]. split; [done|]. intros w wp Hl Hwp _. destruct (decide (w = r)) as [->|Hne].
    + cbn in Hwp. rewrite lookup_insert_eq in Hwp. injection Hwp as <-. split; [|done|].
      * intros pp0 [= <-] _. exact Hd.
      * intros pp0 Hs _. by apply Hf.
    + rewrite Hw // in Hwp. destruct (D w wp Hl Hwp ltac:(set_solver)). by split.
  - by apply (arena_frame _ s).
Qed.

End settle.

(** ** The entries are written *)

Lemma tables_kept T r s tb : kept T r s (with_tables tb s).
Proof. split; try done. intros w wp wp' _ _ ??. by simplify_eq/=. Qed.

(** The parts that do not depend on how much of the arenas is in use. *)
Record core (T : translation) (X Y : gset vpage_id) (s : pager) : Prop := {
  cr_maps : maps_ok T s;
  cr_swap : swap_ok nswap T s;
  cr_alloc : alloc_ok T ∅ s;
  cr_pte : pte_ok T X s;
  cr_data : data_ok T Y s }.

Lemma working_core T X Y s : working T X Y s → core T X Y s.
Proof. by intros []. Qed.

(** All but [translateVA], [next_free_VA] and the running process. *)
Definition heap (s : pager) :=
  (process_table s, filename_block_to_vpage s, next_free_swap s, next_free_PPN s, clock_queue s,
   mem_pages_cap s, vpages s, next_vpage s, tables s, next_table s, vm_physmem s, files s).

Lemma core_frame T X Y s s' : core T X Y s → heap s' = heap s → core T X Y s'.
Proof.
  intros [M S A P D] [= E1 E2 E3 E4 E5 E6 E7 E8 E9 E10 E11 E12].
  assert (statics s s') as HS by (intros v; by rewrite E7).
  assert (∀ v, live T s' v ↔ live T s v) as HL by (intros v; unfold live; by rewrite E2).
  split.
  - eapply maps_frame; [exact M|done|by apply cache_same|done| |done..|by apply files_same]. by rewrite E9.
  - by eapply swap_frame; [exact S|apply cache_same|..].
  - eapply alloc_frame; [exact A| |done..]. by rewrite E7.
  - eapply pte_frame_same; [exact P|by intros v ?%HL| |done]. by rewrite E7.
  - destruct D as [D0 D]. split; [by rewrite E11|]. intros v vp Hl%HL Hv HX. rewrite E7 in Hv.
    destruct (D v vp Hl Hv HX) as [D1 D2 D3]. split; unfold backing in *; rewrite ?E11 ?E12; done.
Qed.

Lemma core_pages T T' X Y s : same_pages T T' → core T X Y s → core T' X Y s.
Proof.
  intros H []. split.
  - by eapply maps_pages.
  - by eapply swap_pages.
  - by eapply alloc_pages.
  - by eapply each_pages.
  - by eapply data_pages.
Qed.

Lemma consistent_core s : consistent s → core (translateVA s) ∅ ∅ s.
Proof. by intros []. Qed.

Lemma core_consistent s :
  core (translateVA s) ∅ ∅ s → arena_ok (translateVA s) s → unmapped_ok (translateVA s) s →
  (∀ pid, is_Some (translateVA s !! pid) → is_Some (process_table s !! pid)) → consistent s.
Proof. by intros []. Qed.

Lemma core_live_block T X Y s v vp : core T X Y s → live T s v → vpages s !! v = Some vp →
  ∃ b, head (blocks vp) = Some b.
Proof. intros []. by eapply live_block. Qed.

Lemma entries_core T X Y r rp tb s :
  core T X Y s → live T s r → vpages s !! r = Some rp → set_for (affiliated rp) rp s tb →
  core T (X ∖ {[r]}) Y (with_tables tb s).
Proof.
  intros [M S A P D] Hl Hr Htb. split.
  - eapply maps_frame; [exact M|done|by apply cache_same|done| |done..|by apply files_same]. apply Htb.
  - by eapply swap_frame; [exact S|apply cache_same|..].
  - by eapply alloc_frame; [exact A|..].
  - by eapply pte_close.
  - destruct D as [D0 D]. split; [done|]. intros w wp Hlw Hwp HX. by destruct (D w wp Hlw Hwp HX).
Qed.

Lemma entries_ok T X Y r rp tb s :
  working T X Y s → live T s r → vpages s !! r = Some rp → set_for (affiliated rp) rp s tb →
  working T (X ∖ {[r]}) Y (with_tables tb s).
Proof.
  intros W Hl Hr Htb. pose proof (entries_core T X Y r rp tb s (working_core _ _ _ _ W) Hl Hr Htb) as [].
  destruct W. split; try done.
  - by apply (arena_frame _ s).
  - by eapply unmapped_set_for.
Qed.

Lemma updatePTEs_core T X Y r rp (Q : unit → pager → Prop) s :
  core T X Y s → mapped T r → vpages s !! r = Some rp →
  (∀ tb, core T (X ∖ {[r]}) Y (with_tables tb s) → set_for (affiliated rp) rp s tb →
         Q tt (with_tables tb s)) →
  wp (updatePTEs r) Q s.
Proof.
  intros W Hm Hr HQ. assert (live T s r) as Hl by by left. pose proof (cr_maps _ _ _ _ W) as M.
  eapply updatePTEs_ok; [done|by apply (aff_mapped T s r)| | | |].
  - intros p. by apply (aff_pte T s r).
  - intros Hres. rewrite (ph_resident _ _ (al_phys _ _ _ (cr_alloc _ _ _ _ W) r rp Hl Hr ltac:(set_solver)))
      in Hres. by apply bool_decide_eq_true in Hres.
  - intros _ Hs. symmetry. by apply (sw_length _ _ _ (cr_swap _ _ _ _ W) r).
  - intros tb Htb. apply HQ; [|done]. by eapply entries_core.
Qed.

Lemma updatePTEs_working T X Y r rp (Q : unit → pager → Prop) s :
  working T X Y s → mapped T r → vpages s !! r = Some rp →
  (∀ tb, working T (X ∖ {[r]}) Y (with_tables tb s) → kept T r s (with_tables tb s) →
         Q tt (with_tables tb s)) →
  wp (updatePTEs r) Q s.
Proof.
  intros W Hm Hr HQ. eapply updatePTEs_core; [by apply working_core|done|done|]. intros tb _ Htb.
  apply HQ; [|apply tables_kept]. by eapply entries_ok; [|left|..].
Qed.

End work.
