(* ===== verification/PagerReturn.v ===== *)
(** * A physical page is returned

    [return_ppn_remove_from_clock], and a page of a file that cannot be read leaves
    the cache. *)

From S2P Require Import Prelude PagerTypes Pager PagerInv PagerPtes PagerFrame PagerEvict PagerPlace.
From S2P Require Import PagerCheck PagerView PagerWork.

Section return_ppn.
Context `{F : Files} `{Tr : Traversal} (nswap : Z) `{FL : !FilesLaws nswap}.
Abbreviation working := (working nswap).

(** A page without its physical page. *)
Definition absent (vp : VirtualPage) : VirtualPage :=
  set_physicalPage None (set_resident false vp).

(** The state when the [i]-th page of the clock has returned its physical page. *)
Definition returned (v : vpage_id) (vp : VirtualPage) (n : Z) (i : nat) (s : pager) : pager :=
  with_vpages (<[v := absent vp]> (vpages s))
    (with_clock_queue (delete i (clock_queue s)) (with_next_free_PPN (next_free_PPN s ++ [n]) s)).

Lemma pg_return v vp pp i (Q : unit → pager → Prop) s :
  vpages s !! v = Some vp → physicalPage vp = Some pp → find_clock v s = Some i →
  affiliated vp ≠ [] → (∀ p, p ∈ affiliated vp → is_Some (pte_at p s)) →
  (∀ tb, let s' := returned v vp (PPN pp) i s in
     set_for (affiliated vp) (absent vp) s' tb → Q tt (with_tables tb s')) →
  wp (return_ppn_remove_from_clock v) Q s.
Proof.
  intros Hv Hp Hi Haff Hpte HQ. unfold return_ppn_remove_from_clock.
  eapply pg_bind, pg_get_phys; [done..|]. apply pg_bind, pg_modify, pg_bind, pg_gets.
  change (find_clock v (with_next_free_PPN _ s)) with (find_clock v s). rewrite Hi.
  apply pg_bind, (pg_deref _ i); [done|]. apply pg_bind, pg_modify.
  eapply pg_bind, pg_modify_vpage; [exact Hv|].
  eapply pg_bind, pg_modify_vpage; [cbn; by rewrite lookup_insert_eq|]. cbn. rewrite insert_insert_eq.
  eapply updatePTEs_ok; [cbn; by rewrite lookup_insert_eq|exact Haff|exact Hpte|done|done|exact HQ].
Qed.

Lemma elem_of_delete {A} (l : list A) i x y :
  NoDup l → l !! i = Some x → y ∈ delete i l ↔ y ∈ l ∧ y ≠ x.
Proof.
  intros Hnd Hi. rewrite -{2}(take_drop_middle l i x Hi) delete_take_drop.
  rewrite -(take_drop_middle l i x Hi) in Hnd.
  apply NoDup_app in Hnd as (_ & Hd & [Hx Hnd]%NoDup_cons). rewrite !elem_of_app elem_of_cons. split.
  - intros [Hy|Hy]; (split; [auto|]); intros ->; [|done]. by apply (Hd x); [|left].
  - naive_solver.
Qed.

(** Physical memory afterwards; [T'] may have lost page [v]. *)
Lemma return_alloc T T' X v vp pp i s s' :
  alloc_ok T X s → clock_queue s !! i = Some v → vpages s !! v = Some vp →
  physicalPage vp = Some pp → PPN pp ≠ 0 → clock_queue s' = delete i (clock_queue s) → next_free_PPN s' = next_free_PPN s ++ [PPN pp] →
  mem_pages_cap s' = mem_pages_cap s → (∀ w, w ≠ v → vpages s' !! w = vpages s !! w) →
  (∀ w, w ≠ v → live T' s' w ↔ live T s w) →
  (∀ vp', vpages s' !! v = Some vp' → resident vp' = false ∧ physicalPage vp' = None) →
  alloc_ok T' X s'.
Proof.
  intros [A1 A2 A3 A4 A5 A6 A7 A8] Hi Hv Hp Hn Eq Ef Ec Ew El Ev.
  assert (v ∈ clock_queue s) as Hin by by eapply list_elem_of_lookup_2.
  destruct (proj1 (A5 v) Hin) as (Hlv & HvX & _).
  destruct (A6 v vp Hlv Hv HvX) as [P1 P2 P3].
  destruct (P2 pp Hp Hn) as [Hr Hnf].
  assert (∀ w, w ∈ clock_queue s' ↔ w ∈ clock_queue s ∧ w ≠ v) as HL.
  { intros w. rewrite Eq. by apply elem_of_delete. }
  split; rewrite ?Ec ?Ef.
  - done.
  - rewrite Eq. apply (sublist_NoDup _ _ A2), sublist_delete.
  - apply NoDup_app. split; [done|]. split; [set_solver|apply NoDup_singleton].
  - intros n [?| ->%list_elem_of_singleton]%elem_of_app; [by apply A4|done].
  - intros w. rewrite HL A5. split.
    + intros ((Hl & HX & wp & n & Hw & Ho) & Hne). split; [by apply El|]. split; [done|].
      exists wp, n. by rewrite Ew.
    + intros (Hl & HX & wp & n & Hw & Ho). destruct (decide (w = v)) as [->|Hne].
      { destruct (Ev _ Hw) as [_ Hno]. destruct Ho as (_ & pp' & ? & _). congruence. }
      split; [|done]. split; [by apply El|]. split; [done|]. exists wp, n. by rewrite -Ew.
  - intros w wp Hl Hw HX. destruct (decide (w = v)) as [->|Hne].
    { destruct (Ev _ Hw) as [Hres Hno]. split; rewrite Hno //. }
    rewrite Ew // in Hw. assert (live T s w) as Hl0 by by apply El.
    destruct (A6 w wp Hl0 Hw HX) as [Q1 Q2 Q3]. split; [done| |done].
    intros pp' Hp' Hn'. rewrite Ec Ef. destruct (Q2 pp' Hp' Hn') as [? Hnf']. split; [done|].
    apply not_elem_of_app. split; [done|]. intros En%list_elem_of_singleton. apply Hne.
    apply (A7 w v wp vp (PPN pp')); try done.
    + apply A5. split; [done|]. split; [done|]. exists wp, (PPN pp'). split; [done|]. split; [done|by exists pp'].
    + split; [done|by exists pp'].
    + split; [done|by exists pp].
  - intros w w' wp wp' n [Hw Hne]%HL [Hw' Hne']%HL. rewrite !Ew //. by apply A7.
  - rewrite Eq length_app length_delete; [|by eexists]. cbn.
    assert (length (clock_queue s) ≠ 0)%nat by (destruct (clock_queue s); [by apply elem_of_nil in Hin|done]).
    lia.
Qed.

(** The page of a file whose block could not be read. *)
Lemma return_ok T X r rp pp (Q : unit → pager → Prop) s :
  working T X {[r]} s → r ∈ X → mapped T r → vpages s !! r = Some rp → physicalPage rp = Some pp →
  PPN pp ≠ 0 → isSwap rp = false →
  (∀ s', working T (X ∖ {[r]}) ∅ s' → kept T r s s' → filename_block_to_vpage s' = filename_block_to_vpage s →
         files s' = files s → vpages s' !! r = Some (absent rp) → Q tt s') →
  wp (return_ppn_remove_from_clock r) Q s.
Proof.
  intros W HX Hm Hr Hp Hn Hsw HQ. assert (live T s r) as Hl by by left.
  destruct W as [M S A P D AR U HT HK].
  assert (r ∈ clock_queue s) as Hin.
  { apply (al_clock _ _ _ A). split; [done|]. split; [set_solver|]. exists rp, (PPN pp).
    split; [done|]. split; [done|by exists pp]. }
  destruct (find_clock_ok T s r HT Hl Hin) as (i & Hi & Hix).
  eapply pg_return; [done..|by apply (aff_mapped T s r)|by intros p; apply (aff_pte T s r)|].
  intros tb s' Htb. set (s0 := s') in *. unfold s' in s0. clear s'.
  assert (statics s s0) as HS by by apply (statics_insert _ _ r rp (absent rp)).
  assert (∀ w, w ≠ r → vpages s0 !! w = vpages s !! w) as Hw.
  { intros w ?. cbn. by rewrite lookup_insert_ne. }
  assert (vpages s0 !! r = Some (absent rp)) as Hr0 by (cbn; by rewrite lookup_insert_eq).
  assert (working T X ∅ s0) as W0.
  { split; try done.
    - eapply maps_frame; [exact M|done|by apply cache_same|done..|by apply files_same].
    - by eapply swap_frame; [exact S|apply cache_same|..].
    - eapply (return_alloc T T ∅ r rp pp i s); try done.
      intros vp' Hv'. rewrite Hr0 in Hv'. by simplify_eq.
    - eapply pte_frame_same; [exact P|done| |done]. intros w ?. apply Hw. set_solver.
    - destruct D as [D0 D]. split; [done|]. intros w wp Hlw Hwp _. destruct (decide (w = r)) as [->|Hne].
      + rewrite Hr0 in Hwp. injection Hwp as <-. split; [done| |done]. cbn. congruence.
      + rewrite Hw // in Hwp. destruct (D w wp Hlw Hwp ltac:(set_solver)). by split.
    - by apply (arena_frame _ s). }
  apply HQ; [|eapply kept_trans; [|by apply tables_kept]|done|done|exact Hr0].
  - by apply (entries_ok nswap T X ∅ r (absent rp)).
  - split; try done.
    + intros w wp wp' Hlw Hne Hwp Hwp'. rewrite Hw // in Hwp'. by simplify_eq.
    + intros n b Hne. unfold file_data. cbn. destruct (cached_at _ n b) as [w|] eqn:Hc; [|done].
      rewrite lookup_insert_ne; [done|congruence].
Qed.

(** ** A page leaves the cache *)

Section uncache.
Context (T : gmap pid_t (gmap Z vpage_id)) (X Y : gset vpage_id) (fn : string) (b : Z) (s : pager).
Context (C : gmap string (gmap Z vpage_id)).
Context (W : working T X Y s) (HY : ∀ v, v ∈ Y → mapped T v).
Context (HC : ∀ n b', cached_at C n b' =
  if decide ((n, b') = (fn, b)) then None else cached_at (filename_block_to_vpage s) n b').
Context (Hf : file_read (Some fn) b (files s) = None).
Let s' := with_filename_block_to_vpage C s.

Lemma uncache_cached n b' v :
  cached_at C n b' = Some v → cached_at (filename_block_to_vpage s) n b' = Some v.
Proof. rewrite HC. by destruct (decide _). Qed.

Lemma uncache_live v : live T s' v → live T s v.
Proof. intros [?|(n & b' & Hc)]; [by left|]. right. exists n, b'. by apply uncache_cached. Qed.

(** It has no physical page. *)
Lemma uncache_occupies v vp n : live T s v → ¬ live T s' v → vpages s !! v = Some vp → ¬ occupies vp n.
Proof.
  intros [Hm|(n' & b' & Hc)] Hno Hv (Hn & pp & Hp & _); [by destruct Hno; left|].
  destruct (decide ((n', b') = (fn, b))) as [[= -> ->]|Hne].
  - destruct (ma_cached _ _ (wk_maps _ _ _ _ _ W) _ _ _ Hc) as (vp' & Hv' & Hs & Hfn & Hb). simplify_eq.
    assert (v ∉ Y) as HvY by (intros ?%HY; by destruct Hno; left).
    assert (live T s v) as Hl by (right; by eexists _, _).
    destruct (dv_file _ _ (da_each _ _ _ (wk_data _ _ _ _ _ W) v vp Hl Hv HvY) pp Hs Hp) as [q Hq].
    unfold backing, file_of in Hq. rewrite Hb Hs /= in Hq. congruence.
  - apply Hno. right. exists n', b'. cbn. by rewrite HC decide_False.
Qed.

Lemma uncache_alloc : alloc_ok T ∅ s'.
Proof.
  destruct (wk_alloc _ _ _ _ _ W) as [A1 A2 A3 A4 A5 A6 A7 A8]. split; try done.
  - intros v. cbn. rewrite A5. split; intros (Hl & HX & vp & n & Hv & Ho).
    + split; [|split; [done|by exists vp, n]].
      assert (live T s' v ↔ owned v s' = true) as HL.
      { rewrite owned_live. change (translateVA s') with (translateVA s). by rewrite (wk_trans _ _ _ _ _ W). }
      apply HL. destruct (owned v s') eqn:Hno; [done|]. exfalso.
      apply (uncache_occupies v vp n Hl); [|done|done]. rewrite HL. congruence.
    + split; [by apply uncache_live|]. split; [done|by exists vp, n].
  - intros v vp Hl Hv HX. by destruct (A6 v vp (uncache_live v Hl) Hv HX).
Qed.

Lemma uncache_ok : working T X Y s'.
Proof.
  destruct W as [M S A P D AR U HT HK]. split; try done.
  - destruct M. split; try done.
    + intros v Hl%uncache_live. eauto.
    + intros v vp Hl%uncache_live. eauto.
    + intros n b' v Hc%uncache_cached. eauto.
    + intros v vp Hm Hv Hs. destruct (ma_file v vp Hm Hv Hs) as (b1 & Hb1 & Hor). exists b1.
      split; [done|]. cbn. rewrite HC. destruct (decide _) as [[= -> ->]|]; [by right|done].
  - by eapply swap_shrinks; [exact S|exact uncache_live|..].
  - apply uncache_alloc.
  - intros v vp Hl%uncache_live. eauto.
  - destruct D as [D0 D]. split; [done|]. intros v vp Hl%uncache_live Hv HX. by destruct (D v vp Hl Hv HX).
  - by apply (arena_frame _ s).
Qed.

End uncache.
End return_ppn.
