(* ===== verification/PagerFault.v ===== *)
(** * A page is brought in

    [bring_in] and [finish_fault], the part of [vm_fault] that is not
    copy-on-write: the page gets a physical page filled with its data, or its block
    cannot be read and nothing has changed for the processes. *)

From S2P Require Import Prelude PagerTypes Pager PagerInv PagerPtes PagerFrame PagerEvict PagerPlace.
From S2P Require Import PagerCheck PagerView PagerWork PagerReturn.

Section fault.
Context `{F : Files} `{Tr : Traversal} (nswap : Z) `{FL : !FilesLaws nswap}.
Abbreviation working := (working nswap).
Abbreviation consistent := (consistent nswap).

(** ** Accesses *)

(** The bit the MMU looks at. *)
Definition allows (w : bool) (e : page_table_entry_t) : bool :=
  if w then write_enable e else read_enable e.

(** A load ([w] false) or store from the page at [va] does not fault. *)
Definition enabled (s : pager) (pid va : Z) (w : bool) : Prop :=
  ∃ t e, process_table s !! pid = Some t ∧ pte_at (VA_to_PTE va t) s = Some e ∧ allows w e = true.

Lemma enabled_bits pid va v vp w s :
  consistent s → page_at (translateVA s) pid va = Some v → vpages s !! v = Some vp →
  enabled s pid va w ↔ (if w then (bits vp).2 else (bits vp).1) = true.
Proof.
  intros C Hva Hv. assert (mapped (translateVA s) v) as Hm by by exists pid, va.
  destruct (ma_process _ _ (co_maps _ _ C) _ _ _ Hva) as [t Ht].
  assert (VA_to_PTE va t ∈ affiliated vp) as Hin.
  { apply (ma_aff _ _ (co_maps _ _ C) v vp (or_introl Hm) Hv). by exists pid, va, t. }
  destruct (mapped_entry nswap s C v vp _ Hm Hv Hin) as (e & He & Hb & _). rewrite -Hb.
  unfold enabled, allows. rewrite Ht. split.
  - intros (? & ? & [= <-] & He' & Ha). rewrite He in He'. injection He' as <-. by destruct w.
  - intros Ha. exists t, e. by destruct w.
Qed.

(** What a fault leaves when it succeeds. *)
Record faulted (r : vpage_id) (w : bool) (s s' : pager) : Prop := {
  fa_consistent : consistent s';
  fa_kept : kept (translateVA s) r s s';
  fa_content rp rp' :
    vpages s !! r = Some rp → vpages s' !! r = Some rp' → content s' rp' = content s rp;
  fa_page : ∃ rp' pp', vpages s' !! r = Some rp' ∧ physicalPage rp' = Some pp' ∧ PPN pp' ≠ 0 ∧
    clocked pp' = true ∧ (w = true → dirty pp' = true) }.

Lemma page_at_mapped T pid va v : page_at T pid va = Some v → mapped T v.
Proof. by exists pid, va. Qed.

(** ** Files that cannot be read *)

Lemma unreadable_data s n b :
  consistent s → file_read (Some n) b (files s) = None → file_data s n b = None.
Proof.
  intros C Hf. unfold file_data. destruct (cached_at _ n b) as [x|] eqn:Hc; [|done].
  destruct (ma_cached _ _ (co_maps _ _ C) n b x Hc) as (xp & Hx & Hs & <- & Hb). rewrite Hx /=.
  assert (backing s xp = None) as Hbk by by rewrite /backing Hb /= /file_of Hs.
  unfold content. destruct (physicalPage xp) as [pp|] eqn:Hp; [|done]. exfalso.
  assert (live (translateVA s) s x) as Hl by (right; by eexists _, _).
  destruct (dv_file _ _ (da_each _ _ _ (co_data _ _ C) x xp Hl Hx ltac:(set_solver)) pp Hs Hp) as [q Hq].
  congruence.
Qed.

Lemma with_cache_id s : with_filename_block_to_vpage (filename_block_to_vpage s) s = s.
Proof. by destruct s. Qed.
Lemma with_vpages_id v vp s : vpages s !! v = Some vp → with_vpages (<[v := vp]> (vpages s)) s = s.
Proof. intros Hv. rewrite insert_id //. by destruct s. Qed.

(** What a read that fails leaves of the page: it is mapped as before and not in
    memory; if it has one address, no page is kept for its block. *)
Record orphaned (r : vpage_id) (rp : VirtualPage) (s s' : pager) : Prop := {
  or_pages : translateVA s' = translateVA s;
  or_page : ∃ rp', vpages s' !! r = Some rp' ∧ physicalPage rp' = None;
  or_cache b : blocks rp = [b] → length (affiliated rp) = 1%nat →
    cached_at (filename_block_to_vpage s') (filename rp) b = None }.

Section fail.
Context (s s1 : pager) (r : vpage_id) (rp : VirtualPage) (n b : Z).
Let T := translateVA s.
Context (C : consistent s) (W : working T {[r]} {[r]} s1) (K : kept T r s s1) (Hm : mapped T r).
Context (Hr : vpages s !! r = Some rp) (Hr1 : vpages s1 !! r = Some (with_ppn n rp)) (Hn : n ≠ 0).
Context (Hsw : isSwap rp = false) (Hp : physicalPage rp = None) (Hb : blocks rp = [b]).
Context (Hf : file_read (Some (filename rp)) b (files s) = None).
Context (Hf1 : file_read (Some (filename rp)) b (files s1) = None).

Lemma fail_same c s2 :
  (∀ n' b', (n', b') ≠ (filename rp, b) →
     cached_at c n' b' = cached_at (filename_block_to_vpage s1) n' b') →
  consistent s2 → kept T r (with_filename_block_to_vpage c s1) s2 →
  files s2 = files s1 → vpages s2 !! r = Some (absent (with_ppn n rp)) → same s s2.
Proof.
  intros Hc C2 K2 Hf2 Hr2.
  assert (backing s rp = None) as Hbk by by rewrite /backing Hb /= /file_of Hsw.
  pose proof (kp_globals _ _ _ _ K) as [= E1 E2 E3 E4 E5 E6 E7 E8 E9].
  pose proof (kp_globals _ _ _ _ K2) as [= G1 G2 G3 G4 G5 G6 G7 G8 G9].
  split.
  - unfold registers. congruence.
  - intros pid va. apply statics_view; [congruence| |].
    + eapply statics_trans; [apply K|]. apply (kp_statics _ _ _ _ K2).
    + intros v vp vp2 Hva Hv Hv2. assert (mapped T v) as Hmv by by exists pid, va.
      destruct (decide (v = r)) as [->|Hne].
      * rewrite Hr2 in Hv2. injection Hv2 as <-. assert (vp = rp) as -> by congruence.
        unfold content. rewrite Hp Hbk. cbn. by rewrite /backing /= Hb /= /file_of /= Hsw Hf2.
      * destruct (statics_at _ _ _ _ (kp_statics _ _ _ _ K2) Hv2) as (vp1 & Hv1 & _). cbn in Hv1.
        rewrite (kp_content _ _ _ _ K2 v vp1 vp2) //; [|by left].
        change (content s1 vp1 = content s vp). apply (kp_content _ _ _ _ K v); [by left|done..].
  - intros n' b'. destruct (decide ((n', b') = (filename rp, b))) as [[= -> ->]|Hne].
    { rewrite !unreadable_data //. by rewrite Hf2. }
    assert (∀ s', maps_ok T s' → vpages s' !! r = Some rp ∨ vpages s' !! r = Some (with_ppn n rp) →
              cached_at (filename_block_to_vpage s') n' b' ≠ Some r) as Hnr.
    { intros s' M Hor Hcr. destruct (ma_cached _ _ M _ _ _ Hcr) as (rp' & Hr' & _ & <- & Hb').
      apply Hne. destruct Hor; simplify_eq/=; congruence. }
    rewrite (kp_data _ _ _ _ K2); cbn.
    + rewrite -(kp_data _ _ _ _ K n' b'); [|apply (Hnr s); [apply C|by left]].
      unfold file_data. cbn. by rewrite Hc.
    + rewrite Hc //. apply (Hnr s1); [apply W|by right].
Qed.

(** A read that fails is undone, but for the cache. *)
Lemma bring_in_fail (Q : bool → pager → Prop) :
  (∀ s', consistent s' → same s s' → orphaned r rp s s' → Q false s') →
  wp (when (length (affiliated (with_ppn n rp)) =? 1)%nat (remove_from_filename_block r) ;;
      return_ppn_remove_from_clock r ;; mret false) Q s1.
Proof.
  intros HQ. apply pg_bind.
  enough (∀ c, (∀ n' b', (n', b') ≠ (filename rp, b) →
              cached_at c n' b' = cached_at (filename_block_to_vpage s1) n' b') →
            (length (affiliated rp) = 1%nat → cached_at c (filename rp) b = None) →
            working T {[r]} {[r]} (with_filename_block_to_vpage c s1) →
            wp (return_ppn_remove_from_clock r ;; mret false) Q (with_filename_block_to_vpage c s1)) as Hgo.
  { apply pg_when; intros Hlen.
    - eapply (remove_ok r _ b); [exact Hr1|cbn; by rewrite Hb|]. intros c Hc. cbn in Hc. apply Hgo.
      + intros n' b' Hne. by rewrite Hc decide_False.
      + intros _. by rewrite Hc decide_True.
      + eapply (uncache_ok nswap); [exact W| |exact Hc|exact Hf1]. by intros v ->%elem_of_singleton.
    - rewrite -(with_cache_id s1). apply Hgo; [done|by intros Hl; cbn in Hlen; rewrite Hl in Hlen|].
      by rewrite with_cache_id. }
  intros c Hc Hnone Wc. apply pg_bind. eapply (return_ok nswap T {[r]}); [exact Wc|set_solver|exact Hm|exact Hr1|done..|].
  intros s' W' K' _ Hf' Hr'. apply pg_ret.
  assert (consistent s') as C' by (eapply working_consistent, working_weaken, W'; set_solver).
  apply HQ; [done|by eapply fail_same|].
  pose proof (kp_globals _ _ _ _ K) as [= _ E2 _ _ _ _ _ _ _].
  pose proof (kp_globals _ _ _ _ K') as [= _ G2 _ _ _ _ _ _ _]. split.
  - cbn in G2. congruence.
  - eexists. split; [exact Hr'|done].
  - intros b' Hb' Hlen. rewrite Hb in Hb'. injection Hb' as <-. specialize (Hnone Hlen).
    apply eq_None_not_Some. intros [v Hv].
    apply (proj1 (kp_cache _ _ _ _ K')) in Hv. cbn in Hv. congruence.
Qed.

End fail.

(** ** [bring_in] *)

(** Page [r] is in memory, with the data it had. *)
Record brought (r : vpage_id) (rp : VirtualPage) (w : bool) (s s' : pager) (rp' : VirtualPage)
    (pp : PhysicalPage) : Prop := {
  br_working : working (translateVA s) {[r]} {[r]} s';
  br_kept : kept (translateVA s) r s s';
  br_page : vpages s' !! r = Some rp';
  br_phys : physicalPage rp' = Some pp ∧ PPN pp ≠ 0;
  br_static : static rp' = static rp;
  br_content : content s' rp' = content s rp;
  br_clean : dirty pp = false → w = false → backing s' rp' = Some (vm_physmem s' (PPN pp));
  br_file : isSwap rp' = false → is_Some (backing s' rp');
  br_old : dirty pp = true → physicalPage rp = Some pp }.

(** After [give_new_ppn], with the page [p] in the new physical page. *)
Lemma placed_brought r rp n p w s s1 s2 :
  consistent s → mapped (translateVA s) r → vpages s !! r = Some rp →
  (* [give_new_ppn] *)
  working (translateVA s) {[r]} {[r]} s1 → kept (translateVA s) r s s1 →
  vpages s1 !! r = Some (with_ppn n rp) → n ≠ 0 →
  (* the page is filled *)
  s2 = with_vm_physmem (set_page n p (vm_physmem s1)) s1 →
  content s rp = Some p →
  (w = false → backing s1 (with_ppn n rp) = Some p) →
  (isSwap rp = false → is_Some (backing s1 (with_ppn n rp))) →
  brought r rp w s s2 (with_ppn n rp) (mk_PhysicalPage n true false).
Proof.
  intros C Hm Hr W K Hr1 Hn -> Hp Hclean Hfile.
  assert (occupies (with_ppn n rp) n) as Ho by (split; [done|by eexists]).
  assert (∀ x, set_page n p x n = p) as Hset by (intros x; unfold set_page; by rewrite decide_True).
  split; try done.
  - by eapply fill_ok.
  - eapply kept_trans; [exact K|]. by eapply fill_kept.
  - rewrite Hp. unfold content. cbn. by rewrite Hset.
  - intros _ Hw. cbn. rewrite Hset. by apply Hclean.
Qed.

Lemma pg_write_page n p (Q : unit → pager → Prop) s :
  0 ≤ n < mem_pages_cap s → Q tt (with_vm_physmem (set_page n p (vm_physmem s)) s) →
  wp (write_page n p) Q s.
Proof. intros Hn HQ. by apply pg_bind, pg_check_ppn, pg_modify. Qed.

Lemma memory_cases vp :
  (∃ pp, physicalPage vp = Some pp ∧ PPN pp ≠ 0) ∨ ∀ n, ¬ occupies vp n.
Proof.
  destruct (physicalPage vp) as [pp|] eqn:Hp.
  - destruct (decide (PPN pp = 0)) as [Hz|]; [right|left; by exists pp].
    intros n (Hn & pp' & ? & <-). congruence.
  - right. intros n (_ & pp' & ? & _). congruence.
Qed.

(** The page after [give_new_ppn] is filled from its block. *)
Lemma fill_from_file r rp n w (Q : bool → pager → Prop) s s1 :
  consistent s → mapped (translateVA s) r → vpages s !! r = Some rp → physicalPage rp = None →
  placed nswap (translateVA s) {[r]} r rp n s s1 →
  (∀ s' rp' pp, brought r rp w s s' rp' pp → Q true s') →
  (∀ s', consistent s' → same s s' → orphaned r rp s s' → isSwap rp = false → content s rp = None →
     Q false s') →
  wp (ok ← (fp ← get_vpage r;
            b ← deref (head (blocks fp));
            res ← pager_file_read (file_of fp) b n;
            if res =? -1 then
              when (length (affiliated fp) =? 1)%nat (remove_from_filename_block r) ;;
              return_ppn_remove_from_clock r ;;
              mret false
            else mret true);
      if ok : bool then modify_vpage r (set_resident true) ;; mret true else mret false) Q s1.
Proof.
  intros C Hm Hr Hp PL HQ1 HQ2. assert (live (translateVA s) s r) as Hl by by left.
  pose proof (da_each _ _ _ (co_data _ _ C) r rp Hl Hr ltac:(set_solver)) as [_ D2 _].
  destruct (live_block nswap _ s r rp (co_maps _ _ C) (co_swap _ _ C) Hl Hr) as [b Hb].
  assert (working (translateVA s) {[r]} {[r]} s1) as W1 
    by (by eapply placed_working; [exact PL|apply C|apply C|done|apply C]).
  destruct PL as [Mv Hr1 _ _ _ _ _ Hn _]. pose proof (moved_kept _ _ _ _ Mv) as K1.
  assert (content s rp = backing s rp) as Hcb by by rewrite /content Hp.
  assert (backing s rp = file_read (file_of rp) b (files s)) as Hbk by by rewrite /backing Hb.
  assert (backing s1 (with_ppn n rp) = backing s rp) as Hbk1 by (by rewrite -(mv_backing _ _ _ _ Mv rp Hr)).
  assert (backing s1 (with_ppn n rp) = file_read (file_of rp) b (files s1)) as Hbk1'.
  { by rewrite /backing /= Hb. }
  apply pg_bind. eapply pg_bind, pg_get_vpage; [done|]. eapply pg_bind, pg_deref; [exact Hb|].
  apply pg_bind, pg_bind, pg_gets. change (file_of (with_ppn n rp)) with (file_of rp). rewrite -Hbk1'.
  destruct (backing s1 (with_ppn n rp)) as [p|] eqn:Hread.
  - apply pg_bind, pg_write_page; [lia|]. apply pg_ret. cbn [Z.eqb]. apply pg_ret, pg_bind.
    set (s2 := with_vm_physmem _ s1).
    eapply pg_modify_vpage; [exact Hr1|].
    change (set_resident true (with_ppn n rp)) with (with_ppn n rp).
    rewrite (with_vpages_id r (with_ppn n rp) s2 Hr1). apply pg_ret.
    eapply HQ1, (placed_brought r rp n p w s s1 s2); try done; [lia|congruence].
  - apply pg_ret. cbn [Z.eqb]. destruct (isSwap rp) eqn:Hs.
    { destruct D2 as [q Hq]; [done..|]. congruence. }
    destruct (file_key _ _ _ _ (co_maps _ _ C) Hl Hr Hs) as (b' & Hbs & _).
    assert (b' = b) as -> by (rewrite Hbs in Hb; by injection Hb).
    assert (file_of rp = Some (filename rp)) as Hfo by by rewrite /file_of Hs.
    rewrite Hfo in Hbk, Hbk1'.
    apply (bring_in_fail s s1 r rp n b C W1 K1 Hm Hr Hr1 ltac:(lia) Hs Hp Hbs); [congruence..|].
    intros s' C' Hsame Ho. apply HQ2; [done..|congruence].
Qed.


(** The null page gets a page of its own. *)
Lemma fill_null r rp pp n (k : bool → M bool) (Q : bool → pager → Prop) s s1 :
  consistent s → mapped (translateVA s) r → vpages s !! r = Some rp →
  physicalPage rp = Some pp → PPN pp = 0 →
  placed nswap (translateVA s) {[r]} r rp n s s1 →
  (∀ s' rp' pp, brought r rp true s s' rp' pp → vpages s' !! r = Some (with_ppn n rp) → wp (k true) Q s') →
  wp (ok ← (write_page n null_page ;; mret true); k ok) Q s1.
Proof.
  intros C Hm Hr Hp Hz PL HQ. assert (live (translateVA s) s r) as Hl by by left.
  destruct (ph_null _ _ (al_phys _ _ _ (co_alloc _ _ C) r rp Hl Hr ltac:(set_solver)) pp Hp Hz) as (Hs & _).
  assert (working (translateVA s) {[r]} {[r]} s1) as W1
    by (by eapply placed_working; [exact PL|apply C|apply C|done|apply C]).
  destruct PL as [Mv Hr1 _ _ _ _ _ Hn _]. pose proof (moved_kept _ _ _ _ Mv) as K1.
  apply pg_bind, pg_bind, pg_write_page; [lia|]. apply pg_ret. eapply HQ; [|exact Hr1].
  eapply (placed_brought r rp n null_page true s s1); try done; [lia| |congruence].
  unfold content. by rewrite Hp Hz (da_null _ _ _ (co_data _ _ C)).
Qed.

(** [bring_in] *)
Lemma bring_in_ok r rp w (Q : bool → pager → Prop) s :
  consistent s → mapped (translateVA s) r → vpages s !! r = Some rp →
  (∀ pp, physicalPage rp = Some pp → PPN pp = 0 → w = true) →
  (∀ s' rp' pp, brought r rp w s s' rp' pp → Q true s') →
  (∀ s', consistent s' → same s s' → orphaned r rp s s' → isSwap rp = false → content s rp = None →
     Q false s') →
  wp (bring_in r) Q s.
Proof.
  intros C Hm Hr Hnull HQ1 HQ2. assert (live (translateVA s) s r) as Hl by by left.
  pose proof (al_phys _ _ _ (co_alloc _ _ C) r rp Hl Hr ltac:(set_solver)) as [P1 P2 P3].
  pose proof (da_each _ _ _ (co_data _ _ C) r rp Hl Hr ltac:(set_solver)) as [D1 D2 D3].
  unfold bring_in. eapply pg_bind, pg_get_vpage; [done|].
  destruct (memory_cases rp) as [(pp & Hp & Hn)|Hno].
  { assert (resident rp = true) as -> by by rewrite P1 Hp.
    apply pg_bind, pg_bind. apply (pg_deref _ pp); [done|]. apply pg_ret.
    rewrite (proj2 (Z.eqb_neq _ 0) Hn). apply pg_ret, (HQ1 s rp pp). split; try done.
    - eapply working_weaken; [..|by apply consistent_working]; set_solver.
    - by apply moved_kept, moved_refl.
    - intros Hd _. by apply D1.
    - intros Hs. by apply (D3 pp). }
  apply pg_bind. apply (pg_mono _ (λ a s', a = true ∧ s' = s)).
  { destruct (physicalPage rp) as [pp|] eqn:Hp; [|by assert (resident rp = false) as -> by by rewrite P1].
    assert (resident rp = true) as -> by by rewrite P1. cbn [negb].
    apply pg_bind, (pg_deref _ pp); [done|]. apply pg_ret. split; [|done]. apply Z.eqb_eq, dec_stable. intros Hn. apply (Hno (PPN pp)).
    split; [done|by exists pp]. }
  intros ? ? [-> ->]. eapply pg_bind, pg_modify_vpage; [done|].
  set (rp0 := set_physicalPage _ rp). set (s0 := with_vpages _ s).
  assert (vpages s0 !! r = Some rp0) as Hr0 by (cbn; by rewrite lookup_insert_eq).
  eapply pg_bind, pg_get_vpage; [exact Hr0|]. apply pg_bind.
  assert (evicting nswap (translateVA s) {[r]} r s) as E by by apply (consistent_evicting nswap r rp).
  eapply (give_new_ppn_ok nswap (translateVA s) {[r]} r rp0); [|set_solver|exact Hr0|].
  { apply (hole_ok nswap (translateVA s) {[r]} r s rp rp0 E); [set_solver|done|done]. }
  intros n s1 PL0. assert (placed nswap (translateVA s) {[r]} r rp n s s1) as PL.
  { destruct PL0. split; try done.
    - eapply moved_trans; [|done]. by apply (hole_moved (translateVA s) r s rp rp0).
    - intros v vp vp' Hne Hlv Hv Hv'. apply (pl_other v vp vp' Hne Hlv); [|done]. cbn. by rewrite lookup_insert_ne. }
  eapply pg_bind, pg_get_phys; [apply PL|done|]. cbn [PPN].
  change (resident rp0) with (resident rp). rewrite P1. destruct (physicalPage rp) as [pp|] eqn:Hp; cbn [is_Some_dec bool_decide].
  - assert (PPN pp = 0) as Hz.
    { apply dec_stable. intros Hn. apply (Hno (PPN pp)). split; [done|by exists pp]. }
    apply (fill_null r rp pp n _ Q s s1); try done. intros s' rp' pp' B Hr'.
    eapply pg_bind, pg_modify_vpage; [exact Hr'|].
    change (set_resident true (with_ppn n rp)) with (with_ppn n rp). rewrite (with_vpages_id r _ s' Hr').
    apply pg_ret. rewrite (Hnull pp) // in HQ1. by eapply HQ1.
  - by apply (fill_from_file r rp n w Q s s1).
Qed.

(** ** [finish_fault] *)

Lemma finish_fault_ok r rp w rp' pp (Q : Z → pager → Prop) s s1 :
  consistent s → mapped (translateVA s) r → vpages s !! r = Some rp →
  brought r rp w s s1 rp' pp →
  (w = true → dirty pp = true → (1 < length (blocks rp))%nat ∨ clocked pp = false) →
  (∀ s', faulted r w s s' → Q 0 s') →
  wp (finish_fault r w) Q s1.
Proof.
  intros C Hm Hr [W K Hr1 [Hp Hn] Hst Hco Hcl Hfi Hold] Hass HQ. unfold finish_fault.
  eapply pg_bind, pg_get_phys; [done..|].
  set (rp2 := set_physicalPage (Some (mk_PhysicalPage (PPN pp) true (dirty pp || w))) rp').
  set (s2 := with_vpages (<[r := rp2]> (vpages s1)) s1).
  assert (working (translateVA s) {[r]} ∅ s2) as W2.
  { apply (settle_ok nswap (translateVA s) {[r]} r rp' pp); [exact W|set_solver|done..|by intros [? ?]%orb_false_iff; apply Hcl|exact Hfi]. }
  assert (kept (translateVA s) r s s2) as K2.
  { eapply kept_trans; [exact K|]. by eapply settle_kept. }
  enough (wp (updatePTEs r ;; final_check ;; mret 0) Q s2) as Hgo.
  { destruct (dirty pp) eqn:Hd; cbn [negb].
    - apply pg_bind, pg_when; [intros Hw|intros _].
      + eapply pg_bind, pg_get_vpage; [done|]. apply pg_assert.
        { injection Hst as _ _ _ Hb. rewrite Hb. apply orb_true_iff. destruct (Hass Hw eq_refl) as [?| ->]; [left|by right].
          by apply Nat.ltb_lt. }
        eapply pg_bind, pg_modify_phys; [done..|]. unfold set_clocked. by rewrite Hd.
      + eapply pg_bind, pg_modify_phys; [done..|]. unfold set_clocked. by rewrite Hd.
    - apply pg_bind. eapply pg_modify_phys; [done..|].
      eapply pg_bind, pg_modify_phys; [cbn; by rewrite lookup_insert_eq|done|]. cbn. by rewrite insert_insert_eq. }
  assert (vpages s2 !! r = Some rp2) as Hr2 by (cbn; by rewrite lookup_insert_eq).
  apply pg_bind. eapply (updatePTEs_working nswap _ {[r]} ∅ r rp2); [done..|]. intros tb W3 K3.
  assert (consistent (with_tables tb s2)) as C3.
  { eapply working_consistent, working_weaken, W3; set_solver. }
  apply pg_bind, (pg_final_check nswap); [done|]. apply pg_ret, HQ. split; [done|by eapply kept_trans| |].
  - intros rp0 rp3 ? H3. assert (rp0 = rp) as -> by congruence. cbn in H3. rewrite lookup_insert_eq in H3.
    injection H3 as <-. rewrite -Hco. unfold content. by rewrite Hp.
  - exists rp2. eexists. split; [exact Hr2|]. split; [done|]. cbn. split; [done|]. split; [done|].
    intros ->. by rewrite orb_true_r.
Qed.

End fault.
