(* ===== verification/PagerCow.v ===== *)
(** * Copy-on-write

    [copy_on_write] gives the process that writes a page of its own with the data
    of the page it shared. *)

From S2P Require Import Prelude PagerTypes Pager PagerInv PagerPtes PagerFrame PagerEvict PagerPlace.
From S2P Require Import PagerCheck PagerView PagerWork PagerReturn PagerFault.

Section cow.
Context `{F : Files} `{Tr : Traversal} (nswap : Z) `{FL : !FilesLaws nswap}.
Abbreviation working := (working nswap).
Abbreviation consistent := (consistent nswap).

(** [translateVA] with page [v] at [va] of process [pid]. *)
Definition remap (pid va : Z) (v : vpage_id) (T : gmap pid_t (gmap Z vpage_id)) :=
  <[pid := <[va := v]> (default ∅ (T !! pid))]> T.

Lemma page_at_remap pid va v T pid' va' :
  page_at (remap pid va v T) pid' va' =
  if decide ((pid', va') = (pid, va)) then Some v else page_at T pid' va'.
Proof.
  unfold page_at, remap. destruct (decide (pid' = pid)) as [->|Hne].
  - rewrite lookup_insert_eq /=. destruct (decide (va' = va)) as [->|].
    + by rewrite lookup_insert_eq decide_True.
    + rewrite lookup_insert_ne // decide_False; [|congruence]. by destruct (T !! pid).
  - rewrite lookup_insert_ne // decide_False //. congruence.
Qed.

(** ** The page is split *)

Section split.
Context (s : pager) (pid va : Z) (t : table_id) (r : vpage_id) (rp : VirtualPage) (b : Z) (i : nat).
Let T := translateVA s.
Let new := next_vpage s.
Let T' := remap pid va new T.
Let q := VA_to_PTE va t.
Context (C : consistent s) (Ht : process_table s !! pid = Some t) (Hva : page_at T pid va = Some r).
Context (Hr : vpages s !! r = Some rp) (Hlen : (1 < length (blocks rp))%nat).
Context (Hb : last (blocks rp) = Some b) (Hi : affiliated rp !! i = Some q).
Let np := mk_VirtualPage [q] true "" [b] None false.
Let rp1 := set_blocks (removelast (blocks rp)) (set_affiliated (delete i (affiliated rp)) rp).
Context (V : gmap vpage_id VirtualPage) (HVn : V !! new = Some np) (HVr : V !! r = Some rp1).
Context (HV : ∀ w, w ≠ new → w ≠ r → V !! w = vpages s !! w).
Let s1 := with_vpages V (with_translateVA T' (with_next_vpage (S new) s)).

Lemma split_live_r : live T s r.
Proof. left. by exists pid, va. Qed.

Lemma split_at v : page_at T pid va = Some v → v = r.
Proof. rewrite Hva. by intros [= ->]. Qed.

Lemma split_swap : isSwap rp = true.
Proof.
  destruct (isSwap rp) eqn:Hs; [done|].
  destruct (file_key _ _ _ _ (co_maps _ _ C) split_live_r Hr Hs) as (b' & Hbs & _).
  pose proof Hlen as H. rewrite Hbs in H. cbn in H. lia.
Qed.

Lemma split_fresh v : live T s v → v ≠ new.
Proof.
  intros Hl. destruct (ma_vpage _ _ (co_maps _ _ C) v Hl) as [vp Hv].
  pose proof (ma_next_vpage _ _ (co_maps _ _ C) v (mk_is_Some _ _ Hv)). unfold new. lia.
Qed.

Lemma split_blocks : blocks rp = removelast (blocks rp) ++ [b] ∧ removelast (blocks rp) ≠ [].
Proof.
  destruct (proj1 (last_Some _ _) Hb) as [l Hl]. rewrite Hl removelast_last. split; [done|].
  intros ->. pose proof Hlen as H. rewrite Hl in H. cbn in H. lia.
Qed.

Lemma split_head : head (removelast (blocks rp)) = head (blocks rp).
Proof. destruct split_blocks as [E Hne]. rewrite {2}E. by destruct (removelast (blocks rp)). Qed.

Lemma split_aff : NoDup (affiliated rp) ∧ length (affiliated rp) = length (blocks rp) ∧
  ∀ p, p ∈ delete i (affiliated rp) ↔ p ∈ affiliated rp ∧ p ≠ q.
Proof.
  destruct (ma_aff _ _ (co_maps _ _ C) r rp split_live_r Hr) as [Hnd _]. split; [done|]. split.
  - symmetry. by apply (sw_length _ _ _ (co_swap _ _ C) r rp split_live_r Hr split_swap).
  - intros p. by apply (elem_of_delete _ i q).
Qed.

(** The page keeps other addresses. *)
Lemma split_still : mapped T' r.
Proof.
  destruct split_aff as (Hnd & Hlb & Hdel).
  assert (delete i (affiliated rp) ≠ []) as Hne.
  { intros Hnil. apply (f_equal length) in Hnil. rewrite length_delete in Hnil; [|by eexists]. cbn in Hnil. lia. }
  destruct (delete i (affiliated rp)) as [|p l] eqn:El; [done|].
  destruct (proj1 (Hdel p) ltac:(set_solver)) as [Hp Hpq].
  apply (ma_aff _ _ (co_maps _ _ C) r rp split_live_r Hr) in Hp as (pid' & va' & t' & Ht' & Hva' & ->).
  exists pid', va'. unfold T'. rewrite page_at_remap decide_False //. intros [= -> ->]. apply Hpq. unfold q. congruence.
Qed.

Lemma split_mapped v : mapped T' v ↔ v = new ∨ mapped T v.
Proof.
  split.
  - intros (pid' & va' & H). unfold T' in H. rewrite page_at_remap in H.
    destruct (decide _); [left; congruence|right; by exists pid', va'].
  - intros [->|(pid' & va' & H)].
    + exists pid, va. unfold T'. by rewrite page_at_remap decide_True.
    + destruct (decide (v = r)) as [->|Hne]; [apply split_still|]. exists pid', va'. unfold T'.
      rewrite page_at_remap decide_False //. intros [= -> ->]. congruence.
Qed.

Lemma split_live v : live T' s1 v ↔ v = new ∨ live T s v.
Proof. unfold live. rewrite split_mapped. cbn. naive_solver. Qed.

Lemma split_lookup v vp :
  live T' s1 v → vpages s1 !! v = Some vp →
  (v = new ∧ vp = np) ∨ (v = r ∧ vp = rp1) ∨ (v ≠ new ∧ v ≠ r ∧ live T s v ∧ vpages s !! v = Some vp).
Proof.
  intros Hl Hv. cbn in Hv. destruct (decide (v = new)) as [->|Hn]; [left; split; congruence|].
  destruct (decide (v = r)) as [->|Hnr]; [right; left; split; congruence|]. right. right.
  split; [done|]. split; [done|]. apply split_live in Hl as [?|?]; [done|]. split; [done|]. by rewrite -HV.
Qed.

Lemma split_maps : maps_ok T' s1.
Proof.
  pose proof (co_maps _ _ C) as M. destruct split_aff as (Hnd & Hlb & Hdel).
  split; cbn; try by apply M.
  - intros pid' va' v H. unfold T' in H. rewrite page_at_remap in H.
    destruct (decide _) as [[= -> ->]|]; [by eexists|by eapply ma_process].
  - intros pid' va' v H. unfold T' in H. rewrite page_at_remap in H.
    destruct (decide _) as [[= -> ->]|]; by eapply ma_va.
  - intros v [->|Hl]%split_live; [by eexists|]. destruct (decide (v = r)) as [->|Hne]; [by eexists|].
    rewrite HV //; [by eapply ma_vpage|by apply split_fresh].
  - intros v vp Hl Hv. unfold T'. setoid_rewrite page_at_remap.
    destruct (split_lookup v vp Hl Hv) as [[-> ->]|[[-> ->]|(Hn & Hnr & Hl0 & Hv0)]]; cbn.
    + split; [apply NoDup_singleton|]. intros p. rewrite list_elem_of_singleton. split.
      * intros ->. exists pid, va, t. by rewrite decide_True.
      * intros (pid' & va' & t' & Ht' & Hp & ->). destruct (decide _) as [[= -> ->]|Hne].
        -- rewrite Ht in Ht'. by injection Ht' as <-.
        -- exfalso. apply (split_fresh new); [|done]. left. by exists pid', va'.
    + split; [by eapply sublist_NoDup; [exact Hnd|apply sublist_delete]|]. intros p. rewrite Hdel.
      rewrite (proj2 (ma_aff _ _ M r rp split_live_r Hr)). split.
      * intros ((pid' & va' & t' & Ht' & Hp & ->) & Hne). exists pid', va', t'.
        rewrite decide_False //. intros [= -> ->]. unfold q in Hne. congruence.
      * intros (pid' & va' & t' & Ht' & Hp & ->). destruct (decide _) as [|Hne].
        { exfalso. injection Hp as Hp. by apply (split_fresh r split_live_r). }
        split; [by exists pid', va', t'|]. intros E. apply VA_to_PTE_inj in E as [-> ->]; [|by eapply ma_va..].
        apply Hne. by rewrite (ma_inj _ _ M _ _ _ Ht Ht').
    + destruct (ma_aff _ _ M v vp Hl0 Hv0) as [? Hiff]. split; [done|]. intros p. rewrite Hiff. split.
      * intros (pid' & va' & t' & Ht' & Hp & ->). exists pid', va', t'. rewrite decide_False //.
        intros [= -> ->]. by apply split_at in Hp.
      * intros (pid' & va' & t' & Ht' & Hp & ->). exists pid', va', t'.
        destruct (decide _) as [[= -> ->]|Hne]; [|done].
        exfalso. apply Hn. by injection Hp.
  - intros n b' v Hc. destruct (ma_cached _ _ M n b' v Hc) as (vp & Hv & Hs & ?). exists vp. split; [|done].
    rewrite HV //; [apply split_fresh; right; by exists n, b'|]. intros ->. rewrite Hr in Hv.
    injection Hv as <-. pose proof split_swap. congruence.
  - intros v vp Hm Hv Hs.
    destruct (split_lookup v vp (or_introl Hm) Hv) as [[-> ->]|[[-> ->]|(Hn & Hnr & Hl0 & Hv0)]].
    + done.
    + exfalso. cbn in Hs. pose proof split_swap. congruence.
    + apply (ma_file _ _ M v vp); [|done..]. apply split_mapped in Hm as [?|?]; done.
  - intros v [vp Hv]. destruct (decide (v = new)) as [->|Hn]; [lia|]. cbn in Hv.
    assert (is_Some (vpages s !! v)) as Hsome.
    { destruct (decide (v = r)) as [->|]; [by eexists|]. rewrite -HV; [by eexists|done..]. }
    pose proof (ma_next_vpage _ _ M v Hsome). unfold new. lia.
Qed.

Lemma split_swaps : swap_ok nswap T' s1.
Proof.
  pose proof (co_swap _ _ C) as S. destruct split_aff as (_ & Hlb & _). destruct split_blocks as [Ebl _].
  assert (∀ v vp, live T' s1 v → vpages s1 !! v = Some vp → isSwap vp = true →
    ∃ v0 vp0, live T s v0 ∧ vpages s !! v0 = Some vp0 ∧ isSwap vp0 = true ∧
      (∀ b', b' ∈ blocks vp → b' ∈ blocks vp0) ∧ (v = new → v0 = r ∧ blocks vp = [b]) ∧ (v ≠ new → v = v0) ∧
      (v = r → blocks vp = removelast (blocks rp))) as Hold.
  { intros v vp Hl Hv Hs. destruct (split_lookup v vp Hl Hv) as [[-> ->]|[[-> ->]|(Hn & Hnr & Hl0 & Hv0)]].
    - exists r, rp. split_and!; try done; [apply split_live_r|apply split_swap| |].
      + intros b'. rewrite Ebl. cbn. set_solver.
      + intros E. by destruct (split_fresh r split_live_r).
    - exists r, rp. split_and!; try done; [apply split_live_r| |].
      + intros b' Hb'. rewrite Ebl. cbn in Hb'. set_solver.
      + intros E. by destruct (split_fresh r split_live_r).
    - exists v, vp. by split_and!. }
  pose proof (sw_nodup _ _ _ S r rp split_live_r Hr split_swap) as Hndb. rewrite Ebl in Hndb.
  apply NoDup_app in Hndb as (Hndb & Hdis & _).
  split; cbn; try by apply S.
  - intros v vp Hl Hv Hs. destruct (split_lookup v vp Hl Hv) as [[-> ->]|[[-> ->]|(Hn & Hnr & Hl0 & Hv0)]].
    + done.
    + cbn. rewrite length_delete; [|by eexists]. rewrite Ebl length_app in Hlb. cbn in Hlb. lia.
    + by apply (sw_length _ _ _ S v).
  - intros v vp Hl Hv Hs. destruct (split_lookup v vp Hl Hv) as [[-> ->]|[[-> ->]|(Hn & Hnr & Hl0 & Hv0)]].
    + apply NoDup_singleton.
    + done.
    + by apply (sw_nodup _ _ _ S v).
  - intros v w vp wp b' Hl Hl' Hv Hw Hs Hs' Hb1 Hb2.
    destruct (Hold v vp Hl Hv Hs) as (v0 & vp0 & Hlv & Hv0 & Hs0 & Hin & Hvn & Hvo & Hvr),
      (Hold w wp Hl' Hw Hs') as (w0 & wp0 & Hlw & Hw0 & Hs0' & Hin' & Hwn & Hwo & Hwr).
    assert (v0 = w0) as <- by (apply (sw_disjoint _ _ _ S v0 w0 vp0 wp0 b'); auto).
    destruct (decide (v = new)) as [Hv'|Hv'], (decide (w = new)) as [Hw'|Hw'].
    + congruence.
    + exfalso. destruct (Hvn Hv') as [-> Eb]. rewrite Eb in Hb1. rewrite (Hwr (Hwo Hw')) in Hb2. set_solver.
    + exfalso. destruct (Hwn Hw') as [-> Eb]. rewrite Eb in Hb2. rewrite (Hvr (Hvo Hv')) in Hb1. set_solver.
    + by rewrite (Hvo Hv') (Hwo Hw').
  - intros v vp b' Hl Hv Hs Hb'. destruct (Hold v vp Hl Hv Hs) as (v0 & vp0 & ? & ? & ? & Hin & _).
    by apply (sw_used _ _ _ S v0 vp0); [..|by apply Hin].
Qed.

(** The data of all pages is where it was. *)
Lemma split_content v vp vp1 :
  live T s v → vpages s !! v = Some vp → vpages s1 !! v = Some vp1 →
  content s1 vp1 = content s vp ∧ backing s1 vp1 = backing s vp ∧ physicalPage vp1 = physicalPage vp ∧
  isSwap vp1 = isSwap vp.
Proof.
  intros Hl Hv Hv1. destruct (split_lookup v vp1) as [[-> ->]|[[-> ->]|(Hn & Hnr & Hl0 & Hv0)]]; try done.
  - apply split_live. by right.
  - by apply split_fresh in Hl.
  - assert (vp = rp) as -> by congruence. split_and!; try done.
    + unfold content, rp1, backing. cbn. by rewrite split_head.
    + unfold rp1, backing. cbn. by rewrite split_head.
  - assert (vp1 = vp) as -> by congruence. done.
Qed.

Lemma split_occupied v vp n : live T s v → vpages s !! v = Some vp → occupies vp n →
  ∃ vp1, vpages s1 !! v = Some vp1 ∧ occupies vp1 n.
Proof.
  intros Hl Hv Ho. cbn. destruct (decide (v = r)) as [->|Hne].
  - exists rp1. assert (vp = rp) as -> by congruence. done.
  - exists vp. rewrite HV //. by apply split_fresh.
Qed.

Lemma split_occupies v vp n : live T' s1 v → vpages s1 !! v = Some vp → occupies vp n →
  v ≠ new ∧ live T s v ∧ ∃ vp0, vpages s !! v = Some vp0 ∧ occupies vp0 n.
Proof.
  intros Hl Hv Ho. destruct (split_lookup v vp Hl Hv) as [[-> ->]|[[-> ->]|(Hn & Hnr & Hl0 & Hv0)]].
  - by destruct Ho as (_ & pp & ? & _).
  - split; [by apply split_fresh, split_live_r|]. split; [apply split_live_r|]. by exists rp.
  - split; [done|]. split; [done|]. by exists vp.
Qed.

Lemma split_alloc : alloc_ok T' {[new]} s1.
Proof.
  pose proof (co_alloc _ _ C) as [A1 A2 A3 A4 A5 A6 A7 A8].
  assert (∀ v vp, v ∈ clock_queue s → vpages s1 !! v = Some vp → ∀ n, occupies vp n →
            ∃ vp0, vpages s !! v = Some vp0 ∧ occupies vp0 n) as Hocc.
  { intros v vp Hin Hv n Ho. apply A5 in Hin as (Hl & _).
    apply (split_occupies v vp n); [apply split_live; by right|done..]. }
  split; try done.
  - intros v. cbn [clock_queue s1 with_vpages with_translateVA with_next_vpage]. rewrite A5. split.
    + intros (Hl & _ & vp & n & Hv & Ho). split; [apply split_live; by right|].
      split; [intros Hn%elem_of_singleton; by destruct (split_fresh v Hl)|].
      destruct (split_occupied v vp n Hl Hv Ho) as (vp1 & ? & ?). by exists vp1, n.
    + intros (Hl & _ & vp & n & Hv & Ho). destruct (split_occupies v vp n Hl Hv Ho) as (_ & Hl0 & vp0 & ? & ?).
      split; [done|]. split; [set_solver|]. by exists vp0, n.
  - intros v vp Hl Hv HX. destruct (split_lookup v vp Hl Hv) as [[-> ->]|[[-> ->]|(Hn & Hnr & Hl0 & Hv0)]].
    + set_solver.
    + destruct (A6 r rp split_live_r Hr ltac:(set_solver)) as [P1 P2 P3]. split; [done|done|].
      intros pp Hp Hz. destruct (P3 pp Hp Hz) as (_ & _ & _ & Hone). destruct split_aff as (_ & Hlb & _). lia.
    + by destruct (A6 v vp Hl0 Hv0 ltac:(set_solver)); split.
  - intros v w vp wp n Hv Hw Hvp Hwp Ho Ho'.
    destruct (Hocc v vp Hv Hvp n Ho) as (? & ? & ?), (Hocc w wp Hw Hwp n Ho') as (? & ? & ?).
    by eapply (A7 v w).
Qed.

Lemma split_evicting : evicting nswap T' {[new; r]} new s1.
Proof.
  split; [apply split_maps|apply split_swaps|apply split_alloc| | |done|].
  - intros v vp Hl Hv HX. destruct (split_lookup v vp Hl Hv) as [[-> ->]|[[-> ->]|(Hn & Hnr & Hl0 & Hv0)]].
    + set_solver.
    + set_solver.
    + by apply (co_pte _ _ C v).
  - destruct (co_data _ _ C) as [D0 D]. split; [done|]. intros v vp Hl Hv HX.
    assert (v ≠ new) as Hn by set_solver. apply split_live in Hl as [?|Hl]; [done|].
    destruct (ma_vpage _ _ (co_maps _ _ C) v Hl) as [vp0 Hv0].
    destruct (split_content v vp0 vp Hl Hv0 Hv) as (_ & Hbk & Hp & Hs).
    destruct (D v vp0 Hl Hv0 ltac:(set_solver)) as [D1 D2 D3]. split; rewrite Hbk ?Hp ?Hs; done.
  - apply split_mapped. by left.
Qed.

Lemma split_known pid' : is_Some (T' !! pid') → is_Some (process_table s1 !! pid').
Proof.
  unfold T', remap. rewrite lookup_insert_is_Some'. intros [->|?]; [by eexists|by apply (co_known _ _ C)].
Qed.

Lemma split_none pid' va' : page_at T' pid' va' = None → page_at T pid' va' = None.
Proof. unfold T'. rewrite page_at_remap. by destruct (decide _). Qed.

Lemma split_unmapped : unmapped_ok T' s1.
Proof.
  intros pid' t' va' e Ht' Hva' Hno He. apply (co_unmapped _ _ C pid' t' va' e); try done. by apply split_none.
Qed.

Lemma split_arena : arena_ok T' s1.
Proof.
  destruct (co_arena _ _ C) as [N1 N2 N3]. split; try done. intros pid' a va' Ha. etrans; [|by apply (N3 pid' a va')]. fold T.
  unfold T'. rewrite page_at_remap. destruct (decide _) as [[= -> ->]|]; [|done].
  rewrite Hva. split; intros _; by eexists.
Qed.

Lemma split_data n b' : file_data s1 n b' = file_data s n b'.
Proof.
  unfold file_data. cbn. destruct (cached_at _ n b') as [w|] eqn:Hc; [|done].
  assert (live T s w) as Hl by (right; by exists n, b').
  destruct (ma_vpage _ _ (co_maps _ _ C) w Hl) as [wp Hw]. rewrite Hw.
  destruct (ma_vpage _ _ split_maps w) as [wp1 Hw1]; [apply split_live; by right|]. cbn in Hw1. rewrite Hw1.
  by apply (split_content w wp wp1).
Qed.

Lemma split_uncached n b' : cached_at (filename_block_to_vpage s1) n b' ≠ Some new.
Proof. cbn. intros Hc. apply (split_fresh new); [right; by exists n, b'|done]. Qed.

(** When the new page has the data of the old one, nobody sees a difference. *)
Lemma split_same s2 np2 :
  kept T' new s1 s2 → vpages s2 !! new = Some np2 → content s2 np2 = content s rp → same s s2.
Proof.
  intros K Hn2 Hcn. pose proof (kp_globals _ _ _ _ K) as [= E1 E2 E3 E4 E5 E6 E7 E8 E9].
  split.
  - unfold registers. congruence.
  - intros pid' va'. unfold view. rewrite E2. unfold T'. rewrite page_at_remap.
    destruct (decide _) as [[= -> ->]|Hne].
    + fold T. rewrite Hva /= Hr /= Hn2 /=. pose proof (kp_statics _ _ _ _ K new) as Hst.
      rewrite Hn2 in Hst. cbn in Hst. rewrite HVn in Hst. injection Hst as _ Hs2 _ _.
      unfold slot_of. by rewrite Hs2 split_swap Hcn.
    + fold T. destruct (page_at T pid' va') as [w|] eqn:Hw; [|done]. cbn.
      assert (live T s w) as Hl by (left; by exists pid', va').
      assert (live T' s1 w) as Hl1 by (apply split_live; by right).
      destruct (ma_vpage _ _ (co_maps _ _ C) w Hl) as [wp Hwp], (ma_vpage _ _ split_maps w Hl1) as [wp1 Hwp1].
      pose proof (kp_statics _ _ _ _ K w) as Hst. rewrite Hwp1 in Hst.
      apply fmap_Some in Hst as (wp2 & Hwp2 & Hst). rewrite Hwp Hwp2 /=.
      destruct (split_content w wp wp1 Hl Hwp Hwp1) as (Hc1 & _ & _ & Hs1).
      assert (content s2 wp2 = content s1 wp1) as Hc2.
      { apply (kp_content _ _ _ _ K w); [|by apply split_fresh|done..].
        left. apply split_mapped. right. by exists pid', va'. }
      unfold slot_of. injection Hst as _ Hs2 Hf2 Hb2. rewrite -Hs2 -Hf2 -Hb2 Hc2 Hs1 Hc1.
      destruct (isSwap wp) eqn:Hsw; [done|].
      destruct (split_lookup w wp1 Hl1 Hwp1) as [[-> ->]|[[-> ->]|(Hn & Hnr & Hl0 & Hv0)]]; [done| |].
      * exfalso. assert (wp = rp) as -> by congruence. pose proof split_swap. congruence.
      * by assert (wp1 = wp) as -> by congruence.
  - intros n b'. rewrite (kp_data _ _ _ _ K); [apply split_data|apply split_uncached].
Qed.

(** ** The new page is filled *)

Section copy.
Context (pp0 : PhysicalPage) (Hp0 : physicalPage rp = Some pp0) (Hn0 : PPN pp0 ≠ 0).

(** The new page has a physical page [n] with the data. *)
Record copied (n : Z) (s2 : pager) : Prop := {
  cp_working : working T' {[new; r]} {[new]} s2;
  cp_kept : kept T' new s1 s2;
  cp_page : vpages s2 !! new = Some (with_ppn n np);
  cp_nonzero : n ≠ 0;
  cp_content : vm_physmem s2 n = vm_physmem s (PPN pp0) }.

Lemma copy_data_ok n rp2 (Q : unit → pager → Prop) s2 :
  placed nswap T' {[new; r]} new np n s1 s2 → vpages s2 !! r = Some rp2 →
  (∀ s3, copied n s3 → Q tt s3) →
  wp (when (resident rp2)
        (to ← get_phys new;
         from ← get_phys r;
         p ← read_page (PPN from);
         write_page (PPN to) p)) Q s2.
Proof.
  intros PL Hr2 HQ.
  assert (working T' {[new; r]} {[new]} s2) as W.
  { eapply placed_working; [exact PL|apply split_arena|apply split_unmapped|done|apply split_known]. }
  destruct PL as [Mv Hn2 M S A P D Hrange Hother]. pose proof (moved_kept _ _ _ _ Mv) as K.
  assert (r ≠ new) as Hne by apply split_fresh, split_live_r.
  assert (live T' s2 r) as Hl2 by (left; apply split_still).
  assert (phys_ok s2 rp2) as Hph by (apply (al_phys _ _ _ A r); [done..|set_solver]).
  assert (content s2 rp2 = Some (vm_physmem s (PPN pp0))) as Hc.
  { rewrite (kp_content _ _ _ _ K r rp1 rp2) //. unfold content. cbn. by rewrite Hp0. }
  apply pg_when; intros Hres.
  - rewrite (ph_resident _ _ Hph) in Hres. apply bool_decide_eq_true in Hres as [pp2 Hp2].
    unfold content in Hc. rewrite Hp2 in Hc. injection Hc as Hc.
    eapply pg_bind, pg_get_phys; [done..|]. eapply pg_bind, pg_get_phys; [done..|].
    assert (0 ≤ PPN pp2 < mem_pages_cap s2) as Hrg.
    { destruct (decide (PPN pp2 = 0)) as [->|Hz]; [lia|]. destruct (ph_range _ _ Hph pp2 Hp2 Hz). lia. }
    apply pg_bind. apply pg_bind, pg_check_ppn; [done|]. apply pg_gets, pg_write_page; [cbn; lia|].
    cbn [PPN]. assert (occupies (with_ppn n np) n) as Ho by (split; [lia|by eexists]).
    assert (mapped T' new) as Hmn by (apply split_mapped; by left).
    apply HQ. split; [by eapply (fill_ok nswap T' _ new)| | |lia|].
    + eapply kept_trans; [exact K|]. by eapply (fill_kept nswap T' _ new).
    + done.
    + cbn. unfold set_page. by rewrite decide_True.
  - rewrite (ph_resident _ _ Hph) in Hres. apply bool_decide_eq_false in Hres.
    destruct (Hother r rp1 rp2 Hne Hl2 HVr Hr2) as [Hsame|[_ (_ & pp & Hpp & <-)]].
    { destruct Hres. cbn in Hsame. rewrite Hp0 in Hsame. destruct (physicalPage rp2); [by eexists|done]. }
    apply HQ. split; [done..|lia|]. rewrite (mv_physmem _ _ _ _ Mv). cbn. cbn in Hpp. congruence.
Qed.

Lemma cow_copy_ok (Q : Z → pager → Prop) :
  (∀ s', consistent s' → same s s' → translateVA s' = T' →
     (∃ pp, (λ vp, (physicalPage vp, affiliated vp)) <$> vpages s' !! new = Some (Some pp, [q]) ∧ PPN pp ≠ 0 ∧
        clocked pp = true ∧ dirty pp = true) → Q 0 s') →
  wp (give_new_ppn new ;;
      fp ← get_vpage r;
      when (resident fp)
        (to ← get_phys new;
         from ← get_phys r;
         p ← read_page (PPN from);
         write_page (PPN to) p) ;;
      modify_phys new (set_dirty true) ;;
      modify_phys new (set_clocked true) ;;
      updatePTEs r ;;
      updatePTEs new ;;
      final_check ;;
      mret 0) Q s1.
Proof.
  intros HQ. apply pg_bind. eapply (give_new_ppn_ok nswap T' {[new; r]} new np);
    [apply split_evicting|set_solver|exact HVn|]. intros n s2 PL.
  assert (is_Some (vpages s2 !! r)) as [rp2 Hr2].
  { apply (ma_vpage _ _ (pl_maps _ _ _ _ _ _ _ _ PL)). left. apply split_still. }
  eapply pg_bind, pg_get_vpage; [exact Hr2|]. apply pg_bind, (copy_data_ok n rp2); [done..|].
  clear s2 PL rp2 Hr2. intros s2 [W K Hn2 Hnz Hc].
  assert (mapped T' new) as Hmn by (apply split_mapped; by left).
  set (np3 := set_physicalPage (Some (mk_PhysicalPage n true true)) (with_ppn n np)).
  set (s3 := with_vpages (<[new := np3]> (vpages s2)) s2).
  assert (vpages s3 !! new = Some np3) as Hn3 by (cbn; by rewrite lookup_insert_eq).
  assert (working T' {[new; r]} ∅ s3) as W3.
  { apply (settle_ok nswap T' _ new (with_ppn n np) (mk_PhysicalPage n true false) true); try done. set_solver. }
  assert (kept T' new s1 s3) as K3.
  { eapply kept_trans; [exact K|]. by apply (settle_kept T' new (with_ppn n np) (mk_PhysicalPage n true false)). }
  eapply pg_bind, pg_modify_phys; [exact Hn2|done|].
  eapply pg_bind, pg_modify_phys; [cbn; by rewrite lookup_insert_eq|done|]. cbn [vpages with_vpages].
  rewrite insert_insert_eq. change (with_vpages _ _) with s3.
  assert (is_Some (vpages s3 !! r)) as [rp3 Hr3].
  { apply (ma_vpage _ _ (wk_maps _ _ _ _ _ W3)). left. apply split_still. }
  apply pg_bind, (updatePTEs_working nswap T' _ _ r rp3 _ s3 W3); [apply split_still|done|]. intros tb4 W4 K4.
  apply pg_bind, (updatePTEs_working nswap T' _ _ new np3 _ _ W4); [done|exact Hn3|]. intros tb5 W5 K5.
  set (s5 := with_tables tb5 (with_tables tb4 s3)) in *.
  assert (consistent s5) as C5 by (eapply working_consistent, working_weaken, W5; set_solver).
  apply pg_bind, (pg_final_check nswap); [done|]. apply pg_ret, HQ; [done| |apply W5|].
  - apply (split_same s5 np3); [|exact Hn3|].
    + eapply kept_trans; [exact K3|]. apply (kept_trans _ _ _ (with_tables tb4 s3)); by apply tables_kept.
    + change (content s2 np3 = content s rp). unfold content. cbn. by rewrite Hp0 Hc.
  - exists (mk_PhysicalPage n true true). change (vpages s5) with (vpages s3). rewrite Hn3. done.
Qed.

End copy.
End split.
End cow.
