(* ===== verification/PagerVmFault.v ===== *)
(** * [vm_fault]

    A fault of a process keeps what every process sees; afterwards the access that
    faulted is allowed, or the address has no page, or its page is a block of a
    file that cannot be read. *)

From S2P Require Import Prelude PagerTypes Pager PagerInv PagerPtes PagerFrame PagerEvict PagerPlace.
From S2P Require Import PagerCheck PagerView PagerWork PagerReturn PagerFault PagerCow.

Section vm_fault.
Context `{F : Files} `{Tr : Traversal} (nswap : Z) `{FL : !FilesLaws nswap}.
Abbreviation working := (working nswap).
Abbreviation consistent := (consistent nswap).

(** Process [pid], with page table [t], is running. *)
Record running (s : pager) (pid : pid_t) (t : table_id) : Prop := {
  ru_pid : current_pid s = pid;
  ru_table : process_table s !! pid = Some t;
  ru_ptbr : page_table_base_register s = Some t }.

Lemma same_running s s' pid t : same s s' → running s pid t → running s' pid t.
Proof.
  intros H [? ? ?]. pose proof (sm_registers _ _ H) as [= E1 E2 E3 E4 E5 E6]. split; congruence.
Qed.

(** ** Lookups *)

Lemma at_translateVA_ok pid (Q : gmap Z vpage_id → pager → Prop) s :
  consistent s → is_Some (process_table s !! pid) →
  (∀ T', same_pages T' (translateVA s) → translateVA s !! pid = None → T' !! pid = Some ∅ →
     consistent (with_translateVA T' s) → same s (with_translateVA T' s) → Q ∅ (with_translateVA T' s)) →
  (∀ m, translateVA s !! pid = Some m → Q m s) →
  wp (at_translateVA pid) Q s.
Proof.
  intros C Hpid HQ1 HQ2. apply pg_bind, pg_gets. destruct (translateVA s !! pid) as [m|] eqn:HT; [by apply HQ2|].
  set (T' := <[pid := ∅]> (translateVA s)).
  assert (same_pages T' (translateVA s)) as HP.
  { intros pid' va. unfold page_at, T'. destruct (decide (pid' = pid)) as [->|].
    - by rewrite lookup_insert_eq HT.
    - by rewrite lookup_insert_ne. }
  assert (same_pages (translateVA s) T') as HP' by by symmetry.
  apply pg_bind, pg_modify, pg_ret, HQ1; [done|done|by apply lookup_insert_eq| |].
  - set (s' := with_translateVA T' s). apply (core_consistent nswap).
    + apply (core_pages nswap _ _ _ _ _ HP'). by apply (core_frame nswap _ _ _ s), eq_refl; apply consistent_core.
    + apply (arena_pages _ _ _ HP'). by apply (arena_frame _ s), eq_refl; [apply C|].
    + apply (unmapped_pages _ _ _ HP'). by apply (unmapped_frame _ s); [apply C|..].
    + intros pid'. cbn. unfold T'. rewrite lookup_insert_is_Some'. intros [<-|?]; [done|by apply (co_known _ _ C)].
  - split; [done| |done]. intros pid' va. unfold view. cbn. by rewrite (HP pid' va).
Qed.

Lemma page_at_lookup T pid m va : T !! pid = Some m → page_at T pid va = m !! va.
Proof. unfold page_at. by intros ->. Qed.

Lemma view_none_core s pid va :
  core nswap (translateVA s) ∅ ∅ s → view s pid va = None ↔ page_at (translateVA s) pid va = None.
Proof.
  intros K. unfold view. destruct (page_at _ pid va) as [v|] eqn:Hva; [|done]. split; [|done]. intros Hno.
  assert (live (translateVA s) s v) as Hl by (left; by exists pid, va).
  destruct (ma_vpage _ _ (cr_maps _ _ _ _ _ K) v Hl) as [vp Hv]. cbn in Hno. rewrite Hv /= in Hno.
  unfold slot_of in Hno. destruct (core_live_block nswap _ _ _ s v vp K Hl Hv) as [b Hb].
  rewrite Hb in Hno. destruct (isSwap vp) eqn:Hs; [|done]. exfalso. unfold content in Hno.
  destruct (physicalPage vp) as [pp|] eqn:Hp; [done|].
  destruct (dv_swap _ _ (da_each _ _ _ (cr_data _ _ _ _ _ K) v vp Hl Hv ltac:(set_solver)) Hs Hp) as [q Hq].
  by rewrite Hq in Hno.
Qed.

Lemma view_none s pid va : consistent s → view s pid va = None ↔ page_at (translateVA s) pid va = None.
Proof. intros C. by apply (view_none_core s pid va), consistent_core. Qed.

Lemma front_readable_ok r rp (Q : bool → pager → Prop) s :
  consistent s → mapped (translateVA s) r → vpages s !! r = Some rp →
  Q (bits rp).1 s → wp (front_readable r) Q s.
Proof.
  intros C Hm Hr HQ. assert (affiliated rp ≠ []) as Hne.
  { by apply (aff_mapped _ s r rp (co_maps _ _ C) (or_introl Hm) Hr). }
  unfold front_readable. eapply pg_bind, pg_get_vpage; [done|].
  destruct (affiliated rp) as [|p l] eqn:Haff; [done|].
  apply pg_bind, (pg_deref _ p); [done|].
  destruct (mapped_entry nswap s C r rp p Hm Hr ltac:(rewrite Haff; set_solver)) as (e & He & Hb & _).
  eapply pg_bind, pg_get_pte; [done|]. apply pg_ret. by rewrite -Hb in HQ.
Qed.

(** ** Without copy-on-write *)

(** The block of the page at [va] cannot be read. *)
Definition unreadable (s : pager) (pid va : Z) : Prop :=
  ∃ n b, view s pid va = Some (Shared n b) ∧ file_data s n b = None.

Lemma view_shared s pid va r rp n b :
  page_at (translateVA s) pid va = Some r → vpages s !! r = Some rp → view s pid va = Some (Shared n b) →
  isSwap rp = false ∧ n = filename rp ∧ head (blocks rp) = Some b.
Proof.
  intros Hva Hr Hv. unfold view in Hv. rewrite Hva /= Hr /= in Hv. unfold slot_of in Hv.
  destruct (isSwap rp); [by destruct (content s rp)|].
  destruct (head (blocks rp)) as [x|]; [|done]. by injection Hv as <- <-.
Qed.

Lemma shared_data s pid va r rp :
  consistent s → page_at (translateVA s) pid va = Some r → vpages s !! r = Some rp → isSwap rp = false →
  ∃ b, view s pid va = Some (Shared (filename rp) b) ∧ file_data s (filename rp) b = content s rp.
Proof.
  intros C Hva Hr Hs. assert (live (translateVA s) s r) as Hl by (left; by exists pid, va).
  destruct (file_key _ s r rp (co_maps _ _ C) Hl Hr Hs) as (b & Hb & Hor). exists b. split.
  - unfold view. rewrite Hva /= Hr /=. unfold slot_of. by rewrite Hs Hb.
  - destruct Hor as [Hc|Hf].
    + unfold file_data. by rewrite Hc Hr.
    + rewrite (unreadable_data nswap) //. unfold content. destruct (physicalPage rp) as [pp|] eqn:Hp.
      * exfalso. destruct (dv_file _ _ (da_each _ _ _ (co_data _ _ C) r rp Hl Hr ltac:(set_solver)) pp Hs Hp)
          as [q Hq]. unfold backing, file_of in Hq. rewrite Hb Hs /= in Hq. congruence.
      * unfold backing, file_of. by rewrite Hb Hs.
Qed.

Lemma faulted_enabled pid va r w s s' :
  page_at (translateVA s) pid va = Some r → faulted nswap r w s s' →
  (w = true → ∀ rp, vpages s !! r = Some rp → isSwap rp = true → length (affiliated rp) = 1%nat) →
  enabled s' pid va w ∧ same s s'.
Proof.
  intros Hva [C' K Hc (rp' & pp' & Hr' & Hp' & Hn & Hcl & Hd)] Hone. split.
  - pose proof (kp_globals _ _ _ _ K) as [= _ E2 _ _ _ _ _ _ _].
    apply (enabled_bits nswap pid va r rp' w s' C'); [by rewrite E2|done|].
    assert (resident rp' = true) as Hres.
    { assert (phys_ok s' rp') as [P1 _ _].
      { apply (al_phys _ _ _ (co_alloc _ _ C') r); [|done|set_solver]. left. exists pid, va. by rewrite E2. }
      by rewrite P1 Hp'. }
    unfold bits. rewrite Hp' Hres Hcl. destruct w; [|done]. cbn. rewrite Hd //.
    destruct (isSwap rp') eqn:Hs; [|done]. cbn.
    destruct (statics_at _ _ _ _ (kp_statics _ _ _ _ K) Hr') as (rp & Hr & [= Ha Hs' _ _]).
    rewrite -Ha (Hone eq_refl rp) //. congruence.
  - eapply kept_same; [exact K|done|by exists pid, va|exact Hc].
Qed.

Lemma simple_fault_ok pid va r rp w (Q : Z → pager → Prop) s :
  consistent s → page_at (translateVA s) pid va = Some r → vpages s !! r = Some rp →
  ¬ enabled s pid va w → (w = true → length (blocks rp) ≤ 1)%nat →
  (∀ s', faulted nswap r w s s' → enabled s' pid va w → same s s' → Q 0 s') →
  (∀ s', consistent s' → same s s' → orphaned r rp s s' → unreadable s pid va → Q (-1) s') →
  wp (ok ← bring_in r; if ok : bool then finish_fault r w else final_check ;; mret (-1)) Q s.
Proof.
  intros C Hva Hr Hen Hone HQ1 HQ2. assert (mapped (translateVA s) r) as Hm by by exists pid, va.
  assert (live (translateVA s) s r) as Hl by by left.
  assert (phys_ok s rp) as [P1 P2 P3] by (apply (al_phys _ _ _ (co_alloc _ _ C) r); [done..|set_solver]).
  rewrite (enabled_bits nswap pid va r rp w s C Hva Hr) in Hen. unfold bits in Hen.
  assert (w = true → isSwap rp = true → length (affiliated rp) = 1%nat) as Haff.
  { intros Hw Hs. specialize (Hone Hw). rewrite (sw_length _ _ _ (co_swap _ _ C) r rp) // in Hone.
    assert (affiliated rp ≠ []) by by apply (aff_mapped _ s r rp (co_maps _ _ C)).
    destruct (affiliated rp) as [|? [|]]; [done|done|]. cbn in Hone. lia. }
  apply pg_bind, (bring_in_ok nswap r rp w); [done..| | |].
  - intros pp Hp Hz. destruct (P3 pp Hp Hz) as (_ & Hc & _). destruct w; [done|]. exfalso. apply Hen.
    by rewrite Hp P1 Hp Hc.
  - intros s1 rp1 pp B. apply (finish_fault_ok nswap r rp w rp1 pp Q s s1); [done..| |].
    + intros -> Hd. right. pose proof (br_old _ _ _ _ _ _ _ _ B Hd) as Hp.
      destruct (clocked pp) eqn:Hc; [|done]. exfalso. apply Hen. rewrite Hp P1 Hp Hc Hd. cbn.
      destruct (isSwap rp) eqn:Hs; [|done]. by rewrite Haff.
    + intros s' Hf. destruct (faulted_enabled pid va r w s s' Hva Hf) as [He Hsame]; [|by apply HQ1].
      intros Hw rp0 Hr0 Hs. assert (rp0 = rp) as -> by congruence. by apply Haff.
  - intros s' C' Hsame Ho Hs Hno. apply pg_bind, (pg_final_check nswap); [done|]. apply HQ2; [done..|].
    destruct (shared_data s pid va r rp C Hva Hr Hs) as (b & Hv & Hd). exists (filename rp), b.
    split; [done|congruence].
Qed.

(** ** Copy-on-write *)

Lemma set_translateVA_ok pid va v (Q : unit → pager → Prop) s :
  Q tt (with_translateVA (remap pid va v (translateVA s)) s) → wp (set_translateVA pid va v) Q s.
Proof.
  intros HQ. unfold remap in HQ. apply pg_bind, pg_bind, pg_gets.
  destruct (translateVA s !! pid) as [m|] eqn:HT; [done|].
  apply pg_bind, pg_modify, pg_ret, pg_modify. cbn. by rewrite insert_insert_eq.
Qed.

Lemma erase_affiliated_ok v vp p (Q : unit → pager → Prop) s :
  vpages s !! v = Some vp → p ∈ affiliated vp →
  (∀ i, affiliated vp !! i = Some p →
     Q tt (with_vpages (<[v := set_affiliated (delete i (affiliated vp)) vp]> (vpages s)) s)) →
  wp (erase_affiliated v p) Q s.
Proof.
  intros Hv Hp HQ. unfold erase_affiliated. eapply pg_bind, pg_get_vpage; [done|].
  destruct (list_find_elem_of (p =.) (affiliated vp) p Hp eq_refl) as [[i p'] E]. rewrite E.
  apply list_find_Some in E as (Hi & <- & _).
  apply pg_bind, (pg_deref _ i); [done|]. eapply pg_modify_vpage; [done|]. by apply HQ.
Qed.

(** [split_page]: the page is in memory. *)
Lemma split_page_ok pid t va r rp pp (Q : Z → pager → Prop) s :
  consistent s → running s pid t → page_at (translateVA s) pid va = Some r → vpages s !! r = Some rp →
  (1 < length (blocks rp))%nat → physicalPage rp = Some pp → PPN pp ≠ 0 →
  (∀ s', consistent s' → same s s' → enabled s' pid va true → Q 0 s') →
  wp (split_page va r) Q s.
Proof.
  intros C [Hcur Ht Hptbr] Hva Hr Hlen Hp Hn HQ. unfold split_page.
  assert (live (translateVA s) s r) as Hl by (left; by exists pid, va).
  set (new := next_vpage s).
  assert (new ≠ r) as Hne.
  { pose proof (ma_next_vpage _ _ (co_maps _ _ C) r (mk_is_Some _ _ Hr)). unfold new. lia. }
  assert (r ≠ new) as Hne' by done. set (q := VA_to_PTE va t).
  assert (q ∈ affiliated rp) as Hq.
  { apply (ma_aff _ _ (co_maps _ _ C) r rp Hl Hr). by exists pid, va, t. }
  destruct (last (blocks rp)) as [b|] eqn:Hb; [|by apply last_None in Hb; rewrite Hb in Hlen; cbn in Hlen; lia].
  apply pg_bind. apply pg_bind, pg_gets, pg_bind, pg_modify, pg_ret. fold new.
  apply pg_bind. apply pg_bind, pg_gets. cbn [page_table_base_register with_next_vpage with_vpages].
  rewrite Hptbr. apply pg_ret.
  eapply pg_bind, pg_modify_vpage; [cbn; by rewrite lookup_insert_eq|].
  apply pg_bind, pg_gets. cbn [current_pid with_next_vpage with_vpages]. rewrite Hcur.
  apply pg_bind, set_translateVA_ok. cbn [translateVA with_next_vpage with_vpages].
  apply pg_bind. eapply erase_affiliated_ok; [cbn; by rewrite !lookup_insert_ne|exact Hq|]. intros i Hi.
  eapply pg_bind, pg_get_vpage; [cbn; by rewrite lookup_insert_eq|]. apply pg_bind, (pg_deref _ b); [exact Hb|].
  eapply pg_bind, pg_modify_vpage; [cbn; by rewrite lookup_insert_ne // lookup_insert_eq|].
  eapply pg_bind, pg_modify_vpage; [cbn; by rewrite lookup_insert_ne // lookup_insert_eq|].
  eapply pg_bind, pg_modify_vpage; [cbn; by rewrite lookup_insert_ne // lookup_insert_eq|].
  cbn [vpages with_next_vpage with_vpages with_translateVA]. set (V := <[new := _]> _).
  change (with_vpages V _) with (with_vpages V (with_translateVA (remap pid va new (translateVA s))
    (with_next_vpage (S new) s))).
  apply (cow_copy_ok nswap s pid va t r rp b i C Ht Hva Hr Hlen Hb Hi V) with pp; [| | |done|done|].
  - unfold V. by rewrite lookup_insert_eq.
  - unfold V. by rewrite lookup_insert_ne // lookup_insert_eq.
  - intros w Hw1 Hw2. unfold V. by rewrite !lookup_insert_ne.
  - intros s' C' Hsame HT' (pp' & Hn' & Hz & Hc & Hd).
    apply fmap_Some in Hn' as (vp & Hvp & [= Hpp Haff]). apply HQ; [done|done|].
    assert (page_at (translateVA s') pid va = Some new) as Hva'.
    { rewrite HT' page_at_remap. by rewrite decide_True. }
    apply (enabled_bits nswap pid va new vp true s' C' Hva' Hvp). unfold bits.
    assert (phys_ok s' vp) as [P1 _ _].
    { apply (al_phys _ _ _ (co_alloc _ _ C') new); [|done|set_solver]. left. by exists pid, va. }
    rewrite -Hpp P1 -Hpp Hc Hd -Haff. cbn. by rewrite orb_true_r.
Qed.

(** [copy_on_write] *)
Lemma copy_on_write_ok again pid t va r rp (Q : Z → pager → Prop) s :
  consistent s → running s pid t → page_at (translateVA s) pid va = Some r → vpages s !! r = Some rp →
  (1 < length (blocks rp))%nat →
  (∀ Q' : Z → pager → Prop, ¬ enabled s pid va false →
     (∀ s', faulted nswap r false s s' → same s s' → Q' 0 s') → wp again Q' s) →
  (∀ s', consistent s' → same s s' → enabled s' pid va true → Q 0 s') →
  wp (copy_on_write again va r) Q s.
Proof.
  intros C Hrun Hva Hr Hlen Hagain HQ. assert (mapped (translateVA s) r) as Hm by by exists pid, va.
  assert (live (translateVA s) s r) as Hl by by left.
  apply pg_bind, (front_readable_ok r rp); [done..|].
  pose proof (enabled_bits nswap pid va r rp false s C Hva Hr) as Hen. cbn in Hen.
  destruct (bits rp).1 eqn:Hbit; cbn [negb]; apply pg_bind.
  - apply pg_ret. cbn [Z.eqb]. unfold bits in Hbit. destruct (physicalPage rp) as [pp|] eqn:Hp; [|done].
    assert (PPN pp ≠ 0) as Hn.
    { intros Hz. assert (phys_ok s rp) as [_ _ P3] by (apply (al_phys _ _ _ (co_alloc _ _ C) r); [done..|set_solver]).
      destruct (P3 pp Hp Hz) as (Hs & _ & _ & Hone).
      pose proof (sw_length _ _ _ (co_swap _ _ C) r rp Hl Hr Hs). lia. }
    by apply (split_page_ok pid t va r rp pp).
  - apply Hagain; [by rewrite Hen|]. intros s' [C' K Hc (rp' & pp' & Hr' & Hp' & Hn & _)] Hsame.
    destruct (statics_at _ _ _ _ (kp_statics _ _ _ _ K) Hr') as (rp0 & Hr0 & [= _ _ _ Hb]).
    assert (rp0 = rp) as -> by congruence. pose proof (kp_globals _ _ _ _ K) as [= _ E2 _ _ _ _ _ _ _].
    apply (split_page_ok pid t va r rp' pp'); [done|by eapply same_running|by rewrite E2|done|by rewrite -Hb|done|done|].
    intros s2 C2 Hs2 He. apply HQ; [done|by etrans|done].
Qed.

(** ** [vm_fault] *)

Lemma page_fault_ok again pid t addr w (Q : Z → pager → Prop) s :
  let va := page_start addr in
  consistent s → running s pid t → ¬ enabled s pid va w →
  (w = true → ∀ Q' r, page_at (translateVA s) pid va = Some r → ¬ enabled s pid va false →
     (∀ rp, vpages s !! r = Some rp → isSwap rp = true) →
     (∀ s', faulted nswap r false s s' → same s s' → Q' 0 s') → wp again Q' s) →
  (∀ s', consistent s' → same s s' → enabled s' pid va w →
     (∀ r, w = false → page_at (translateVA s) pid va = Some r → faulted nswap r w s s') → Q 0 s') →
  (∀ s', consistent s' → same s s' → view s pid va = None ∨ unreadable s pid va → Q (-1) s') →
  wp (vm_fault_with again addr w) Q s.
Proof.
  intros va C Hrun Hen Hagain HQ1 HQ2. unfold vm_fault_with. fold va.
  apply pg_bind, pg_gets. rewrite (ru_pid _ _ _ Hrun). apply pg_bind.
  apply (at_translateVA_ok pid); [done|by eexists; apply Hrun| |].
  { intros T' HP HT _ C' Hsame. rewrite lookup_empty. apply pg_bind, (pg_final_check nswap); [done|].
    apply pg_ret, HQ2; [done..|]. left. apply view_none; [done|]. unfold page_at. by rewrite HT. }
  intros m HT. destruct (m !! va) as [r|] eqn:Hm.
  2:{ apply pg_bind, (pg_final_check nswap); [done|]. apply pg_ret, HQ2; [done..|].
      left. apply view_none; [done|]. by rewrite (page_at_lookup _ _ m). }
  assert (page_at (translateVA s) pid va = Some r) as Hva by by rewrite (page_at_lookup _ _ m).
  assert (live (translateVA s) s r) as Hl by (left; by exists pid, va).
  destruct (ma_vpage _ _ (co_maps _ _ C) r Hl) as [rp Hr]. eapply pg_bind, pg_get_vpage; [done|].
  destruct (w && (1 <? length (blocks rp))%nat) eqn:Hcow.
  - apply andb_true_iff in Hcow as [-> Hlen%Nat.ltb_lt].
    apply (copy_on_write_ok again pid t va r rp); [done..| |].
    + intros Q' Hen' HQ'. apply (Hagain eq_refl Q' r); [done..| |done]. intros rp0 Hr0.
      assert (rp0 = rp) as -> by congruence. destruct (isSwap rp) eqn:Hs; [done|].
      destruct (file_key _ _ _ _ (co_maps _ _ C) Hl Hr Hs) as (b & Hb & _). rewrite Hb in Hlen. cbn in Hlen. lia.
    + intros s' C' Hs He. by apply HQ1.
  - apply (simple_fault_ok pid va r rp w); [done..| | |].
    + intros ->. apply Nat.ltb_ge in Hcow. lia.
    + intros s' Hf He Hs. apply HQ1; [apply Hf|done|done|]. intros r' _ Hva'. congruence.
    + intros s' C' Hs _ Hu. apply HQ2; [done..|by right].
Qed.

Lemma vm_fault_read_ok pid t addr r (Q : Z → pager → Prop) s :
  let va := page_start addr in
  consistent s → running s pid t → page_at (translateVA s) pid va = Some r → ¬ enabled s pid va false →
  (∀ rp, vpages s !! r = Some rp → isSwap rp = true) →
  (∀ s', faulted nswap r false s s' → same s s' → Q 0 s') →
  wp (vm_fault_read addr) Q s.
Proof.
  intros va C Hrun Hva Hen Hsw HQ. apply (page_fault_ok (crash_with OutOfFuel) pid t addr false); [done..| |].
  - intros s' C' Hs _ Hf. apply HQ; [by apply Hf|done].
  - intros s' C' Hs [Hno|(n & b & Hv & _)]; exfalso.
    + apply (view_none s pid va C) in Hno. congruence.
    + fold va in Hv. unfold view in Hv. rewrite Hva in Hv. cbn in Hv.
      destruct (vpages s !! r) as [rp|] eqn:Hr; [|done]. cbn in Hv. unfold slot_of in Hv.
      rewrite Hsw // in Hv. by destruct (content s rp).
Qed.

(** A fault keeps what everybody sees, and allows the access or tells why not. *)
Lemma vm_fault_ok pid t addr w (Q : Z → pager → Prop) s :
  let va := page_start addr in
  consistent s → running s pid t → ¬ enabled s pid va w →
  (∀ s', consistent s' → same s s' → enabled s' pid va w → Q 0 s') →
  (∀ s', consistent s' → same s s' → view s pid va = None ∨ unreadable s pid va → Q (-1) s') →
  wp (vm_fault addr w) Q s.
Proof.
  intros va C Hrun Hen HQ1 HQ2. apply (page_fault_ok _ pid t addr w); [done..| |by eauto|done].
  intros _ Q' r Hva Hen' Hsw HQ'. by apply (vm_fault_read_ok pid t addr r).
Qed.

(** A fault on a page whose block cannot be read. *)
Lemma vm_fault_fails pid t addr w r rp (Q : Z → pager → Prop) s :
  let va := page_start addr in
  consistent s → running s pid t → page_at (translateVA s) pid va = Some r → vpages s !! r = Some rp →
  isSwap rp = false → content s rp = None →
  (∀ s', consistent s' → same s s' → orphaned r rp s s' → Q (-1) s') →
  wp (vm_fault addr w) Q s.
Proof.
  intros va C Hrun Hva Hr Hs Hno HQ. assert (live (translateVA s) s r) as Hl by (left; by exists pid, va).
  destruct (file_key _ s r rp (co_maps _ _ C) Hl Hr Hs) as (b & Hb & _).
  unfold vm_fault, vm_fault_with. fold va. apply pg_bind, pg_gets. rewrite (ru_pid _ _ _ Hrun). apply pg_bind.
  apply (at_translateVA_ok pid); [done|by eexists; apply Hrun| |].
  { intros T' _ HT. unfold page_at in Hva. by rewrite HT in Hva. }
  intros m HT. rewrite (page_at_lookup _ _ m) // in Hva. rewrite Hva.
  eapply pg_bind, pg_get_vpage; [done|]. rewrite Hb andb_false_r.
  rewrite -(page_at_lookup _ pid m va HT) in Hva.
  apply (simple_fault_ok pid va r rp w); [done..| | | |].
  - rewrite (enabled_bits nswap pid va r rp w s C Hva Hr). unfold bits, content in *.
    destruct (physicalPage rp); [done|]. by destruct w.
  - intros _. by rewrite Hb.
  - intros s' [_ _ Hc (rp' & pp' & Hr' & Hp' & _)] _ _. specialize (Hc rp rp' Hr Hr').
    unfold content in Hc at 1. rewrite Hp' in Hc. congruence.
  - intros s' C' Hsame Ho _. by apply HQ.
Qed.

End vm_fault.
