(* ===== verification/PagerName.v ===== *)
(** * File names in the arena

    [translate_from_other_addr_space] reads the string at an address of the current
    process, faulting pages in as it goes: what it returns is what the process
    would read, and it ends before its fuel. *)

From S2P Require Import Prelude PagerTypes Pager PagerInv PagerPtes PagerFrame PagerEvict PagerPlace.
From S2P Require Import PagerCheck PagerView PagerWork PagerFault PagerVmFault.

(** The string at an address, byte by byte; [None] when a byte cannot be read. *)
Inductive reads (byte_at : Z → option byte) : Z → option string → Prop :=
| reads_end va : byte_at va = Some NUL → reads byte_at va (Some "")
| reads_cons va c r : byte_at va = Some c → c ≠ NUL → reads byte_at (va + 1) r →
    reads byte_at va (String c <$> r)
| reads_fault va : byte_at va = None → reads byte_at va None.

Lemma reads_functional f va r r' : reads f va r → reads f va r' → r = r'.
Proof.
  intros H. revert r'. induction H as [va H|va c r H Hc Hr IH|va H]; intros r' H';
    inversion H'; simplify_eq; try done. f_equal. by apply IH.
Qed.

Lemma reads_ext f g va r : (∀ va, f va = g va) → reads f va r → reads g va r.
Proof. intros E. induction 1; rewrite E in H; by constructor. Qed.

(** There is always something to read: the arena ends. *)
Lemma reads_total f va : (∀ va, VM_ARENA_MAXADDR ≤ va → f va = None) → ∃ r, reads f va r.
Proof.
  intros Hf. assert (∃ n, Z.to_nat (VM_ARENA_MAXADDR - va) = n) as [n Hn] by by eexists.
  revert va Hn. induction n as [|n IH]; intros va Hn.
  - exists None. apply reads_fault, Hf. lia.
  - destruct (f va) as [c|] eqn:Hc; [|exists None; by apply reads_fault].
    destruct (decide (c = NUL)) as [->|Hne]; [exists (Some ""); by apply reads_end|].
    destruct (IH (va + 1)) as [r Hr]; [lia|]. exists (String c <$> r). by apply reads_cons.
Qed.

Section name.
Context `{F : Files} `{Tr : Traversal} (nswap : Z) `{FL : !FilesLaws nswap}.
Abbreviation consistent := (consistent nswap).

(** The byte a process reads. *)
Definition slot_page (s : pager) (sl : slot) : option page :=
  match sl with Private p => Some p | Shared n b => file_data s n b end.
Definition byte_at (s : pager) (pid va : Z) : option byte :=
  sl ← view s pid (page_start va);
  p ← slot_page s sl;
  Some (p (va `mod` VM_PAGESIZE)).

Lemma same_byte_at s s' pid va : same s s' → byte_at s' pid va = byte_at s pid va.
Proof.
  intros H. unfold byte_at. rewrite (sm_view _ _ H). destruct (view s pid _) as [[p|n b]|]; [done| |done].
  cbn. by rewrite (sm_data _ _ H).
Qed.

(** [start] is where the byte at [va] is in physical memory. *)
Definition points (s : pager) (pid va start : Z) : Prop :=
  ∃ v vp pp, page_at (translateVA s) pid (page_start va) = Some v ∧ vpages s !! v = Some vp ∧
    physicalPage vp = Some pp ∧ start = PPN pp * VM_PAGESIZE + va `mod` VM_PAGESIZE.

Lemma slot_content s pid va v vp :
  consistent s → page_at (translateVA s) pid va = Some v → vpages s !! v = Some vp →
  (sl ← view s pid va; slot_page s sl) = content s vp.
Proof.
  intros C Hva Hv. destruct (isSwap vp) eqn:Hs.
  - unfold view. rewrite Hva /= Hv /=. unfold slot_of. rewrite Hs. by destruct (content s vp).
  - destruct (shared_data nswap s pid va v vp C Hva Hv Hs) as (b & -> & Hd). exact Hd.
Qed.

Lemma pg_read_byte s pid va start (Q : byte → pager → Prop) :
  consistent s → points s pid va start → (∀ c, byte_at s pid va = Some c → Q c s) →
  wp (read_byte start) Q s.
Proof.
  intros C (v & vp & pp & Hva & Hv & Hp & ->) HQ. unfold read_byte.
  assert (0 ≤ va `mod` VM_PAGESIZE < VM_PAGESIZE) as Hm by (apply Z.mod_pos_bound; done).
  rewrite Z.div_add_l // Z.div_small // Z.add_0_r.
  rewrite (Z.add_comm (_ * _)) Z_mod_plus_full Z.mod_small //.
  assert (phys_ok s vp) as [_ P2 _].
  { apply (al_phys _ _ _ (co_alloc _ _ C) v); [left; by eexists _, _|done|set_solver]. }
  pose proof (al_cap _ _ _ (co_alloc _ _ C)).
  assert (0 ≤ PPN pp < mem_pages_cap s) as Hr.
  { destruct (decide (PPN pp = 0)) as [->|Hz]; [lia|]. destruct (P2 pp Hp Hz). lia. }
  apply pg_bind, pg_bind, pg_check_ppn; [done|]. apply pg_gets, pg_ret, HQ.
  pose proof (slot_content s pid _ v vp C Hva Hv) as Hc. unfold content in Hc. rewrite Hp in Hc.
  unfold byte_at. apply bind_Some in Hc as (sl & -> & Hsl). cbn. by rewrite Hsl.
Qed.

(** ** A page is made readable *)

Lemma same_mapped s s' pid va v :
  consistent s → consistent s' → same s s' → page_at (translateVA s) pid va = Some v →
  is_Some (page_at (translateVA s') pid va).
Proof.
  intros C C' H Hva. destruct (page_at (translateVA s') pid va) eqn:Hno; [by eexists|].
  apply (view_none nswap s' pid va C') in Hno. rewrite (sm_view _ _ H) in Hno.
  apply (view_none nswap s pid va C) in Hno. congruence.
Qed.

Lemma readable_page_ok pid t va (Q : bool → pager → Prop) s :
  consistent s → running s pid t →
  (∀ s', consistent s' → same s s' → enabled s' pid (page_start va) false →
     is_Some (page_at (translateVA s') pid (page_start va)) → Q true s') →
  (∀ s', consistent s' → same s s' → byte_at s pid va = None → Q false s') →
  wp (readable_page va (page_start va)) Q s.
Proof.
  intros C Hrun HQ1 HQ2. unfold readable_page. apply pg_bind, pg_gets.
  rewrite (ru_pid _ _ _ Hrun). apply pg_bind, (at_translateVA_ok nswap pid); [done|by eexists; apply Hrun| |].
  { intros T' HP HT _ C' Hsame. rewrite lookup_empty. apply pg_ret, HQ2; [done..|].
    unfold byte_at, view, page_at. by rewrite HT. }
  intros m HT. destruct (m !! page_start va) as [r|] eqn:Hm.
  2:{ apply pg_ret, HQ2; [done..|]. unfold byte_at, view. by rewrite (page_at_lookup _ _ m) // Hm. }
  assert (page_at (translateVA s) pid (page_start va) = Some r) as Hva by by rewrite (page_at_lookup _ _ m).
  assert (mapped (translateVA s) r) as Hmp by by eexists _, _.
  destruct (ma_vpage _ _ (co_maps _ _ C) r (or_introl Hmp)) as [rp Hr].
  apply pg_bind, (front_readable_ok nswap r rp); [done..|].
  pose proof (enabled_bits nswap pid _ r rp false s C Hva Hr) as Hen. cbn in Hen.
  destruct (bits rp).1; cbn [negb].
  - apply pg_ret, HQ1; [done..|by apply Hen|by eexists].
  - apply pg_bind, (vm_fault_ok nswap pid t va false); [done|done|by rewrite Hen| |].
    + intros s' C' Hs He. apply pg_ret. cbn. apply HQ1; [done..|]. by apply (same_mapped s s' pid _ r).
    + intros s' C' Hs Hno. apply pg_ret. cbn. apply HQ2; [done..|]. unfold byte_at.
      destruct Hno as [->|(n & b & -> & Hd)]; [done|]. cbn. by rewrite Hd.
Qed.

Lemma phys_addr_ok pid t va (Q : Z → pager → Prop) s :
  consistent s → running s pid t → enabled s pid (page_start va) false →
  is_Some (page_at (translateVA s) pid (page_start va)) →
  (∀ start, points s pid va start → Q start s) → wp (phys_addr va (page_start va)) Q s.
Proof.
  intros C Hrun He [v Hva] HQ. unfold phys_addr. apply pg_bind, pg_gets. rewrite (ru_pid _ _ _ Hrun).
  pose proof Hva as (m & Hm & Hv)%page_at_Some.
  apply pg_bind. apply pg_bind, pg_gets. rewrite Hm. apply pg_ret, pg_bind, (pg_deref _ v); [done|].
  destruct (ma_vpage _ _ (co_maps _ _ C) v ltac:(left; by eexists _, _)) as [vp Hvp].
  apply (enabled_bits nswap pid _ v vp false s C Hva Hvp) in He. unfold bits in He.
  destruct (physicalPage vp) as [pp|] eqn:Hp; [|done]. eapply pg_bind, pg_get_phys; [done..|].
  apply pg_ret, HQ. by exists v, vp, pp.
Qed.

Lemma enabled_mapped s pid va w :
  consistent s → valid_va va → enabled s pid va w → is_Some (page_at (translateVA s) pid va).
Proof.
  intros C Hva (t & e & Ht & He & Ha). destruct (page_at _ pid va) eqn:Hno; [by eexists|].
  destruct (co_unmapped _ _ C pid t va e Ht Hva Hno He). unfold allows in Ha. destruct w; congruence.
Qed.

(** ** The loop *)

(** Each iteration takes one off the measure [n]. *)
Lemma iterate_ok {A B} p (f : A → M (A + B)) (I : Z → A → pager → Prop) (Q : B → pager → Prop) n a s :
  (∀ n a s, I n a s → wp (f a) (λ r s', match r with inl a' => I (n - 1) a' s' | inr b => Q b s' end) s) →
  I n a s →
  wp (iterate p f a) (λ r s', match r with inl a' => I (n - Zpos p) a' s' | inr b => Q b s' end) s.
Proof.
  intros Hf. revert n a s. induction p as [p IH|p IH|]; intros n a s HI; cbn [iterate].
  - apply pg_bind. eapply pg_mono; [by apply Hf|]. intros [a'|b] s' H'; [|done].
    apply pg_bind. eapply pg_mono; [by apply IH|]. intros [a2|b] s2 H2; [|done].
    eapply pg_mono; [by apply IH|]. intros [a3|b] s3 H3; [|done]. by replace (n - Zpos p~1) with (n - 1 - Zpos p - Zpos p) by lia.
  - apply pg_bind. eapply pg_mono; [by apply IH|]. intros [a2|b] s2 H2; [|done].
    eapply pg_mono; [by apply IH|]. intros [a3|b] s3 H3; [|done]. by replace (n - Zpos p~0) with (n - Zpos p - Zpos p) by lia.
  - by apply Hf.
Qed.

Lemma page_start_le va : page_start va ≤ va < page_start va + VM_PAGESIZE.
Proof. unfold page_start, VM_PAGESIZE. pose proof (Z.mod_pos_bound va 65536 ltac:(done)). lia. Qed.

Lemma page_start_next va :
  va + 1 < page_start va + VM_PAGESIZE →
  page_start (va + 1) = page_start va ∧ (va + 1) `mod` VM_PAGESIZE = va `mod` VM_PAGESIZE + 1.
Proof. unfold page_start, VM_PAGESIZE. intros H. split; lia. Qed.

Lemma valid_page_start va : valid_va (page_start va) → VM_ARENA_BASEADDR ≤ va < VM_ARENA_MAXADDR.
Proof.
  intros (i & Hi & E). pose proof (page_start_le va) as H. rewrite E in H. clear E.
  unfold VM_ARENA_MAXADDR, page_table_size, VM_ARENA_SIZE, VM_ARENA_BASEADDR, VM_PAGESIZE in *. lia.
Qed.

(** In the loop: [running] has been read, the rest starts at [va]. *)
Record reading (s0 : pager) (pid : pid_t) (t : table_id) (va0 block : Z) (n : Z)
    (st : Z * Z * string) (s : pager) : Prop := {
  re_consistent : consistent s;
  re_same : same s0 s;
  re_running : running s pid t;
  re_points : points s pid st.1.2 st.1.1;
  re_block : block ≤ st.1.2 ∧ block = page_start block;
  re_measure : n = VM_ARENA_MAXADDR - st.1.2;
  re_reads r : reads (byte_at s0 pid) st.1.2 r → reads (byte_at s0 pid) va0 (String.append st.2 <$> r) }.

Lemma reading_valid s0 pid t va0 block n st s :
  reading s0 pid t va0 block n st s → VM_ARENA_BASEADDR ≤ st.1.2 < VM_ARENA_MAXADDR.
Proof.
  intros [C _ _ (v & vp & pp & Hva & _) _ _ _]. apply valid_page_start.
  by eapply (ma_va _ _ (co_maps _ _ C)).
Qed.

Lemma app_char r c r' : (r +:+ String c "") +:+ r' = r +:+ String c r'.
Proof. by rewrite string_app_assoc. Qed.

Lemma filename_step_ok s0 pid t va0 block n st s :
  reading s0 pid t va0 block n st s →
  wp (filename_step block st)
     (λ r s', match r with
              | inl st' => reading s0 pid t va0 block (n - 1) st' s'
              | inr o => consistent s' ∧ same s0 s' ∧ reads (byte_at s0 pid) va0 o
              end) s.
Proof.
  destruct st as [[start va] run]. intros R. pose proof R as [C Hs Hrun Hpts [Hblk Hblk0] Hn Hrd]. cbn in *.
  apply pg_bind, (pg_read_byte s pid va); [done..|]. intros c Hc. rewrite (same_byte_at s0) // in Hc.
  case_bool_decide as Hnul.
  { subst c. apply pg_ret. split; [done|]. split; [done|]. rewrite -(string_app_nil_r run).
    by apply (Hrd (Some "")), reads_end. }
  assert (∀ r, reads (byte_at s0 pid) (va + 1) r →
            reads (byte_at s0 pid) va0 (String.append (run +:+ String c "") <$> r)) as Hrd'.
  { intros r Hr. pose proof (Hrd _ (reads_cons _ va c r Hc Hnul Hr)) as H. destruct r as [r|]; [|done].
    cbn in *. by rewrite app_char. }
  destruct (block + VM_PAGESIZE <=? va + 1) eqn:Hcross.
  - apply pg_bind, (readable_page_ok pid t (va + 1)); [done..| |].
    + intros s' C' Hs' He Hmp. cbn [negb]. apply pg_bind, (phys_addr_ok pid t); [done|by eapply same_running|done..|].
      intros start' Hpts'. apply pg_ret. split; cbn; [done|by etrans|by eapply same_running|done|lia|lia|done].
    + intros s' C' Hs' Hno. apply pg_ret. cbn. split; [done|]. split; [by etrans|].
      rewrite (same_byte_at s0) // in Hno. by apply (Hrd' None), reads_fault.
  - apply Z.leb_gt in Hcross. apply pg_ret.
    assert (va + 1 < page_start va + VM_PAGESIZE) as Hlt.
    { unfold page_start in *. pose proof (page_start_le va). unfold page_start, VM_PAGESIZE in *. lia. }
    destruct (page_start_next va Hlt) as [E1 E2]. split; cbn; [done..| |lia|lia|done].
    destruct Hpts as (v & vp & pp & Hva & Hv & Hp & ->). exists v, vp, pp. rewrite E1 E2.
    split_and!; [done..|lia].
Qed.

(** [translate_from_other_addr_space] *)
Lemma translate_ok pid t va (Q : option string → pager → Prop) s :
  consistent s → running s pid t →
  (∀ s' r, consistent s' → same s s' → reads (byte_at s pid) va r → Q r s') →
  wp (translate_from_other_addr_space va) Q s.
Proof.
  intros C Hrun HQ. unfold translate_from_other_addr_space.
  apply pg_bind, (readable_page_ok pid t va); [done..| |].
  2:{ intros s' C' Hs Hno. apply pg_ret. cbn. apply HQ; [done..|]. by apply reads_fault. }
  intros s1 C1 Hs1 He Hmp. cbn [negb]. assert (running s1 pid t) as Hrun1 by by eapply same_running.
  apply pg_bind, (phys_addr_ok pid t); [done..|]. intros start Hpts. apply pg_bind.
  eapply pg_mono; [apply (iterate_ok _ _ (reading s pid t va (page_start va))
    (λ o s', consistent s' ∧ same s s' ∧ reads (byte_at s pid) va o) (VM_ARENA_MAXADDR - va))|].
  - intros n a s2. apply filename_step_ok.
  - split; cbn; [done..| |done|].
    + pose proof (page_start_le va). split; [lia|]. unfold page_start, VM_PAGESIZE. lia.
    + intros r Hr. by destruct r.
  - intros [a|o] s2 H2; [|by destruct H2 as (? & ? & ?); apply HQ].
    exfalso. pose proof (reading_valid _ _ _ _ _ _ _ _ H2). destruct Hmp as [v Hva].
    pose proof (valid_page_start va (ma_va _ _ (co_maps _ _ C1) _ _ _ Hva)) as Hv0.
    pose proof (re_measure _ _ _ _ _ _ _ _ H2) as Hm. unfold filename_fuel in Hm.
    unfold VM_ARENA_MAXADDR, VM_ARENA_SIZE, VM_ARENA_BASEADDR in *. lia.
Qed.

End name.
