(* ===== verification/PagerAttach.v ===== *)
(** * A page gets an address

    The step [vm_map] and [vm_create] are made of: an address of a process that had
    no page gets one, new or old. *)

From S2P Require Import Prelude PagerTypes Pager PagerInv PagerPtes PagerFrame PagerEvict PagerPlace.
From S2P Require Import PagerCheck PagerView PagerWork PagerReturn PagerFault PagerCow PagerVmFault.

Section attached.
Context `{F : Files} `{Tr : Traversal} (nswap : Z).

(** How many blocks of the swap file a page takes. *)
Definition swap_cost (sl : slot) : nat := match sl with Private _ => 1 | Shared _ _ => 0 end.

Definition fixed_registers (s : pager) :=
  (process_table s, next_free_VA s, mem_pages_cap s, current_pid s, page_table_base_register s).

(** From [s] to [s'], address [va] of [pid] has got a page. *)
Record attached (pid va : Z) (sl : slot) (s s' : pager) : Prop := {
  at_core : core nswap (translateVA s') ∅ ∅ s';
  at_pages : ∃ v, translateVA s' = remap pid va v (translateVA s);
  at_registers : fixed_registers s' = fixed_registers s;
  at_swap : next_free_swap s' = drop (swap_cost sl) (next_free_swap s);
  at_view pid' va' :
    view s' pid' va' = if decide ((pid', va') = (pid, va)) then Some sl else view s pid' va';
  at_data n b : file_data s' n b = file_data s n b;
  at_unmapped : unmapped_ok (translateVA s) s → unmapped_ok (translateVA s') s' }.

End attached.

Section attach.
Context `{F : Files} `{Tr : Traversal} (nswap : Z) `{FL : !FilesLaws nswap}.
Abbreviation core := (core nswap).

Context (T : gmap pid_t (gmap Z vpage_id)) (s s' : pager) (pid va : Z) (t : table_id).
Context (v : vpage_id) (vp0 vp : VirtualPage).
Let q := VA_to_PTE va t.
Let T' := remap pid va v T.
Context (K : core T ∅ ∅ s) (Ht : process_table s !! pid = Some t).
Context (Hva : valid_va va) (Hno : page_at T pid va = None).

(** What does not change. *)
Definition surroundings (s : pager) :=
  (process_table s, tables s, files s, vm_physmem s, clock_queue s, next_free_PPN s, mem_pages_cap s,
   next_table s).
Context (Hsur : surroundings s' = surroundings s).
Context (Hv : vpages s' !! v = Some vp) (Hw : ∀ w, w ≠ v → vpages s' !! w = vpages s !! w).
Context (Hnv : (v < next_vpage s' ∧ next_vpage s ≤ next_vpage s')%nat).

(** The page is an old one, or new. *)
Definition attached_to : Prop :=
  live T s v ∧ vpages s !! v = Some vp0 ∨ v = next_vpage s ∧ vp0 = new_VirtualPage.
Context (Hold : attached_to) (Haff : affiliated vp = affiliated vp0 ++ [q]).

(** The cache may get the page. *)
Context (Hc1 : ∀ n b w, cached_at (filename_block_to_vpage s') n b = Some w →
  cached_at (filename_block_to_vpage s) n b = Some w ∨
  w = v ∧ isSwap vp = false ∧ filename vp = n ∧ blocks vp = [b] ∧ physicalPage vp = None).
Context (Hc2 : ∀ n b w, cached_at (filename_block_to_vpage s) n b = Some w →
  cached_at (filename_block_to_vpage s') n b = Some w).

(** Where its data is. *)
Context (Hst : live T s v → isSwap vp = isSwap vp0 ∧ filename vp = filename vp0 ∧
  physicalPage vp = physicalPage vp0 ∧ head (blocks vp) = head (blocks vp0)).
Context (Hfile : isSwap vp = false → ∃ b, blocks vp = [b] ∧
  (cached_at (filename_block_to_vpage s') (filename vp) b = Some v ∨
   file_read (Some (filename vp)) b (files s) = None)).
Context (Hswap : if isSwap vp
  then ∃ b, next_free_swap s = b :: next_free_swap s' ∧ blocks vp = blocks vp0 ++ [b]
  else next_free_swap s' = next_free_swap s).
Context (Hphys : phys_ok s vp) (Hnew : ¬ live T s v → ∀ n, ¬ occupies vp n) (Hdata : data_vp s vp).

Lemma attach_fresh w : live T s w → w ≠ next_vpage s.
Proof.
  intros Hl E. destruct (ma_vpage _ _ (cr_maps _ _ _ _ _ K) w Hl) as [wp Hwp].
  pose proof (ma_next_vpage _ _ (cr_maps _ _ _ _ _ K) w (mk_is_Some _ _ Hwp)) as H.
  rewrite E in H. by apply Nat.lt_irrefl in H.
Qed.

Lemma attach_cases : live T s v ∧ vpages s !! v = Some vp0 ∨ ¬ live T s v ∧ vp0 = new_VirtualPage.
Proof.
  destruct Hold as [?|[E ?]]; [by left|right]. split; [|done]. intros Hl. by apply (attach_fresh _ Hl).
Qed.

(** The entries the page had. *)
Lemma attach_aff : NoDup (affiliated vp0) ∧ ∀ p, p ∈ affiliated vp0 ↔
  ∃ pid va t, process_table s !! pid = Some t ∧ page_at T pid va = Some v ∧ p = VA_to_PTE va t.
Proof.
  destruct attach_cases as [[Hl H0]|[Hl ->]]; [by apply (ma_aff _ _ (cr_maps _ _ _ _ _ K))|].
  split; [apply NoDup_nil_2|]. intros p. cbn. split; [by intros ?%elem_of_nil|].
  intros (pid' & va' & t' & _ & Hp & _). destruct Hl. left. by exists pid', va'.
Qed.

Lemma attach_new_entry : q ∉ affiliated vp0.
Proof.
  destruct attach_aff as [_ Hiff]. intros (pid' & va' & t' & Ht' & Hp & E)%Hiff.
  pose proof (cr_maps _ _ _ _ _ K) as M.
  apply VA_to_PTE_inj in E as [-> ->]; [|done|by eapply ma_va].
  rewrite (ma_inj _ _ M _ _ _ Ht' Ht) in Hp. congruence.
Qed.

Lemma attach_mapped w : mapped T' w ↔ w = v ∨ mapped T w.
Proof.
  unfold mapped, T'. setoid_rewrite page_at_remap. split.
  - intros (pid' & va' & H). destruct (decide _); [left; congruence|right; by exists pid', va'].
  - intros [->|(pid' & va' & H)]; [exists pid, va; by rewrite decide_True|].
    exists pid', va'. rewrite decide_False //. intros [= -> ->]. congruence.
Qed.

Lemma attach_live w : live T' s' w ↔ w = v ∨ live T s w.
Proof.
  unfold live. rewrite attach_mapped. split.
  - intros [[?|?]|(n & b & [Hc|(-> & _)]%Hc1)]; auto. right. right. by exists n, b.
  - intros [?|[?|(n & b & Hc%Hc2)]]; auto. right. by exists n, b.
Qed.

Lemma attach_lookup w wp : live T' s' w → vpages s' !! w = Some wp →
  w = v ∧ wp = vp ∨ w ≠ v ∧ live T s w ∧ vpages s !! w = Some wp.
Proof.
  intros Hl Hwp. destruct (decide (w = v)) as [->|Hne]; [left; split; congruence|right].
  apply attach_live in Hl as [?|?]; [done|]. by rewrite -Hw.
Qed.

Lemma attach_maps : maps_ok T' s'.
Proof.
  pose proof Hsur as [= E1 E2 E3 _ _ _ _ E4]. pose proof (cr_maps _ _ _ _ _ K) as M.
  split; rewrite ?E1 ?E2 ?E4; try by apply M.
  - intros pid' va' w H. unfold T' in H. rewrite page_at_remap in H.
    destruct (decide _) as [[= -> ->]|]; [by eexists|by eapply ma_process].
  - intros pid' va' w H. unfold T' in H. rewrite page_at_remap in H.
    destruct (decide _) as [[= -> ->]|]; [done|by eapply ma_va].
  - intros w Hl. destruct (decide (w = v)) as [->|Hne]; [by eexists|].
    apply attach_live in Hl as [?|Hl]; [done|]. rewrite Hw //. by eapply ma_vpage.
  - intros w wp Hl Hwp. unfold T'. setoid_rewrite page_at_remap.
    destruct (attach_lookup w wp Hl Hwp) as [[-> ->]|(Hne & Hl0 & Hwp0)].
    + destruct attach_aff as [Hnd Hiff]. rewrite Haff. split.
      { apply NoDup_app. split; [done|]. split; [|apply NoDup_singleton].
        intros p Hp ->%list_elem_of_singleton. by apply attach_new_entry. }
      intros p. rewrite elem_of_app list_elem_of_singleton Hiff. split.
      * intros [(pid' & va' & t' & ? & Hp & ->)| ->]; [|exists pid, va, t; by rewrite decide_True].
        exists pid', va', t'. rewrite decide_False //. intros [= -> ->]. congruence.
      * intros (pid' & va' & t' & Ht' & Hp & ->). destruct (decide _) as [[= -> ->]|].
        { right. rewrite Ht in Ht'. by injection Ht' as <-. } left. by exists pid', va', t'.
    + destruct (ma_aff _ _ M w wp Hl0 Hwp0) as [? Hiff]. split; [done|]. intros p. rewrite Hiff. split.
      * intros (pid' & va' & t' & Ht' & Hp & ->). exists pid', va', t'. rewrite decide_False //.
        intros [= -> ->]. congruence.
      * intros (pid' & va' & t' & Ht' & Hp & ->). exists pid', va', t'.
        destruct (decide _); [congruence|done].
  - intros n b w [Hc|(-> & ? & ? & ? & _)]%Hc1; [|by exists vp].
    destruct (ma_cached _ _ M n b w Hc) as (wp & Hwp & Hs & Hfn & Hb).
    destruct (decide (w = v)) as [->|Hne]; [|exists wp; by rewrite Hw].
    assert (live T s v) as Hl by (right; by exists n, b). destruct attach_cases as [[_ H0]|[? _]]; [|done].
    assert (wp = vp0) as -> by congruence. destruct (Hst Hl) as (Es & Ef & _ & Eb). exists vp.
    split; [done|]. split; [congruence|]. split; [congruence|].
    destruct (Hfile ltac:(congruence)) as (b' & Hb' & _). rewrite Hb' Hb in Eb. cbn in Eb. congruence.
  - intros w wp Hm Hwp Hs. rewrite E3. destruct (attach_lookup w wp) as [[-> ->]|(Hne & Hl0 & Hwp0)]; [by left|done|by apply Hfile|].
    apply attach_mapped in Hm as [?|Hm]; [done|].
    destruct (ma_file _ _ M w wp Hm Hwp0 Hs) as (b & ? & Hor). exists b. split; [done|].
    destruct Hor; [left; by apply Hc2|by right].
  - intros w [wp Hwp]. destruct (decide (w = v)) as [->|Hne]; [lia|]. rewrite Hw // in Hwp.
    pose proof (ma_next_vpage _ _ M w (mk_is_Some _ _ Hwp)). lia.
Qed.

Lemma attach_kind :
  (isSwap vp = true ∧ ∃ b, next_free_swap s = b :: next_free_swap s' ∧ blocks vp = blocks vp0 ++ [b]) ∨
  (isSwap vp = false ∧ next_free_swap s' = next_free_swap s).
Proof. destruct (isSwap vp); [left|right]; (split; [done|exact Hswap]). Qed.

Lemma attach_taken : isSwap vp = true →
  ∃ b, next_free_swap s = b :: next_free_swap s' ∧ blocks vp = blocks vp0 ++ [b].
Proof. destruct attach_kind as [[_ ?]|[? _]]; [done|congruence]. Qed.

Lemma attach_swap : swap_ok nswap T' s'.
Proof.
  pose proof (cr_swap _ _ _ _ _ K) as S.
  assert (∀ b, b ∈ next_free_swap s' → b ∈ next_free_swap s) as Hsub.
  { intros b Hb. destruct attach_kind as [(_ & b' & -> & _)|[_ E]]; [set_solver|by rewrite -E]. }
  assert (NoDup (next_free_swap s')) as Hnd.
  { pose proof (sw_free _ _ _ S) as H. destruct attach_kind as [(_ & b' & E & _)|[_ E]]; [|by rewrite E].
    rewrite E in H. by apply NoDup_cons in H as [_ ?]. }
  assert (∀ b, isSwap vp = true → b ∈ blocks vp →
    (b ∉ next_free_swap s') ∧ 0 ≤ b < nswap ∧
    (b ∉ next_free_swap s → live T s v ∧ isSwap vp0 = true ∧ b ∈ blocks vp0)) as Hbl.
  { intros b Hs Hb. destruct (attach_taken Hs) as (b' & E & Eb). rewrite Eb in Hb.
    pose proof (sw_free _ _ _ S) as Hn. rewrite E in Hn. apply NoDup_cons in Hn as [Hb' _].
    apply elem_of_app in Hb as [Hb| ->%list_elem_of_singleton].
    - destruct attach_cases as [[Hl H0]|[_ ->]]; [|by apply elem_of_nil in Hb].
      destruct (Hst Hl) as (Es & _). destruct (sw_used _ _ _ S v vp0 b Hl H0) as [Hf Hr]; [congruence|done|].
      split; [|split; [done|intros _; split; [done|split; [congruence|done]]]]. intros ?. apply Hf. rewrite E. set_solver.
    - split; [done|]. split; [apply (sw_range _ _ _ S); rewrite E; set_solver|]. intros Hf. destruct Hf.
      rewrite E. set_solver. }
  assert (∀ w wp b, live T s w → w ≠ v → vpages s !! w = Some wp → isSwap wp = true → isSwap vp = true →
            b ∈ blocks vp → b ∈ blocks wp → False) as Hdis.
  { intros w wp b Hl Hne Hwp Hs Hs' Hb Hb'. destruct (sw_used _ _ _ S w wp b Hl Hwp Hs Hb') as [Hf _].
    destruct (Hbl b Hs' Hb) as (_ & _ & H). destruct (H Hf) as (Hlv & Hs0 & Hb0).
    destruct attach_cases as [[_ H0]|[? _]]; [|done]. apply Hne.
    by apply (sw_disjoint _ _ _ S w v wp vp0 b). }
  split; try done.
  - intros w wp Hl Hwp Hs. destruct (attach_lookup w wp Hl Hwp) as [[-> ->]|(Hne & Hl0 & Hwp0)]; [|by eapply sw_length].
    destruct (attach_taken Hs) as (b & _ & ->). rewrite Haff !length_app. cbn.
    destruct attach_cases as [[Hlv H0]|[_ ->]]; [|done]. destruct (Hst Hlv) as (Es & _).
    rewrite (sw_length _ _ _ S v vp0) //. congruence.
  - intros w wp Hl Hwp Hs. destruct (attach_lookup w wp Hl Hwp) as [[-> ->]|(Hne & Hl0 & Hwp0)]; [|by eapply sw_nodup].
    destruct (attach_taken Hs) as (b & E & ->).
    destruct attach_cases as [[Hlv H0]|[_ ->]]; [|apply NoDup_singleton]. destruct (Hst Hlv) as (Es & _).
    apply NoDup_app. split; [apply (sw_nodup _ _ _ S v vp0); congruence|]. split; [|apply NoDup_singleton].
    intros b' Hb' ->%list_elem_of_singleton.
    destruct (sw_used _ _ _ S v vp0 b Hlv H0) as [Hf _]; [congruence|done|]. apply Hf. rewrite E. set_solver.
  - intros w x wp xp b Hl Hl' Hwp Hxp Hs Hs' Hb Hb'.
    destruct (attach_lookup w wp Hl Hwp) as [[-> ->]|(Hne & Hl0 & Hwp0)],
      (attach_lookup x xp Hl' Hxp) as [[-> ->]|(Hne' & Hl0' & Hxp0)]; [done|..].
    + by destruct (Hdis x xp b).
    + by destruct (Hdis w wp b).
    + by apply (sw_disjoint _ _ _ S w x wp xp b).
  - intros w wp b Hl Hwp Hs Hb. destruct (attach_lookup w wp Hl Hwp) as [[-> ->]|(Hne & Hl0 & Hwp0)].
    + by destruct (Hbl b Hs Hb) as (? & ? & _).
    + destruct (sw_used _ _ _ S w wp b Hl0 Hwp0 Hs Hb) as [Hf ?]. split; [|done]. intros ?. by apply Hf, Hsub.
  - intros b Hb. by apply (sw_range _ _ _ S), Hsub.
Qed.

Lemma attach_occupies w wp n : live T' s' w → vpages s' !! w = Some wp → occupies wp n →
  live T s w ∧ ∃ wp0, vpages s !! w = Some wp0 ∧ occupies wp0 n.
Proof.
  intros Hl Hwp Ho. destruct (attach_lookup w wp Hl Hwp) as [[-> ->]|(Hne & Hl0 & Hwp0)]; [|split; [done|by exists wp]].
  destruct attach_cases as [[Hlv H0]|[Hlv _]]; [|by destruct (Hnew Hlv n)].
  split; [done|]. exists vp0. split; [done|]. destruct (Hst Hlv) as (_ & _ & Ep & _).
  unfold occupies in *. by rewrite -Ep.
Qed.

Lemma attach_occupied w wp n : live T s w → vpages s !! w = Some wp → occupies wp n →
  ∃ wp', vpages s' !! w = Some wp' ∧ occupies wp' n.
Proof.
  intros Hl Hwp Ho. destruct (decide (w = v)) as [->|Hne]; [|exists wp; by rewrite Hw].
  exists vp. split; [done|]. destruct attach_cases as [[Hlv H0]|[? _]]; [|done].
  assert (wp = vp0) as -> by congruence. destruct (Hst Hlv) as (_ & _ & Ep & _).
  unfold occupies in *. by rewrite Ep.
Qed.

Lemma attach_alloc : alloc_ok T' ∅ s'.
Proof.
  pose proof Hsur as [= _ _ _ _ Eq Ef Ec _]. pose proof (cr_alloc _ _ _ _ _ K) as [A1 A2 A3 A4 A5 A6 A7 A8].
  split; rewrite ?Eq ?Ef ?Ec; try done.
  - intros w. rewrite A5. split; intros (Hl & HX & wp & n & Hwp & Ho).
    + split; [apply attach_live; by right|]. split; [done|].
      destruct (attach_occupied w wp n) as (wp' & ? & ?); [done..|]. by exists wp', n.
    + destruct (attach_occupies w wp n) as (? & wp0 & ? & ?); [done..|]. split; [done|]. split; [done|].
      by exists wp0, n.
  - intros w wp Hl Hwp HX. destruct (attach_lookup w wp Hl Hwp) as [[-> ->]|(Hne & Hl0 & Hwp0)].
    + by eapply phys_frame.
    + eapply phys_frame; [by apply (A6 w)|done..].
  - intros w x wp xp n Hin Hin' Hwp Hxp Ho Ho'. pose proof Hin as (Hl & _)%A5. pose proof Hin' as (Hl' & _)%A5.
    destruct (attach_occupies w wp n) as (_ & wp0 & ? & ?); [apply attach_live; by right|done..|].
    destruct (attach_occupies x xp n) as (_ & xp0 & ? & ?); [apply attach_live; by right|done..|].
    by apply (A7 w x wp0 xp0 n).
Qed.

Lemma attach_backing wp : backing s' wp = backing s wp.
Proof. pose proof Hsur as [= _ _ Ef _ _ _ _ _]. unfold backing. by rewrite Ef. Qed.
Lemma attach_content wp : content s' wp = content s wp.
Proof.
  unfold content. rewrite attach_backing. pose proof Hsur as [= _ _ _ Em _ _ _ _]. by rewrite Em.
Qed.

Lemma data_frame wp : data_vp s wp → data_vp s' wp.
Proof.
  pose proof Hsur as [= _ _ _ Em _ _ _ _]. intros []. split; rewrite attach_backing ?Em; done.
Qed.

Lemma attach_core : core T' {[v]} ∅ s'.
Proof.
  pose proof Hsur as [= _ Etb _ Em _ _ _ _].
  split; [apply attach_maps|apply attach_swap|apply attach_alloc| |].
  - intros w wp Hl Hwp HX p Hp.
    destruct (attach_lookup w wp Hl Hwp) as [[-> ->]|(Hne & Hl0 & Hwp0)]; [set_solver|].
    destruct (cr_pte _ _ _ _ _ K w wp Hl0 Hwp0 ltac:(set_solver) p Hp) as (e & He & ?). exists e.
    split; [|done]. rewrite -He. unfold pte_at. by rewrite Etb.
  - destruct (cr_data _ _ _ _ _ K) as [D0 D]. split; [by rewrite Em|]. intros w wp Hl Hwp _. apply data_frame.
    destruct (attach_lookup w wp Hl Hwp) as [[-> ->]|(Hne & Hl0 & Hwp0)]; [done|].
    by apply (D w).
Qed.

(** ** What the processes see *)

Lemma attach_view pid' va' :
  translateVA s = T → translateVA s' = T' →
  view s' pid' va' = if decide ((pid', va') = (pid, va)) then slot_of s vp else view s pid' va'.
Proof.
  intros HT HT'. unfold view. rewrite HT HT'. unfold T'. rewrite page_at_remap.
  assert (∀ wp, slot_of s' wp = slot_of s wp) as Hslot.
  { intros wp. unfold slot_of. by rewrite attach_content. }
  destruct (decide _) as [[= -> ->]|Hne].
  - cbn. by rewrite Hv /= Hslot.
  - destruct (page_at T pid' va') as [w|] eqn:Hp; [|done]. cbn.
    assert (live T s w) as Hl by (left; by exists pid', va').
    destruct (decide (w = v)) as [->|Hne']; [|rewrite Hw //; by destruct (vpages s !! w); cbn].
    destruct attach_cases as [[_ H0]|[? _]]; [|done]. rewrite Hv H0 /= Hslot.
    destruct (Hst Hl) as (Es & Ef & Ep & Eb). unfold slot_of, content, backing, file_of.
    by rewrite Es Ef Ep Eb.
Qed.

Lemma attach_data n b : file_data s' n b = file_data s n b.
Proof.
  unfold file_data. destruct (cached_at (filename_block_to_vpage s) n b) as [w|] eqn:Hc.
  - rewrite (Hc2 _ _ _ Hc). cbn. assert (live T s w) as Hl by (right; by exists n, b).
    destruct (decide (w = v)) as [->|Hne].
    + destruct attach_cases as [[_ H0]|[? _]]; [|done]. rewrite Hv H0 /= attach_content.
      destruct (Hst Hl) as (Es & Ef & Ep & Eb). unfold content, backing, file_of. by rewrite Es Ef Ep Eb.
    + rewrite Hw //. destruct (vpages s !! w); [|done]. apply attach_content.
  - pose proof Hsur as [= _ _ Ef _ _ _ _ _].
    destruct (cached_at (filename_block_to_vpage s') n b) as [w|] eqn:Hc'; [|by rewrite Ef].
    destruct (Hc1 _ _ _ Hc') as [?|(-> & Hs & <- & Hb & Hp)]; [congruence|]. rewrite Hv /=.
    unfold content. rewrite Hp. unfold backing, file_of. by rewrite Hs Hb Ef.
Qed.

(** [updatePTEs] completes it. *)
Lemma attach_ok sl (Q : unit → pager → Prop) :
  translateVA s = T → translateVA s' = T' → fixed_registers s' = fixed_registers s →
  slot_of s vp = Some sl → (∀ s2, attached nswap pid va sl s s2 → Q tt s2) →
  wp (updatePTEs v) Q s'.
Proof.
  intros HT HT' Hr Hsl HQ. assert (mapped T' v) as Hm by (apply attach_mapped; by left).
  apply (updatePTEs_core nswap _ _ _ v vp Q s' attach_core Hm Hv). intros tb K' Hset. apply HQ.
  pose proof Hr as [= E1 E2 E3 E4 E5]. split; try done.
  - cbn. rewrite HT'. by rewrite difference_diag_L in K'.
  - exists v. by rewrite HT.
  - unfold slot_of in Hsl. destruct attach_kind as [(Hs & b & -> & _)|[Hs E]]; rewrite Hs in Hsl.
    + destruct (content s vp); [by injection Hsl as <-|done].
    + rewrite E. destruct (head (blocks vp)); [by injection Hsl as <-|done].
  - intros pid' va'. rewrite -Hsl -attach_view //.
  - apply attach_data.
  - intros U. rewrite HT in U. change (unmapped_ok (translateVA s') (with_tables tb s')). rewrite HT'.
    eapply unmapped_set_for; [apply attach_maps|by left|exact Hv|exact Hset|done|].
    intros pid' t' va' e Ht' Hva' Hno' He. rewrite E1 in Ht'. unfold T' in Hno'. rewrite page_at_remap in Hno'.
    destruct (decide _); [done|]. apply (U pid' t' va' e Ht' Hva' Hno'). rewrite -He. unfold pte_at.
    pose proof Hsur as [= _ Etb _ _ _ _ _ _]. by rewrite Etb.
Qed.

End attach.
