(* ===== verification/PagerMap.v ===== *)
(** * [vm_map]

    The next address of the arena gets a private page of zeroes or a block of a
    file; nothing changes at the other addresses. *)

From S2P Require Import Prelude PagerTypes Pager PagerInv PagerPtes PagerFrame PagerEvict PagerPlace.
From S2P Require Import PagerCheck PagerView PagerWork PagerReturn PagerFault PagerCow PagerVmFault PagerName PagerAttach.

Section map.
Context `{F : Files} `{Tr : Traversal} (nswap : Z) `{FL : !FilesLaws nswap}.
Abbreviation core := (core nswap).
Abbreviation consistent := (consistent nswap).
Abbreviation attached := (attached nswap).

(** ** One page *)

(** [make_swap_to_nullpage] *)
Lemma make_swap_none pid va (Q : option vpage_id → pager → Prop) s :
  consistent s → next_free_swap s = [] → Q None s → wp (make_swap_to_nullpage va pid) Q s.
Proof.
  intros C Hf HQ. apply pg_bind, pg_gets. rewrite Hf. cbn. apply pg_bind, (pg_final_check nswap); [done|].
  by apply pg_ret.
Qed.

Lemma make_swap_ok pid t va b l (Q : option vpage_id → pager → Prop) s :
  core (translateVA s) ∅ ∅ s → process_table s !! pid = Some t → valid_va va →
  page_at (translateVA s) pid va = None → next_free_swap s = b :: l →
  (∀ v s', attached pid va (Private null_page) s s' → Q (Some v) s') →
  wp (make_swap_to_nullpage va pid) Q s.
Proof.
  intros K Ht Hva Hno Hf HQ. apply pg_bind, pg_gets. rewrite bool_decide_false; [|by rewrite Hf].
  set (new := next_vpage s). set (T := translateVA s) in *.
  apply pg_bind. apply pg_bind, pg_gets, pg_bind, pg_modify, pg_ret. fold new.
  apply pg_bind, set_translateVA_ok, pg_bind. apply pg_bind, pg_gets. cbn. rewrite Hf.
  apply pg_bind, pg_modify, pg_ret.
  do 3 (eapply pg_bind, pg_modify_vpage; [cbn; by rewrite lookup_insert_eq|]).
  do 3 (eapply pg_bind, pg_modify_phys; [cbn; by rewrite lookup_insert_eq|done|]).
  eapply pg_bind, pg_modify_vpage; [cbn; by rewrite lookup_insert_eq|].
  apply pg_bind. apply pg_bind, pg_gets. cbn. apply (pg_deref _ t); [done|].
  eapply pg_bind, pg_modify_vpage; [cbn; by rewrite lookup_insert_eq|]. cbn. rewrite !insert_insert_eq.
  set (np := mk_VirtualPage [VA_to_PTE va t] true "" [b] (Some (mk_PhysicalPage 0 true false)) true).
  set (s' := with_vpages (<[new := np]> (vpages s))
    (with_next_free_swap l (with_translateVA (remap pid va new T) (with_next_vpage (S new) s)))).
  change (with_vpages _ _) with s'.
  assert (∀ n, ¬ occupies np n) as Hnp by (intros n (Hn & pp & [= <-] & <-); done).
  assert (∀ w, w ≠ new → vpages s' !! w = vpages s !! w) as Hw by (intros w ?; by apply lookup_insert_ne).
  apply pg_bind, (attach_ok nswap T s s' pid va t new new_VirtualPage np K) with (sl := Private null_page);
    try done; try by (cbn; left).
  - cbn. by rewrite lookup_insert_eq.
  - cbn. lia.
  - by right.
  - intros Hl. by destruct (attach_fresh nswap T s K new Hl).
  - cbn. by exists b.
  - split; [done| |]; cbn; intros pp [= <-]; done.
  - split; cbn; [|done|done]. intros pp [= <-]. done.
  - unfold slot_of, content. cbn. by rewrite (da_null _ _ _ (cr_data _ _ _ _ _ K)).
  - intros s2 A. apply pg_ret. by eapply HQ.
Qed.

(** ** A page of a file *)

Lemma cached_insert n b v C n' b' :
  cached_at (<[n := <[b := v]> (default ∅ (C !! n))]> C) n' b' =
  if decide ((n', b') = (n, b)) then Some v else cached_at C n' b'.
Proof.
  unfold cached_at. destruct (decide (n' = n)) as [->|Hne].
  - rewrite lookup_insert_eq /=. destruct (decide (b' = b)) as [->|].
    + by rewrite lookup_insert_eq decide_True.
    + rewrite lookup_insert_ne // decide_False; [|congruence]. by destruct (C !! n).
  - rewrite lookup_insert_ne // decide_False //. congruence.
Qed.

(** A page that is mapped already. *)
Lemma map_cached_ok pid t va n b v (Q : unit → pager → Prop) s :
  core (translateVA s) ∅ ∅ s → running s pid t → valid_va va →
  page_at (translateVA s) pid va = None → cached_at (filename_block_to_vpage s) n b = Some v →
  (∀ s', attached pid va (Shared n b) s s' → Q tt s') →
  wp (map_file va n b) Q s.
Proof.
  intros K [Hcur Ht Hptbr] Hva Hno Hc HQ. set (T := translateVA s) in *.
  assert (live T s v) as Hl by (right; by exists n, b).
  destruct (ma_cached _ _ (cr_maps _ _ _ _ _ K) n b v Hc) as (vp0 & Hv0 & Hs & Hfn & Hb).
  apply pg_bind, pg_gets, pg_bind, pg_gets. rewrite Hc Hcur.
  apply pg_bind, set_translateVA_ok, pg_bind. apply pg_bind, pg_gets. cbn. rewrite Hptbr.
  apply (pg_deref _ t); [done|]. eapply pg_bind, pg_modify_vpage; [exact Hv0|]. cbn.
  set (vp := set_affiliated _ vp0). set (s' := with_vpages _ _).
  pose proof (al_phys _ _ _ (cr_alloc _ _ _ _ _ K) v vp0 Hl Hv0 ltac:(set_solver)) as [P1 P2 P3].
  pose proof (da_each _ _ _ (cr_data _ _ _ _ _ K) v vp0 Hl Hv0 ltac:(set_solver)) as D.
  apply (attach_ok nswap T s s' pid va t v vp0 vp K) with (sl := Shared n b); try done.
  - cbn. by rewrite lookup_insert_eq.
  - intros w ?. by apply lookup_insert_ne.
  - pose proof (ma_next_vpage _ _ (cr_maps _ _ _ _ _ K) v (mk_is_Some _ _ Hv0)). cbn. lia.
  - by left.
  - cbn. by left.
  - intros _. exists b. cbn. rewrite Hb Hfn. by auto.
  - cbn. by rewrite Hs.
  - split; [done|done|]. intros pp Hp Hz. destruct (P3 pp Hp Hz) as [? _]. congruence.
  - by destruct D; split.
  - unfold slot_of. cbn. by rewrite Hs Hb Hfn.
Qed.

(** A block that nobody maps. *)
Lemma map_uncached_ok pid t va n b (Q : unit → pager → Prop) s :
  core (translateVA s) ∅ ∅ s → running s pid t → valid_va va →
  page_at (translateVA s) pid va = None → cached_at (filename_block_to_vpage s) n b = None →
  (∀ s', attached pid va (Shared n b) s s' → Q tt s') →
  wp (map_file va n b) Q s.
Proof.
  intros K [Hcur Ht Hptbr] Hva Hno Hc HQ. set (T := translateVA s) in *. set (new := next_vpage s).
  apply pg_bind, pg_gets, pg_bind, pg_gets. rewrite Hc Hcur.
  apply pg_bind. apply pg_bind, pg_gets, pg_bind, pg_modify, pg_ret. fold new.
  apply pg_bind, pg_modify, pg_bind, set_translateVA_ok.
  do 4 (eapply pg_bind, pg_modify_vpage; [cbn; by rewrite lookup_insert_eq|]).
  apply pg_bind. apply pg_bind, pg_gets. cbn. rewrite Hptbr. apply (pg_deref _ t); [done|].
  eapply pg_bind, pg_modify_vpage; [cbn; by rewrite lookup_insert_eq|]. cbn. rewrite !insert_insert_eq.
  set (np := mk_VirtualPage [VA_to_PTE va t] false n [b] None false). set (s' := with_vpages _ _).
  assert (∀ n' b', cached_at (filename_block_to_vpage s') n' b' =
            if decide ((n', b') = (n, b)) then Some new else cached_at (filename_block_to_vpage s) n' b') as HC.
  { intros n' b'. apply cached_insert. }
  apply (attach_ok nswap T s s' pid va t new new_VirtualPage np K) with (sl := Shared n b); try done.
  - cbn. by rewrite lookup_insert_eq.
  - intros w ?. by apply lookup_insert_ne.
  - cbn. lia.
  - by right.
  - intros n' b' w. rewrite HC. destruct (decide _) as [[= -> ->]|]; [intros [= <-]; by right|by left].
  - intros n' b' w Hw. rewrite HC decide_False //. intros [= -> ->]. congruence.
  - intros Hl. by destruct (attach_fresh nswap T s K new Hl).
  - intros _. exists b. split; [done|]. left. by rewrite HC decide_True.
  - by intros _ m (_ & pp & ? & _).
Qed.

Lemma map_file_ok pid t va n b (Q : unit → pager → Prop) s :
  core (translateVA s) ∅ ∅ s → running s pid t → valid_va va → page_at (translateVA s) pid va = None →
  (∀ s', attached pid va (Shared n b) s s' → Q tt s') →
  wp (map_file va n b) Q s.
Proof.
  intros K Hrun Hva Hno HQ. destruct (cached_at (filename_block_to_vpage s) n b) eqn:Hc.
  - by eapply map_cached_ok.
  - by eapply map_uncached_ok.
Qed.

(** ** The arena grows *)

(** From [s] to [s'], the arena of [pid] has grown by a page at [a]. *)
Record extended (pid a : Z) (sl : slot) (s s' : pager) : Prop := {
  ex_consistent : consistent s';
  ex_registers : (process_table s', mem_pages_cap s', current_pid s', page_table_base_register s') =
    (process_table s, mem_pages_cap s, current_pid s, page_table_base_register s);
  ex_next : next_free_VA s' = <[pid := a + VM_PAGESIZE]> (next_free_VA s);
  ex_swap : next_free_swap s' = drop (swap_cost sl) (next_free_swap s);
  ex_view pid' va' :
    view s' pid' va' = if decide ((pid', va') = (pid, a)) then Some sl else view s pid' va';
  ex_data n b : file_data s' n b = file_data s n b }.

Lemma known_remap s pid va v :
  consistent s → is_Some (process_table s !! pid) →
  ∀ pid', is_Some (remap pid va v (translateVA s) !! pid') → is_Some (process_table s !! pid').
Proof.
  intros C Hp pid'. unfold remap. rewrite lookup_insert_is_Some'. intros [<-|?]; [done|by apply (co_known _ _ C)].
Qed.

Lemma next_address s pid a :
  consistent s → next_free_VA s !! pid = Some a → a < VM_ARENA_MAXADDR →
  valid_va a ∧ page_at (translateVA s) pid a = None ∧
  (∀ va, valid_va va → va < a + VM_PAGESIZE ↔ va < a ∨ va = a) ∧
  ∃ n, 0 ≤ n ≤ page_table_size ∧ a + VM_PAGESIZE = VM_ARENA_BASEADDR + n * VM_PAGESIZE.
Proof.
  intros C Ha Hlt. destruct (ar_range _ _ (co_arena _ _ C) pid a Ha) as (n & Hn & Ea).
  assert (n < page_table_size) as Hn'.
  { unfold VM_ARENA_MAXADDR, page_table_size, VM_ARENA_SIZE, VM_ARENA_BASEADDR, VM_PAGESIZE in *. lia. }
  split; [exists n; lia|]. split; [|split].
  - destruct (page_at _ pid a) eqn:Hp; [|done].
    destruct (proj1 (ar_pages _ _ (co_arena _ _ C) pid a a Ha) ltac:(by eexists)). lia.
  - intros va (i & Hi & ->). subst a. unfold VM_PAGESIZE. lia.
  - exists (n + 1). subst a. unfold VM_PAGESIZE. lia.
Qed.

(** [vm_map] advances [next_free_VA]. *)
Lemma extend_ok pid a sl (Q : option Z → pager → Prop) s s1 :
  consistent s → is_Some (process_table s !! pid) → next_free_VA s !! pid = Some a → a < VM_ARENA_MAXADDR →
  attached pid a sl s s1 → (∀ s', extended pid a sl s s' → Q (Some a) s') →
  wp (x ← at_next_free_VA pid;
      set_next_free_VA pid (x + VM_PAGESIZE) ;;
      final_check ;;
      mret (Some a)) Q s1.
Proof.
  intros C Hp Ha Hlt [K (v & HT) Hr Hsw Hview Hdata Hun] HQ. pose proof Hr as [= E1 E2 E3 E4 E5].
  destruct (next_address s pid a C Ha Hlt) as (Hva & Hno & Hsplit & Hrange).
  apply pg_bind. apply pg_bind, pg_gets. rewrite E2 Ha. apply pg_ret, pg_bind, pg_modify.
  set (s2 := with_next_free_VA _ s1). apply pg_bind.
  assert (consistent s2) as C2.
  { apply (core_consistent nswap).
    - by apply (core_frame nswap _ _ _ s1).
    - pose proof (co_arena _ _ C) as [N1 N2 N3]. split; cbn; rewrite ?E1 ?E2.
      + intros pid'. rewrite lookup_insert_is_Some' N1. split; [by intros [<-|?]|by right].
      + intros pid' a'. rewrite lookup_insert_Some. intros [[<- <-]|[_ ?]]; [done|by eapply N2].
      + intros pid' a' va. rewrite lookup_insert_Some HT page_at_remap. intros [[<- <-]|[Hne Ha']].
        * destruct (decide _) as [[= ->]|Hne].
          -- split; [|by eexists]. intros _. split; [done|]. unfold VM_PAGESIZE. lia.
          -- rewrite (N3 pid a va Ha). split; intros [Hv ?]; (split; [done|]); [unfold VM_PAGESIZE; lia|].
             apply (Hsplit va Hv) in H as [?|?]; [done|]. congruence.
        * rewrite decide_False; [by apply N3|]. congruence.
    - apply (unmapped_frame _ s1); [apply Hun, C|done..].
    - intros pid'. cbn. rewrite HT E1. by apply known_remap. }
  apply (pg_final_check nswap); [done|]. apply pg_ret, HQ. split; [done| | |done|done|done].
  - cbn. congruence.
  - cbn. by rewrite E2.
Qed.

Lemma extended_same pid a sl s s1 s2 : same s s1 → extended pid a sl s1 s2 → extended pid a sl s s2.
Proof.
  intros H [C Hr Hn Hs Hv Hd]. pose proof (sm_registers _ _ H) as [= E1 E2 E3 E4 E5 E6]. split.
  - done.
  - congruence.
  - congruence.
  - congruence.
  - intros pid' va'. by rewrite Hv (sm_view _ _ H).
  - intros n b. by rewrite Hd (sm_data _ _ H).
Qed.

(** ** [vm_map] *)

Lemma vm_map_ok pid t a name block (Q : option Z → pager → Prop) s :
  consistent s → running s pid t → next_free_VA s !! pid = Some a →
  (VM_ARENA_MAXADDR ≤ a → Q None s) →
  (a < VM_ARENA_MAXADDR → name = None → next_free_swap s = [] → Q None s) →
  (a < VM_ARENA_MAXADDR → name = None → next_free_swap s ≠ [] →
     ∀ s', extended pid a (Private null_page) s s' → Q (Some a) s') →
  (a < VM_ARENA_MAXADDR → ∀ va r, name = Some va → reads (byte_at s pid) va r →
     match r with
     | None => ∀ s', consistent s' → same s s' → Q None s'
     | Some n => ∀ s', extended pid a (Shared n block) s s' → Q (Some a) s'
     end) →
  wp (vm_map name block) Q s.
Proof.
  intros C Hrun Ha Hfull Hnoswap Hpriv Hfile. pose proof Hrun as [Hcur Ht Hptbr].
  apply pg_bind, pg_gets. rewrite Hcur. apply pg_bind. apply pg_bind, pg_gets. rewrite Ha. apply pg_ret.
  destruct (VM_ARENA_MAXADDR <=? a) eqn:Hmax.
  { apply Z.leb_le in Hmax. apply pg_bind, (pg_final_check nswap); [done|]. by apply pg_ret, Hfull. }
  apply Z.leb_gt in Hmax. apply pg_bind.
  destruct (next_address s pid a C Ha Hmax) as (Hva & Hno & _ & _).
  destruct name as [va|].
  - apply pg_bind, (translate_ok nswap pid t); [done..|]. intros s1 r C1 Hs1 Hr.
    specialize (Hfile Hmax va r eq_refl Hr). destruct r as [n|].
    2:{ apply pg_ret. cbn. by apply pg_ret, Hfile. }
    pose proof (sm_registers _ _ Hs1) as [= E1 E2 E3 E4 E5 E6]. rewrite -E2 in Ha.
    destruct (next_address s1 pid a C1 Ha Hmax) as (_ & Hno1 & _).
    apply pg_bind, (map_file_ok pid t); [by apply working_core, consistent_working|by eapply same_running|done..|].
    intros s2 A. apply pg_ret. cbn. apply (extend_ok pid a (Shared n block) Q s1 s2); [done| |done..|].
    + rewrite E1. by eexists.
    + intros s' X. apply Hfile. by eapply extended_same.
  - apply pg_bind. destruct (next_free_swap s) as [|b l] eqn:Hf.
    + apply make_swap_none; [done..|]. apply pg_ret. cbn. by apply pg_ret, Hnoswap.
    + apply (make_swap_ok pid t a b l); [by apply working_core, consistent_working|done..|].
      intros v s1 A. apply pg_ret. cbn. apply (extend_ok pid a (Private null_page) Q s s1); [done| |done..|].
      * by eexists.
      * intros s' X. by apply Hpriv.
Qed.

End map.
