(* ===== verification/PagerCreate.v ===== *)
(** * [vm_create]

    A new process, with a copy of the arena of its parent if the swap file has a
    block for each private page. *)

From S2P Require Import Prelude PagerTypes Pager PagerInv PagerPtes PagerFrame PagerEvict PagerPlace.
From S2P Require Import PagerCheck PagerView PagerWork PagerReturn PagerFault PagerCow PagerVmFault PagerName PagerAttach PagerMap.

Section create.
Context `{F : Files} `{Tr : Traversal} `{TL : !TraversalLaws} (nswap : Z) `{FL : !FilesLaws nswap}.
Abbreviation core := (core nswap).
Abbreviation consistent := (consistent nswap).
Abbreviation attached := (attached nswap).

(** ** The empty process *)

Definition with_process (pid : pid_t) (t : table_id) (a : Z) (s : pager) : pager :=
  with_next_free_VA (<[pid := a]> (next_free_VA s))
    (with_process_table (<[pid := t]> (process_table s))
      (with_next_table (S t) (with_tables (<[t := λ _, zero_pte]> (tables s)) s))).

Section fresh.
Context (s : pager) (child : pid_t) (C : consistent s) (Hnew : process_table s !! child = None).
Let t := next_table s.
Let s1 := with_process child t VM_ARENA_BASEADDR s.

Lemma fresh_table : tables s !! t = None.
Proof.
  apply eq_None_not_Some. intros Ht. pose proof (ma_next_table _ _ (co_maps _ _ C) t Ht) as H. unfold t in H. lia.
Qed.

Lemma fresh_unmapped va : page_at (translateVA s) child va = None.
Proof.
  destruct (page_at _ child va) eqn:Hp; [|done].
  destruct (ma_process _ _ (co_maps _ _ C) _ _ _ Hp) as [? ?]. congruence.
Qed.

Lemma fresh_pte p : p.1 ≠ t → pte_at p s1 = pte_at p s.
Proof. intros Hne. unfold pte_at. cbn. by rewrite lookup_insert_ne. Qed.

Lemma fresh_maps : maps_ok (translateVA s) s1.
Proof.
  pose proof (co_maps _ _ C) as M. pose proof fresh_table as Hft.
  assert (∀ pid t', <[child := t]> (process_table s) !! pid = Some t' →
            (pid = child ∧ t' = t) ∨ (pid ≠ child ∧ t' ≠ t ∧ process_table s !! pid = Some t')) as HP.
  { intros pid t' [[<- <-]|[? H]]%lookup_insert_Some; [by left|right]. split; [done|]. split; [|done].
    intros ->. destruct (ma_table _ _ M _ _ H). congruence. }
  split; cbn; try by apply M.
  - intros pid pid' t' [[-> ->]|(_ & ? & H)]%HP [[-> ?]|(_ & ? & H')]%HP; [done..|by eapply ma_inj].
  - intros pid t' [[-> ->]|(_ & ? & H)]%HP; [rewrite lookup_insert_eq; by eexists|].
    rewrite lookup_insert_ne //. by eapply ma_table.
  - intros pid va v Hp. rewrite lookup_insert_is_Some'. right. by eapply ma_process.
  - intros v vp Hl Hv. destruct (ma_aff _ _ M v vp Hl Hv) as [Hnd Hiff]. split; [done|]. intros p. rewrite Hiff.
    split; intros (pid & va & t' & Ht' & Hp & ->); exists pid, va, t'; (split; [|done]).
    + rewrite lookup_insert_ne //. intros <-. congruence.
    + destruct (HP _ _ Ht') as [[-> _]|(_ & _ & ?)]; [|done]. by rewrite fresh_unmapped in Hp.
  - intros t'. rewrite lookup_insert_is_Some'. intros [<-|H]; [lia|].
    pose proof (ma_next_table _ _ M t' H). unfold t. lia.
Qed.

Lemma base_not_below va : valid_va va → ¬ va < VM_ARENA_BASEADDR.
Proof. intros (i & Hi & ->). unfold VM_PAGESIZE. lia. Qed.

Lemma fresh_consistent : consistent s1.
Proof.
  destruct C as [M S A P D AR U HK]. split.
  - apply fresh_maps.
  - by eapply swap_frame; [exact S|apply cache_same|..].
  - by eapply alloc_frame; [exact A|..].
  - intros v vp Hl Hv HX p Hp. rewrite fresh_pte; [by apply (P v vp Hl Hv HX)|].
    destruct (aff_pte _ _ _ _ _ M Hl Hv Hp) as [e He]. intros E. unfold pte_at in He.
    rewrite E fresh_table in He. done.
  - destruct D as [D0 D]. split; [done|]. intros v vp Hl Hv HX. by destruct (D v vp Hl Hv HX).
  - destruct AR as [N1 N2 N3]. split; cbn.
    + intros pid. by rewrite !lookup_insert_is_Some' N1.
    + intros pid a. rewrite lookup_insert_Some. intros [[<- <-]|[_ ?]]; [|by eapply N2].
      exists 0. split; [done|]. lia.
    + intros pid a va. rewrite lookup_insert_Some. intros [[<- <-]|[_ ?]]; [|by apply N3].
      rewrite fresh_unmapped. split; [by intros []|]. intros [Hv Hlt]. by destruct (base_not_below va).
  - intros pid t' va e. cbn. rewrite lookup_insert_Some. intros [[<- <-]|[Hne Ht']] Hva Hno.
    + unfold pte_at. cbn. rewrite lookup_insert_eq /=. destruct (_ && _); [|done]. by intros [= <-].
    + rewrite fresh_pte; [by apply (U pid)|]. cbn. intros ->.
      destruct (ma_table _ _ M _ _ Ht') as [? H]. rewrite fresh_table in H. done.
  - intros pid H. cbn. rewrite lookup_insert_is_Some'. right. by apply HK.
Qed.

Lemma fresh_view pid va : view s1 pid va = view s pid va.
Proof. done. Qed.
Lemma fresh_data n b : file_data s1 n b = file_data s n b.
Proof. done. Qed.

(** The process is given up. *)
Lemma fresh_undone (Q : unit → pager → Prop) :
  (∀ s', consistent s' → same s s' → Q tt s') →
  wp (erase_process child ;; erase_next_free_VA child) Q s1.
Proof.
  intros HQ. apply pg_bind, pg_bind, pg_gets. cbn. rewrite lookup_insert_eq. apply pg_modify, pg_modify.
  assert (next_free_VA s !! child = None) as Hn.
  { apply eq_None_not_Some. intros H%(ar_next _ _ (co_arena _ _ C)). rewrite Hnew in H. by destruct H. }
  cbn. rewrite (delete_insert_id (process_table s)) // (delete_insert_id (next_free_VA s)) //.
  rewrite (delete_insert_id (tables s)); [|apply fresh_table].
  set (s' := with_next_free_VA _ _).
  assert (s' = with_next_table (S t) s) as -> by by destruct s.
  apply HQ; [|done]. destruct C as [M S A P D AR U HK]. split; try done.
  - destruct M. split; try done. intros t' H. pose proof (ma_next_table t' H). cbn. unfold t. lia.
  - by eapply swap_frame; [exact S|apply cache_same|..].
  - by eapply alloc_frame; [exact A|..].
  - destruct D as [D0 D]. split; [done|]. intros v vp Hl Hv HX. by destruct (D v vp Hl Hv HX).
  - by apply (arena_frame _ s).
Qed.

End fresh.
(** ** Swap blocks needed *)

Definition cost_at (s : pager) (pid va : Z) : nat :=
  match view s pid va with Some sl => swap_cost sl | None => 0 end.
Definition cost (s : pager) (pid : Z) (l : list (Z * vpage_id)) : nat :=
  sum_list_with (λ x, cost_at s pid x.1) l.

Lemma slot_cost s vp sl : slot_of s vp = Some sl → swap_cost sl = if isSwap vp then 1%nat else 0%nat.
Proof.
  unfold slot_of. destruct (isSwap vp); intros (? & _ & ->)%fmap_Some; done.
Qed.

Lemma mapped_slot s pid va v vp :
  core (translateVA s) ∅ ∅ s → page_at (translateVA s) pid va = Some v → vpages s !! v = Some vp →
  ∃ sl, slot_of s vp = Some sl ∧ view s pid va = Some sl.
Proof.
  intros K Hva Hv. destruct (view s pid va) as [sl|] eqn:E.
  - exists sl. unfold view in E. rewrite Hva /= Hv in E. done.
  - apply (view_none_core nswap s pid va K) in E. congruence.
Qed.

Lemma count_swap_ok pid l (Q : Z → pager → Prop) s :
  core (translateVA s) ∅ ∅ s → (∀ va v, (va, v) ∈ l → page_at (translateVA s) pid va = Some v) →
  Q (Z.of_nat (cost s pid l)) s → wp (count_swap l) Q s.
Proof.
  intros K. revert Q. induction l as [|[va v] l IH]; intros Q Hl HQ; [done|]. cbn [count_swap].
  assert (page_at (translateVA s) pid va = Some v) as Hva by (apply Hl; set_solver).
  destruct (ma_vpage _ _ (cr_maps _ _ _ _ _ K) v ltac:(left; by eexists _, _)) as [vp Hv].
  eapply pg_bind, pg_get_vpage; [done|]. apply pg_bind, IH; [intros va' v' ?; apply Hl; set_solver|].
  apply pg_ret. destruct (mapped_slot s pid va v vp K Hva Hv) as (sl & Hsl & Hview).
  replace (_ + _) with (Z.of_nat (cost s pid ((va, v) :: l))); [done|].
  change (cost s pid ((va, v) :: l)) with (cost_at s pid va + cost s pid l)%nat.
  unfold cost_at. rewrite Hview (slot_cost _ _ _ Hsl). destruct (isSwap vp); cbn [Z.b2z]; lia.
Qed.

(** ** The loop *)

Section copy.
Context (s0 s1 : pager) (parent child : pid_t) (m : gmap Z vpage_id).
Context (Hpc : parent ≠ child).

(** The pages in [l] are still to be copied. *)
Record copying (l : list (Z * vpage_id)) (s : pager) : Prop := {
  cg_core : core (translateVA s) ∅ ∅ s;
  cg_unmapped : unmapped_ok (translateVA s) s;
  cg_known pid : is_Some (translateVA s !! pid) → is_Some (process_table s !! pid);
  cg_registers : fixed_registers s = fixed_registers s1;
  cg_parent va : page_at (translateVA s) parent va = m !! va;
  cg_view pid va : view s pid va =
    if decide (pid = child) then (if decide (va ∈ l.*1) then None else view s0 parent va)
    else view s0 pid va;
  cg_data n b : file_data s n b = file_data s0 n b;
  cg_swap : (length (next_free_swap s) + cost s0 parent (map_to_list m) =
             length (next_free_swap s0) + cost s0 parent l)%nat;
  cg_enough : (cost s0 parent l ≤ length (next_free_swap s))%nat;
  cg_list : NoDup l.*1 ∧ ∀ va v, (va, v) ∈ l → m !! va = Some v }.

Lemma copying_step va v l sl s s' :
  copying ((va, v) :: l) s → attached child va sl s s' → view s0 parent va = Some sl →
  copying l s'.
Proof.
  intros [K U HK Hr Hp Hview Hd Hsw Hen [Hnd Hin]] [K' (w & HT) Hr' Hsw' Hview' Hd' Hun'] Hsl.
  pose proof Hr' as [= E1 E2 E3 E4 E5]. pose proof Hr as [= G1 G2 G3 G4 G5].
  apply NoDup_cons in Hnd as [Hva Hnd]. cbn in Hva.
  assert (cost s0 parent ((va, v) :: l) = swap_cost sl + cost s0 parent l)%nat as Hc.
  { change (cost s0 parent ((va, v) :: l)) with (cost_at s0 parent va + cost s0 parent l)%nat.
    unfold cost_at. by rewrite Hsl. }
  rewrite Hc in Hsw, Hen. split; try done.
  - by apply Hun'.
  - intros pid. rewrite HT E1. unfold remap. rewrite lookup_insert_is_Some'. intros [<-|?]; [|by apply HK].
    destruct (ma_process _ _ (cr_maps _ _ _ _ _ K') child va w) as [x Hx]; [|rewrite -E1; by eexists].
    by rewrite HT page_at_remap decide_True.
  - congruence.
  - intros va'. rewrite HT page_at_remap decide_False; [done|]. congruence.
  - intros pid va'. rewrite Hview' Hview. destruct (decide (pid = child)) as [->|Hne].
    + destruct (decide (va' = va)) as [->|Hne].
      * by rewrite decide_True // decide_False.
      * rewrite decide_False; [|congruence]. cbn. destruct (decide (va' ∈ l.*1)).
        -- rewrite decide_True //. by right.
        -- rewrite decide_False //. by intros [?|?]%elem_of_cons.
    + rewrite decide_False //. congruence.
  - intros n b. by rewrite Hd' Hd.
  - rewrite Hsw' length_drop. lia.
  - rewrite Hsw' length_drop. lia.
  - split; [done|]. intros va' v' ?. apply Hin. by right.
Qed.

(** A page that is shared. *)
Lemma share_ok pid t va v vp sl (Q : unit → pager → Prop) s :
  core (translateVA s) ∅ ∅ s → process_table s !! pid = Some t → valid_va va →
  page_at (translateVA s) pid va = None → live (translateVA s) s v → vpages s !! v = Some vp →
  (∀ pp, physicalPage vp = Some pp → PPN pp ≠ 0) → slot_of s vp = Some sl →
  (swap_cost sl ≤ length (next_free_swap s))%nat →
  (∀ s', attached pid va sl s s' → Q tt s') →
  wp (set_translateVA pid va v ;;
      when (isSwap vp)
        (b ← pop_front_swap;
         modify_vpage v (λ v, set_blocks (blocks v ++ [b]) v)) ;;
      t ← process_data pid;
      modify_vpage v (λ v, set_affiliated (affiliated v ++ [VA_to_PTE va t]) v) ;;
      updatePTEs v) Q s.
Proof.
  intros K Ht Hva Hno Hl Hv Hnn Hsl Hen HQ. set (T := translateVA s) in *.
  pose proof (al_phys _ _ _ (cr_alloc _ _ _ _ _ K) v vp Hl Hv ltac:(set_solver)) as [P1 P2 P3].
  pose proof (da_each _ _ _ (cr_data _ _ _ _ _ K) v vp Hl Hv ltac:(set_solver)) as D.
  destruct (core_live_block nswap _ _ _ s v vp K Hl Hv) as [b0 Hb0].
  pose proof (ma_next_vpage _ _ (cr_maps _ _ _ _ _ K) v (mk_is_Some _ _ Hv)) as Hnv.
  rewrite (slot_cost _ _ _ Hsl) in Hen. apply pg_bind, set_translateVA_ok, pg_bind.
  assert (∀ bl fs, (if isSwap vp then ∃ b, next_free_swap s = b :: fs ∧ bl = [b]
                    else next_free_swap s = fs ∧ bl = []) →
    let s' := with_vpages (<[v := set_affiliated (affiliated vp ++ [VA_to_PTE va t])
                                    (set_blocks (blocks vp ++ bl) vp)]> (vpages s))
                (with_next_free_swap fs (with_translateVA (remap pid va v T) s)) in
    wp (updatePTEs v) Q s') as Hgo.
  { intros bl fs Hbl s'. set (vp' := set_affiliated _ _) in s'.
    assert (head (blocks vp') = head (blocks vp)) as Hh by (cbn; by destruct (blocks vp)).
    assert (∀ x, backing s vp = Some x → backing s vp' = Some x) as Hbk.
    { intros x. unfold backing. by rewrite Hh. }
    assert (backing s vp' = backing s vp) as Hbk' by (unfold backing; by rewrite Hh).
    apply (attach_ok nswap T s s' pid va t v vp vp' K) with (sl := sl); try done.
    - cbn. by rewrite lookup_insert_eq.
    - intros w ?. by apply lookup_insert_ne.
    - by left.
    - by left.
    - intros Hs. cbn in Hs. rewrite Hs in Hbl. destruct Hbl as [_ ->].
      destruct (file_key _ _ _ _ (cr_maps _ _ _ _ _ K) Hl Hv Hs) as (b & Hb & Hor). exists b.
      cbn. by rewrite app_nil_r Hb.
    - cbn. destruct (isSwap vp); [destruct Hbl as (b & -> & ->); by exists b|by destruct Hbl as [-> _]].
    - split; [done|done|]. intros pp Hp Hz. by destruct (Hnn pp Hp).
    - destruct D as [D1 D2 D3]. split; rewrite Hbk'; done.
    - rewrite -Hsl. unfold slot_of, content. by rewrite Hh Hbk'. }
  assert (∀ bl fs, (if isSwap vp then ∃ b, next_free_swap s = b :: fs ∧ bl = [b]
                    else next_free_swap s = fs ∧ bl = []) →
    wp (t ← process_data pid;
        modify_vpage v (λ v, set_affiliated (affiliated v ++ [VA_to_PTE va t]) v) ;;
        updatePTEs v) Q (with_vpages (<[v := set_blocks (blocks vp ++ bl) vp]> (vpages s))
                (with_next_free_swap fs (with_translateVA (remap pid va v T) s)))) as Hgo2.
  { intros bl fs Hbl. apply pg_bind. apply pg_bind, pg_gets. cbn. apply (pg_deref _ t); [done|].
    eapply pg_bind, pg_modify_vpage; [cbn; by rewrite lookup_insert_eq|]. cbn. rewrite insert_insert_eq.
    by apply (Hgo bl fs). }
  destruct (isSwap vp) eqn:Hs; cbn [when].
  - destruct (next_free_swap s) as [|b fs] eqn:Hf; [cbn in Hen; lia|].
    apply pg_bind. apply pg_bind, pg_gets. cbn. rewrite Hf. apply pg_bind, pg_modify, pg_ret.
    eapply pg_modify_vpage; [exact Hv|]. apply (Hgo2 [b] fs). by exists b.
  - apply pg_ret. specialize (Hgo2 [] (next_free_swap s) (conj eq_refl eq_refl)).
    rewrite app_nil_r in Hgo2.
    assert (set_blocks (blocks vp) vp = vp) as E by by destruct vp. rewrite E insert_id // in Hgo2.
Qed.

Lemma copy_mapping_ok t va v l s :
  process_table s1 !! child = Some t → copying ((va, v) :: l) s →
  wp (copy_mapping child va v) (λ _, copying l) s.
Proof.
  intros Ht Hcg. pose proof Hcg as [K _ _ Hr Hp Hview _ _ Hen [Hnd Hin]].
  pose proof Hr as [= G1 G2 G3 G4 G5]. rewrite -G1 in Ht.
  assert (page_at (translateVA s) parent va = Some v) as Hva by (rewrite Hp; apply Hin; by left).
  assert (live (translateVA s) s v) as Hl by (left; by eexists _, _).
  destruct (ma_vpage _ _ (cr_maps _ _ _ _ _ K) v Hl) as [vp Hv].
  pose proof (al_phys _ _ _ (cr_alloc _ _ _ _ _ K) v vp Hl Hv ltac:(set_solver)) as [P1 P2 P3].
  destruct (mapped_slot s parent va v vp K Hva Hv) as (sl & Hsl & Hslv).
  pose proof Hslv as Hsl0. rewrite Hview decide_False // in Hsl0.
  assert (view s child va = None) as Hno.
  { rewrite Hview decide_True // decide_True //. by left. }
  apply (view_none_core nswap s child va K) in Hno.
  assert (valid_va va) as Hvalid by by eapply (ma_va _ _ (cr_maps _ _ _ _ _ K)).
  change (cost s0 parent ((va, v) :: l)) with (cost_at s0 parent va + cost s0 parent l)%nat in Hen.
  unfold cost_at in Hen. rewrite Hsl0 in Hen. unfold copy_mapping. eapply pg_bind, pg_get_vpage; [done|].
  destruct (physicalPage vp) as [pp|] eqn:Hpp.
  - assert (resident vp = true) as Hres by by rewrite P1. rewrite Hres.
    apply pg_bind, pg_bind, (pg_deref _ pp); [done|]. apply pg_ret. destruct (Z.eqb_spec (PPN pp) 0) as [Hz|Hnz].
    + destruct (P3 pp eq_refl Hz) as (Hs & _). rewrite (slot_cost _ _ _ Hsl) Hs in Hen.
      destruct (next_free_swap s) as [|b fs] eqn:Hf; [cbn in Hen; lia|].
      apply pg_bind, (make_swap_ok nswap child t va b fs); [done..|]. intros w s' A. apply pg_ret.
      eapply copying_step; [exact Hcg|exact A|]. rewrite Hsl0 -Hsl. unfold slot_of, content.
      by rewrite Hs Hpp Hz (da_null _ _ _ (cr_data _ _ _ _ _ K)).
    + apply (share_ok child t va v vp sl); [done..| |done|lia|].
      * rewrite Hpp. by intros ? [= <-].
      * intros s' A. by eapply copying_step.
  - assert (resident vp = false) as Hres by by rewrite P1. rewrite Hres. apply pg_bind, pg_ret.
    apply (share_ok child t va v vp sl); [done..| |done|lia|].
    + by rewrite Hpp.
    + intros s' A. by eapply copying_step.
Qed.

End copy.

(** ** [vm_create] *)

(** From [s] to [s'], process [child] has been created. *)
Record created (parent child : pid_t) (s s' : pager) : Prop := {
  cd_consistent : consistent s';
  cd_child : is_Some (process_table s' !! child);
  cd_others pid : pid ≠ child → process_table s' !! pid = process_table s !! pid;
  cd_next : next_free_VA s' = <[child := default VM_ARENA_BASEADDR (next_free_VA s !! parent)]> (next_free_VA s);
  cd_view pid va : view s' pid va = if decide (pid = child) then view s parent va else view s pid va;
  cd_data n b : file_data s' n b = file_data s n b;
  cd_swap : length (next_free_swap s) =
    (length (next_free_swap s') + cost s parent (map_to_list (default ∅ (translateVA s !! parent))))%nat;
  cd_running : match process_table s !! parent with
    | Some _ => current_pid s' = current_pid s ∧ page_table_base_register s' = page_table_base_register s
    | None => current_pid s' = child ∧ page_table_base_register s' = process_table s' !! child
    end }.

Lemma cost_perm s pid l l' : l ≡ₚ l' → cost s pid l = cost s pid l'.
Proof. unfold cost. induction 1; cbn; lia. Qed.

(** Another process runs. *)
Lemma run_consistent pid t s :
  consistent s → consistent (with_page_table_base_register (Some t) (with_current_pid pid s)).
Proof.
  intros C. apply (core_consistent nswap); [|by apply (arena_frame _ s); [apply C|..]|apply C|apply C].
  pose proof (consistent_core nswap s C). by apply (core_frame nswap _ _ _ s).
Qed.

(** The end: the first process runs, and the self-check passes. *)
Lemma create_end parent child t (Q : Z → pager → Prop) s1 :
  consistent s1 → process_table s1 !! child = Some t →
  (∀ s', consistent s' → same (match process_table s1 !! parent with
       | Some _ => s1
       | None => with_page_table_base_register (Some t) (with_current_pid child s1)
       end) s' → Q 0 s') →
  wp (P ← gets process_table;
      when (bool_decide (P !! parent = None))
        (modify (with_current_pid child) ;;
         t ← process_data child;
         modify (with_page_table_base_register (Some t))) ;;
      final_check ;;
      mret 0) Q s1.
Proof.
  intros C Ht HQ. apply pg_bind, pg_gets, pg_bind, pg_when; intros Hp.
  - apply bool_decide_eq_true in Hp. rewrite Hp in HQ. apply pg_bind, pg_modify, pg_bind.
    apply pg_bind, pg_gets. cbn. apply (pg_deref _ t); [done|]. apply pg_modify.
    pose proof (run_consistent child t s1 C) as C2.
    apply pg_bind, (pg_final_check nswap); [done|]. by apply pg_ret, HQ.
  - apply bool_decide_eq_false in Hp. apply not_eq_None_Some in Hp as [x Hx]. rewrite Hx in HQ.
    apply pg_bind, (pg_final_check nswap); [done|]. by apply pg_ret, HQ.
Qed.

Lemma created_end parent child s s1 s2 t :
  consistent s2 → process_table s1 !! child = Some t →
  (∀ pid, pid ≠ child → process_table s1 !! pid = process_table s !! pid) →
  (process_table s !! child = None) →
  next_free_VA s1 = <[child := default VM_ARENA_BASEADDR (next_free_VA s !! parent)]> (next_free_VA s) →
  (∀ pid va, view s1 pid va = if decide (pid = child) then view s parent va else view s pid va) →
  (∀ n b, file_data s1 n b = file_data s n b) →
  length (next_free_swap s) =
    (length (next_free_swap s1) + cost s parent (map_to_list (default ∅ (translateVA s !! parent))))%nat →
  current_pid s1 = current_pid s → page_table_base_register s1 = page_table_base_register s →
  parent ≠ child →
  same (match process_table s1 !! parent with
        | Some _ => s1
        | None => with_page_table_base_register (Some t) (with_current_pid child s1)
        end) s2 → created parent child s s2.
Proof.
  intros C2 Ht Ho Hnone Hn Hv Hd Hsw Hcur Hptbr Hne Hsame. rewrite Ho // in Hsame.
  set (sm := match process_table s !! parent with Some _ => _ | None => _ end) in Hsame.
  assert (process_table sm = process_table s1 ∧ next_free_VA sm = next_free_VA s1 ∧
          next_free_swap sm = next_free_swap s1 ∧ view sm = view s1 ∧ file_data sm = file_data s1)
    as (F1 & F2 & F3 & F4 & F5) by (unfold sm; by destruct (process_table s !! parent)).
  pose proof (sm_registers _ _ Hsame) as [= E1 E2 E3 E4 E5 E6]. split.
  - done.
  - rewrite E1 F1 Ht. by eexists.
  - intros pid ?. by rewrite E1 F1 Ho.
  - by rewrite E2 F2.
  - intros pid va. by rewrite (sm_view _ _ Hsame) F4.
  - intros n b. by rewrite (sm_data _ _ Hsame) F5.
  - by rewrite E3 F3.
  - rewrite E5 E6 E1 F1. unfold sm. destruct (process_table s !! parent); cbn; [by split|by rewrite Ht].
Qed.

(** The loop starts, and what it leaves is consistent. *)
Lemma copying_start parent child s m l :
  consistent s → process_table s !! child = None → translateVA s !! parent = Some m → l ≡ₚ map_to_list m →
  (cost s parent l ≤ length (next_free_swap s))%nat →
  ∀ a, let s1 := with_process child (next_table s) a s in copying s s1 parent child m l s1.
Proof.
  intros C Hnew Hm Hl Hen a s1. pose proof (fresh_consistent s child C Hnew) as C1.
  assert (∀ va v, (va, v) ∈ l ↔ m !! va = Some v) as Hin.
  { intros va v. by rewrite Hl elem_of_map_to_list. }
  split; try done.
  - apply (core_frame nswap _ _ _ _ s1 (consistent_core nswap _ C1)). done.
  - apply C1.
  - apply C1.
  - intros va. by apply page_at_lookup.
  - intros pid va. change (view s1 pid va) with (view s pid va). destruct (decide (pid = child)) as [->|]; [|done].
    assert (view s child va = None) as -> by (apply (view_none nswap s child va C), (fresh_unmapped s child C Hnew)).
    destruct (decide _) as [|Hno]; [done|]. symmetry. apply (view_none nswap s parent va C).
    rewrite (page_at_lookup _ _ m) //. apply eq_None_not_Some. intros [v Hv]. apply Hno, list_elem_of_fmap.
    exists (va, v). split; [done|]. by apply Hin.
  - by rewrite (cost_perm s parent l (map_to_list m) Hl).
  - split; [|by intros va v ?%Hin]. rewrite Hl. apply NoDup_fst_map_to_list.
Qed.

Lemma copying_done parent child s m a s2 :
  consistent s → process_table s !! child = None → translateVA s !! parent = Some m → parent ≠ child →
  next_free_VA s !! parent = Some a →
  copying s (with_process child (next_table s) a s) parent child m [] s2 → consistent s2.
Proof.
  intros C Hnew Hm Hne Ha [K U HK Hr Hp Hview Hd Hsw Hen _]. pose proof Hr as [= E1 E2 E3 E4 E5].
  apply (core_consistent nswap); [done| |done|done].
  assert (∀ pid va, is_Some (page_at (translateVA s2) pid va) ↔
            is_Some (page_at (translateVA s) (if decide (pid = child) then parent else pid) va)) as Hpg.
  { intros pid va. rewrite -!not_eq_None_Some -(view_none_core nswap s2 pid va K) -(view_none nswap s _ va C) Hview.
    destruct (decide (pid = child)); [|done].
    destruct (decide (va ∈ [].*1)) as [H|_]; [by apply elem_of_nil in H|done]. }
  destruct (co_arena _ _ C) as [N1 N2 N3]. split; rewrite ?E1 ?E2; cbn.
  - intros pid. by rewrite !lookup_insert_is_Some' N1.
  - intros pid a'. rewrite lookup_insert_Some. intros [[<- <-]|[_ ?]]; by eapply N2.
  - intros pid a' va. rewrite lookup_insert_Some Hpg. intros [[<- <-]|[? ?]].
    + rewrite decide_True //. by apply N3.
    + rewrite decide_False //. by apply N3.
Qed.

(** A process without pages has used no address. *)
Lemma unmapped_parent parent s :
  consistent s → translateVA s !! parent = None →
  default VM_ARENA_BASEADDR (next_free_VA s !! parent) = VM_ARENA_BASEADDR.
Proof.
  intros C Hm. destruct (next_free_VA s !! parent) as [a|] eqn:Ha; [|done]. cbn.
  destruct (ar_range _ _ (co_arena _ _ C) parent a Ha) as (n & Hn & ->).
  destruct (decide (n = 0)) as [->|Hne]; [done|]. exfalso.
  destruct (proj2 (ar_pages _ _ (co_arena _ _ C) parent _ VM_ARENA_BASEADDR Ha)) as [v Hv].
  - split; [exists 0; split; [done|lia]|]. unfold VM_PAGESIZE. lia.
  - unfold page_at in Hv. by rewrite Hm in Hv.
Qed.

(** [vm_create] *)
Lemma vm_create_ok parent child (Q : Z → pager → Prop) s :
  consistent s → process_table s !! child = None → parent ≠ child →
  (∀ s', created parent child s s' → Q 0 s') →
  (∀ s', consistent s' → same s s' →
     (length (next_free_swap s) < cost s parent (map_to_list (default ∅ (translateVA s !! parent))))%nat →
     Q (-1) s') →
  wp (vm_create parent child) Q s.
Proof.
  intros C Hnew Hne HQ1 HQ2. pose proof (fresh_consistent s child C Hnew) as C1.
  set (t := next_table s) in *. set (s1 := with_process child t VM_ARENA_BASEADDR s) in *.
  apply pg_bind. apply pg_bind, pg_gets, pg_bind, pg_modify, pg_ret. fold t.
  apply pg_bind. apply pg_bind, pg_gets. cbn. rewrite Hnew. apply pg_modify, pg_bind, pg_modify.
  change (with_next_free_VA _ _) with s1. apply pg_bind, pg_gets.
  change (translateVA s1) with (translateVA s). apply pg_bind.
  assert (process_table s1 !! child = Some t) as Ht by (cbn; by rewrite lookup_insert_eq).
  assert (∀ pid, pid ≠ child → process_table s1 !! pid = process_table s !! pid) as Ho.
  { intros pid ?. cbn. by rewrite lookup_insert_ne. }
  destruct (translateVA s !! parent) as [m|] eqn:Hm.
  - assert (is_Some (next_free_VA s !! parent)) as [a Ha].
    { apply (ar_next _ _ (co_arena _ _ C)), (co_known _ _ C). by eexists. }
    apply pg_bind, (count_swap_ok parent); [by apply (consistent_core nswap s1)| |].
    { intros va v Hin. rewrite traversal_perm elem_of_map_to_list in Hin.
      change (translateVA s1) with (translateVA s). by rewrite (page_at_lookup _ _ m). }
    change (cost s1) with (cost s). rewrite (cost_perm s parent _ _ (traversal_perm m)).
    apply pg_bind, pg_gets. change (next_free_swap s1) with (next_free_swap s).
    destruct (Z.ltb_spec (Z.of_nat (length (next_free_swap s))) (Z.of_nat (cost s parent (map_to_list m)))) as [Hlt|Hge].
    + apply pg_assoc, pg_bind, (fresh_undone s child C Hnew). intros s' C' Hs'. apply pg_ret. cbn [negb].
      apply pg_ret, HQ2; [done..|]. cbn. lia.
    + apply pg_bind. apply pg_bind, pg_gets. cbn. rewrite lookup_insert_ne // Ha. apply pg_ret, pg_bind, pg_modify.
      cbn. rewrite insert_insert_eq. change (with_next_free_VA _ _) with (with_process child t a s).
      apply pg_bind. eapply pg_mono.
      { apply (pg_for_each _ _ (copying s (with_process child t a s) parent child m)).
        - apply copying_start; [done..|by rewrite traversal_perm|].
          rewrite (cost_perm s parent _ _ (traversal_perm m)). lia.
        - intros [va v] l s2 Hcg. by apply (copy_mapping_ok _ _ parent child m Hne t). }
      intros [] s2 Hcg. apply pg_ret. cbn [negb].
      pose proof (copying_done parent child s m a s2 C Hnew Hm Hne Ha Hcg) as C2.
      destruct Hcg as [K U HK Hr Hp Hview Hd Hsw Hen _]. pose proof Hr as [= E1 E2 E3 E4 E5].
      apply (create_end parent child t Q s2 C2); [by rewrite E1|]. intros s3 C3 Hs3. apply HQ1.
      apply (created_end parent child s s2 s3 t); try done.
      * by rewrite E1.
      * intros pid ?. rewrite E1. by apply Ho.
      * by rewrite E2 /= Ha.
      * rewrite Hm. cbn in Hsw |- *. lia.
  - apply pg_ret. cbn [negb]. apply (create_end parent child t Q s1 C1 Ht). intros s2 C2 Hs2.
    apply HQ1. eapply created_end; try done.
    + cbn. by rewrite (unmapped_parent parent s C Hm).
    + intros pid va. change (view s1 pid va) with (view s pid va). destruct (decide _) as [->|]; [|done].
      rewrite !(proj2 (view_none nswap s _ va C)) //; [|by apply fresh_unmapped].
      unfold page_at. by rewrite Hm.
    + rewrite Hm. cbn [default]. rewrite map_to_list_empty. cbn. lia.
Qed.

End create.
