(* ===== verification/PagerDestroy.v ===== *)
(** * [vm_destroy]

    A process loses its addresses one by one; a private page nobody has any more
    gives back its physical page and its swap block; then the process goes. *)

From S2P Require Import Prelude PagerTypes Pager PagerInv PagerPtes PagerFrame PagerEvict PagerPlace.
From S2P Require Import PagerCheck PagerView PagerWork PagerReturn PagerFault PagerCow PagerVmFault PagerAttach PagerCreate.

Section destroy.
Context `{F : Files} `{Tr : Traversal} `{TL : !TraversalLaws} (nswap : Z) `{FL : !FilesLaws nswap}.
Abbreviation core := (core nswap).
Abbreviation consistent := (consistent nswap).

(** ** An address loses its page *)

(** The page without its [i]-th entry. *)
Definition released (i : nat) (vp : VirtualPage) : VirtualPage :=
  set_affiliated (delete i (affiliated vp))
    (if isSwap vp then set_blocks (removelast (blocks vp)) vp else vp).

Lemma released_swap i vp : isSwap (released i vp) = isSwap vp.
Proof. unfold released. by destruct (isSwap vp) eqn:H; rewrite /= H. Qed.
Lemma released_private i vp : isSwap vp = true →
  released i vp = set_affiliated (delete i (affiliated vp)) (set_blocks (removelast (blocks vp)) vp).
Proof. unfold released. by intros ->. Qed.
Lemma released_file i vp : isSwap vp = false → released i vp = set_affiliated (delete i (affiliated vp)) vp.
Proof. unfold released. by intros ->. Qed.

Section detach.
Context (T T' : gmap pid_t (gmap Z vpage_id)) (s s' : pager) (pid va : Z) (t : table_id).
Context (v : vpage_id) (vp vp' : VirtualPage) (i : nat).
Let q := VA_to_PTE va t.
Context (K : core T ∅ ∅ s) (Ht : process_table s !! pid = Some t) (Hva : page_at T pid va = Some v).
Context (HT' : ∀ pid' va',
  page_at T' pid' va' = if decide ((pid', va') = (pid, va)) then None else page_at T pid' va').
Context (Hv : vpages s !! v = Some vp) (Hi : affiliated vp !! i = Some q).

(** What does not change. *)
Definition background (s : pager) :=
  (process_table s, filename_block_to_vpage s, files s, vm_physmem s, mem_pages_cap s, next_vpage s, next_table s).
Context (Hbg : background s' = background s).
Context (Htb : ∀ t, is_Some (tables s' !! t) ↔ is_Some (tables s !! t)).
Context (Hpte : ∀ p, p ≠ q → pte_at p s' = pte_at p s).
Context (Hw : ∀ w, w ≠ v → vpages s' !! w = vpages s !! w) (Hv' : vpages s' !! v = Some vp').
Context (Hrel : live T' s' v → vp' = released i vp).
Context (Hswap : next_free_swap s' =
  next_free_swap s ++ if isSwap vp then match last (blocks vp) with Some b => [b] | None => [] end else []).

Lemma detach_live_v : live T s v.
Proof. left. by exists pid, va. Qed.

Lemma detach_mapped w : mapped T' w → mapped T w.
Proof.
  intros (pid' & va' & H). rewrite HT' in H. destruct (decide _); [done|]. by exists pid', va'.
Qed.

Lemma detach_live w : live T' s' w → live T s w.
Proof.
  pose proof Hbg as [= _ Ec _ _ _ _ _]. intros [H|H]; [left; by apply detach_mapped|right; by rewrite -Ec].
Qed.

Lemma detach_live_other w : w ≠ v → live T' s' w ↔ live T s w.
Proof.
  pose proof Hbg as [= _ Ec _ _ _ _ _]. intros Hne. split; [apply detach_live|].
  intros [(pid' & va' & H)|H]; [left|right; by rewrite Ec]. exists pid', va'. rewrite HT' decide_False //.
  intros [= -> ->]. congruence.
Qed.

Lemma detach_aff : NoDup (affiliated vp) ∧ (∀ p, p ∈ delete i (affiliated vp) ↔ p ∈ affiliated vp ∧ p ≠ q) ∧
  ∀ p, p ∈ delete i (affiliated vp) ↔
    ∃ pid va t, process_table s !! pid = Some t ∧ page_at T' pid va = Some v ∧ p = VA_to_PTE va t.
Proof.
  pose proof (cr_maps _ _ _ _ _ K) as M. destruct (ma_aff _ _ M v vp detach_live_v Hv) as [Hnd Hiff].
  assert (∀ p, p ∈ delete i (affiliated vp) ↔ p ∈ affiliated vp ∧ p ≠ q) as Hdel.
  { intros p. by apply elem_of_delete. }
  split; [done|]. split; [done|]. intros p. rewrite Hdel Hiff. split.
  - intros ((pid' & va' & t' & Ht' & Hp & ->) & Hne). exists pid', va', t'. rewrite HT' decide_False //.
    intros [= -> ->]. apply Hne. unfold q. congruence.
  - intros (pid' & va' & t' & Ht' & Hp & ->). rewrite HT' in Hp. destruct (decide _) as [|Hne]; [done|].
    split; [by exists pid', va', t'|]. intros E. apply Hne.
    apply VA_to_PTE_inj in E as [-> ->]; [|by eapply ma_va..]. by rewrite (ma_inj _ _ M _ _ _ Ht Ht').
Qed.

(** The page has other addresses when it has other entries. *)
Lemma detach_still : delete i (affiliated vp) ≠ [] → mapped T' v.
Proof.
  destruct detach_aff as (_ & _ & Hiff). destruct (delete i (affiliated vp)) as [|p l]; [done|]. intros _.
  destruct (proj1 (Hiff p) ltac:(set_solver)) as (pid' & va' & t' & _ & ? & _). by exists pid', va'.
Qed.

Lemma detach_gone : delete i (affiliated vp) = [] → ¬ mapped T' v.
Proof.
  destruct detach_aff as (_ & _ & Hiff). intros E (pid' & va' & Hp).
  destruct (ma_process _ _ (cr_maps _ _ _ _ _ K) pid' va' v) as [t' Ht'].
  { rewrite HT' in Hp. by destruct (decide _). }
  assert (VA_to_PTE va' t' ∈ delete i (affiliated vp)) as Hin by (apply Hiff; by exists pid', va', t').
  rewrite E in Hin. by apply elem_of_nil in Hin.
Qed.

Lemma detach_uncached : isSwap vp = true → ¬ cached (filename_block_to_vpage s) v.
Proof.
  intros Hs (n & b & Hc). destruct (ma_cached _ _ (cr_maps _ _ _ _ _ K) _ _ _ Hc) as (? & ? & ? & _). congruence.
Qed.

(** A private page that stays shares its data. *)
Lemma detach_shared : isSwap vp = true → live T' s' v →
  delete i (affiliated vp) ≠ [] ∧ head (removelast (blocks vp)) = head (blocks vp) ∧ removelast (blocks vp) ≠ [].
Proof.
  intros Hs Hl. pose proof Hbg as [= _ Ec _ _ _ _ _].
  assert (delete i (affiliated vp) ≠ []) as Hne.
  { intros E. destruct Hl as [Hm|Hc]; [by apply detach_gone|]. rewrite Ec in Hc. by apply detach_uncached. }
  split; [done|]. pose proof (sw_length _ _ _ (cr_swap _ _ _ _ _ K) v vp detach_live_v Hv Hs) as Hlen.
  assert (length (delete i (affiliated vp)) ≠ 0)%nat as Hn0 by (by destruct (delete i (affiliated vp))).
  rewrite length_delete in Hn0; [|by eexists]. destruct (blocks vp) as [|b1 [|b2 bl]]; cbn in *; [lia|lia|done].
Qed.

Lemma detach_content : live T' s' v → content s' vp' = content s vp ∧ backing s' vp' = backing s vp ∧
  isSwap vp' = isSwap vp ∧ filename vp' = filename vp ∧ head (blocks vp') = head (blocks vp) ∧
  physicalPage vp' = physicalPage vp ∧ resident vp' = resident vp.
Proof.
  intros Hl. rewrite (Hrel Hl). pose proof Hbg as [= _ _ Ef Em _ _ _].
  assert (head (blocks (released i vp)) = head (blocks vp)) as Hh.
  { unfold released. destruct (sumbool_of_bool (isSwap vp)) as [Hs|Hs]; rewrite Hs; [by apply detach_shared|done]. }
  assert (isSwap (released i vp) = isSwap vp ∧ filename (released i vp) = filename vp ∧
          physicalPage (released i vp) = physicalPage vp ∧ resident (released i vp) = resident vp)
    as (E1 & E2 & E3 & E4)
    by (unfold released; destruct (sumbool_of_bool (isSwap vp)) as [Hs|Hs]; by rewrite !Hs /=).
  unfold content, backing, file_of. rewrite Hh E1 E2 E3 Ef Em. by split_and!.
Qed.

Lemma detach_lookup w wp : live T' s' w → vpages s' !! w = Some wp →
  w = v ∧ wp = released i vp ∨ w ≠ v ∧ live T s w ∧ vpages s !! w = Some wp.
Proof.
  intros Hl Hwp. destruct (decide (w = v)) as [->|Hne].
  - left. split; [done|]. rewrite -(Hrel Hl). congruence.
  - right. split; [done|]. split; [by apply detach_live|]. by rewrite -Hw.
Qed.

Lemma detach_maps : maps_ok T' s'.
Proof.
  pose proof Hbg as [= E1 E2 E3 _ _ E4 E5]. pose proof (cr_maps _ _ _ _ _ K) as M.
  assert (∀ w, is_Some (vpages s' !! w) ↔ is_Some (vpages s !! w)) as Hdom.
  { intros w. destruct (decide (w = v)) as [->|]; [rewrite Hv Hv'; split; by eexists|by rewrite Hw]. }
  split; rewrite ?E1 ?E2 ?E3 ?E4 ?E5; try by apply M.
  - intros pid' t' H. apply Htb. by eapply ma_table.
  - intros pid' va' w H. rewrite HT' in H. destruct (decide _); [done|]. by eapply ma_process.
  - intros pid' va' w H. rewrite HT' in H. destruct (decide _); [done|]. by eapply ma_va.
  - intros w Hl%detach_live. apply Hdom. by eapply ma_vpage.
  - intros w wp Hl Hwp. destruct (detach_lookup w wp Hl Hwp) as [[-> ->]|(Hne & Hl0 & Hwp0)].
    + destruct detach_aff as (Hnd & _ & Hiff). change (affiliated (released i vp)) with (delete i (affiliated vp)).
      split; [|done]. apply (sublist_NoDup _ _ Hnd), sublist_delete.
    + destruct (ma_aff _ _ M w wp Hl0 Hwp0) as [? Hiff]. split; [done|]. intros p. rewrite Hiff.
      split; intros (pid' & va' & t' & Ht' & Hp & ->); exists pid', va', t'; (split; [done|]; split; [|done]).
      * rewrite HT' decide_False //. intros [= -> ->]. congruence.
      * rewrite HT' in Hp. by destruct (decide _).
  - intros n b w Hc. destruct (ma_cached _ _ M n b w Hc) as (wp & Hwp & Hs & Hfn & Hb).
    destruct (decide (w = v)) as [->|Hne]; [|exists wp; by rewrite Hw].
    assert (wp = vp) as -> by congruence. exists vp'. split; [done|].
    rewrite Hrel; [|right; exists n, b; by rewrite E2]. by rewrite released_file.
  - intros w wp Hm Hwp Hs. destruct (detach_lookup w wp) as [[-> ->]|(Hne & Hl0 & Hwp0)]; [by left|done| |].
    + rewrite released_swap in Hs. rewrite released_file //.
      apply (ma_file _ _ M v vp); [by apply detach_mapped|done|done].
    + apply (ma_file _ _ M w wp); [by apply detach_mapped|done|done].
  - intros w H%Hdom. by apply (ma_next_vpage _ _ M).
  - intros t' H%Htb. by apply (ma_next_table _ _ M).
Qed.

Lemma detach_blocks : isSwap vp = true → ∃ b, blocks vp = removelast (blocks vp) ++ [b] ∧
  next_free_swap s' = next_free_swap s ++ [b].
Proof.
  intros Hs. pose proof Hswap as E. rewrite Hs in E.
  destruct (core_live_block nswap _ _ _ s v vp K detach_live_v Hv) as [b0 Hb0].
  destruct (last (blocks vp)) as [b|] eqn:Hb; [|apply last_None in Hb; by rewrite Hb in Hb0].
  exists b. split; [|done]. apply last_Some in Hb as [bl Hbl]. by rewrite Hbl removelast_last.
Qed.

Lemma detach_swap : swap_ok nswap T' s'.
Proof.
  pose proof (cr_swap _ _ _ _ _ K) as S. pose proof detach_live_v as Hlv.
  assert (∀ w wp, live T' s' w → vpages s' !! w = Some wp → isSwap wp = true →
    ∃ wp0, live T s w ∧ vpages s !! w = Some wp0 ∧ isSwap wp0 = true ∧ ∀ b, b ∈ blocks wp → b ∈ blocks wp0) as Hold.
  { intros w wp Hl Hwp Hs. destruct (detach_lookup w wp Hl Hwp) as [[-> ->]|(Hne & Hl0 & Hwp0)]; [|by exists wp].
    exists vp. pose proof Hs as Hs'. rewrite released_swap in Hs'. rewrite released_private //.
    split; [done|]. split; [done|]. split; [done|]. destruct (detach_blocks Hs') as (b & Eb & _).
    intros b' Hb'. rewrite Eb. set_solver. }
  assert (∀ w wp b, live T' s' w → vpages s' !! w = Some wp → isSwap wp = true → b ∈ blocks wp →
            b ∉ next_free_swap s') as Hfree.
  { intros w wp b Hl Hwp Hs Hb. destruct (Hold w wp Hl Hwp Hs) as (wp0 & Hl0 & Hwp0 & Hs0 & Hin).
    destruct (sw_used _ _ _ S w wp0 b Hl0 Hwp0 Hs0 (Hin b Hb)) as [Hf _].
    destruct (sumbool_of_bool (isSwap vp)) as [Hsv|Hsv]; [|by rewrite Hswap Hsv app_nil_r]. destruct (detach_blocks Hsv) as (b' & Eb & ->).
    apply not_elem_of_app. split; [done|]. intros ->%list_elem_of_singleton.
    assert (w = v) as ->. { apply (sw_disjoint _ _ _ S w v wp0 vp b'); auto. rewrite Eb. set_solver. }
    destruct (detach_lookup v wp Hl Hwp) as [[_ ->]|(? & _)]; [|done]. rewrite released_private // in Hb.
    cbn in Hb. pose proof (sw_nodup _ _ _ S v vp Hlv Hv Hsv) as Hnd. rewrite Eb in Hnd.
    apply NoDup_app in Hnd as (_ & Hd & _). apply (Hd b' Hb). set_solver. }
  split.
  - intros w wp Hl Hwp Hs. destruct (detach_lookup w wp Hl Hwp) as [[-> ->]|(Hne & Hl0 & Hwp0)]; [|by eapply sw_length].
    pose proof Hs as Hs'. rewrite released_swap in Hs'. rewrite released_private //. cbn.
    rewrite length_delete; [|by eexists]. pose proof (sw_length _ _ _ S v vp Hlv Hv Hs') as Hlen.
    destruct (detach_blocks Hs') as (b & Eb & _). rewrite Eb length_app in Hlen. cbn in Hlen. lia.
  - intros w wp Hl Hwp Hs. destruct (detach_lookup w wp Hl Hwp) as [[-> ->]|(Hne & Hl0 & Hwp0)]; [|by eapply sw_nodup].
    pose proof Hs as Hs'. rewrite released_swap in Hs'. rewrite released_private //. cbn.
    pose proof (sw_nodup _ _ _ S v vp Hlv Hv Hs') as Hnd. destruct (detach_blocks Hs') as (b & Eb & _).
    rewrite Eb in Hnd. by apply NoDup_app in Hnd as (? & _).
  - intros w x wp xp b Hl Hl' Hwp Hxp Hs Hs' Hb Hb'.
    destruct (Hold w wp Hl Hwp Hs) as (wp0 & ? & ? & ? & Hin), (Hold x xp Hl' Hxp Hs') as (xp0 & ? & ? & ? & Hin').
    apply (sw_disjoint _ _ _ S w x wp0 xp0 b); auto.
  - intros w wp b Hl Hwp Hs Hb. split; [by apply (Hfree w wp)|].
    destruct (Hold w wp Hl Hwp Hs) as (wp0 & ? & ? & ? & Hin). by apply (sw_used _ _ _ S w wp0 b); auto.
  - pose proof (sw_free _ _ _ S) as Hnd. destruct (sumbool_of_bool (isSwap vp)) as [Hsv|Hsv]; [|by rewrite Hswap Hsv app_nil_r].
    destruct (detach_blocks Hsv) as (b & Eb & ->). apply NoDup_app. split; [done|]. split; [|apply NoDup_singleton].
    intros b' Hb' ->%list_elem_of_singleton.
    destruct (sw_used _ _ _ S v vp b Hlv Hv Hsv) as [Hf _]; [rewrite Eb; set_solver|done].
  - intros b. destruct (sumbool_of_bool (isSwap vp)) as [Hsv|Hsv]; [|rewrite Hswap Hsv app_nil_r; apply S].
    destruct (detach_blocks Hsv) as (b' & Eb & ->). intros [Hb| ->%list_elem_of_singleton]%elem_of_app; [by apply S|].
    apply (sw_used _ _ _ S v vp b' Hlv Hv Hsv). rewrite Eb. set_solver.
Qed.

(** Nothing is returned. *)
Lemma detach_alloc :
  clock_queue s' = clock_queue s → next_free_PPN s' = next_free_PPN s →
  (delete i (affiliated vp) = [] → isSwap vp = true → ∀ n, ¬ occupies vp n) → alloc_ok T' ∅ s'.
Proof.
  intros Eq Ef Hdies. pose proof Hbg as [= _ Ec _ _ Ecap _ _].
  pose proof (cr_alloc _ _ _ _ _ K) as [A1 A2 A3 A4 A5 A6 A7 A8]. pose proof detach_live_v as Hlv.
  assert (∀ n, occupies vp n → live T' s' v) as Hstill.
  { intros n Ho. destruct (delete i (affiliated vp)) as [|p l] eqn:Hd; [|left; apply detach_still; by rewrite Hd].
    destruct (sumbool_of_bool (isSwap vp)) as [Hs|Hs]; [by destruct (Hdies eq_refl Hs n)|].
    right. rewrite Ec. destruct (file_key _ _ _ _ (cr_maps _ _ _ _ _ K) Hlv Hv Hs) as (b & Hb & [Hc|Hf]);
      [by eexists _, _|]. exfalso. destruct Ho as (Hn & pp & Hp & _).
    destruct (dv_file _ _ (da_each _ _ _ (cr_data _ _ _ _ _ K) v vp Hlv Hv ltac:(set_solver)) pp Hs Hp) as [x Hx].
    unfold backing, file_of in Hx. rewrite Hb Hs /= in Hx. congruence. }
  assert (∀ w wp n, live T' s' w → vpages s' !! w = Some wp → occupies wp n →
            live T s w ∧ ∃ wp0, vpages s !! w = Some wp0 ∧ occupies wp0 n) as Hocc.
  { intros w wp n Hl Hwp Ho. split; [by apply detach_live|].
    destruct (detach_lookup w wp Hl Hwp) as [[-> ->]|(Hne & Hl0 & Hwp0)]; [|by exists wp].
    exists vp. split; [done|]. assert (vp' = released i vp) as E by by apply Hrel.
    destruct (detach_content Hl) as (_ & _ & _ & _ & _ & Ep & _). rewrite E in Ep.
    unfold occupies in *. by rewrite -Ep. }
  assert (∀ w wp n, live T s w → vpages s !! w = Some wp → occupies wp n →
            live T' s' w ∧ ∃ wp1, vpages s' !! w = Some wp1 ∧ occupies wp1 n) as Hocc'.
  { intros w wp n Hl Hwp Ho. destruct (decide (w = v)) as [->|Hne].
    - assert (wp = vp) as -> by congruence. assert (live T' s' v) as Hl' by by eapply Hstill.
      split; [done|]. exists vp'. split; [done|].
      destruct (detach_content Hl') as (_ & _ & _ & _ & _ & Ep & _). unfold occupies. by rewrite Ep.
    - split; [by apply detach_live_other|]. exists wp. by rewrite Hw. }
  split; rewrite ?Eq ?Ef ?Ecap; try done.
  - intros w. rewrite A5. split; intros (Hl & HX & wp & n & Hwp & Ho).
    + destruct (Hocc' w wp n Hl Hwp Ho) as (? & wp1 & ? & ?). split; [done|]. split; [done|]. by exists wp1, n.
    + destruct (Hocc w wp n Hl Hwp Ho) as (? & wp1 & ? & ?). split; [done|]. split; [done|]. by exists wp1, n.
  - intros w wp Hl Hwp HX. destruct (detach_lookup w wp Hl Hwp) as [[-> ->]|(Hne & Hl0 & Hwp0)].
    + destruct (A6 v vp Hlv Hv HX) as [P1 P2 P3]. assert (vp' = released i vp) as E by by apply Hrel.
      destruct (detach_content Hl) as (_ & _ & Es & _ & _ & Ep & Er). rewrite E in Es Ep Er.
      split; rewrite ?Ep ?Er ?Ef ?Ecap; [done|done|]. intros pp Hp Hz. exfalso.
      destruct (P3 pp Hp Hz) as (Hs & _ & _ & Hone). apply (proj1 (detach_shared Hs Hl)).
      apply nil_length_inv. rewrite length_delete; [lia|by eexists].
    + eapply phys_frame; [by apply (A6 w)|done..].
  - intros w x wp xp n Hin Hin' Hwp Hxp Ho Ho'. pose proof Hin as (Hl & _ & wp0 & n0 & Hwp0 & Ho0)%A5.
    pose proof Hin' as (Hl' & _ & xp0 & n1 & Hxp0 & Ho1)%A5.
    destruct (Hocc' _ _ _ Hl Hwp0 Ho0) as (Hlw & _), (Hocc' _ _ _ Hl' Hxp0 Ho1) as (Hlx & _).
    destruct (Hocc w wp n Hlw Hwp Ho) as (_ & wp1 & ? & ?), (Hocc x xp n Hlx Hxp Ho') as (_ & xp1 & ? & ?).
    by apply (A7 w x wp1 xp1 n).
Qed.

Lemma detach_core : alloc_ok T' ∅ s' → core T' {[v]} ∅ s'.
Proof.
  intros A. pose proof Hbg as [= _ _ Ef Em _ _ _].
  split; [apply detach_maps|apply detach_swap|done| |].
  - intros w wp Hl Hwp HX p Hp. destruct (detach_lookup w wp Hl Hwp) as [[-> ->]|(Hne & Hl0 & Hwp0)]; [set_solver|].
    rewrite Hpte; [by apply (cr_pte _ _ _ _ _ K w wp Hl0 Hwp0 ltac:(set_solver))|]. intros ->. apply Hne.
    apply (aff_disjoint T s w v wp vp q (cr_maps _ _ _ _ _ K)); [done|apply detach_live_v|done..|].
    by eapply list_elem_of_lookup_2.
  - destruct (cr_data _ _ _ _ _ K) as [D0 D]. split; [by rewrite Em|]. intros w wp Hl Hwp _.
    destruct (detach_lookup w wp Hl Hwp) as [[-> ->]|(Hne & Hl0 & Hwp0)].
    + destruct (D v vp detach_live_v Hv ltac:(set_solver)) as [D1 D2 D3].
      assert (vp' = released i vp) as E by by apply Hrel.
      destruct (detach_content Hl) as (_ & Eb & Es & _ & _ & Ep & _). rewrite E in Eb Es Ep.
      split; rewrite Eb ?Ep ?Es ?Em; done.
    + destruct (D w wp Hl0 Hwp0 ltac:(set_solver)) as [D1 D2 D3].
      split; unfold backing in *; rewrite ?Ef ?Em; done.
Qed.

Lemma detach_slot w wp wp' : live T' s' w → vpages s !! w = Some wp → vpages s' !! w = Some wp' →
  content s' wp' = content s wp ∧ slot_of s' wp' = slot_of s wp.
Proof.
  intros Hl Hwp Hwp'. pose proof Hbg as [= _ _ Ef Em _ _ _]. destruct (decide (w = v)) as [->|Hne].
  - assert (wp = vp) as -> by congruence. assert (wp' = vp') as -> by congruence.
    destruct (detach_content Hl) as (Ec & _ & Es & Efn & Eh & _ & _). split; [done|].
    unfold slot_of. by rewrite Es Efn Eh Ec.
  - rewrite Hw // in Hwp'. assert (wp' = wp) as -> by congruence.
    assert (content s' wp = content s wp) as E by (unfold content, backing; by rewrite Ef Em).
    split; [done|]. unfold slot_of. by rewrite E.
Qed.

(** The pages of the other processes. *)
Lemma detach_view pid' va' :
  translateVA s' = translateVA s → (∀ va', page_at T pid' va' = page_at (translateVA s) pid' va') → pid' ≠ pid →
  view s' pid' va' = view s pid' va'.
Proof.
  intros HT Hpg Hne. unfold view. rewrite HT. destruct (page_at _ pid' va') as [w|] eqn:Hp; [|done]. cbn.
  assert (live T' s' w) as Hl.
  { left. exists pid', va'. rewrite HT' decide_False; [by rewrite Hpg|congruence]. }
  destruct (ma_vpage _ _ detach_maps w Hl) as [wp' Hwp'].
  destruct (ma_vpage _ _ (cr_maps _ _ _ _ _ K) w (detach_live w Hl)) as [wp Hwp]. rewrite Hwp Hwp' /=.
  by apply (detach_slot w wp wp').
Qed.

Lemma detach_data n b : file_data s' n b = file_data s n b.
Proof.
  pose proof Hbg as [= _ Ec Ef _ _ _ _]. unfold file_data. rewrite Ec Ef.
  destruct (cached_at _ n b) as [w|] eqn:Hc; [|done]. cbn.
  assert (live T' s' w) as Hl by (right; exists n, b; by rewrite Ec).
  destruct (ma_vpage _ _ detach_maps w Hl) as [wp' Hwp'].
  destruct (ma_vpage _ _ (cr_maps _ _ _ _ _ K) w (detach_live w Hl)) as [wp Hwp]. rewrite Hwp Hwp' /=.
  by apply (detach_slot w wp wp').
Qed.

Lemma detach_unmapped T0 : page_at T0 pid va ≠ None → unmapped_ok T0 s → unmapped_ok T0 s'.
Proof.
  intros H0 U pid' t' va' e Ht' Hva' Hno He. pose proof Hbg as [= E1 _ _ _ _ _ _]. rewrite E1 in Ht'.
  apply (U pid' t' va' e Ht' Hva' Hno). rewrite -Hpte //. intros E.
  pose proof (cr_maps _ _ _ _ _ K) as M.
  apply VA_to_PTE_inj in E as [-> ->]; [|done|by eapply ma_va].
  rewrite (ma_inj _ _ M _ _ _ Ht' Ht) in Hno. done.
Qed.

End detach.
(** ** [release_mapping] *)

(** From [s] to [s'], process [pid] has lost one of its pages; [T] and [T'] are the
    addresses still to be released before and after. *)
Record detached (T' T0 : gmap pid_t (gmap Z vpage_id)) (pid : Z) (vp : VirtualPage) (s s' : pager) : Prop := {
  de_core : core T' ∅ ∅ s';
  de_trans : translateVA s' = translateVA s;
  de_registers : fixed_registers s' = fixed_registers s;
  de_view pid' va : pid' ≠ pid → view s' pid' va = view s pid' va;
  de_data n b : file_data s' n b = file_data s n b;
  de_unmapped : unmapped_ok T0 s → unmapped_ok T0 s';
  de_swap : length (next_free_swap s') = (length (next_free_swap s) + if isSwap vp then 1 else 0)%nat;
  de_kind w : isSwap <$> vpages s' !! w = isSwap <$> vpages s !! w }.

Section release.
Context (T T' T0 : gmap pid_t (gmap Z vpage_id)) (s : pager) (pid va : Z) (t : table_id).
Context (v : vpage_id) (vp : VirtualPage).
Let q := VA_to_PTE va t.
Context (K : core T ∅ ∅ s) (Hrun : running s pid t) (Hva : page_at T pid va = Some v).
Context (HT' : ∀ pid' va',
  page_at T' pid' va' = if decide ((pid', va') = (pid, va)) then None else page_at T pid' va').
Context (Hs0 : translateVA s = T0) (H0 : page_at T0 pid va = Some v).
Context (Hothers : ∀ pid' va', pid' ≠ pid → page_at T pid' va' = page_at T0 pid' va').
Context (Hsub : ∀ va', page_at T0 pid va' = None → page_at T pid va' = None).
Context (Hv : vpages s !! v = Some vp).

Lemma release_live : live T s v.
Proof. left. by exists pid, va. Qed.

Lemma release_entry : q ∈ affiliated vp.
Proof.
  apply (ma_aff _ _ (cr_maps _ _ _ _ _ K) v vp release_live Hv). exists pid, va, t.
  split; [apply Hrun|by split].
Qed.

(** The swap block is given back. *)
Definition blockless : VirtualPage := if isSwap vp then set_blocks (removelast (blocks vp)) vp else vp.
Definition freed : list Z := if isSwap vp then match last (blocks vp) with Some b => [b] | None => [] end else [].
Definition unblocked : pager :=
  with_vpages (<[v := blockless]> (vpages s)) (with_next_free_swap (next_free_swap s ++ freed) s).

Lemma blockless_fields : affiliated blockless = affiliated vp ∧ isSwap blockless = isSwap vp ∧
  physicalPage blockless = physicalPage vp ∧ resident blockless = resident vp.
Proof. unfold blockless. by destruct (isSwap vp) eqn:Hs; rewrite ?Hs. Qed.

Lemma unblock_ok (Q : unit → pager → Prop) :
  Q tt unblocked →
  wp (when (isSwap vp)
        (b ← deref (last (blocks vp));
         modify (λ s, with_next_free_swap (next_free_swap s ++ [b]) s) ;;
         modify_vpage v (λ v, set_blocks (removelast (blocks v)) v))) Q s.
Proof.
  unfold unblocked, blockless, freed. intros HQ. destruct (isSwap vp) eqn:Hs; cbn [when].
  - destruct (core_live_block nswap _ _ _ s v vp K release_live Hv) as [b0 Hb0].
    destruct (last (blocks vp)) as [b|] eqn:Hb; [|apply last_None in Hb; by rewrite Hb in Hb0].
    apply pg_bind, (pg_deref _ b); [done|]. apply pg_bind, pg_modify. by eapply pg_modify_vpage.
  - apply pg_ret. rewrite app_nil_r insert_id // in HQ. by destruct s.
Qed.

Lemma freed_length : length freed = if isSwap vp then 1%nat else 0%nat.
Proof.
  unfold freed. destruct (isSwap vp); [|done].
  destruct (core_live_block nswap _ _ _ s v vp K release_live Hv) as [b0 Hb0].
  destruct (last (blocks vp)) as [b|] eqn:Hb; [done|]. apply last_None in Hb. by rewrite Hb in Hb0.
Qed.

(** The last address of a private page in memory. *)
Definition last_one : Prop :=
  isSwap vp = true ∧ blocks blockless = [] ∧ ∃ pp, physicalPage vp = Some pp ∧ PPN pp ≠ 0.

Lemma last_one_aff i : last_one → affiliated vp !! i = Some q → delete i (affiliated vp) = [].
Proof.
  intros (Hs & Hb & _) Hi. pose proof (sw_length _ _ _ (cr_swap _ _ _ _ _ K) v vp release_live Hv Hs) as Hlen.
  unfold blockless in Hb. rewrite Hs in Hb. cbn in Hb.
  destruct (core_live_block nswap _ _ _ s v vp K release_live Hv) as [b0 Hb0].
  apply nil_length_inv. rewrite length_delete; [|by eexists]. rewrite -Hlen.
  destruct (blocks vp) as [|b1 [|b2 bl]]; [done|done|]. by cbn in Hb.
Qed.

Lemma release_returned i j pp tb :
  last_one → affiliated vp !! i = Some q → physicalPage vp = Some pp →
  clock_queue s !! j = Some v →
  let s2 := returned v blockless (PPN pp) j unblocked in
  set_for (affiliated vp) (absent blockless) s2 tb →
  detached T' T0 pid vp s
    (with_vpages (<[v := set_affiliated (delete i (affiliated vp)) (absent blockless)]> (vpages s2)) (with_tables tb s2)).
Proof.
  intros Hlast Hi Hp Hj s2 [Htb1 Htb2]. set (s' := with_vpages _ _).
  pose proof (last_one_aff i Hlast Hi) as Hnil. pose proof Hlast as (Hs & Hb & pp' & Hpp' & Hn).
  assert (pp' = pp) as -> by congruence. clear Hpp'. pose proof (ru_table _ _ _ Hrun) as Ht.
  assert (∀ w, w ≠ v → vpages s' !! w = vpages s !! w) as Hw.
  { intros w ?. cbn. by rewrite !lookup_insert_ne. }
  assert (vpages s' !! v = Some (set_affiliated (delete i (affiliated vp)) (absent blockless))) as Hv'.
  { cbn. by rewrite lookup_insert_eq. }
  assert (¬ live T' s' v) as Hdead.
  { intros [Hm|Hc]; [by eapply (detach_gone T T' s pid va t v vp i)|].
    by eapply (detach_uncached T s v vp). }
  assert (∀ p, p ≠ q → pte_at p s' = pte_at p s) as Hpte.
  { intros p Hne. change (pte_at p (with_tables tb s2) = pte_at p s). rewrite Htb1 decide_False; [done|].
    intros Hin. assert (p ∈ delete i (affiliated vp)) as Hd.
    { apply (elem_of_delete _ i q); [|done|done].
      by apply (ma_aff _ _ (cr_maps _ _ _ _ _ K) v vp release_live Hv). }
    rewrite Hnil in Hd. by apply elem_of_nil in Hd. }
  assert (alloc_ok T' ∅ s') as A'.
  { eapply (return_alloc nswap T T' ∅ v vp pp j s s'); [apply K|done..| |].
    - intros w Hne. by apply (detach_live_other T T' s s' pid va v).
    - intros x Hx. rewrite Hv' in Hx. by injection Hx as <-. }
  assert (core T' {[v]} ∅ s') as K'.
  { by eapply (detach_core T T' s s' pid va t v vp _ i). }
  split; try done.
  - destruct K' as [? ? ? P ?]. split; try done. intros w wp Hl Hwp _. apply (P w wp Hl Hwp).
    by intros ->%elem_of_singleton.
  - intros pid' va' Hne. eapply (detach_view T T' s s' pid va t v vp _ i); try done. intros va2.
    rewrite Hs0. by apply Hothers.
  - intros n b. by eapply (detach_data T T' s s' pid va t v vp _ i).
  - eapply (detach_unmapped T s s' pid va t v); try done. by rewrite H0.
  - change (next_free_swap s') with (next_free_swap s ++ freed). by rewrite length_app freed_length.
  - intros w. destruct (decide (w = v)) as [->|Hne]; [|by rewrite Hw].
    rewrite Hv' Hv /=. f_equal. apply blockless_fields.
Qed.

(** The page keeps its physical page. *)
Lemma release_kept i (Q : unit → pager → Prop) :
  ¬ last_one → affiliated vp !! i = Some q →
  (∀ s', detached T' T0 pid vp s s' → Q tt s') →
  wp (when (bool_decide (delete i (affiliated vp) ≠ [])) (updatePTEs v)) Q
     (with_vpages (<[v := released i vp]> (vpages s)) (with_next_free_swap (next_free_swap s ++ freed) s)).
Proof.
  intros Hlast Hi HQ. set (s1 := with_vpages _ _). pose proof (ru_table _ _ _ Hrun) as Ht.
  assert (vpages s1 !! v = Some (released i vp)) as Hv1 by (cbn; by rewrite lookup_insert_eq).
  assert (∀ w, w ≠ v → vpages s1 !! w = vpages s !! w) as Hw by (intros w ?; by apply lookup_insert_ne).
  assert (alloc_ok T' ∅ s1) as A1.
  { eapply (detach_alloc T T' s s1 pid va t v vp (released i vp) i); try done. intros Hnil Hs n (Hn & pp & Hp & <-).
    apply Hlast. split; [done|]. split; [|by exists pp]. unfold blockless. rewrite Hs. cbn.
    pose proof (sw_length _ _ _ (cr_swap _ _ _ _ _ K) v vp release_live Hv Hs) as Hlen.
    apply (f_equal length) in Hnil. rewrite length_delete in Hnil; [|by eexists]. cbn in Hnil.
    destruct (blocks vp) as [|b1 [|b2 bl]]; [done|done|]. cbn in Hlen. lia. }
  assert (core T' {[v]} ∅ s1) as K1 by by eapply (detach_core T T' s s1 pid va t v vp _ i).
  assert (∀ s', core T' ∅ ∅ s' → (∃ tb, s' = with_tables tb s1) → (unmapped_ok T0 s → unmapped_ok T0 s') →
            detached T' T0 pid vp s s') as Hend.
  { intros s' K' (tb & ->) HU. split; try done.
    - intros pid' va' Hne. change (view s1 pid' va' = view s pid' va').
      eapply (detach_view T T' s s1 pid va t v vp _ i); try done. intros va2. rewrite Hs0. by apply Hothers.
    - intros n b. change (file_data s1 n b = file_data s n b).
      by eapply (detach_data T T' s s1 pid va t v vp _ i).
    - cbn. by rewrite length_app freed_length.
    - intros w. cbn. destruct (decide (w = v)) as [->|Hne]; [|by rewrite lookup_insert_ne].
      by rewrite lookup_insert_eq Hv /= released_swap. }
  assert (unmapped_ok T0 s → unmapped_ok T0 s1) as U1.
  { eapply (detach_unmapped T s s1 pid va t v); try done. by rewrite H0. }
  apply pg_when; intros Haff.
  - apply bool_decide_eq_true in Haff.
    assert (mapped T' v) as Hm by by eapply (detach_still T T' s s1 pid va t v vp _ i).
    apply (updatePTEs_core nswap T' {[v]} ∅ v (released i vp) _ s1 K1 Hm Hv1). intros tb K2 Hset.
    apply HQ, Hend; [by rewrite difference_diag_L in K2|by exists tb|]. intros U.
    eapply unmapped_set_for; [apply K1|by left|exact Hv1|exact Hset| |by apply U1].
    intros pid' va' Hno. rewrite HT'. destruct (decide _) as [|Hne]; [done|].
    destruct (decide (pid' = pid)) as [->|]; [by apply Hsub|by rewrite Hothers].
  - apply bool_decide_eq_false, dec_stable in Haff. apply HQ, Hend; [|exists (tables s1); by destruct s|done].
    destruct K1 as [? ? ? P ?]. split; try done. intros w wp Hl Hwp _ p Hp.
    destruct (decide (w = v)) as [->|Hne]; [|apply (P w wp Hl Hwp); [set_solver|done]].
    rewrite Hv1 in Hwp. injection Hwp as <-. cbn in Hp. rewrite Haff in Hp. by apply elem_of_nil in Hp.
Qed.

(** The test of [vm_destroy]. *)
Lemma last_one_ok (Q : bool → pager → Prop) :
  (∀ b, (b = true ↔ last_one) → Q b unblocked) →
  wp (if resident blockless then
        pp ← deref (physicalPage blockless);
        mret (negb (PPN pp =? 0) && (length (blocks blockless) =? 0)%nat)
      else mret false) Q unblocked.
Proof.
  pose proof blockless_fields as (Ea & Es & Ep & Er). intros HQ. rewrite Er Ep.
  pose proof (al_phys _ _ _ (cr_alloc _ _ _ _ _ K) v vp release_live Hv ltac:(by intros ?%elem_of_empty))
    as [P1 _ _].
  destruct (physicalPage vp) as [pp|] eqn:Hp.
  - assert (resident vp = true) as -> by by rewrite P1. apply pg_bind, (pg_deref _ pp); [done|]. apply pg_ret, HQ.
    rewrite andb_true_iff negb_true_iff Z.eqb_neq Nat.eqb_eq. split.
    + intros [Hn Hl%nil_length_inv]. split; [|split; [done|by exists pp]].
      destruct (isSwap vp) eqn:Hs; [done|]. exfalso. unfold blockless in Hl. rewrite Hs in Hl.
      destruct (core_live_block nswap _ _ _ s v vp K release_live Hv) as [b0 Hb0]. by rewrite Hl in Hb0.
    + intros (_ & Hb & pp' & Hpp' & Hn). rewrite Hp in Hpp'. injection Hpp' as ->. by rewrite Hb.
  - assert (resident vp = false) as -> by by rewrite P1. apply pg_ret, HQ. split; [done|].
    intros (_ & _ & pp' & ? & _). congruence.
Qed.

(** The last address of a private page in memory. *)
Lemma release_last (Q : unit → pager → Prop) :
  last_one → (∀ s', detached T' T0 pid vp s s' → Q tt s') →
  wp (return_ppn_remove_from_clock v ;;
      ptbr ← get_ptbr;
      erase_affiliated v (VA_to_PTE va ptbr) ;;
      vp ← get_vpage v;
      when (bool_decide (affiliated vp ≠ [])) (updatePTEs v)) Q unblocked.
Proof.
  pose proof blockless_fields as (Ea & Es & Ep & Er). intros Hlast HQ.
  pose proof Hlast as (Hs & Hb & pp & Hp & Hn). pose proof (cr_maps _ _ _ _ _ K) as M.
  assert (v ∈ clock_queue s) as Hin.
  { apply (al_clock _ _ _ (cr_alloc _ _ _ _ _ K)). split; [apply release_live|]. split; [set_solver|].
    exists vp, (PPN pp). split; [done|]. split; [done|by exists pp]. }
  destruct (find_clock_ok (translateVA s) s v eq_refl) as (j & Hj & Hjx); [|done|].
  { left. exists pid, va. by rewrite Hs0. }
  assert (vpages unblocked !! v = Some blockless) as Hvu by (cbn; by rewrite lookup_insert_eq).
  apply pg_bind. eapply (pg_return v blockless pp j); [done|by rewrite Ep|done| | |].
  - rewrite Ea. apply (aff_mapped T s v vp M release_live Hv). by exists pid, va.
  - rewrite Ea. intros p. apply (aff_pte T s v vp p M release_live Hv).
  - rewrite Ea. intros tb s2 Htb. apply pg_bind. apply pg_bind, pg_gets. cbn. rewrite (ru_ptbr _ _ _ Hrun).
    apply (pg_deref _ t); [done|]. apply pg_bind.
    assert (vpages s2 !! v = Some (absent blockless)) as Hv2 by (cbn; by rewrite lookup_insert_eq).
    change (with_tables tb s2) with (with_tables tb s2).
    eapply (erase_affiliated_ok v (absent blockless)); [exact Hv2|cbn; rewrite Ea; exact release_entry|].
    cbn [absent affiliated set_affiliated set_physicalPage set_resident]. rewrite Ea. intros i Hi.
    eapply pg_bind, pg_get_vpage; [cbn; by rewrite lookup_insert_eq|]. cbn [affiliated set_affiliated].
    rewrite (last_one_aff i Hlast Hi). apply pg_when; [by intros ?%bool_decide_eq_true|]. intros _. apply HQ.
    pose proof (release_returned i j pp tb Hlast Hi Hp Hjx Htb) as D. by rewrite (last_one_aff i Hlast Hi) in D.
Qed.

(** [release_mapping] *)
Lemma release_mapping_ok (Q : unit → pager → Prop) :
  (∀ s', detached T' T0 pid vp s s' → Q tt s') → wp (release_mapping va v) Q s.
Proof.
  intros HQ. unfold release_mapping. pose proof blockless_fields as (Ea & Es & Ep & Er).
  assert (vpages unblocked !! v = Some blockless) as Hvu by (cbn; by rewrite lookup_insert_eq).
  eapply pg_bind, pg_get_vpage; [done|]. apply pg_bind, unblock_ok.
  eapply pg_bind, pg_get_vpage; [done|]. apply pg_bind, last_one_ok. intros b Hb.
  destruct b; cbn [when]; [by apply release_last; [apply Hb|]|].
  apply pg_bind, pg_ret, pg_bind. apply pg_bind, pg_gets. cbn. rewrite (ru_ptbr _ _ _ Hrun).
  apply (pg_deref _ t); [done|].
  apply pg_bind. eapply erase_affiliated_ok; [done|rewrite Ea; exact release_entry|]. rewrite Ea. intros i Hi.
  cbn. rewrite insert_insert_eq. eapply pg_bind, pg_get_vpage; [cbn; by rewrite lookup_insert_eq|]. cbn.
  apply (release_kept i Q); [|done|done]. intros ?%Hb. done.
Qed.

End release.
(** ** The loop *)

Section loop.
Context (s0 : pager) (pid : pid_t) (t : table_id) (m : gmap Z vpage_id).
Context (C0 : consistent s0) (Hrun : running s0 pid t) (Hm : translateVA s0 !! pid = Some m).
Let T0 := translateVA s0.

(** The addresses when the pages in [l] are still to be released. *)
Definition remaining (l : list (Z * vpage_id)) : gmap pid_t (gmap Z vpage_id) :=
  <[pid := list_to_map l]> T0.

Lemma page_at_remaining l pid' va :
  page_at (remaining l) pid' va = if decide (pid' = pid) then (list_to_map l : gmap Z vpage_id) !! va else page_at T0 pid' va.
Proof.
  unfold page_at, remaining. destruct (decide (pid' = pid)) as [->|Hne].
  - by rewrite lookup_insert_eq.
  - by rewrite lookup_insert_ne.
Qed.

Record releasing (l : list (Z * vpage_id)) (s : pager) : Prop := {
  rl_core : core (remaining l) ∅ ∅ s;
  rl_trans : translateVA s = T0;
  rl_registers : fixed_registers s = fixed_registers s0;
  rl_unmapped : unmapped_ok T0 s;
  rl_view pid' va : pid' ≠ pid → view s pid' va = view s0 pid' va;
  rl_data n b : file_data s n b = file_data s0 n b;
  rl_swap : (length (next_free_swap s) + cost s0 pid l =
             length (next_free_swap s0) + cost s0 pid (map_to_list m))%nat;
  rl_kind w : isSwap <$> vpages s !! w = isSwap <$> vpages s0 !! w;
  rl_list : NoDup l.*1 ∧ ∀ va v, (va, v) ∈ l → m !! va = Some v }.

Lemma releasing_start l : l ≡ₚ map_to_list m → releasing l s0.
Proof.
  intros Hl. assert (∀ va v, (va, v) ∈ l ↔ m !! va = Some v) as Hin.
  { intros va v. by rewrite Hl elem_of_map_to_list. }
  assert (NoDup l.*1) as Hnd by (rewrite Hl; apply NoDup_fst_map_to_list).
  assert (list_to_map l = m) as Em.
  { rewrite (list_to_map_proper l (map_to_list m)) //. apply list_to_map_to_list. }
  split; try done.
  - unfold remaining. rewrite Em insert_id //. by apply (consistent_core nswap).
  - apply C0.
  - by rewrite (cost_perm s0 pid l (map_to_list m) Hl).
  - split; [done|]. by intros va v ?%Hin.
Qed.

Lemma releasing_step va v l s :
  releasing ((va, v) :: l) s → wp (release_mapping va v) (λ _, releasing l) s.
Proof.
  intros [K HT Hr U Hview Hd Hsw Hk [Hnd Hin]]. pose proof Hr as [= E1 E2 E3 E4 E5].
  apply NoDup_cons in Hnd as [Hva Hnd]. cbn in Hva.
  assert (page_at (remaining ((va, v) :: l)) pid va = Some v) as Hp.
  { rewrite page_at_remaining decide_True //. cbn. by rewrite lookup_insert_eq. }
  assert (page_at T0 pid va = Some v) as Hp0.
  { unfold T0. rewrite (page_at_lookup _ _ m) //. apply Hin. by left. }
  destruct (ma_vpage _ _ (cr_maps _ _ _ _ _ K) v ltac:(left; by eexists _, _)) as [vp Hv].
  eapply (release_mapping_ok (remaining ((va, v) :: l)) (remaining l) T0 s pid va t v vp); try done.
  - split; [rewrite E4|rewrite E1|rewrite E5]; apply Hrun.
  - intros pid' va'. rewrite !page_at_remaining. destruct (decide (pid' = pid)) as [->|Hne].
    + cbn. destruct (decide (va' = va)) as [->|Hne].
      * rewrite decide_True //. by apply not_elem_of_list_to_map.
      * rewrite decide_False; [|congruence]. by rewrite lookup_insert_ne.
    + rewrite decide_False //. congruence.
  - intros pid' va' Hne. by rewrite page_at_remaining decide_False.
  - intros va' Hno. rewrite page_at_remaining decide_True //. cbn.
    unfold T0 in Hno. rewrite (page_at_lookup _ _ m) // in Hno.
    destruct ((list_to_map ((va, v) :: l) : gmap Z vpage_id) !! va') as [w|] eqn:E; [|done].
    apply elem_of_list_to_map_2 in E. rewrite (Hin va' w) // in Hno.
  - intros s' [K' HT1 Hr1 Hview1 Hd1 HU1 Hsw1 Hk1].
    assert (cost s0 pid ((va, v) :: l) = (if isSwap vp then 1 else 0) + cost s0 pid l)%nat as Hc.
    { change (cost s0 pid ((va, v) :: l)) with (cost_at s0 pid va + cost s0 pid l)%nat. f_equal.
      specialize (Hk v). rewrite Hv in Hk. symmetry in Hk. apply fmap_Some in Hk as (vp0 & Hv0 & ->).
      destruct (mapped_slot nswap s0 pid va v vp0 (consistent_core nswap _ C0) Hp0 Hv0) as (sl & Hsl & Hvw).
      unfold cost_at. rewrite Hvw. by rewrite (slot_cost _ _ _ Hsl). }
    split; try done.
    + congruence.
    + congruence.
    + by apply HU1.
    + intros pid' va' Hne. by rewrite Hview1 // Hview.
    + intros n b. by rewrite Hd1 Hd.
    + rewrite Hsw1. rewrite Hc in Hsw. lia.
    + intros w. by rewrite Hk1.
    + split; [done|]. intros va' v' ?. apply Hin. by right.
Qed.

(** ** The process goes *)

(** From [s0] to [s'], process [pid] has been destroyed. *)
Record destroyed (s' : pager) : Prop := {
  ds_consistent : consistent s';
  ds_processes : process_table s' = delete pid (process_table s0);
  ds_next : next_free_VA s' = delete pid (next_free_VA s0);
  ds_current : current_pid s' = current_pid s0;
  ds_cap : mem_pages_cap s' = mem_pages_cap s0;
  ds_view pid' va : view s' pid' va = if decide (pid' = pid) then None else view s0 pid' va;
  ds_data n b : file_data s' n b = file_data s0 n b;
  ds_swap : length (next_free_swap s') =
    (length (next_free_swap s0) + cost s0 pid (map_to_list m))%nat }.

Section gone.
Context (s : pager) (R : releasing [] s).
Let T := delete pid T0.
Let s' := with_next_free_VA (delete pid (next_free_VA s0)) (with_tables (delete t (tables s))
  (with_process_table (delete pid (process_table s0)) (with_translateVA T s))).

Lemma gone_pages pid' va : page_at T pid' va = if decide (pid' = pid) then None else page_at T0 pid' va.
Proof.
  unfold page_at, T. destruct (decide (pid' = pid)) as [->|Hne].
  - by rewrite lookup_delete_eq.
  - by rewrite lookup_delete_ne.
Qed.

Lemma gone_same_pages : same_pages (remaining []) T.
Proof. intros pid' va. rewrite page_at_remaining gone_pages. by destruct (decide _). Qed.

Lemma gone_core : core T ∅ ∅ s.
Proof. eapply core_pages; [apply gone_same_pages|apply R]. Qed.

Lemma gone_processes : process_table s = process_table s0.
Proof. by pose proof (rl_registers _ _ R) as [= ? _ _ _ _]. Qed.

Lemma gone_table pid' t' : delete pid (process_table s0) !! pid' = Some t' →
  pid' ≠ pid ∧ process_table s !! pid' = Some t' ∧ t' ≠ t.
Proof.
  rewrite lookup_delete_Some gone_processes. intros [Hne Ht']. split; [done|]. split; [done|]. intros ->.
  apply Hne. apply (ma_inj _ _ (co_maps _ _ C0) pid pid' t); [apply Hrun|done].
Qed.

Lemma gone_maps : maps_ok T s'.
Proof.
  pose proof (cr_maps _ _ _ _ _ gone_core) as M. split; cbn; try by apply M.
  - intros p1 p2 t' (_ & ? & _)%gone_table (_ & ? & _)%gone_table. by eapply ma_inj.
  - intros pid' t' (_ & H & Hne)%gone_table. rewrite lookup_delete_ne //. by eapply ma_table.
  - intros pid' va v Hp. destruct (ma_process _ _ M pid' va v Hp) as [t' Ht']. rewrite gone_processes in Ht'.
    rewrite gone_pages in Hp. destruct (decide _); [done|]. exists t'. by rewrite lookup_delete_ne.
  - intros v vp Hl Hv. destruct (ma_aff _ _ M v vp Hl Hv) as [? Hiff]. split; [done|]. intros p. rewrite Hiff.
    split; intros (pid' & va & t' & Ht' & Hp & ->); exists pid', va, t'; (split; [|done]).
    + rewrite gone_processes in Ht'. pose proof Hp as Hp'. rewrite gone_pages in Hp'.
      destruct (decide (pid' = pid)) as [|Hne]; [done|]. by rewrite lookup_delete_ne.
    + by apply gone_table in Ht' as (_ & ? & _).
  - intros t'. rewrite lookup_delete_is_Some. intros [_ ?]. by apply (ma_next_table _ _ M).
Qed.

Lemma gone_pte p : p.1 ≠ t → pte_at p s' = pte_at p s.
Proof. intros Hne. unfold pte_at. cbn. by rewrite lookup_delete_ne. Qed.

Lemma gone_consistent : consistent s'.
Proof.
  pose proof gone_core as [M S A P D]. apply (core_consistent nswap).
  - split.
    + apply gone_maps.
    + by eapply swap_frame; [exact S|apply cache_same|..].
    + by eapply alloc_frame; [exact A|..].
    + intros v vp Hl Hv HX p Hp.
      rewrite gone_pte; [by apply (P v vp Hl Hv HX)|].
      destruct (proj1 (proj2 (ma_aff _ _ gone_maps v vp Hl Hv) p) Hp) as (pid' & va & t' & Ht' & _ & ->).
      by apply gone_table in Ht' as (_ & _ & ?).
    + destruct D as [D0 D]. split; [done|]. intros v vp Hl Hv HX. by destruct (D v vp Hl Hv HX).
  - destruct (co_arena _ _ C0) as [N1 N2 N3]. split; cbn.
    + intros pid'. by rewrite !lookup_delete_is_Some N1.
    + intros pid' a. rewrite lookup_delete_Some. intros [_ ?]. by eapply N2.
    + intros pid' a va. rewrite lookup_delete_Some. intros [Hne Ha]. rewrite gone_pages decide_False //. by apply N3.
  - intros pid' t' va e (Hne & Ht' & Htt)%gone_table Hva Hno He. cbn in Hno. rewrite gone_pages decide_False // in Hno.
    rewrite gone_pte // in He. by apply (rl_unmapped _ _ R pid' t' va e).
  - intros pid'. cbn. unfold T. rewrite !lookup_delete_is_Some. intros [? ?]. split; [done|].
    by apply (co_known _ _ C0).
Qed.

Lemma gone_destroyed : destroyed s'.
Proof.
  pose proof (rl_registers _ _ R) as [= E1 E2 E3 E4 E5]. split; try done.
  - apply gone_consistent.
  - intros pid' va. destruct (decide (pid' = pid)) as [->|Hne].
    + unfold view. cbn. by rewrite gone_pages decide_True.
    + rewrite -(rl_view _ _ R pid' va Hne). unfold view. cbn. by rewrite gone_pages decide_False // (rl_trans _ _ R).
  - intros n b. by rewrite -(rl_data _ _ R).
  - pose proof (rl_swap _ _ R) as H. cbn in *. lia.
Qed.

End gone.

Lemma destroy_loop_ok l (Q : unit → pager → Prop) :
  l ≡ₚ map_to_list m → (∀ s', destroyed s' → Q tt s') →
  wp (for_each l (λ '(va, v), release_mapping va v) ;;
      modify (λ s, with_translateVA (delete pid (translateVA s)) s) ;;
      erase_process pid ;;
      erase_next_free_VA pid ;;
      final_check) Q s0.
Proof.
  intros Hl HQ. apply pg_bind. eapply pg_mono.
  { apply (pg_for_each _ _ releasing); [by apply releasing_start|]. intros [va v] l' s. apply releasing_step. }
  intros [] s R. pose proof (rl_registers _ _ R) as [= E1 E2 E3 E4 E5].
  apply pg_bind, pg_modify, pg_bind. apply pg_bind, pg_gets. cbn. rewrite E1 (ru_table _ _ _ Hrun).
  apply pg_modify, pg_bind, pg_modify. cbn. rewrite E2 (rl_trans _ _ R).
  pose proof (gone_destroyed s R) as D. apply (pg_final_check nswap); [apply D|by apply HQ].
Qed.

End loop.
Lemma cost_same s s' pid l : same s s' → cost s' pid l = cost s pid l.
Proof.
  intros H. unfold cost, cost_at. induction l as [|x l IH]; [done|]. cbn. by rewrite IH (sm_view _ _ H).
Qed.

(** [vm_destroy] *)
Lemma vm_destroy_ok pid t (Q : unit → pager → Prop) s :
  consistent s → running s pid t →
  (∀ s', destroyed s pid (default ∅ (translateVA s !! pid)) s' → Q tt s') →
  wp vm_destroy Q s.
Proof.
  intros C Hrun HQ. apply pg_bind, pg_gets. rewrite (ru_pid _ _ _ Hrun).
  apply pg_bind, (at_translateVA_ok nswap pid); [done|by eexists; apply Hrun| |].
  - intros T' HP HT HT' C' Hsame. rewrite HT in HQ.
    apply (destroy_loop_ok _ pid t ∅ C'); [by eapply same_running|done|apply traversal_perm|].
    intros s' []. apply HQ. split; try done.
    intros pid' va. by rewrite ds_view0 (sm_view _ _ Hsame).
  - intros m Hm. rewrite Hm in HQ. by apply (destroy_loop_ok s pid t m C); [..|apply traversal_perm|].
Qed.

End destroy.
