(* ===== verification/PagerSpec.v ===== *)
(** * What the pager promises

    An abstract machine: every process has an arena, a list of pages that are
    private or blocks of files; every block of a file has one content; the swap
    file has room for so many private pages.  There is no memory, no eviction, no
    sharing of private pages.  Then the requests to the pager, with the loads and
    stores of the MMU (the end of vm_pager.h) that call [vm_fault], and what each
    request does to the abstract machine. *)

From S2P Require Import Prelude PagerTypes Pager PagerView PagerFault PagerName PagerAttach.

(** ** The abstract machine *)

Record machine := mk_machine {
  arenas : gmap pid_t (list slot);
  file_pages : string → Z → option page;
  swap_left : nat;
  active : option pid_t }.

Definition with_arenas (x : gmap pid_t (list slot)) (a : machine) : machine :=
  mk_machine x (file_pages a) (swap_left a) (active a).
Definition with_active (p : option pid_t) (a : machine) : machine :=
  mk_machine (arenas a) (file_pages a) (swap_left a) p.

(** A page with a new byte. *)
Definition set_byte (o : Z) (b : byte) (p : page) : page := λ i, if decide (i = o) then b else p i.

(** The slot of an address, its data and its byte. *)
Definition slot_index (va : Z) : nat := Z.to_nat ((va - VM_ARENA_BASEADDR) / VM_PAGESIZE).
Definition slot_at (a : machine) (pid va : Z) : option slot :=
  if va <? VM_ARENA_BASEADDR then None else arenas a !! pid ≫= (.!! slot_index va).
Definition slot_data (a : machine) (sl : slot) : option page :=
  match sl with Private p => Some p | Shared n b => file_pages a n b end.
Definition spec_byte (a : machine) (pid va : Z) : option byte :=
  sl ← slot_at a pid va;
  p ← slot_data a sl;
  Some (p (va `mod` VM_PAGESIZE)).

(** The blocks of the swap file that an arena takes. *)
Definition arena_cost (l : list slot) : nat := sum_list_with swap_cost l.

(** ** What the requests do *)

(** As in the code, the child of a parent that the pager does not manage runs at
    once; vm_pager.h says that a new process does not run until it is switched to. *)
Definition spec_create (parent child : pid_t) (a : machine) : machine * Z :=
  let l := default [] (arenas a !! parent) in
  if decide (swap_left a < arena_cost l)%nat then (a, -1)
  else (mk_machine (<[child := l]> (arenas a)) (file_pages a) (swap_left a - arena_cost l)%nat
          (match arenas a !! parent with Some _ => active a | None => Some child end), 0).

(** [name]: no file, a file whose name cannot be read, or a file. *)
Definition spec_map (pid : pid_t) (name : option (option string)) (block : Z) (a : machine)
    : machine * option Z :=
  let l := default [] (arenas a !! pid) in
  let push sl := with_arenas (<[pid := l ++ [sl]]> (arenas a)) a in
  let va := VM_ARENA_BASEADDR + Z.of_nat (length l) * VM_PAGESIZE in
  if page_table_size <=? Z.of_nat (length l) then (a, None)
  else
    match name with
    | None =>
        match swap_left a with
        | O => (a, None)
        | S n => (mk_machine (arenas (push (Private null_page))) (file_pages a) n (active a), Some va)
        end
    | Some None => (a, None)
    | Some (Some n) => (push (Shared n block), Some va)
    end.

Definition spec_destroy (pid : pid_t) (a : machine) : machine :=
  mk_machine (delete pid (arenas a)) (file_pages a)
    (swap_left a + arena_cost (default [] (arenas a !! pid)))%nat None.

(** A store changes a private page of this process only, or a block of a file for
    everybody. *)
Definition spec_store (pid va : Z) (c : byte) (a : machine) : machine * option unit :=
  match slot_at a pid va with
  | Some (Private p) =>
      let l := default [] (arenas a !! pid) in
      (with_arenas (<[pid := <[slot_index va := Private (set_byte (va `mod` VM_PAGESIZE) c p)]> l]> (arenas a)) a,
       Some tt)
  | Some (Shared n b) =>
      match file_pages a n b with
      | Some p =>
          (mk_machine (arenas a)
             (λ n' b', if decide ((n', b') = (n, b)) then Some (set_byte (va `mod` VM_PAGESIZE) c p)
                       else file_pages a n' b')
             (swap_left a) (active a), Some tt)
      | None => (a, None)
      end
  | None => (a, None)
  end.

(** ** Requests *)

Inductive request :=
  | Create (parent child : pid_t)
  | Switch (pid : pid_t)
  | Map (name : option Z) (block : Z)
  | Destroy
  | Load (va : Z)
  | Store (va : Z) (c : byte).

(** A file is named by an address in the arena. *)
Inductive answer :=
  | Returned (res : Z)
  | Finished
  | Mapped (va : option Z)
  | Loaded (c : option byte)
  | Stored (ok : option unit).

(** The file names [vm_map] may use. *)
Definition spec_name (a : machine) (pid : pid_t) (name : option Z) (r : option (option string)) : Prop :=
  match name with
  | None => r = None
  | Some va => ∃ n, reads (spec_byte a pid) va n ∧ r = Some n
  end.

(** When a request may be made: new processes have new names, somebody runs, and
    the MMU is given addresses of the arena. *)
Definition in_arena (va : Z) : Prop := VM_ARENA_BASEADDR ≤ va < VM_ARENA_MAXADDR.
Definition allowed (a : machine) (r : request) : Prop :=
  match r with
  | Create parent child => arenas a !! child = None ∧ parent ≠ child
  | Switch pid => is_Some (arenas a !! pid)
  | Map _ _ | Destroy => is_Some (active a)
  | Load va | Store va _ => is_Some (active a) ∧ in_arena va
  end.

(** What a request does when process [pid] runs. *)
Inductive spec_step (a : machine) : request → answer → machine → Prop :=
  | step_create parent child a' res :
      spec_create parent child a = (a', res) → spec_step a (Create parent child) (Returned res) a'
  | step_switch pid : spec_step a (Switch pid) Finished (with_active (Some pid) a)
  | step_map pid name block r a' va :
      active a = Some pid → spec_name a pid name r → spec_map pid r block a = (a', va) →
      spec_step a (Map name block) (Mapped va) a'
  | step_destroy pid : active a = Some pid → spec_step a Destroy Finished (spec_destroy pid a)
  | step_load pid va : active a = Some pid → spec_step a (Load va) (Loaded (spec_byte a pid va)) a
  | step_store pid va c a' ok :
      active a = Some pid → spec_store pid va c a = (a', ok) → spec_step a (Store va c) (Stored ok) a'.

Lemma spec_step_functional a r x1 a1 x2 a2 :
  spec_step a r x1 a1 → spec_step a r x2 a2 → x1 = x2 ∧ a1 = a2.
Proof.
  intros H1 H2.
  destruct H1 as [parent child a' res E|?|pid name block o a' va Ha Hn E|pid Ha|pid va Ha|pid va c a' ok Ha E];
    inversion H2 as [| |? ? ? ? ? ? Ha2 Hn2| | |]; subst; try (split; congruence).
  assert (o = r) as ->; [|split; congruence]. assert (pid0 = pid) as -> by congruence.
  unfold spec_name in *. destruct name as [va'|]; [|congruence].
  destruct Hn as (n & Hn & ->), Hn2 as (n' & Hn' & ->). f_equal. by eapply reads_functional.
Qed.

(** ** The MMU

    It looks at the entry of the page; a fault calls the pager, which must allow
    the access then. *)

Section mmu.
Context `{F : Files} `{Tr : Traversal}.

Definition mmu_entry (va : Z) : M page_table_entry_t :=
  ptbr ← get_ptbr;
  get_pte (VA_to_PTE va ptbr).

(** The physical page of an access, or no page. *)
Definition mmu_access (va : Z) (w : bool) : M (option Z) :=
  e ← mmu_entry va;
  if allows w e then mret (Some (ppage e))
  else
    res ← vm_fault va w;
    if res =? -1 then mret None
    else
      e ← mmu_entry va;
      assert (allows w e) ;;
      mret (Some (ppage e)).

Definition mmu_load (va : Z) : M (option byte) :=
  n ← mmu_access va false;
  match n with
  | Some n => p ← read_page n; mret (Some (p (va `mod` VM_PAGESIZE)))
  | None => mret None
  end.

Definition mmu_store (va : Z) (c : byte) : M (option unit) :=
  n ← mmu_access va true;
  match n with
  | Some n => p ← read_page n; write_page n (set_byte (va `mod` VM_PAGESIZE) c p) ;; mret (Some tt)
  | None => mret None
  end.

(** A request to the pager. *)
Definition exec (r : request) : M answer :=
  match r with
  | Create parent child => res ← vm_create parent child; mret (Returned res)
  | Switch pid => vm_switch pid ;; mret Finished
  | Map name block => va ← vm_map name block; mret (Mapped va)
  | Destroy => vm_destroy ;; mret Finished
  | Load va => c ← mmu_load va; mret (Loaded c)
  | Store va c => ok ← mmu_store va c; mret (Stored ok)
  end.

End mmu.
