(* ===== verification/PagerRefine.v ===== *)
(** * The pager implements its specification

    [represents]: what a state of the pager means to the processes.  Then each
    function of the interface, and the MMU with its calls of [vm_fault], makes the
    step of PagerSpec. *)

From S2P Require Import Prelude PagerTypes Pager PagerInv PagerPtes PagerFrame PagerEvict PagerPlace.
From S2P Require Import PagerCheck PagerView PagerWork PagerReturn PagerFault PagerCow PagerVmFault.
From S2P Require Import PagerName PagerAttach PagerMap PagerCreate PagerDestroy PagerSpec.

(** ** Addresses *)

Definition address (i : nat) : Z := VM_ARENA_BASEADDR + Z.of_nat i * VM_PAGESIZE.

Lemma address_inj i j : address i = address j → i = j.
Proof. unfold address, VM_PAGESIZE. lia. Qed.

Lemma address_succ i : address (S i) = address i + VM_PAGESIZE.
Proof. unfold address, VM_PAGESIZE. lia. Qed.

Lemma address_lt i j : address i < address j ↔ (i < j)%nat.
Proof. unfold address, VM_PAGESIZE. lia. Qed.

Lemma address_max i : VM_ARENA_MAXADDR ≤ address i ↔ page_table_size ≤ Z.of_nat i.
Proof.
  unfold address, VM_ARENA_MAXADDR, page_table_size, VM_ARENA_SIZE, VM_ARENA_BASEADDR, VM_PAGESIZE. lia.
Qed.

Lemma valid_address va : valid_va va ↔ ∃ i, Z.of_nat i < page_table_size ∧ va = address i.
Proof.
  unfold address. split.
  - intros (i & Hi & ->). exists (Z.to_nat i). rewrite Z2Nat.id; [|apply Hi]. split; [apply Hi|done].
  - intros (i & Hi & ->). exists (Z.of_nat i). split; [lia|done].
Qed.

Lemma page_start_address va : VM_ARENA_BASEADDR ≤ va → page_start va = address (slot_index va).
Proof.
  intros H. unfold page_start, address, slot_index. rewrite Z2Nat.id.
  - unfold VM_ARENA_BASEADDR, VM_PAGESIZE. lia.
  - apply Z.div_pos; [lia|done].
Qed.

Lemma page_start_low va : va < VM_ARENA_BASEADDR → ¬ valid_va (page_start va).
Proof. intros H Hv%valid_page_start. lia. Qed.

Lemma in_arena_valid va : in_arena va → valid_va (page_start va).
Proof.
  intros [H1 H2]. apply valid_address. exists (slot_index va). rewrite -page_start_address //. split; [|done].
  apply Z.nle_gt. rewrite -address_max -page_start_address //. pose proof (page_start_le va). lia.
Qed.

Lemma same_page_arena va va' : in_arena va → page_start va' = page_start va → in_arena va'.
Proof. intros Hva E. apply valid_page_start. rewrite E. by apply in_arena_valid. Qed.

Lemma slot_index_page va va' :
  in_arena va → page_start va' = page_start va → slot_index va' = slot_index va.
Proof.
  intros Hva E. pose proof (same_page_arena va va' Hva E) as Hva'. apply address_inj.
  by rewrite -!page_start_address; [| apply Hva|apply Hva'].
Qed.

Lemma VA_to_PTE_page va t : VA_to_PTE (page_start va) t = VA_to_PTE va t.
Proof. unfold VA_to_PTE, page_start, VM_ARENA_BASEADDR, VM_PAGESIZE. f_equal. lia. Qed.

Section refine.
Context `{F : Files} `{Tr : Traversal} `{TL : !TraversalLaws} (nswap : Z) `{FL : !FilesLaws nswap}.
Abbreviation consistent := (consistent nswap).
Abbreviation extended := (extended nswap).
Abbreviation created := (created nswap).
Abbreviation destroyed := (destroyed nswap).

(** ** What a state means *)

Record represents (s : pager) (a : machine) : Prop := {
  rp_consistent : consistent s;
  rp_next : next_free_VA s = (λ l, address (length l)) <$> arenas a;
  rp_slots pid i : view s pid (address i) = arenas a !! pid ≫= (.!! i);
  rp_files n b : file_pages a n b = file_data s n b;
  rp_swap : swap_left a = length (next_free_swap s);
  rp_active p : active a = Some p → ∃ t, running s p t }.

Lemma same_represents s s' a : represents s a → consistent s' → same s s' → represents s' a.
Proof.
  intros [] C' H. pose proof (sm_registers _ _ H) as [= E1 E2 E3 E4 E5 E6]. split.
  - done.
  - congruence.
  - intros pid i. by rewrite (sm_view _ _ H).
  - intros n b. by rewrite (sm_data _ _ H).
  - congruence.
  - intros p (t & ?)%rp_active0. exists t. by eapply same_running.
Qed.

Lemma represents_process s a pid : represents s a → is_Some (arenas a !! pid) ↔ is_Some (process_table s !! pid).
Proof.
  intros R. rewrite -(ar_next _ _ (co_arena _ _ (rp_consistent _ _ R)) pid) (rp_next _ _ R) lookup_fmap.
  by rewrite fmap_is_Some.
Qed.

Lemma represents_running s a pid t : represents s a → running s pid t → ∃ l, arenas a !! pid = Some l.
Proof. intros R H. apply (represents_process s a pid R). eexists. apply H. Qed.

Lemma represents_next s a pid l : represents s a → arenas a !! pid = Some l →
  next_free_VA s !! pid = Some (address (length l)).
Proof. intros R Hl. by rewrite (rp_next _ _ R) lookup_fmap Hl. Qed.

Lemma represents_slots s a pid i : represents s a →
  view s pid (address i) = default [] (arenas a !! pid) !! i.
Proof. intros R. rewrite (rp_slots _ _ R). by destruct (arenas a !! pid). Qed.

Lemma invalid_view s pid va : consistent s → ¬ valid_va va → view s pid va = None.
Proof.
  intros C Hva. apply (view_none nswap s pid va C). destruct (page_at _ pid va) eqn:E; [|done].
  by destruct Hva; eapply (ma_va _ _ (co_maps _ _ C)).
Qed.

Lemma view_address s pid va sl : consistent s → view s pid va = Some sl → ∃ i, va = address i.
Proof.
  intros C Hv. unfold view in Hv. destruct (page_at _ pid va) as [v|] eqn:Hva; [|done].
  apply (ma_va _ _ (co_maps _ _ C)), valid_address in Hva as (i & _ & ->). by exists i.
Qed.

(** What the processes see is what the machine has. *)
Lemma slot_at_ok s a pid va : represents s a → slot_at a pid va = view s pid (page_start va).
Proof.
  intros R. unfold slot_at. destruct (va <? VM_ARENA_BASEADDR) eqn:H.
  - apply Z.ltb_lt in H. symmetry. apply invalid_view; [apply R|by apply page_start_low].
  - apply Z.ltb_ge in H. by rewrite page_start_address // (rp_slots _ _ R).
Qed.

Lemma slot_data_ok s a sl : represents s a → slot_data a sl = slot_page s sl.
Proof. intros R. destruct sl; [done|apply R]. Qed.

Lemma spec_byte_ok s a pid va : represents s a → spec_byte a pid va = byte_at s pid va.
Proof.
  intros R. unfold spec_byte, byte_at. rewrite (slot_at_ok s a) //.
  destruct (view s pid (page_start va)); [|done]. cbn. by rewrite (slot_data_ok s a).
Qed.

Lemma byte_at_high s pid va : consistent s → VM_ARENA_MAXADDR ≤ va → byte_at s pid va = None.
Proof.
  intros C Hva. unfold byte_at. rewrite invalid_view //. intros Hv%valid_page_start. lia.
Qed.

(** ** The swap blocks of an arena *)

Lemma sum_perm {A} (f : A → nat) l l' : l ≡ₚ l' → sum_list_with f l = sum_list_with f l'.
Proof. induction 1; cbn; lia. Qed.

Lemma sum_fmap {A B} (f : B → nat) (g : A → B) l : sum_list_with f (g <$> l) = sum_list_with (λ x, f (g x)) l.
Proof. induction l as [|x l IH]; cbn; [done|]. by rewrite IH. Qed.

Lemma sum_slots (f : nat → option slot) l k : (∀ i, f (k + i)%nat = l !! i) →
  sum_list_with (λ i, match f i with Some sl => swap_cost sl | None => 0%nat end) (seq k (length l)) = arena_cost l.
Proof.
  revert k. induction l as [|sl l IH]; intros k H; [done|]. cbn.
  pose proof (H 0%nat) as H0. rewrite Nat.add_0_r in H0. rewrite H0 /=. f_equal. apply IH.
  intros i. pose proof (H (S i)) as Hi. by rewrite Nat.add_succ_r in Hi.
Qed.

(** The addresses of a process. *)
Lemma process_addresses s a pid l m : represents s a → arenas a !! pid = Some l →
  translateVA s !! pid = Some m → (map_to_list m).*1 ≡ₚ address <$> seq 0 (length l).
Proof.
  intros R Hl Hm. apply NoDup_Permutation.
  - apply NoDup_fst_map_to_list.
  - apply (NoDup_fmap_2_strong address); [intros i j _ _; apply address_inj|apply NoDup_seq].
  - intros va. transitivity (is_Some (page_at (translateVA s) pid va)).
    + rewrite (page_at_lookup _ _ m) // list_elem_of_fmap. split.
      * intros ([va' v] & -> & Hin%elem_of_map_to_list). by exists v.
      * intros [v Hv]. exists (va, v). split; [done|]. by apply elem_of_map_to_list.
    + rewrite (ar_pages _ _ (co_arena _ _ (rp_consistent _ _ R)) pid _ va (represents_next s a pid l R Hl)).
      rewrite valid_address list_elem_of_fmap. setoid_rewrite elem_of_seq. split.
      * intros ((i & _ & ->) & Hlt%address_lt). exists i. split; [done|lia].
      * intros (i & -> & [_ Hi]). split; [|apply address_lt; lia]. exists i. split; [|done].
        pose proof (ar_range _ _ (co_arena _ _ (rp_consistent _ _ R)) pid _ (represents_next s a pid l R Hl))
          as (n & Hn & E). unfold address, VM_PAGESIZE in E. lia.
Qed.

Lemma arena_cost_ok s a pid : represents s a →
  cost s pid (map_to_list (default ∅ (translateVA s !! pid))) = arena_cost (default [] (arenas a !! pid)).
Proof.
  intros R. destruct (arenas a !! pid) as [l|] eqn:Hl; cbn [default].
  - rewrite -(sum_slots (λ i, view s pid (address i)) l 0); [|intros i; by rewrite (rp_slots _ _ R) Hl].
    destruct (translateVA s !! pid) as [m|] eqn:Hm; cbn [default].
    + pose proof (process_addresses s a pid l m R Hl Hm) as HP.
      change (id m) with m. unfold cost. rewrite -(sum_fmap (cost_at s pid) fst) (sum_perm _ _ _ HP).
      by rewrite sum_fmap.
    + rewrite map_to_list_empty. cbn. destruct l as [|sl l]; [done|]. exfalso.
      pose proof (represents_next s a pid _ R Hl) as Hn.
      pose proof (ar_range _ _ (co_arena _ _ (rp_consistent _ _ R)) pid _ Hn) as (n & Hr & E).
      destruct (proj2 (ar_pages _ _ (co_arena _ _ (rp_consistent _ _ R)) pid _ (address 0) Hn)) as [v Hv].
      * split; [|apply address_lt; cbn; lia]. apply valid_address. exists 0%nat. split; [done|done].
      * unfold page_at in Hv. by rewrite Hm in Hv.
  - assert (translateVA s !! pid = None) as ->; [|done].
    apply eq_None_not_Some. intros H%(co_known _ _ (rp_consistent _ _ R)).
    apply (represents_process s a pid R) in H as [? ?]. congruence.
Qed.

(** ** The functions of the interface *)

Lemma created_represents parent child s s' a :
  represents s a → arenas a !! child = None → created parent child s s' →
  ∃ a', spec_create parent child a = (a', 0) ∧ represents s' a'.
Proof.
  intros R Hnew [C Hc Ho Hn Hv Hd Hsw Hrun]. unfold spec_create.
  rewrite (arena_cost_ok s a parent R) in Hsw. rewrite decide_False; [|rewrite (rp_swap _ _ R); lia].
  eexists. split; [done|]. split; cbn.
  - done.
  - rewrite Hn fmap_insert (rp_next _ _ R) lookup_fmap. f_equal. by destruct (arenas a !! parent).
  - intros pid i. rewrite Hv. destruct (decide (pid = child)) as [->|].
    + by rewrite lookup_insert_eq (represents_slots s a).
    + by rewrite lookup_insert_ne // (rp_slots _ _ R).
  - intros n b. by rewrite Hd (rp_files _ _ R).
  - rewrite (rp_swap _ _ R). lia.
  - pose proof (represents_process s a parent R) as Hp. intros p Hact.
    destruct (arenas a !! parent) as [l|].
    + destruct (proj1 Hp (mk_is_Some _ _ eq_refl)) as [t Ht]. rewrite Ht in Hrun. destruct Hrun as [E1 E2].
      destruct (rp_active _ _ R p Hact) as (tp & [Hcur Htp Hptbr]). exists tp.
      assert (p ≠ child) as Hne.
      { intros ->. destruct (proj2 (represents_process s a child R) (mk_is_Some _ _ Htp)). congruence. }
      split; [congruence|by rewrite Ho|congruence].
    + assert (process_table s !! parent = None) as E by (apply eq_None_not_Some; by rewrite -Hp; intros [? ?]).
      rewrite E in Hrun. destruct Hrun as [E1 E2]. injection Hact as <-. destruct Hc as [t Ht].
      exists t. split; [done|done|congruence].
Qed.

Lemma create_ok parent child s a (Q : Z → pager → Prop) :
  represents s a → allowed a (Create parent child) →
  (∀ s' a' res, spec_create parent child a = (a', res) → represents s' a' → Q res s') →
  wp (vm_create parent child) Q s.
Proof.
  intros R [Hnew Hne] HQ. apply (vm_create_ok nswap parent child); [apply R| |done| |].
  - apply eq_None_not_Some. intros [? ?]%(represents_process s a child R). congruence.
  - intros s' D. destruct (created_represents parent child s s' a R Hnew D) as (a' & E & R'). by eapply HQ.
  - intros s' C' Hs Hlt. apply (HQ s' a); [|by eapply same_represents].
    unfold spec_create. rewrite decide_True; [done|]. by rewrite (rp_swap _ _ R) -(arena_cost_ok s a parent R).
Qed.

Lemma switch_ok pid s a (Q : unit → pager → Prop) :
  represents s a → allowed a (Switch pid) →
  (∀ s', represents s' (with_active (Some pid) a) → Q tt s') → wp (vm_switch pid) Q s.
Proof.
  intros R Hpid HQ. apply (represents_process s a pid R) in Hpid as [t Ht].
  apply pg_bind, pg_modify, pg_bind. apply pg_bind, pg_gets. cbn. apply (pg_deref _ t); [done|].
  apply pg_bind, pg_modify. pose proof (run_consistent nswap pid t s (rp_consistent _ _ R)) as C.
  apply (pg_final_check nswap); [done|]. apply HQ. destruct R as [_ R2 R3 R4 R5 _]. split; try done.
  intros p [= <-]. by exists t.
Qed.

Lemma extended_represents pid l sl s s' a :
  represents s a → arenas a !! pid = Some l → extended pid (address (length l)) sl s s' →
  represents s' (mk_machine (<[pid := l ++ [sl]]> (arenas a)) (file_pages a) (swap_left a - swap_cost sl)
    (active a)).
Proof.
  intros R Hl [C [= E1 E2 E3 E4] Hn Hsw Hv Hd]. split; cbn.
  - done.
  - rewrite Hn fmap_insert (rp_next _ _ R). f_equal. by rewrite length_app Nat.add_1_r address_succ.
  - intros pid' i. rewrite Hv (rp_slots _ _ R). destruct (decide (pid' = pid)) as [->|].
    + rewrite Hl lookup_insert_eq /=. destruct (decide (i = length l)) as [->|Hi].
      * rewrite decide_True // lookup_app_r // Nat.sub_diag //.
      * rewrite decide_False; [|by intros [= ?%address_inj]].
        destruct (decide (i < length l)%nat); [by rewrite lookup_app_l|].
        rewrite !lookup_ge_None_2; [done|rewrite length_app /=; lia|lia].
    + rewrite decide_False; [|congruence]. by rewrite lookup_insert_ne.
  - intros n b. by rewrite Hd (rp_files _ _ R).
  - by rewrite Hsw length_drop (rp_swap _ _ R).
  - intros p (t & [? ? ?])%(rp_active _ _ R). exists t. split; congruence.
Qed.

Lemma map_ok pid name block s a (Q : option Z → pager → Prop) :
  represents s a → active a = Some pid →
  (∀ s' r a' va, spec_name a pid name r → spec_map pid r block a = (a', va) → represents s' a' → Q va s') →
  wp (vm_map name block) Q s.
Proof.
  intros R Hact HQ. destruct (rp_active _ _ R pid Hact) as [t Hrun]. pose proof (rp_consistent _ _ R) as C.
  destruct (represents_running s a pid t R Hrun) as [l Hl].
  assert (∀ va r, reads (byte_at s pid) va r → spec_name a pid (Some va) (Some r)) as Hname.
  { intros va r Hr. exists r. split; [|done]. eapply reads_ext, Hr. intros va'. by rewrite (spec_byte_ok s a). }
  assert (address (length l) < VM_ARENA_MAXADDR → (page_table_size <=? Z.of_nat (length l)) = false) as Hroom.
  { intros Hlt. apply Z.leb_gt, Z.nle_gt. by rewrite -address_max -Z.lt_nge. }
  apply (vm_map_ok nswap pid t (address (length l))); [done|done|by eapply represents_next| | | |].
  - intros Hmax%address_max%Z.leb_le. assert (∃ r, spec_name a pid name r) as [r Hr].
    { destruct name as [va|]; [|by exists None].
      destruct (reads_total (byte_at s pid) va) as [r Hr]; [intros ??; by apply byte_at_high|]. exists (Some r). by apply Hname. }
    apply (HQ s r a); [done| |done]. unfold spec_map. by rewrite Hl /= Hmax.
  - intros Hlt -> Hno. apply (HQ s None a); [done| |done]. unfold spec_map. by rewrite Hl /= Hroom // (rp_swap _ _ R) Hno.
  - intros Hlt -> Hsome s' E. pose proof (extended_represents pid l _ s s' a R Hl E) as R'.
    destruct (next_free_swap s) as [|b fs] eqn:Hf; [done|].
    eapply (HQ s' None); [done| |exact R']. unfold spec_map. by rewrite Hl /= Hroom // (rp_swap _ _ R) Hf /= Nat.sub_0_r.
  - intros Hlt va r -> Hr%Hname. destruct r as [n|].
    + intros s' E. pose proof (extended_represents pid l _ s s' a R Hl E) as R'. cbn in R'.
      rewrite Nat.sub_0_r in R'. eapply (HQ s' _); [exact Hr| |exact R']. unfold spec_map. by rewrite Hl /= Hroom.
    + intros s' C' Hs. eapply (HQ s' _ a); [exact Hr| |by eapply same_represents]. unfold spec_map. by rewrite Hl /= Hroom.
Qed.

Lemma destroy_ok pid s a (Q : unit → pager → Prop) :
  represents s a → active a = Some pid →
  (∀ s', represents s' (spec_destroy pid a) → Q tt s') → wp vm_destroy Q s.
Proof.
  intros R Hact HQ. destruct (rp_active _ _ R pid Hact) as [t Hrun].
  apply (vm_destroy_ok nswap pid t); [apply R|done|]. intros s' [C E1 E2 E3 E4 Hv Hd Hsw]. apply HQ. split; cbn.
  - done.
  - by rewrite E2 fmap_delete (rp_next _ _ R).
  - intros pid' i. rewrite Hv. destruct (decide (pid' = pid)) as [->|].
    + by rewrite lookup_delete_eq.
    + by rewrite lookup_delete_ne // (rp_slots _ _ R).
  - intros n b. by rewrite Hd (rp_files _ _ R).
  - by rewrite Hsw (rp_swap _ _ R) (arena_cost_ok s a pid R).
  - done.
Qed.

End refine.
