(* ===== verification/PagerMmu.v ===== *)
(** * Loads, stores and requests

    A load or store of the MMU, with the fault it may need, reads or writes the
    byte of the specification; then every request to the pager makes its step. *)

From S2P Require Import Prelude PagerTypes Pager PagerInv PagerPtes PagerFrame PagerEvict PagerPlace.
From S2P Require Import PagerCheck PagerView PagerWork PagerReturn PagerFault PagerCow PagerVmFault.
From S2P Require Import PagerName PagerAttach PagerMap PagerCreate PagerDestroy PagerSpec PagerRefine.

Section mmu.
Context `{F : Files} `{Tr : Traversal} `{TL : !TraversalLaws} (nswap : Z) `{FL : !FilesLaws nswap}.
Abbreviation consistent := (consistent nswap).
Abbreviation represents := (represents nswap).

(** ** Entries *)

(** The page behind an entry that allows an access. *)
Record accessible (s : pager) (pid va : Z) (w : bool) (v : vpage_id) (vp : VirtualPage) (pp : PhysicalPage)
    : Prop := {
  ac_page : page_at (translateVA s) pid va = Some v;
  ac_vpage : vpages s !! v = Some vp;
  ac_phys : physicalPage vp = Some pp;
  ac_range : 0 ≤ PPN pp < mem_pages_cap s;
  ac_entry t e : process_table s !! pid = Some t → pte_at (VA_to_PTE va t) s = Some e → ppage e = PPN pp;
  ac_write : w = true → PPN pp ≠ 0 ∧ dirty pp = true ∧ (isSwap vp = true → length (affiliated vp) = 1%nat) }.

Lemma enabled_accessible s pid va w :
  consistent s → valid_va va → enabled s pid va w → ∃ v vp pp, accessible s pid va w v vp pp.
Proof.
  intros C Hva Hen. destruct (enabled_mapped nswap s pid va w C Hva Hen) as [v Hv].
  assert (live (translateVA s) s v) as Hl by (left; by exists pid, va).
  destruct (ma_vpage _ _ (co_maps _ _ C) v Hl) as [vp Hvp].
  apply (enabled_bits nswap pid va v vp w s C Hv Hvp) in Hen. unfold bits in Hen.
  destruct (physicalPage vp) as [pp|] eqn:Hp; [|by destruct w].
  pose proof (al_phys _ _ _ (co_alloc _ _ C) v vp Hl Hvp ltac:(set_solver)) as [P1 P2 P3].
  pose proof (al_cap _ _ _ (co_alloc _ _ C)) as Hcap.
  assert (0 ≤ PPN pp < mem_pages_cap s) as Hr.
  { destruct (decide (PPN pp = 0)) as [->|Hz]; [lia|]. destruct (P2 pp Hp Hz). lia. }
  exists v, vp, pp. split; try done.
  - intros t e Ht He. assert (VA_to_PTE va t ∈ affiliated vp) as Hin.
    { apply (ma_aff _ _ (co_maps _ _ C) v vp Hl Hvp). by exists pid, va, t. }
    destruct (mapped_entry nswap s C v vp _ ltac:(by exists pid, va) Hvp Hin) as (e' & He' & _ & Hpp).
    rewrite He in He'. injection He' as <-. rewrite (Hpp pp Hp) Z.mod_small //. lia.
  - intros ->. destruct (resident vp && clocked pp); [|done]. cbn in Hen. apply andb_true_iff in Hen as [Hd Hone].
    split; [|split; [done|]].
    + intros Hz. destruct (P3 pp Hp Hz) as (_ & _ & ? & _). congruence.
    + intros Hs. rewrite Hs in Hone. by apply Nat.eqb_eq.
Qed.

Lemma mmu_entry_ok s pid t va (Q : page_table_entry_t → pager → Prop) :
  consistent s → running s pid t → in_arena va →
  (∀ e, pte_at (VA_to_PTE (page_start va) t) s = Some e → Q e s) → wp (mmu_entry va) Q s.
Proof.
  intros C [Hcur Ht Hptbr] Hva HQ. apply pg_bind. apply pg_bind, pg_gets. rewrite Hptbr. apply pg_ret.
  destruct (pte_at (VA_to_PTE (page_start va) t) s) as [e|] eqn:He; [|exfalso].
  - rewrite -VA_to_PTE_page. by eapply pg_get_pte; [done|apply HQ].
  - destruct (ma_table _ _ (co_maps _ _ C) pid t Ht) as [f Hf]. rewrite VA_to_PTE_page in He.
    unfold pte_at, VA_to_PTE in He. cbn in He. rewrite Hf /= in He.
    destruct Hva as [H1 H2]. destruct (_ && _) eqn:Hb; [done|]. apply andb_false_iff in Hb.
    rewrite Z.leb_gt Z.ltb_ge in Hb. unfold VM_ARENA_MAXADDR in H2. revert Hb H2.
    unfold page_table_size, VM_ARENA_SIZE, VM_PAGESIZE. lia.
Qed.

(** The access is made, or the address has no data. *)
Lemma mmu_access_ok s pid t va w (Q : option Z → pager → Prop) :
  consistent s → running s pid t → in_arena va →
  (∀ s' v vp pp, consistent s' → same s s' → accessible s' pid (page_start va) w v vp pp → Q (Some (PPN pp)) s') →
  (∀ s', consistent s' → same s s' → view s pid (page_start va) = None ∨ unreadable s pid (page_start va) →
     Q None s') →
  wp (mmu_access va w) Q s.
Proof.
  intros C Hrun Hva HQ1 HQ2. apply pg_bind, (mmu_entry_ok s pid t va); [done..|]. intros e He.
  destruct (allows w e) eqn:Ha.
  - destruct (enabled_accessible s pid (page_start va) w C (in_arena_valid va Hva)) as (v & vp & pp & A).
    { exists t, e. split; [apply Hrun|done]. }
    apply pg_ret. rewrite (ac_entry _ _ _ _ _ _ _ A t e (ru_table _ _ _ Hrun) He). by eapply HQ1.
  - apply pg_bind, (vm_fault_ok nswap pid t va w); [done|done| | |].
    + intros (t' & e' & Ht' & He' & Ha'). rewrite (ru_table _ _ _ Hrun) in Ht'. injection Ht' as <-.
      rewrite He in He'. injection He' as <-. congruence.
    + intros s' C' Hs Hen. pose proof (same_running s s' pid t Hs Hrun) as Hrun'. cbn [Z.eqb].
      destruct (enabled_accessible s' pid (page_start va) w C' (in_arena_valid va Hva) Hen) as (v & vp & pp & A).
      apply pg_bind, (mmu_entry_ok s' pid t va); [done..|]. intros e' He'.
      apply pg_bind, pg_assert.
      { destruct Hen as (t2 & e2 & Ht2 & He2 & Ha2). rewrite (ru_table _ _ _ Hrun') in Ht2. injection Ht2 as <-.
        rewrite He' in He2. by injection He2 as <-. }
      apply pg_ret. rewrite (ac_entry _ _ _ _ _ _ _ A t e' (ru_table _ _ _ Hrun') He'). by eapply HQ1.
    + intros s' C' Hs Hno. cbn [Z.eqb]. apply pg_ret. by apply HQ2.
Qed.

Lemma no_byte s pid va :
  view s pid (page_start va) = None ∨ unreadable s pid (page_start va) → byte_at s pid va = None.
Proof. unfold byte_at. intros [->|(n & b & -> & Hd)]; [done|]. cbn. by rewrite Hd. Qed.

Lemma pg_read_page n (Q : page → pager → Prop) s :
  0 ≤ n < mem_pages_cap s → Q (vm_physmem s n) s → wp (read_page n) Q s.
Proof. intros Hn HQ. by apply pg_bind, pg_check_ppn, pg_gets. Qed.

(** The data of an accessible page. *)
Lemma accessible_data s pid va w v vp pp :
  consistent s → accessible s pid va w v vp pp →
  (sl ← view s pid va; slot_page s sl) = Some (vm_physmem s (PPN pp)).
Proof.
  intros C A. rewrite (slot_content nswap s pid va v vp C (ac_page _ _ _ _ _ _ _ A) (ac_vpage _ _ _ _ _ _ _ A)).
  unfold content. by rewrite (ac_phys _ _ _ _ _ _ _ A).
Qed.

(** ** Loads *)

Lemma load_ok s a pid va (Q : option byte → pager → Prop) :
  represents s a → active a = Some pid → in_arena va →
  (∀ s', represents s' a → Q (spec_byte a pid va) s') → wp (mmu_load va) Q s.
Proof.
  intros R Hact Hva HQ. destruct (rp_active _ _ _ R pid Hact) as [t Hrun]. pose proof (rp_consistent _ _ _ R) as C.
  rewrite (spec_byte_ok nswap s a) // in HQ.
  apply pg_bind, (mmu_access_ok s pid t va false); [done..| |].
  - intros s' v vp pp C' Hs A. apply pg_bind, pg_read_page; [apply A|]. apply pg_ret.
    pose proof (accessible_data s' pid _ _ v vp pp C' A) as Hd. apply bind_Some in Hd as (sl & Hv & Hp).
    assert (byte_at s pid va = Some (vm_physmem s' (PPN pp) (va `mod` VM_PAGESIZE))) as <-.
    { rewrite -(same_byte_at s s') //. unfold byte_at. by rewrite Hv /= Hp. }
    apply HQ. by eapply same_represents.
  - intros s' C' Hs Hno. apply pg_ret. rewrite -(no_byte s pid va Hno). apply HQ. by eapply same_represents.
Qed.

(** ** Stores *)

Section store.
Context (s : pager) (pid va : Z) (v : vpage_id) (vp : VirtualPage) (pp : PhysicalPage) (p : page).
Context (C : consistent s) (A : accessible s pid va true v vp pp).
Let T := translateVA s.
Let s' := with_vm_physmem (set_page (PPN pp) p (vm_physmem s)) s.

Lemma store_working : working nswap T ∅ {[v]} s.
Proof. eapply working_weaken, consistent_working; [done|set_solver|done]. Qed.

Lemma store_occupies : occupies vp (PPN pp).
Proof.
  split; [by apply (ac_write _ _ _ _ _ _ _ A)|]. exists pp. split; [apply A|done].
Qed.

Lemma store_mapped : mapped T v.
Proof. exists pid, va. apply A. Qed.

Lemma store_kept : kept T v s s'.
Proof.
  eapply (fill_kept nswap T ∅ v vp); [apply store_working|apply store_mapped|apply A|apply store_occupies].
Qed.

Lemma store_content : content s' vp = Some p.
Proof.
  unfold content. rewrite (ac_phys _ _ _ _ _ _ _ A). cbn. unfold set_page. by rewrite decide_True.
Qed.

(** The page is dirty, so that its backing need not change. *)
Lemma store_consistent : consistent s'.
Proof.
  pose proof (fill_ok nswap T ∅ v vp (PPN pp) p s store_working store_mapped
    (ac_vpage _ _ _ _ _ _ _ A) store_occupies) as [M S Al P [D0 D] Ar U HT HK].
  apply working_consistent with T. split; try done. split; [done|]. intros w wp Hl Hw _.
  destruct (decide (w = v)) as [->|Hne]; [|apply (D w); [done|done|set_solver]].
  assert (wp = vp) as -> by (pose proof (ac_vpage _ _ _ _ _ _ _ A); cbn in Hw; congruence).
  pose proof (da_each _ _ _ (co_data _ _ C) v vp (or_introl store_mapped) Hw ltac:(set_solver)) as [D1 D2 D3].
  split; [|done|done]. intros pp' Hp'. rewrite (ac_phys _ _ _ _ _ _ _ A) in Hp'. injection Hp' as <-.
  destruct (ac_write _ _ _ _ _ _ _ A eq_refl) as (_ & -> & _). done.
Qed.

(** A private page that can be written has one address. *)
Lemma store_private pid' va' :
  isSwap vp = true → page_at T pid' va' = Some v → (pid', va') = (pid, va).
Proof.
  intros Hs Hva'. destruct (ac_write _ _ _ _ _ _ _ A eq_refl) as (_ & _ & Hone). specialize (Hone Hs).
  destruct (ma_aff _ _ (co_maps _ _ C) v vp (or_introl store_mapped) (ac_vpage _ _ _ _ _ _ _ A)) as [_ Haff].
  destruct (ma_process _ _ (co_maps _ _ C) _ _ _ Hva') as [t' Ht'].
  pose proof (ac_page _ _ _ _ _ _ _ A) as Hva.
  destruct (ma_process _ _ (co_maps _ _ C) _ _ _ Hva) as [t Ht].
  pose proof (proj2 (Haff (VA_to_PTE va t)) ltac:(by exists pid, va, t)) as H1.
  pose proof (proj2 (Haff (VA_to_PTE va' t')) ltac:(by exists pid', va', t')) as H2.
  destruct (affiliated vp) as [|q [|]]; try done.
  apply list_elem_of_singleton in H1, H2. rewrite -H2 in H1.
  pose proof (ma_va _ _ (co_maps _ _ C) _ _ _ Hva) as Hv. pose proof (ma_va _ _ (co_maps _ _ C) _ _ _ Hva') as Hv'.
  destruct (VA_to_PTE_inj _ _ _ _ Hv Hv' H1) as [-> ->]. f_equal. by eapply (ma_inj _ _ (co_maps _ _ C)).
Qed.

Lemma store_view pid' va' :
  view s' pid' va' = if decide (isSwap vp = true ∧ (pid', va') = (pid, va)) then Some (Private p) else view s pid' va'.
Proof.
  pose proof (ac_vpage _ _ _ _ _ _ _ A) as Hv. pose proof (ac_page _ _ _ _ _ _ _ A) as Hva.
  destruct (decide _) as [[Hs [= -> ->]]|Hno].
  - unfold view. change (translateVA s') with T. fold T in Hva. rewrite Hva /= Hv /=. unfold slot_of.
    by rewrite Hs store_content.
  - unfold view. change (translateVA s') with T. fold T. destruct (page_at T pid' va') as [w|] eqn:Hw; [|done]. cbn.
    destruct (vpages s !! w) as [wp|] eqn:Hwp; [|done]. cbn. destruct (decide (w = v)) as [->|Hne].
    + assert (wp = vp) as -> by congruence. unfold slot_of. destruct (isSwap vp) eqn:Hs; [|done].
      destruct Hno. split; [done|]. by apply store_private.
    + apply static_slot; [done|]. apply (kp_content _ _ _ _ store_kept w); [|done..].
      left. by exists pid', va'.
Qed.

Lemma store_slot : view s pid va = slot_of s vp.
Proof. unfold view. by rewrite (ac_page _ _ _ _ _ _ _ A) /= (ac_vpage _ _ _ _ _ _ _ A). Qed.

Lemma store_data_other n b : view s pid va ≠ Some (Shared n b) → file_data s' n b = file_data s n b.
Proof.
  intros Hno. apply (kp_data _ _ _ _ store_kept). intros Hc. apply Hno. rewrite store_slot.
  destruct (ma_cached _ _ (co_maps _ _ C) n b v Hc) as (vp' & Hv' & Hs & <- & Hb).
  assert (vp' = vp) as -> by (pose proof (ac_vpage _ _ _ _ _ _ _ A); congruence). unfold slot_of. by rewrite Hs Hb.
Qed.

Lemma store_data n b : view s pid va = Some (Shared n b) → file_data s' n b = Some p.
Proof.
  pose proof (ac_vpage _ _ _ _ _ _ _ A) as Hv. rewrite store_slot. unfold slot_of. intros Hsl.
  destruct (isSwap vp) eqn:Hs; [by destruct (content s vp)|].
  destruct (file_key _ s v vp (co_maps _ _ C) (or_introl store_mapped) Hv Hs) as (b' & Hb & Hor).
  rewrite Hb in Hsl. injection Hsl as <- <-. destruct Hor as [Hc|Hno].
  - unfold file_data. change (filename_block_to_vpage s') with (filename_block_to_vpage s). rewrite Hc.
    change (vpages s') with (vpages s). rewrite Hv. cbn. apply store_content.
  - exfalso. destruct (dv_file _ _ (da_each _ _ _ (co_data _ _ C) v vp (or_introl store_mapped) Hv ltac:(set_solver))
      pp Hs (ac_phys _ _ _ _ _ _ _ A)) as [q Hq]. unfold backing, file_of in Hq. rewrite Hb Hs /= in Hq. congruence.
Qed.

End store.

(** The store of the specification. *)
Lemma stored_represents s a pid va c v vp pp :
  represents s a → active a = Some pid → VM_ARENA_BASEADDR ≤ va → accessible s pid (page_start va) true v vp pp →
  let p := set_byte (va `mod` VM_PAGESIZE) c (vm_physmem s (PPN pp)) in
  ∃ a', spec_store pid va c a = (a', Some tt) ∧
        represents (with_vm_physmem (set_page (PPN pp) p (vm_physmem s)) s) a'.
Proof.
  intros R Hact Hlow A p. pose proof (rp_consistent _ _ _ R) as C. set (s' := with_vm_physmem _ s).
  pose proof (accessible_data s pid _ true v vp pp C A) as Hd. apply bind_Some in Hd as (sl & Hsl & Hp).
  pose proof (store_consistent s pid _ v vp pp p C A) as C'.
  pose proof (λ pid' va', store_view s pid _ v vp pp p C A pid' va') as Hview.
  pose proof (λ n b, store_data s pid _ v vp pp p C A n b) as Hdata.
  pose proof (λ n b, store_data_other s pid _ v vp pp p C A n b) as Hdata'.
  assert (slot_of s vp = Some sl) as Hslot by (rewrite -Hsl; symmetry; by eapply store_slot).
  unfold spec_store. rewrite (slot_at_ok nswap s a) // Hsl.
  destruct R as [_ R2 R3 R4 R5 R6]. destruct sl as [p0|n b].
  - assert (isSwap vp = true) as Hs.
    { unfold slot_of in Hslot. destruct (isSwap vp); [done|]. by destruct (head (blocks vp)). }
    assert (p0 = vm_physmem s (PPN pp)) as -> by by injection Hp.
    rewrite page_start_address // in Hview, Hdata', Hsl, A.
    eexists. split; [done|]. split; cbn; try done.
    + rewrite R2 fmap_insert insert_id; [done|]. rewrite lookup_fmap. rewrite R3 in Hsl.
      destruct (arenas a !! pid) as [l|]; [|done]. cbn. by rewrite length_insert.
    + intros pid' i. rewrite Hview R3. destruct (decide _) as [[_ [= -> ->%address_inj]]|Hno].
      * rewrite lookup_insert_eq /=. rewrite R3 in Hsl. apply bind_Some in Hsl as (l & Hl & Hi). rewrite Hl /=.
        symmetry. apply list_lookup_insert_eq. by eapply lookup_lt_Some.
      * destruct (decide (pid' = pid)) as [->|]; [|by rewrite lookup_insert_ne].
        rewrite lookup_insert_eq /= list_lookup_insert_ne; [|intros <-; by apply Hno].
        by destruct (arenas a !! pid).
    + intros n b. rewrite Hdata' //. congruence.
    + intros p' (t & [? ? ?])%R6. by exists t.
  - assert (isSwap vp = false) as Hs.
    { unfold slot_of in Hslot. destruct (isSwap vp); [by destruct (content s vp)|done]. }
    cbn in Hp. rewrite R4 Hp. eexists. split; [done|]. split; cbn; try done.
    + intros pid' i. rewrite Hview decide_False; [done|]. intros [? _]. congruence.
    + intros n' b'. destruct (decide _) as [[= -> ->]|Hne]; [by rewrite Hdata|].
      rewrite Hdata' //. congruence.
    + intros p' (t & [? ? ?])%R6. by exists t.
Qed.

Lemma store_ok s a pid va c (Q : option unit → pager → Prop) :
  represents s a → active a = Some pid → in_arena va →
  (∀ s' a' ok, spec_store pid va c a = (a', ok) → represents s' a' → Q ok s') → wp (mmu_store va c) Q s.
Proof.
  intros R Hact Hva HQ. destruct (rp_active _ _ _ R pid Hact) as [t Hrun].
  apply pg_bind, (mmu_access_ok s pid t va true); [apply R|done..| |].
  - intros s' v vp pp C' Hs A. pose proof (same_represents nswap s s' a R C' Hs) as R'.
    destruct (stored_represents s' a pid va c v vp pp R' Hact (proj1 Hva) A) as (a' & E & R2).
    apply pg_bind, pg_read_page; [apply A|]. apply pg_bind, pg_write_page; [apply A|]. apply pg_ret. by eapply HQ.
  - intros s' C' Hs Hno. apply pg_ret. apply (HQ s' a); [|by eapply same_represents].
    unfold spec_store. rewrite (slot_at_ok nswap s a) //. destruct Hno as [->|(n & b & -> & Hd)]; [done|].
    by rewrite (rp_files _ _ _ R) Hd.
Qed.

(** ** Requests *)

Lemma exec_ok r s a (Q : answer → pager → Prop) :
  represents s a → allowed a r → (∀ s' a' x, spec_step a r x a' → represents s' a' → Q x s') →
  wp (exec r) Q s.
Proof.
  intros R Hal HQ. destruct r as [parent child|pid|name block| |va|va c]; apply pg_bind.
  - eapply create_ok; [done..|]. intros s' a' res E R'. apply pg_ret. eapply HQ; [by econstructor|done].
  - eapply switch_ok; [done..|]. intros s' R'. apply pg_ret. eapply HQ; [by econstructor|done].
  - destruct Hal as [pid Hact]. eapply map_ok; [done..|]. intros s' o a' va Hn E R'. apply pg_ret.
    eapply HQ; [by econstructor|done].
  - destruct Hal as [pid Hact]. eapply destroy_ok; [done..|]. intros s' R'. apply pg_ret.
    eapply HQ; [by econstructor|done].
  - destruct Hal as [[pid Hact] Hva]. eapply load_ok; [done..|]. intros s' R'. apply pg_ret.
    eapply HQ; [by econstructor|done].
  - destruct Hal as [[pid Hact] Hva]. eapply store_ok; [done..|]. intros s' a' ok E R'. apply pg_ret.
    eapply HQ; [by econstructor|done].
Qed.
End mmu.
