(* ===== verification/PagerRun.v ===== *)
(** * Whole runs of the pager

    [vm_init], then any number of requests: [session].  The runs of the
    specification, and that the pager follows them. *)

From S2P Require Import Prelude PagerTypes Pager PagerInv PagerPtes PagerFrame PagerEvict PagerPlace.
From S2P Require Import PagerCheck PagerView PagerWork PagerVmFault PagerName PagerSpec PagerRefine PagerMmu.

(** ** Runs of the specification *)

Inductive spec_run : machine → list request → list answer → machine → Prop :=
  | run_done a : spec_run a [] [] a
  | run_step a r x a1 rs xs a2 :
      allowed a r → spec_step a r x a1 → spec_run a1 rs xs a2 → spec_run a (r :: rs) (x :: xs) a2.

Section run.
Context `{F : Files} `{Tr : Traversal}.

(** No process, and the files as they are. *)
Definition spec_start (nswap : Z) (f : store) : machine :=
  mk_machine ∅ (λ n b, file_read (Some n) b f) (Z.to_nat nswap) None.

(** ** Runs of the pager *)

Fixpoint exec_all (rs : list request) : M (list answer) :=
  match rs with
  | [] => mret []
  | r :: rs => x ← exec r; xs ← exec_all rs; mret (x :: xs)
  end.

Definition session (memory_pages swap_blocks : Z) (rs : list request) : M (list answer) :=
  vm_init memory_pages swap_blocks ;;
  exec_all rs.

End run.

Section run_ok.
Context `{F : Files} `{Tr : Traversal} `{TL : !TraversalLaws} (nswap : Z) `{FL : !FilesLaws nswap}.

(** ** The start *)

(** The state [vm_init] leaves. *)
Definition initial (cap : Z) (f : store) : pager :=
  mk_pager ∅ ∅ ∅ ∅ nswap (seqZ 0 nswap) (seqZ 1 (cap - 1)) [] cap 0 None ∅ 0 ∅ 0 (set_page 0 null_page (λ _, null_page)) f.

Lemma initial_page_at pid va : page_at ∅ pid va = None.
Proof. unfold page_at. by rewrite lookup_empty. Qed.

Lemma initial_mapped v : ¬ mapped ∅ v.
Proof. intros (pid & va & H). by rewrite initial_page_at in H. Qed.

Lemma initial_live cap f v : ¬ live ∅ (initial cap f) v.
Proof.
  intros [H|(n & b & H)]; [by apply initial_mapped in H|]. unfold cached_at in H. cbn in H.
  by rewrite lookup_empty in H.
Qed.

Lemma initial_each cap f X P : each ∅ X (initial cap f) P.
Proof. intros v vp Hl. by apply initial_live in Hl. Qed.

Lemma initial_maps cap f : maps_ok ∅ (initial cap f).
Proof.
  split; cbn; intros *; try rewrite lookup_empty; try rewrite initial_page_at; try done.
  by intros ?%initial_live.
Qed.

Lemma initial_swap cap f : swap_ok nswap ∅ (initial cap f).
Proof.
  split; cbn; intros *; try by intros ?%initial_live.
  - apply NoDup_seqZ.
  - rewrite elem_of_seqZ. lia.
Qed.

Lemma initial_alloc cap f : 2 ≤ cap ≤ 2 ^ 20 → alloc_ok ∅ ∅ (initial cap f).
Proof.
  intros Hcap. split; cbn; intros *; try done.
  - apply NoDup_nil_2.
  - apply NoDup_seqZ.
  - rewrite elem_of_seqZ. lia.
  - split; [by intros ?%elem_of_nil|by intros [?%initial_live _]].
  - rewrite length_seqZ. lia.
Qed.

Lemma initial_consistent cap f : 2 ≤ cap ≤ 2 ^ 20 → consistent nswap (initial cap f).
Proof.
  intros Hcap. split.
  - apply initial_maps.
  - apply initial_swap.
  - by apply initial_alloc.
  - apply initial_each.
  - split; [done|apply initial_each].
  - split; cbn; intros *; rewrite ?lookup_empty; done.
  - intros pid t va e. cbn. by rewrite lookup_empty.
  - cbn. intros pid. rewrite lookup_empty. by intros [? ?].
Qed.

Lemma initial_represents cap f : 2 ≤ cap ≤ 2 ^ 20 → represents nswap (initial cap f) (spec_start nswap f).
Proof.
  intros Hcap. split; cbn; intros *; try done.
  - by apply initial_consistent.
  - by rewrite length_seqZ.
Qed.

Lemma init_ok cap f (Q : unit → pager → Prop) :
  2 ≤ cap ≤ 2 ^ 20 → (∀ s', represents nswap s' (spec_start nswap f) → Q tt s') →
  wp (vm_init cap nswap) Q (pager_start f).
Proof.
  intros Hcap HQ. do 4 apply pg_bind, pg_modify. apply pg_modify, HQ. by apply (initial_represents cap f).
Qed.

(** ** Requests one after the other *)

Lemma exec_all_ok rs xs a a' s (Q : list answer → pager → Prop) :
  represents nswap s a → spec_run a rs xs a' → (∀ s', represents nswap s' a' → Q xs s') → wp (exec_all rs) Q s.
Proof.
  intros R H. revert s R Q. induction H as [a|a r x a1 rs xs a2 Hal Hst _ IH]; intros s R Q HQ; [by apply HQ|].
  apply pg_bind. eapply exec_ok; [done..|]. intros s1 a1' x' Hst' R1.
  destruct (spec_step_functional a r x a1 x' a1' Hst Hst') as [<- <-].
  apply pg_bind, (IH s1 R1). intros s2 R2. by apply pg_ret, HQ.
Qed.

Lemma session_ok cap f rs xs a (Q : list answer → pager → Prop) :
  2 ≤ cap ≤ 2 ^ 20 → spec_run (spec_start nswap f) rs xs a → (∀ s', represents nswap s' a → Q xs s') →
  wp (session cap nswap rs) Q (pager_start f).
Proof.
  intros Hcap H HQ. apply pg_bind, init_ok; [done|]. intros s R. by eapply exec_all_ok.
Qed.

(** ** What a request of another process leaves alone *)

Lemma spec_step_others a r x a' pid l :
  spec_step a r x a' → allowed a r → active a ≠ Some pid → arenas a !! pid = Some l → arenas a' !! pid = Some l.
Proof.
  intros Hst Hal Hne Hl.
  destruct Hst as [parent child a' res E|q|q name block o a' va Ha Hn E|q Ha|q va Ha|q va c a' ok Ha E]; try done.
  - destruct Hal as [Hnew _]. unfold spec_create in E. destruct (decide _); simplify_eq/=; [done|].
    rewrite lookup_insert_ne //. intros ->. congruence.
  - unfold spec_map in E. destruct (_ <=? _); [by simplify_eq|].
    assert (q ≠ pid) as Hq by congruence.
    destruct o as [[n|]|]; [|by simplify_eq|destruct (swap_left a)]; simplify_eq/=; try done; by rewrite lookup_insert_ne.
  - cbn. rewrite lookup_delete_ne //. congruence.
  - unfold spec_store in E. assert (q ≠ pid) as Hq by congruence.
    destruct (slot_at a q va) as [[p|n b]|]; [| |by simplify_eq].
    + simplify_eq/=. by rewrite lookup_insert_ne.
    + destruct (file_pages a n b); by simplify_eq/=.
Qed.

End run_ok.

(** ** The page of a store *)

Lemma spec_store_active pid va c a a' ok : spec_store pid va c a = (a', ok) → active a' = active a.
Proof.
  unfold spec_store. destruct (slot_at a pid va) as [[p|n b]|]; [| |by intros [= <- _]].
  - by intros [= <- _].
  - destruct (file_pages a n b); by intros [= <- _].
Qed.

Lemma spec_store_byte pid va c a a' va' :
  spec_store pid va c a = (a', Some tt) → in_arena va → page_start va' = page_start va →
  spec_byte a' pid va' = if decide (va' = va) then Some c else spec_byte a pid va'.
Proof.
  intros Hst Hva Hpg. pose proof (slot_index_page va va' Hva Hpg) as Hi.
  destruct (same_page_arena va va' Hva Hpg) as [Hlow' _]. destruct Hva as [Hlow _].
  assert (va' `mod` VM_PAGESIZE = va `mod` VM_PAGESIZE ↔ va' = va) as Hmod.
  { unfold page_start in Hpg. split; [lia|by intros ->]. }
  assert (∀ p : page, Some (set_byte (va `mod` VM_PAGESIZE) c p (va' `mod` VM_PAGESIZE)) =
    if decide (va' = va) then Some c else Some (p (va' `mod` VM_PAGESIZE))) as Hset.
  { intros p. unfold set_byte. destruct (decide (va' = va)) as [->|Hne]; [by rewrite decide_True|].
    rewrite decide_False; [done|]. by rewrite Hmod. }
  assert ((va <? VM_ARENA_BASEADDR) = false ∧ (va' <? VM_ARENA_BASEADDR) = false) as [L1 L2].
  { split; by apply Z.ltb_ge. }
  unfold spec_store, slot_at in Hst. unfold spec_byte, slot_at. rewrite L1 in Hst. rewrite L2 Hi.
  destruct (arenas a !! pid) as [l|] eqn:Hl; [|done]. cbn in *.
  destruct (l !! slot_index va) as [[p|n b]|] eqn:Hsl; [| |done].
  - injection Hst as <-. cbn. rewrite lookup_insert_eq /= list_lookup_insert_eq; [|by eapply lookup_lt_Some].
    cbn. apply Hset.
  - destruct (file_pages a n b) as [p|] eqn:Hp; [|done]. injection Hst as <-. cbn. rewrite Hl /= Hsl /=.
    rewrite decide_True // Hp /=. apply Hset.
Qed.
