(* ===== verification/PagerExample.v ===== *)
(** * A run of the pager

    A concrete file system and traversal order, and a run in which two processes
    share a page until one writes it, and the block of a file. *)

From Stdlib Require Import Ascii.
From S2P Require Import Prelude PagerTypes Pager PagerInv PagerEvict PagerView PagerName PagerSpec PagerRefine PagerMmu PagerRun.

(** ** Files

    Functions from names and blocks to pages; a block that cannot be read cannot
    be written. *)

Definition put (n : option string) (b : Z) (p : page) (f : option string → Z → option page)
    : option string → Z → option page :=
  λ n' b', if decide ((n', b') = (n, b)) then Some p else f n' b'.

#[export] Instance demo_files : Files := {|
  store := option string → Z → option page;
  file_read n b f := f n b;
  file_write n b p f :=
    match n with
    | Some _ => _ ← f n b; Some (put n b p f)
    | None => Some (put n b p f)
    end |}.

Lemma demo_write n b p f f' : file_write n b p f = Some f' → f' = put n b p f.
Proof. cbn. destruct n as [n|]; [destruct (f (Some n) b)|]; by intros [= <-]. Qed.

#[export] Instance demo_laws nswap : FilesLaws nswap.
Proof.
  split.
  - intros n b p f f' ->%demo_write. cbn. unfold put. by rewrite decide_True.
  - intros n b p f f' n' b' ->%demo_write ?. cbn. unfold put. by rewrite decide_False.
  - intros n b p q f Hq. cbn in *. rewrite Hq. destruct n; by eexists.
  - intros b p f _. by eexists.
Qed.

#[export] Instance demo_traversal : Traversal := {| traversal := map_to_list |}.
#[export] Instance demo_order : TraversalLaws.
Proof. by split. Qed.

(** The other way round. *)
Definition demo_reversed : Traversal := {| traversal m := reverse (map_to_list m) |}.
Lemma demo_reversed_order : TraversalLaws (O := demo_reversed).
Proof. split. intros m. cbn. apply reverse_Permutation. Qed.

(** One file, with a block. *)
Definition demo_store : store := λ n b,
  if decide ((n, b) = (Some "A", 1)) then Some (λ _, "B"%char) else None.

(** ** The run *)

Definition base : Z := VM_ARENA_BASEADDR.

(** Process 1 writes the name of the file into its first page, maps the file, forks
    process 2, and writes its first page again. *)
Definition demo_requests : list request :=
  [Create 0 1; Map None 0; Store base "A"; Map (Some base) 1; Create 1 2; Store base "C"; Load base;
   Load (base + VM_PAGESIZE); Switch 2; Load base].
Definition demo_answers : list answer :=
  [Returned 0; Mapped (Some base); Stored (Some tt); Mapped (Some (base + VM_PAGESIZE)); Returned 0;
   Stored (Some tt); Loaded (Some "C"%char); Loaded (Some "B"%char); Finished; Loaded (Some "A"%char)].

Definition demo1 : machine := (spec_create 0 1 (spec_start 8 demo_store)).1.
Definition demo2 : machine := (spec_map 1 None 0 demo1).1.
Definition demo3 : machine := (spec_store 1 base "A" demo2).1.
Definition demo4 : machine := (spec_map 1 (Some (Some "A")) 1 demo3).1.
Definition demo5 : machine := (spec_create 1 2 demo4).1.
Definition demo6 : machine := (spec_store 1 base "C" demo5).1.
Definition demo_machine : machine := with_active (Some 2) demo6.

Lemma eval_pair {A B} (x : A * B) a b : x.1 = a → x.2 = b → x = (a, b).
Proof. by destruct x; intros <- <-. Qed.

Ltac demo_eval := apply eval_pair; [reflexivity|vm_compute; reflexivity].
Ltac demo_active := by eexists; vm_compute.

Lemma demo_run : spec_run (spec_start 8 demo_store) demo_requests demo_answers demo_machine.
Proof.
  apply run_step with demo1; [by split; [vm_compute|]|apply step_create; demo_eval|].
  apply run_step with demo2; [demo_active|eapply (step_map _ 1 None 0 None); [by vm_compute|done|demo_eval]|].
  apply run_step with demo3; [split; [demo_active|done]|eapply (step_store _ 1); [by vm_compute|demo_eval]|].
  apply run_step with demo4; [demo_active|eapply (step_map _ 1 (Some base) 1 (Some (Some "A"))); [by vm_compute| |demo_eval]|].
  { exists (Some "A"). split; [|done]. apply (reads_cons _ base "A" (Some "")); [by vm_compute|done|].
    apply reads_end. by vm_compute. }
  apply run_step with demo5; [by split; [vm_compute|]|apply step_create; demo_eval|].
  apply run_step with demo6; [split; [demo_active|done]|eapply (step_store _ 1); [by vm_compute|demo_eval]|].
  apply run_step with demo6; [split; [demo_active|done]| |].
  { replace (Some "C"%char) with (spec_byte demo6 1 base) by by vm_compute. apply step_load. by vm_compute. }
  apply run_step with demo6; [split; [demo_active|done]| |].
  { replace (Some "B"%char) with (spec_byte demo6 1 (base + VM_PAGESIZE)) by by vm_compute.
    apply step_load. by vm_compute. }
  apply run_step with demo_machine; [by eexists; vm_compute|apply step_switch|].
  apply run_step with demo_machine; [split; [demo_active|done]| |apply run_done].
  replace (Some "A"%char) with (spec_byte demo_machine 2 base) by by vm_compute. apply step_load. by vm_compute.
Qed.

(** The pager gives the answers. *)
Lemma demo_reached :
  ∃ s, session 4 8 demo_requests (pager_start demo_store) = Done demo_answers s ∧ represents 8 s demo_machine.
Proof.
  assert (wp (session 4 8 demo_requests) (λ xs s, xs = demo_answers ∧ represents 8 s demo_machine)
    (pager_start demo_store)) as H.
  { apply (session_ok 8 4 demo_store demo_requests demo_answers demo_machine); [lia|exact demo_run|]. intros s R. split; [reflexivity|exact R]. }
  destruct (proj1 (pg_run _ _ _) H) as (xs & s & Hs & E & R). rewrite E in Hs.
  exists s. split; [exact Hs|exact R].
Qed.

(** ** What the last state allows *)

Lemma demo_running : active demo_machine = Some 2.
Proof. by vm_compute. Qed.

Lemma demo_store_allowed : allowed demo_machine (Store base "D").
Proof. split; [by exists 2; apply demo_running|done]. Qed.

Lemma demo_fork_allowed : allowed demo_machine (Create 2 3).
Proof. by split; [vm_compute|]. Qed.

(** The page that process 1 has shared with process 2. *)
Lemma demo_private : ∃ p, arenas demo_machine !! 1 ≫= (.!! 0%nat) = Some (Private p).
Proof. eexists. by vm_compute. Qed.

Lemma demo_forked s : represents 8 s demo_machine → ∃ s', vm_create 2 3 s = Done 0 s'.
Proof.
  intros R. assert ((spec_create 2 3 demo_machine).2 = 0) as H0 by by vm_compute.
  pose proof (create_ok 8 2 3 s demo_machine (λ res _, res = (spec_create 2 3 demo_machine).2) R demo_fork_allowed) as W.
  destruct (proj1 (pg_run _ _ _) (W ltac:(intros s' a' res ->; reflexivity))) as (res & s' & E & Hres).
  exists s'. rewrite E Hres H0. reflexivity.
Qed.

Lemma demo_stored s : represents 8 s demo_machine → ∃ s', mmu_store base "D" s = Done (Some tt) s'.
Proof.
  intros R. assert ((spec_store 2 base "D" demo_machine).2 = Some tt) as H0 by by vm_compute.
  pose proof (store_ok 8 s demo_machine 2 base "D" (λ ok _, ok = (spec_store 2 base "D" demo_machine).2)
    R demo_running (proj2 demo_store_allowed)) as W.
  destruct (proj1 (pg_run _ _ _) (W ltac:(intros s' a' ok ->; reflexivity))) as (ok & s' & E & Hok).
  exists s'. rewrite E Hok H0. reflexivity.
Qed.

(** ** A page that needs memory

    Process 1 has used one page and not yet the other. *)

Definition clock_requests : list request := [Create 0 1; Map None 0; Store base "A"; Map None 0].
Definition clock_page : VirtualPage :=
  mk_VirtualPage [(0%nat, 1)] true "" [1] (Some (mk_PhysicalPage 0 true false)) true.

Lemma clock_run : ∃ xs a, spec_run (spec_start 8 demo_store) clock_requests xs a.
Proof.
  do 2 eexists. apply run_step with demo1; [by split; [vm_compute|]|apply step_create; demo_eval|].
  apply run_step with demo2; [demo_active|eapply (step_map _ 1 None 0 None); [by vm_compute|done|demo_eval]|].
  apply run_step with demo3; [split; [demo_active|done]|eapply (step_store _ 1); [by vm_compute|demo_eval]|].
  apply run_step with (spec_map 1 None 0 demo3).1; [demo_active| |apply run_done].
  eapply (step_map _ 1 None 0 None); [by vm_compute|done|demo_eval].
Qed.

Lemma clock_state :
  match session 4 8 clock_requests (pager_start demo_store) with
  | Done _ s => page_at (translateVA s) 1 (address 1) = Some 1%nat ∧ vpages s !! 1%nat = Some clock_page ∧ clock_queue s = [0%nat]
  | Crash _ => False
  end.
Proof. vm_compute. split; [reflexivity|split; reflexivity]. Qed.

Lemma clock_reached :
  ∃ s, consistent 8 s ∧ page_at (translateVA s) 1 (address 1) = Some 1%nat ∧ vpages s !! 1%nat = Some clock_page ∧
       clock_queue s = [0%nat].
Proof.
  destruct clock_run as (xs & a & H). pose proof clock_state as K.
  assert (wp (session 4 8 clock_requests) (λ _ s, consistent 8 s) (pager_start demo_store)) as W.
  { apply (session_ok 8 4 demo_store clock_requests xs a); [lia|exact H|]. intros s R. exact (rp_consistent _ _ _ R). }
  destruct (proj1 (pg_run _ _ _) W) as (xs' & s & E & C). rewrite E in K. exists s. split; [exact C|exact K].
Qed.

(** ** A page whose block cannot be read *)

Definition mapped_requests : list request :=
  [Create 0 1; Map None 0; Store base "A"; Map (Some base) 5].
Definition mapped_machine : machine := (spec_map 1 (Some (Some "A")) 5 demo3).1.
Definition mapped_page : VirtualPage := mk_VirtualPage [(0%nat, 1)] false "A" [5] None false.

Lemma mapped_run : ∃ xs, spec_run (spec_start 8 demo_store) mapped_requests xs mapped_machine.
Proof.
  eexists. apply run_step with demo1; [by split; [vm_compute|]|apply step_create; demo_eval|].
  apply run_step with demo2; [demo_active|eapply (step_map _ 1 None 0 None); [by vm_compute|done|demo_eval]|].
  apply run_step with demo3; [split; [demo_active|done]|eapply (step_store _ 1); [by vm_compute|demo_eval]|].
  apply run_step with mapped_machine; [demo_active| |apply run_done].
  eapply (step_map _ 1 (Some base) 5 (Some (Some "A"))); [by vm_compute| |demo_eval].
  exists (Some "A"). split; [|done]. apply (reads_cons _ base "A" (Some "")); [by vm_compute|done|].
  apply reads_end. by vm_compute.
Qed.

Lemma mapped_state :
  match session 4 8 mapped_requests (pager_start demo_store) with
  | Done _ s => page_at (translateVA s) 1 (address 1) = Some 1%nat ∧ vpages s !! 1%nat = Some mapped_page ∧
                view s 1 (address 1) = Some (Shared "A" 5) ∧ file_data s "A" 5 = None
  | Crash _ => False
  end.
Proof. vm_compute. split; [reflexivity|split; [reflexivity|split; reflexivity]]. Qed.

Lemma mapped_reached :
  ∃ s, represents 8 s mapped_machine ∧
       page_at (translateVA s) 1 (address 1) = Some 1%nat ∧ vpages s !! 1%nat = Some mapped_page ∧
       view s 1 (address 1) = Some (Shared "A" 5) ∧ file_data s "A" 5 = None.
Proof.
  destruct mapped_run as (xs & H). pose proof mapped_state as K.
  assert (wp (session 4 8 mapped_requests) (λ _ s, represents 8 s mapped_machine) (pager_start demo_store)) as W.
  { apply (session_ok 8 4 demo_store mapped_requests xs mapped_machine); [lia|exact H|]. intros s R. exact R. }
  destruct (proj1 (pg_run _ _ _) W) as (xs' & s & E & R). rewrite E in K. exists s. split; [exact R|exact K].
Qed.
