(* ===== verification/PagerCorrect.v ===== *)
(** * What the pager guarantees

    The theorems on the pager, for every memory size, every order of traversal and
    every file system of [FilesLaws], with their instances on the run of
    PagerExample; then two runs in which the pager does not do what vm_pager.h says. *)

From Stdlib Require Import Ascii.
From S2P Require Import Prelude PagerTypes Pager PagerInv PagerPtes PagerFrame PagerEvict PagerPlace.
From S2P Require Import PagerCheck PagerView PagerWork PagerFault PagerVmFault PagerName PagerMap PagerCreate PagerDestroy.
From S2P Require Import PagerSpec PagerRefine PagerMmu PagerRun PagerExample.

Section correct.
Context `{F : Files} `{Tr : Traversal} `{TL : !TraversalLaws} (nswap : Z) `{FL : !FilesLaws nswap}.
Abbreviation represents := (represents nswap).

(** C32 Refinement: in every state that represents a machine, a request that may be
    made ends without a failed assertion, undefined behaviour or lack of fuel, with
    the answer and in a state that represents the machine of the specification. *)
Theorem pager_refines s a r :
  represents s a → allowed a r →
  ∃ x s' a', exec r s = Done x s' ∧ spec_step a r x a' ∧ represents s' a'.
Proof.
  intros R Hal. pose proof (exec_ok nswap r s a
    (λ x s', ∃ a', spec_step a r x a' ∧ represents s' a') R Hal ltac:(intros; cbn; eauto)) as W.
  apply pg_run in W as (x & s' & E & a' & H). by exists x, s', a'.
Qed.

(** C33 From [vm_init] on, with 2 to 2^20 pages of memory and on files of
    [FilesLaws], where what can be read changes by writing only, the pager gives the
    answers of the specification to any sequence of allowed requests, those that
    have a run of the specification: new processes have new names, calls of the
    running process come while one runs, loads and stores are in the arena.  The
    memory size and the order of traversals are any, and do not show. *)
Theorem pager_session cap f rs xs a :
  2 ≤ cap ≤ 2 ^ 20 → spec_run (spec_start nswap f) rs xs a →
  ∃ s, session cap nswap rs (pager_start f) = Done xs s ∧ represents s a.
Proof.
  intros Hcap H. assert (wp (session cap nswap rs) (λ xs' s, xs' = xs ∧ represents s a) (pager_start f)) as W.
  { by eapply session_ok. }
  apply pg_run in W as (xs' & s & E & -> & R). by exists s.
Qed.

(** C34 Under the same conditions (2 to 2^20 pages of memory, allowed requests, files
    where what can be read changes by writing only) the self-check passes after any
    number of requests, and changes nothing. *)
Theorem self_check_passes cap f rs xs a :
  2 ≤ cap ≤ 2 ^ 20 → spec_run (spec_start nswap f) rs xs a →
  ∃ s, session cap nswap rs (pager_start f) = Done xs s ∧ assert_structure_consistency s = Done tt s.
Proof.
  intros Hcap H. assert (wp (session cap nswap rs) (λ xs' s, xs' = xs ∧ represents s a) (pager_start f)) as W.
  { by eapply session_ok. }
  apply pg_run in W as (xs' & s & E & -> & R). exists s. split; [done|].
  pose proof (check_ok nswap s (rp_consistent _ _ _ R)) as K.
  apply pg_run in K as ([] & s' & Ek & ->). done.
Qed.

(** C35 A request changes nothing that another process than the running one sees:
    neither its private pages, shared with the running process or not, nor which
    blocks of which files it has mapped. *)
Theorem isolation s a r x s' pid va sl :
  represents s a → allowed a r → exec r s = Done x s' → active a ≠ Some pid →
  view s pid va = Some sl → view s' pid va = Some sl.
Proof.
  intros R Hal E Hne Hv. pose proof (exec_ok nswap r s a
    (λ _ s', ∃ x a', spec_step a r x a' ∧ represents s' a') R Hal ltac:(intros; cbn; eauto)) as W.
  unfold wp in W. rewrite E in W. destruct W as (x' & a' & Hst & R').
  destruct (view_address nswap s pid va sl (rp_consistent _ _ _ R) Hv) as [i ->].
  rewrite (rp_slots _ _ _ R) in Hv. apply bind_Some in Hv as (l & Hl & Hi).
  by rewrite (rp_slots _ _ _ R') (spec_step_others a r x' a' pid l).
Qed.

(** C36 After [vm_create] of a process of the pager the child reads what the parent
    read, everywhere, and nobody else sees a difference. *)
Theorem fork_copies s a parent child s' :
  represents s a → allowed a (Create parent child) → vm_create parent child s = Done 0 s' →
  (∀ va, byte_at s' child va = byte_at s parent va) ∧
  (∀ pid va, pid ≠ child → byte_at s' pid va = byte_at s pid va).
Proof.
  intros R [Hnew Hne] E. assert (process_table s !! child = None) as Hn.
  { apply eq_None_not_Some. intros [? ?]%(represents_process nswap s a child R). congruence. }
  pose proof (vm_create_ok nswap parent child (λ res s', res = 0 → created nswap parent child s s') s
    (rp_consistent _ _ _ R) Hn Hne ltac:(intros; cbn; done) ltac:(intros; cbn; done)) as W.
  unfold wp in W. rewrite E in W. destruct (W eq_refl) as [_ _ _ _ Hv Hd _ _].
  assert (∀ pid pid' va, view s' pid (page_start va) = view s pid' (page_start va) →
    byte_at s' pid va = byte_at s pid' va) as Hb.
  { intros pid pid' va Hpv. unfold byte_at. rewrite Hpv. destruct (view s pid' _) as [[p|n b]|]; [done| |done].
    cbn. by rewrite Hd. }
  split.
  - intros va. apply Hb. by rewrite Hv decide_True.
  - intros pid va Hp. apply Hb. by rewrite Hv decide_False.
Qed.

(** A store changes one byte of the page: a load in the page returns the byte
    just stored at its address, and elsewhere what was there. *)
Theorem store_load s a pid va c s1 va' :
  represents s a → active a = Some pid → in_arena va → mmu_store va c s = Done (Some tt) s1 →
  page_start va' = page_start va →
  ∃ s2, mmu_load va' s1 = Done (if decide (va' = va) then Some c else byte_at s pid va') s2.
Proof.
  intros R Hact Hva E Hpg. pose proof (store_ok nswap s a pid va c
    (λ ok s', ∃ a', spec_store pid va c a = (a', ok) ∧ represents s' a') R Hact Hva ltac:(intros; cbn; eauto)) as W.
  unfold wp in W. rewrite E in W. destruct W as (a' & Hst & R').
  assert (in_arena va') as Hva' by by eapply same_page_arena.
  assert (active a' = Some pid) as Hact' by by erewrite spec_store_active.
  pose proof (load_ok nswap s1 a' pid va' (λ o _, o = spec_byte a' pid va') R' Hact' Hva' ltac:(done)) as L.
  apply pg_run in L as (o & s2 & El & ->). exists s2. rewrite El. f_equal.
  by rewrite (spec_store_byte pid va c a a' va' Hst Hva Hpg) (spec_byte_ok nswap s a).
Qed.

(** C37 The clock: when page [r] needs a physical page, the search for a victim ends
    within the fuel; it moves the pages at the front that have been used behind the
    others, and stops at the first that has not, or at the first of all. *)
Theorem second_chance s r rp :
  consistent nswap s → mapped (translateVA s) r → vpages s !! r = Some rp → (∀ n, ¬ occupies rp n) →
  clock_queue s ≠ [] →
  ∃ s' used rest, find_victim (S (length (clock_queue s))) s = Done tt s' ∧
    clock_queue s = used ++ rest ∧ clock_queue s' = rest ++ used ∧
    (∀ v, v ∈ used → has_clocked s v) ∧ (∀ v, head rest = Some v → unclocked s v).
Proof.
  intros C Hm Hr Hno Hq. pose proof (consistent_evicting nswap r rp s C Hm Hr Hno) as E.
  pose proof (find_victim_ok nswap _ _ r (S (length (clock_queue s))) (clock_queue s) []
    (λ _ s', ∃ v l, clock_queue s' = v :: l ∧ unclocked s' v ∧ turned (clock_queue s) [] s s') s E
    ltac:(by rewrite app_nil_r) Hq ltac:(by intros ? ?%elem_of_nil) ltac:(lia) ltac:(intros; cbn; eauto 10)) as W.
  apply pg_run in W as ([] & s' & Ev & v & l & Hq' & Hun & used & rest & H1 & H2 & H3 & H4).
  exists s', used, rest. split; [done|]. split; [done|]. split; [done|]. split; [done|].
  intros w Hw. destruct rest as [|w' rest]; [done|]. injection Hw as ->. rewrite H2 in Hq'.
  injection Hq' as <- _. destruct Hun as (vp & pp & Hv & Hp). exists vp, pp. rewrite -H4 //. by left.
Qed.

(** C38 The name of a file in the arena is read to its end, wherever its pages are,
    as the process would read it, or not at all when the process cannot; nobody
    sees a difference. *)
Theorem file_name_read s a pid va :
  represents s a → active a = Some pid →
  ∃ name s', translate_from_other_addr_space va s = Done name s' ∧ reads (byte_at s pid) va name ∧ represents s' a.
Proof.
  intros R Hact. destruct (rp_active _ _ _ R pid Hact) as [t Hrun].
  pose proof (translate_ok nswap pid t va (λ name s', reads (byte_at s pid) va name ∧ represents s' a) s
    (rp_consistent _ _ _ R) Hrun) as W.
  apply pg_run in W as (name & s' & E & Hr & R'); [by exists name, s'|].
  intros s' name C' Hs Hr. split; [done|]. by eapply same_represents.
Qed.


End correct.

(** ** Instances *)

Lemma pager_refines_witness :
  ∃ s, represents 8 s demo_machine ∧ allowed demo_machine (Store base "D") ∧
  ∃ x s' a', exec (Store base "D") s = Done x s' ∧ spec_step demo_machine (Store base "D") x a' ∧ represents 8 s' a'.
Proof.
  destruct demo_reached as (s & _ & R). exists s. split; [exact R|]. split; [exact demo_store_allowed|].
  exact (pager_refines 8 s demo_machine (Store base "D") R demo_store_allowed).
Defined.

Lemma pager_session_witness :
  2 ≤ 4 ≤ 2 ^ 20 ∧ spec_run (spec_start 8 demo_store) demo_requests demo_answers demo_machine ∧
  ∃ s, session 4 8 demo_requests (pager_start demo_store) = Done demo_answers s ∧ represents 8 s demo_machine.
Proof.
  assert (2 ≤ 4 ≤ 2 ^ 20) as Hcap by lia. split; [exact Hcap|]. split; [exact demo_run|].
  exact (pager_session 8 4 demo_store demo_requests demo_answers demo_machine Hcap demo_run).
Defined.

Lemma self_check_passes_witness :
  2 ≤ 2 ≤ 2 ^ 20 ∧ spec_run (spec_start 8 demo_store) demo_requests demo_answers demo_machine ∧
  ∃ s, session 2 8 demo_requests (pager_start demo_store) = Done demo_answers s ∧
       assert_structure_consistency s = Done tt s.
Proof.
  assert (2 ≤ 2 ≤ 2 ^ 20) as Hcap by lia. split; [exact Hcap|]. split; [exact demo_run|].
  exact (self_check_passes 8 2 demo_store demo_requests demo_answers demo_machine Hcap demo_run).
Defined.

Lemma isolation_witness :
  ∃ s s' p, represents 8 s demo_machine ∧ allowed demo_machine (Store base "D") ∧
    exec (Store base "D") s = Done (Stored (Some tt)) s' ∧ active demo_machine ≠ Some 1 ∧
    view s 1 (address 0) = Some (Private p) ∧ view s' 1 (address 0) = Some (Private p).
Proof.
  destruct demo_reached as (s & _ & R). destruct (demo_stored s R) as (s' & E). destruct demo_private as (p & Hp).
  assert (exec (Store base "D") s = Done (Stored (Some tt)) s') as Ex.
  { cbn [exec]. unfold mbind, M_bind. rewrite E. reflexivity. }
  assert (active demo_machine ≠ Some 1) as Hne by (rewrite demo_running; discriminate).
  assert (view s 1 (address 0) = Some (Private p)) as Hv by (rewrite (rp_slots _ _ _ R); exact Hp).
  exists s, s', p. split; [exact R|]. split; [exact demo_store_allowed|]. split; [exact Ex|]. split; [exact Hne|].
  split; [exact Hv|]. exact (isolation 8 s demo_machine _ _ s' 1 _ _ R demo_store_allowed Ex Hne Hv).
Defined.

Lemma fork_copies_witness :
  ∃ s s', represents 8 s demo_machine ∧ allowed demo_machine (Create 2 3) ∧ vm_create 2 3 s = Done 0 s' ∧
    (∀ va, byte_at s' 3 va = byte_at s 2 va) ∧ (∀ pid va, pid ≠ 3 → byte_at s' pid va = byte_at s pid va).
Proof.
  destruct demo_reached as (s & _ & R). destruct (demo_forked s R) as (s' & E). exists s, s'.
  split; [exact R|]. split; [exact demo_fork_allowed|]. split; [exact E|].
  exact (fork_copies 8 s demo_machine 2 3 s' R demo_fork_allowed E).
Defined.

Lemma store_load_witness :
  ∃ s s1 s2, represents 8 s demo_machine ∧ active demo_machine = Some 2 ∧ in_arena base ∧
    mmu_store base "D" s = Done (Some tt) s1 ∧ page_start base = page_start base ∧
    mmu_load base s1 = Done (if decide (base = base) then Some "D"%char else byte_at s 2 base) s2.
Proof.
  destruct demo_reached as (s & _ & R). destruct (demo_stored s R) as (s1 & E).
  destruct (store_load 8 s demo_machine 2 base "D" s1 base R demo_running (proj2 demo_store_allowed) E eq_refl) as (s2 & H).
  exists s, s1, s2. split; [exact R|]. split; [exact demo_running|]. split; [exact (proj2 demo_store_allowed)|].
  split; [exact E|]. split; [reflexivity|exact H].
Defined.

Lemma second_chance_witness :
  ∃ s, consistent 8 s ∧ mapped (translateVA s) 1 ∧ vpages s !! 1%nat = Some clock_page ∧
    (∀ n, ¬ occupies clock_page n) ∧ clock_queue s ≠ [] ∧
    ∃ s' used rest, find_victim (S (length (clock_queue s))) s = Done tt s' ∧
      clock_queue s = used ++ rest ∧ clock_queue s' = rest ++ used ∧
      (∀ v, v ∈ used → has_clocked s v) ∧ (∀ v, head rest = Some v → unclocked s v).
Proof.
  destruct clock_reached as (s & C & Hva & Hv & Hq).
  assert (mapped (translateVA s) 1) as Hm by (exists 1, (address 1); exact Hva).
  assert (∀ n, ¬ occupies clock_page n) as Hno by (intros n [Hn (pp & [= <-] & Hpp)]; apply Hn; symmetry; exact Hpp).
  assert (clock_queue s ≠ []) as Hne by (rewrite Hq; discriminate).
  exists s. split; [exact C|]. split; [exact Hm|]. split; [exact Hv|]. split; [exact Hno|]. split; [exact Hne|].
  exact (second_chance 8 s 1 clock_page C Hm Hv Hno Hne).
Defined.

Lemma file_name_read_witness :
  ∃ s, represents 8 s demo_machine ∧ active demo_machine = Some 2 ∧
  ∃ name s', translate_from_other_addr_space base s = Done name s' ∧ reads (byte_at s 2) base name ∧
             represents 8 s' demo_machine.
Proof.
  destruct demo_reached as (s & _ & R). exists s. split; [exact R|]. split; [exact demo_running|].
  exact (file_name_read 8 s demo_machine 2 base R demo_running).
Defined.


(** ** Where the pager fails *)

(** The result of a program, without the state. *)
Definition outcome {A} (m : M A) (s : pager) : A + crash :=
  match m s with Done a _ => inl a | Crash c => inr c end.

(** The block of a file becomes readable. *)
Definition grant (n : string) (b : Z) (p : page) : M unit :=
  modify (λ s, with_files (put (Some n) b p (files s)) s).

(** Process 1 maps a block that cannot be read, and loads from it. *)
Definition orphan_requests : list request :=
  [Create 0 1; Map None 0; Store base "A"; Map (Some base) 5; Load (base + VM_PAGESIZE)].

(** Then the block can be read, with contents [p], and more requests are made. *)
Definition orphan_run (p : page) (rs : list request) : M (list answer) :=
  xs ← session 3 8 orphan_requests;
  grant "A" 5 p ;;
  ys ← exec_all rs;
  mret (xs ++ ys).

(** C40 There is a run, in which a block becomes readable after a fault on it has
    failed, that the self-check ends: the next load brings the page into memory,
    where it is in the clock and mapped while [filename_block_to_vpage] has no page
    for the block; when the process is destroyed nothing owns the page any more, the
    clock keeps a dangling pointer, and the assertion fails. *)
Theorem orphan_abort p :
  (∃ s v, orphan_run p [Load (base + VM_PAGESIZE)] (pager_start demo_store) =
      Done [Returned 0; Mapped (Some base); Stored (Some tt); Mapped (Some (base + VM_PAGESIZE)); Loaded None;
            Loaded (Some (p 0))] s ∧
    page_at (translateVA s) 1 (base + VM_PAGESIZE) = Some v ∧ v ∈ clock_queue s ∧
    cached_at (filename_block_to_vpage s) "A" 5 = None) ∧
  orphan_run p [Load (base + VM_PAGESIZE); Destroy] (pager_start demo_store) = Crash AssertionFailed.
Proof.
  split; [|vm_compute; reflexivity]. eexists _, _. split; [vm_compute; reflexivity|].
  split; [vm_compute; reflexivity|]. split; [by apply (bool_decide_unpack _); vm_compute|vm_compute; reflexivity].
Qed.

(** vm_pager.h: the new process is not run until it is switched to.  But a process
    of a parent that is not managed by the pager runs at once, also when another
    process is running. *)
Example create_switches :
  outcome (session 4 8 [Create 0 1; Map None 0; Store base "A"; Create 7 2; Load base]) (pager_start demo_store) =
    inl [Returned 0; Mapped (Some base); Stored (Some tt); Returned 0; Loaded None].
Proof. vm_compute. reflexivity. Qed.
